(** * pixivmanager: the persistence models ([pixivmanager/models.py])

    A shallow embedding of the ORM classes of [models.py] and of the
    Python values they are fed with, followed by the properties the
    specification states about them.

    Layout:
    - [Python values]: JSON values as [json.loads] builds them, truthiness,
      [dict] access, true division and [round] on binary64, [str], [int],
      [str.split] and [str.join];
    - [Rows]: one record per mapped class;
    - [Session]: the rows a session sees, queries, [add], [flush];
    - the class methods, in dependency order;
    - [DatabaseHelper.get_session] and the life cycle of a session;
    - the properties. *)

From Stdlib Require Import ZArith Floats.SpecFloat Decimal DecimalPos DecimalZ Ascii.
From stdpp Require Import gmap strings list.

Open Scope Z_scope.

(** ** Python values *)

(** The exceptions the modelled code can raise.  [Unmodelled] marks an
    input the embedding does not follow the interpreter on (each use says
    which). *)
Inductive exn :=
| KeyError
| TypeError
| AttributeError
| ValueError
| ZeroDivisionError
| OverflowError
| MultipleResultsFound
| Unmodelled.

Inductive result (A : Type) :=
| Ok (a : A)
| Raise (e : exn).
Arguments Ok {A} a.
Arguments Raise {A} e.

Definition rbind {A B} (r : result A) (k : A -> result B) : result B :=
  match r with
  | Ok a => k a
  | Raise e => Raise e
  end.

Notation "'do' x <- c ; k" := (rbind c (fun x => k))
  (at level 10, x pattern, c at level 100, k at level 200).

(** What [json.loads] returns: [None], [bool], [int], [float], [str],
    [list] and [dict].  A [dict] is kept as the list of its items, in
    insertion order; its keys are strings. *)
#[warnings="-register-all"]
Inductive json :=
| JNull
| JBool (b : bool)
| JInt (n : Z)
| JFloat (f : spec_float)
| JStr (s : string)
| JList (l : list json)
| JObj (d : list (string * json)).

Definition prec : Z := 53.
Definition emax : Z := 1024.

Definition float_zero : spec_float := S754_zero false.

(** [bool(v)]: the test of [if v:] and of [and]. *)
Definition truthy (v : json) : bool :=
  match v with
  | JNull => false
  | JBool b => b
  | JInt n => negb (n =? 0)
  | JFloat f => negb (SFeqb f float_zero)
  | JStr s => negb (String.eqb s "")
  | JList l => match l with [] => false | _ => true end
  | JObj d => match d with [] => false | _ => true end
  end.

Fixpoint assoc {A} (k : string) (d : list (string * A)) : option A :=
  match d with
  | [] => None
  | (k', v) :: d' => if String.eqb k k' then Some v else assoc k d'
  end.

(** [j.get(k)] *)
Definition dict_get (j : json) (k : string) : result json :=
  match j with
  | JObj d => Ok (default JNull (assoc k d))
  | _ => Raise AttributeError
  end.

(** [j[k]] for a string key [k] *)
Definition getitem (j : json) (k : string) : result json :=
  match j with
  | JObj d => match assoc k d with
              | Some v => Ok v
              | None => Raise KeyError
              end
  | _ => Raise TypeError
  end.

(** *** Numbers: [/] and [round] *)

(** The correctly rounded quotient of two positive integers, as binary64. *)
Definition div_round (s : bool) (a b : positive) : spec_float :=
  let '(q, e, l) := SFdiv_core_binary prec emax (Zpos a) 0 (Zpos b) 0 in
  binary_round_aux prec emax s q e l.

Definition is_infinity (x : spec_float) : bool :=
  match x with
  | S754_infinity _ => true
  | _ => false
  end.

Definition finite_or_overflow (x : spec_float) : result spec_float :=
  if is_infinity x then Raise OverflowError else Ok x.

(** [int / int]: the quotient rounded once, [ZeroDivisionError] for a zero
    divisor, [OverflowError] when the quotient exceeds the largest float. *)
Definition int_truediv (a b : Z) : result spec_float :=
  match b with
  | Z0 => Raise ZeroDivisionError
  | _ =>
      let s := xorb (a <? 0) (b <? 0) in
      match a with
      | Z0 => Ok (S754_zero s)
      | _ => finite_or_overflow (div_round s (Z.to_pos (Z.abs a)) (Z.to_pos (Z.abs b)))
      end
  end.

(** [float(n)] *)
Definition float_of_int (n : Z) : result spec_float :=
  finite_or_overflow (binary_normalize prec emax n 0 false).

(** [float / float] *)
Definition float_truediv (x y : spec_float) : result spec_float :=
  if SFeqb y float_zero then Raise ZeroDivisionError
  else Ok (SFdiv prec emax x y).

Definition int_of_bool (b : bool) : Z := if b then 1 else 0.

Inductive number :=
| NInt (n : Z)
| NFloat (f : spec_float).

(** The numeric view of a value: [bool] is a subclass of [int]. *)
Definition as_number (v : json) : option number :=
  match v with
  | JBool b => Some (NInt (int_of_bool b))
  | JInt n => Some (NInt n)
  | JFloat f => Some (NFloat f)
  | _ => None
  end.

(** [a / b] on two values *)
Definition truediv (a b : json) : result spec_float :=
  match as_number a, as_number b with
  | Some (NInt x), Some (NInt y) => int_truediv x y
  | Some (NInt x), Some (NFloat y) => do fx <- float_of_int x; float_truediv fx y
  | Some (NFloat x), Some (NInt y) => do fy <- float_of_int y; float_truediv x fy
  | Some (NFloat x), Some (NFloat y) => float_truediv x y
  | _, _ => Raise TypeError
  end.

(** [n / d] rounded to the nearest integer, ties to even, for [d > 0]. *)
Definition div_half_even (n d : Z) : Z :=
  let q := n / d in
  let r := n mod d in
  match Z.compare (2 * r) d with
  | Lt => q
  | Gt => q + 1
  | Eq => if Z.even q then q else q + 1
  end.

(** [round(x, ndigits)] for a float [x] and [0 <= ndigits]: the decimal
    with [ndigits] digits after the point nearest to the exact value of
    [x] (ties to even), converted back to the nearest float. *)
Definition round (x : spec_float) (ndigits : nat) : spec_float :=
  match x with
  | S754_finite s m e =>
      if (323 <? Z.of_nat ndigits) || (0 <=? e) then x
      else
        let p := 10 ^ Z.of_nat ndigits in
        match div_half_even (Zpos m * p) (2 ^ (- e)) with
        | Zpos n => div_round s n (Z.to_pos p)
        | _ => S754_zero s
        end
  | _ => x
  end.

(** *** Strings: [str], [int], [str.split], [str.join] *)

Definition is_digit (c : ascii) : option (uint -> uint) :=
  match c with
  | "0" => Some D0 | "1" => Some D1 | "2" => Some D2 | "3" => Some D3
  | "4" => Some D4 | "5" => Some D5 | "6" => Some D6 | "7" => Some D7
  | "8" => Some D8 | "9" => Some D9
  | _ => None
  end%char.

(** [c.isspace()] on the ASCII range: tab, line feed, vertical tab, form
    feed, carriage return, the four separators 28..31 and the space. *)
Definition isspace (c : ascii) : bool :=
  let n := N_of_ascii c in
  ((9 <=? n) && (n <=? 13) || (28 <=? n) && (n <=? 32))%N.

Fixpoint string_of_uint (d : uint) : string :=
  match d with
  | Nil => ""
  | D0 d => String "0" (string_of_uint d)
  | D1 d => String "1" (string_of_uint d)
  | D2 d => String "2" (string_of_uint d)
  | D3 d => String "3" (string_of_uint d)
  | D4 d => String "4" (string_of_uint d)
  | D5 d => String "5" (string_of_uint d)
  | D6 d => String "6" (string_of_uint d)
  | D7 d => String "7" (string_of_uint d)
  | D8 d => String "8" (string_of_uint d)
  | D9 d => String "9" (string_of_uint d)
  end.

(** [str(n)] for an [int] *)
Definition str_of_int (n : Z) : string :=
  match Z.to_int n with
  | Pos d => string_of_uint d
  | Neg d => String "-" (string_of_uint d)
  end.

(** [str(v)].  The [repr] of floats, lists and dicts is not modelled. *)
Definition str (v : json) : result string :=
  match v with
  | JNull => Ok "None"
  | JBool true => Ok "True"
  | JBool false => Ok "False"
  | JInt n => Ok (str_of_int n)
  | JStr s => Ok s
  | _ => Raise Unmodelled
  end.

(** [sep.join(l)] *)
Fixpoint join (sep : string) (l : list string) : string :=
  match l with
  | [] => ""
  | [x] => x
  | x :: l' => x +:+ sep +:+ join sep l'
  end.

(** [s.split()]: the maximal runs of non-space characters of [s]; [cur] is
    the run being read. *)
Fixpoint split_from (cur : string) (s : string) : list string :=
  match s with
  | EmptyString => if String.eqb cur "" then [] else [cur]
  | String c s' =>
      if isspace c
      then if String.eqb cur "" then split_from "" s' else cur :: split_from "" s'
      else split_from (cur +:+ String c "") s'
  end.

Definition split (s : string) : list string := split_from "" s.

Fixpoint lstrip (s : string) : string :=
  match s with
  | String c s' => if isspace c then lstrip s' else s
  | EmptyString => s
  end.

Fixpoint rstrip (s : string) : string :=
  match s with
  | String c s' =>
      match rstrip s' with
      | EmptyString => if isspace c then "" else String c ""
      | r => String c r
      end
  | EmptyString => s
  end.

(** [s.strip()] *)
Definition strip (s : string) : string := rstrip (lstrip s).

(** The digits of an integer literal: one or more decimal digits, with
    single underscores allowed between two digits.  [after_digit] tells
    whether the previous character was a digit. *)
Fixpoint parse_digits (after_digit : bool) (s : string) : option uint :=
  match s with
  | EmptyString => if after_digit then Some Nil else None
  | String c s' =>
      match is_digit c with
      | Some D => D <$> parse_digits true s'
      | None =>
          if Ascii.eqb c "_" && after_digit then
            match parse_digits false s' with
            | Some d => Some d
            | None => None
            end
          else None
      end
  end.

(** [int(s)] for a [str], base 10: surrounding white space is dropped, an
    optional sign is read, then the digits; anything else is a
    [ValueError]. *)
Definition int_of_str (s : string) : result Z :=
  let parse sgn body :=
    match parse_digits false body with
    | Some d => Ok (sgn * Z.of_uint d)
    | None => Raise ValueError
    end in
  match strip s with
  | String "-" body => parse (-1) body
  | String "+" body => parse 1 body
  | body => parse 1 body
  end.

(** [list(map(f, l))] for an [f] that can raise *)
Fixpoint mapM {A B} (f : A -> result B) (l : list A) : result (list B) :=
  match l with
  | [] => Ok []
  | x :: l' => do y <- f x; do ys <- mapM f l'; Ok (y :: ys)
  end.

(** ** Rows

    One record per mapped class, with the columns of the class.  A column
    holds the Python value last assigned to it ([JNull] for [None]).  The
    natural keys ([works_id], [user_id]) are integers; generated keys
    ([tag_id], [local_id]) and [insert_date] are [None] until the row is
    flushed.  One-to-one and one-to-many relationships ([caption],
    [ugoira], [image_urls], [detial], [local]) are the rows of the child
    table that carry the owner's key; [Works.tags] is a column of
    references. *)

(** A [Tag] object is referred to by its address in the heap: the tag
    cache keeps references to [Tag] objects, which outlive a session. *)
Abbreviation addr := nat (only parsing).

Module TagTranslation.
Record t := mk {
  tag_id : option Z;
  language : string;
  translation_text : json
}.
Definition set_translation_text (v : json) (tr : t) : t :=
  mk (tag_id tr) (language tr) v.
End TagTranslation.

Module Tag.
Record t := mk {
  tag_id : option Z;
  tag_text : string;
  translation : list TagTranslation.t
}.
Definition set_tag_id (v : option Z) (x : t) : t :=
  mk v (tag_text x) (translation x).
Definition set_translation (v : list TagTranslation.t) (x : t) : t :=
  mk (tag_id x) (tag_text x) v.
End Tag.

Module WorksCaption.
Record t := mk {
  works_id : Z;
  caption_text : json
}.
Definition set_caption_text v (x : t) : t :=
  mk (works_id x) v.
End WorksCaption.

Module WorksImageURLs.
Record t := mk {
  works_id : Z;
  page : Z;
  square_medium : json;
  medium : json;
  large : json;
  original : json
}.
Definition set_square_medium v (x : t) : t :=
  mk (works_id x) (page x) v (medium x) (large x) (original x).
Definition set_medium v (x : t) : t :=
  mk (works_id x) (page x) (square_medium x) v (large x) (original x).
Definition set_large v (x : t) : t :=
  mk (works_id x) (page x) (square_medium x) (medium x) v (original x).
Definition set_original v (x : t) : t :=
  mk (works_id x) (page x) (square_medium x) (medium x) (large x) v.
End WorksImageURLs.

Module Ugoira.
Record t := mk {
  works_id : Z;
  delay_text : json;
  zip_url : json;
  _delay : list json
}.
Definition set_works_id v (x : t) : t :=
  mk v (delay_text x) (zip_url x) (_delay x).
Definition set_delay_text v (x : t) : t :=
  mk (works_id x) v (zip_url x) (_delay x).
Definition set_zip_url v (x : t) : t :=
  mk (works_id x) (delay_text x) v (_delay x).
Definition set__delay v (x : t) : t :=
  mk (works_id x) (delay_text x) (zip_url x) v.
End Ugoira.

Module Works.
Record t := mk {
  works_id : Z;
  author_id : json;
  works_type : json;
  title : json;
  page_count : json;
  total_views : json;
  total_bookmarks : json;
  is_bookmarked : json;
  is_downloaded : json;
  bookmark_rate : option spec_float;
  create_date : option Z;
  insert_date : option Z;
  tags : list addr;
  (* instance state: [false] until the row has been INSERTed *)
  persistent : bool
}.
Definition set_works_id v (x : t) : t :=
  mk v (author_id x) (works_type x) (title x) (page_count x) (total_views x)
    (total_bookmarks x) (is_bookmarked x) (is_downloaded x)
    (bookmark_rate x) (create_date x) (insert_date x) (tags x)
    (persistent x).
Definition set_author_id v (x : t) : t :=
  mk (works_id x) v (works_type x) (title x) (page_count x) (total_views x)
    (total_bookmarks x) (is_bookmarked x) (is_downloaded x)
    (bookmark_rate x) (create_date x) (insert_date x) (tags x)
    (persistent x).
Definition set_works_type v (x : t) : t :=
  mk (works_id x) (author_id x) v (title x) (page_count x) (total_views x)
    (total_bookmarks x) (is_bookmarked x) (is_downloaded x)
    (bookmark_rate x) (create_date x) (insert_date x) (tags x)
    (persistent x).
Definition set_title v (x : t) : t :=
  mk (works_id x) (author_id x) (works_type x) v (page_count x)
    (total_views x) (total_bookmarks x) (is_bookmarked x) (is_downloaded x)
    (bookmark_rate x) (create_date x) (insert_date x) (tags x)
    (persistent x).
Definition set_page_count v (x : t) : t :=
  mk (works_id x) (author_id x) (works_type x) (title x) v (total_views x)
    (total_bookmarks x) (is_bookmarked x) (is_downloaded x)
    (bookmark_rate x) (create_date x) (insert_date x) (tags x)
    (persistent x).
Definition set_total_views v (x : t) : t :=
  mk (works_id x) (author_id x) (works_type x) (title x) (page_count x) v
    (total_bookmarks x) (is_bookmarked x) (is_downloaded x)
    (bookmark_rate x) (create_date x) (insert_date x) (tags x)
    (persistent x).
Definition set_total_bookmarks v (x : t) : t :=
  mk (works_id x) (author_id x) (works_type x) (title x) (page_count x)
    (total_views x) v (is_bookmarked x) (is_downloaded x) (bookmark_rate x)
    (create_date x) (insert_date x) (tags x) (persistent x).
Definition set_is_bookmarked v (x : t) : t :=
  mk (works_id x) (author_id x) (works_type x) (title x) (page_count x)
    (total_views x) (total_bookmarks x) v (is_downloaded x)
    (bookmark_rate x) (create_date x) (insert_date x) (tags x)
    (persistent x).
Definition set_bookmark_rate v (x : t) : t :=
  mk (works_id x) (author_id x) (works_type x) (title x) (page_count x)
    (total_views x) (total_bookmarks x) (is_bookmarked x) (is_downloaded x)
    v (create_date x) (insert_date x) (tags x) (persistent x).
Definition set_create_date v (x : t) : t :=
  mk (works_id x) (author_id x) (works_type x) (title x) (page_count x)
    (total_views x) (total_bookmarks x) (is_bookmarked x) (is_downloaded x)
    (bookmark_rate x) v (insert_date x) (tags x) (persistent x).
Definition set_tags v (x : t) : t :=
  mk (works_id x) (author_id x) (works_type x) (title x) (page_count x)
    (total_views x) (total_bookmarks x) (is_bookmarked x) (is_downloaded x)
    (bookmark_rate x) (create_date x) (insert_date x) v (persistent x).
End Works.

Module WorksLocal.
Record t := mk {
  local_id : option Z;
  works_id : Z
}.
End WorksLocal.

Module User.
Record t := mk {
  local_id : option Z;
  user_id : Z;
  name : json;
  account : json;
  is_followed : json;
  insert_date : option Z
}.
Definition set_user_id v (x : t) : t :=
  mk (local_id x) v (name x) (account x) (is_followed x) (insert_date x).
Definition set_name v (x : t) : t :=
  mk (local_id x) (user_id x) v (account x) (is_followed x) (insert_date x).
Definition set_account v (x : t) : t :=
  mk (local_id x) (user_id x) (name x) v (is_followed x) (insert_date x).
Definition set_is_followed v (x : t) : t :=
  mk (local_id x) (user_id x) (name x) (account x) v (insert_date x).
End User.

Module UserDetail.
Record t := mk {
  user_id : Z;
  total_illusts : json;
  total_manga : json;
  total_novels : json;
  total_illust_bookmarks_public : json;
  total_follow_users : json;
  avatar_url : json;
  background_url : json;
  comment : json
}.
Definition set_user_id v (x : t) : t :=
  mk v (total_illusts x) (total_manga x) (total_novels x)
    (total_illust_bookmarks_public x) (total_follow_users x) (avatar_url x)
    (background_url x) (comment x).
Definition set_total_illusts v (x : t) : t :=
  mk (user_id x) v (total_manga x) (total_novels x)
    (total_illust_bookmarks_public x) (total_follow_users x) (avatar_url x)
    (background_url x) (comment x).
Definition set_total_manga v (x : t) : t :=
  mk (user_id x) (total_illusts x) v (total_novels x)
    (total_illust_bookmarks_public x) (total_follow_users x) (avatar_url x)
    (background_url x) (comment x).
Definition set_total_novels v (x : t) : t :=
  mk (user_id x) (total_illusts x) (total_manga x) v
    (total_illust_bookmarks_public x) (total_follow_users x) (avatar_url x)
    (background_url x) (comment x).
Definition set_total_illust_bookmarks_public v (x : t) : t :=
  mk (user_id x) (total_illusts x) (total_manga x) (total_novels x) v
    (total_follow_users x) (avatar_url x) (background_url x) (comment x).
Definition set_total_follow_users v (x : t) : t :=
  mk (user_id x) (total_illusts x) (total_manga x) (total_novels x)
    (total_illust_bookmarks_public x) v (avatar_url x) (background_url x)
    (comment x).
Definition set_avatar_url v (x : t) : t :=
  mk (user_id x) (total_illusts x) (total_manga x) (total_novels x)
    (total_illust_bookmarks_public x) (total_follow_users x) v
    (background_url x) (comment x).
Definition set_background_url v (x : t) : t :=
  mk (user_id x) (total_illusts x) (total_manga x) (total_novels x)
    (total_illust_bookmarks_public x) (total_follow_users x) (avatar_url x)
    v (comment x).
Definition set_comment v (x : t) : t :=
  mk (user_id x) (total_illusts x) (total_manga x) (total_novels x)
    (total_illust_bookmarks_public x) (total_follow_users x) (avatar_url x)
    (background_url x) v.
End UserDetail.

(** ** Session

    What a [Session] sees: per table, the rows that are persistent or
    pending in it.  [now] is what [datetime.now()] returns at the next
    flush. *)
Record Session := mkSession {
  works : list Works.t;
  works_local : list WorksLocal.t;
  users : list User.t;
  users_details : list UserDetail.t;
  ugoiras : list Ugoira.t;
  works_image_urls : list WorksImageURLs.t;
  works_captions : list WorksCaption.t;
  tags : list addr;
  next_tag_id : Z;
  next_works_local_id : Z;
  next_user_local_id : Z;
  now : Z
}.

Definition empty_session : Session :=
  mkSession [] [] [] [] [] [] [] [] 1 1 1 0.

(** The interpreter state the models run in: the [Tag] objects, the
    dictionary bound once to the default of [tags_cache] in
    [Works.from_json], and the session passed to the call. *)
Record State := mkState {
  heap : list Tag.t;
  tags_cache_default : gmap string addr;
  session : Session
}.

Definition initial_state : State := mkState [] ∅ empty_session.

Definition set_heap (h : list Tag.t) (st : State) : State :=
  mkState h (tags_cache_default st) (session st).
Definition set_tags_cache_default (c : gmap string addr) (st : State) : State :=
  mkState (heap st) c (session st).
Definition set_session (s : Session) (st : State) : State :=
  mkState (heap st) (tags_cache_default st) s.

Definition set_works (v : list Works.t) (s : Session) : Session :=
  mkSession v (works_local s) (users s) (users_details s) (ugoiras s)
    (works_image_urls s) (works_captions s) (tags s)
    (next_tag_id s) (next_works_local_id s) (next_user_local_id s) (now s).
Definition set_works_local (v : list WorksLocal.t) (n : Z) (s : Session) : Session :=
  mkSession (works s) v (users s) (users_details s) (ugoiras s)
    (works_image_urls s) (works_captions s) (tags s)
    (next_tag_id s) n (next_user_local_id s) (now s).
Definition set_users (v : list User.t) (n : Z) (s : Session) : Session :=
  mkSession (works s) (works_local s) v (users_details s) (ugoiras s)
    (works_image_urls s) (works_captions s) (tags s)
    (next_tag_id s) (next_works_local_id s) n (now s).
Definition set_users_details (v : list UserDetail.t) (s : Session) : Session :=
  mkSession (works s) (works_local s) (users s) v (ugoiras s)
    (works_image_urls s) (works_captions s) (tags s)
    (next_tag_id s) (next_works_local_id s) (next_user_local_id s) (now s).
Definition set_ugoiras (v : list Ugoira.t) (s : Session) : Session :=
  mkSession (works s) (works_local s) (users s) (users_details s) v
    (works_image_urls s) (works_captions s) (tags s)
    (next_tag_id s) (next_works_local_id s) (next_user_local_id s) (now s).
Definition set_works_image_urls (v : list WorksImageURLs.t) (s : Session) : Session :=
  mkSession (works s) (works_local s) (users s) (users_details s) (ugoiras s)
    v (works_captions s) (tags s)
    (next_tag_id s) (next_works_local_id s) (next_user_local_id s) (now s).
Definition set_works_captions (v : list WorksCaption.t) (s : Session) : Session :=
  mkSession (works s) (works_local s) (users s) (users_details s) (ugoiras s)
    (works_image_urls s) v (tags s)
    (next_tag_id s) (next_works_local_id s) (next_user_local_id s) (now s).
Definition set_tags (v : list addr) (n : Z) (s : Session) : Session :=
  mkSession (works s) (works_local s) (users s) (users_details s) (ugoiras s)
    (works_image_urls s) (works_captions s) v
    n (next_works_local_id s) (next_user_local_id s) (now s).
Definition set_now (t : Z) (s : Session) : Session :=
  mkSession (works s) (works_local s) (users s) (users_details s) (ugoiras s)
    (works_image_urls s) (works_captions s) (tags s)
    (next_tag_id s) (next_works_local_id s) (next_user_local_id s) t.

(** ** Computations: state and exceptions

    A method is a function of the state that returns a value with the
    state it leaves, or raises.  A run that raises ends there: what an
    exception leaves of the session and of the heap is not described. *)

Definition M (A : Type) : Type := State -> result (A * State).

Definition ret {A} (a : A) : M A := fun st => Ok (a, st).

Definition bind {A B} (m : M A) (k : A -> M B) : M B :=
  fun st => match m st with
            | Ok (a, st') => k a st'
            | Raise e => Raise e
            end.

Definition lift {A} (r : result A) : M A :=
  fun st => match r with
            | Ok a => Ok (a, st)
            | Raise e => Raise e
            end.

Definition throw {A} (e : exn) : M A := fun _ => Raise e.
Definition get : M State := fun st => Ok (st, st).
Definition modify (f : State -> State) : M unit := fun st => Ok (tt, f st).
Definition modify_session (f : Session -> Session) : M unit :=
  modify (fun st => set_session (f (session st)) st).

Notation "'let*' x := c 'in' k" := (bind c (fun x => k))
  (at level 10, x pattern, c at level 100, k at level 200).

(** [if c: body] *)
Definition when (c : bool) (body : M unit) : M unit :=
  if c then body else ret tt.

(** *** Flush

    INSERTs the pending rows, in the order they were added: generated
    keys are drawn from the table's counter and [insert_date] takes its
    default, [datetime.now]. *)

Fixpoint flush_tags (tbl : list addr) (h : list Tag.t) (next : Z) : list Tag.t * Z :=
  match tbl with
  | [] => (h, next)
  | a :: tbl' =>
      match h !! a with
      | Some t =>
          match Tag.tag_id t with
          | None => flush_tags tbl' (<[a := Tag.set_tag_id (Some next) t]> h) (next + 1)
          | Some _ => flush_tags tbl' h next
          end
      | None => flush_tags tbl' h next
      end
  end.

Fixpoint flush_works_local (l : list WorksLocal.t) (next : Z) : list WorksLocal.t * Z :=
  match l with
  | [] => ([], next)
  | r :: l' =>
      match WorksLocal.local_id r with
      | None =>
          let '(l'', n) := flush_works_local l' (next + 1) in
          (WorksLocal.mk (Some next) (WorksLocal.works_id r) :: l'', n)
      | Some _ =>
          let '(l'', n) := flush_works_local l' next in
          (r :: l'', n)
      end
  end.

Definition insert_user (next now : Z) (u : User.t) : User.t :=
  User.mk (Some next) (User.user_id u) (User.name u) (User.account u)
    (User.is_followed u)
    (match User.insert_date u with None => Some now | d => d end).

Fixpoint flush_users (now : Z) (l : list User.t) (next : Z) : list User.t * Z :=
  match l with
  | [] => ([], next)
  | u :: l' =>
      match User.local_id u with
      | None =>
          let '(l'', n) := flush_users now l' (next + 1) in
          (insert_user next now u :: l'', n)
      | Some _ =>
          let '(l'', n) := flush_users now l' next in
          (u :: l'', n)
      end
  end.

Definition insert_works (now : Z) (w : Works.t) : Works.t :=
  if Works.persistent w then w
  else Works.mk (Works.works_id w) (Works.author_id w) (Works.works_type w)
         (Works.title w) (Works.page_count w) (Works.total_views w)
         (Works.total_bookmarks w) (Works.is_bookmarked w)
         (Works.is_downloaded w) (Works.bookmark_rate w) (Works.create_date w)
         (match Works.insert_date w with None => Some now | d => d end)
         (Works.tags w) true.

(** [session.flush()] *)
Definition flush (st : State) : State :=
  let s := session st in
  let '(h, nt) := flush_tags (tags s) (heap st) (next_tag_id s) in
  let '(wl, nl) := flush_works_local (works_local s) (next_works_local_id s) in
  let '(us, nu) := flush_users (now s) (users s) (next_user_local_id s) in
  mkState h (tags_cache_default st)
    (mkSession (insert_works (now s) <$> works s) wl us (users_details s)
       (ugoiras s) (works_image_urls s) (works_captions s) (tags s)
       nt nl nu (now s)).

(** *** Queries

    [session.query(cls).filter(...).one_or_none()]: the session flushes
    first (the sessions of [sessionmaker(bind=engine)] have [autoflush]
    on), then the rows that satisfy the filter are fetched; more than one
    is a [MultipleResultsFound]. *)

Fixpoint indices {A} (p : A -> bool) (i : nat) (l : list A) : list nat :=
  match l with
  | [] => []
  | x :: l' => if p x then i :: indices p (S i) l' else indices p (S i) l'
  end.

Definition one_or_none {A} (p : A -> bool) (l : list A) : result (option nat) :=
  match indices p 0 l with
  | [] => Ok None
  | [i] => Ok (Some i)
  | _ => Raise MultipleResultsFound
  end.

Definition query_one_or_none {A} (table : Session -> list A) (p : A -> bool)
  : M (option nat) :=
  let* _ := modify flush in
  let* st := get in
  lift (one_or_none p (table (session st))).

(** An object handed out by a [get_by_id] or [from_json]: a row of the
    session, by position in its table, or a new object that no session
    holds yet. *)
Inductive ref (A : Type) :=
| Persistent (i : nat)
| Transient (row : A).
Arguments Persistent {A} i.
Arguments Transient {A} row.

(** ** Tag *)

Definition tag_has_text (h : list Tag.t) (name : string) (a : addr) : bool :=
  match h !! a with
  | Some t => String.eqb (Tag.tag_text t) name
  | None => false
  end.

(** [session.query(cls).filter(cls.tag_text == t_name).one_or_none()] *)
Definition query_tag (t_name : string) : M (option addr) :=
  let* _ := modify flush in
  let* st := get in
  let* i := lift (one_or_none (tag_has_text (heap st) t_name) (tags (session st))) in
  ret (i ≫= fun i => tags (session st) !! i).

(** [cls(tag_text=t_name)] *)
Definition new_tag (t_name : string) : M addr :=
  let* st := get in
  let* _ := modify (set_heap (heap st ++ [Tag.mk None t_name []])) in
  ret (length (heap st)).

(** [session.add(t)] *)
Definition session_add_tag (a : addr) : M unit :=
  modify_session (fun s => set_tags (tags s ++ [a]) (next_tag_id s) s).

(** [Tag.get_translation] *)
Definition get_translation (t : Tag.t) (language : string) : json :=
  match List.find (fun tr => String.eqb (TagTranslation.language tr) language)
          (Tag.translation t) with
  | Some tr => TagTranslation.translation_text tr
  | None => JNull
  end.

(** Lines 497-506 of [from_tags_json]: every translation of [t] in
    [language] takes the text [t_translate]; when there is none, one is
    appended. *)
Definition merge_translation (language : string) (t_translate : json) (t : Tag.t)
  : Tag.t :=
  let same tr := String.eqb (TagTranslation.language tr) language in
  let translation :=
    (fun tr => if same tr then TagTranslation.set_translation_text t_translate tr
               else tr) <$> Tag.translation t in
  let _translate_set := existsb same (Tag.translation t) in
  if _translate_set then Tag.set_translation translation t
  else Tag.set_translation
         (translation ++ [TagTranslation.mk (Tag.tag_id t) language t_translate]) t.

(** The tag at [a] is mutated in place. *)
Definition update_tag (a : addr) (f : Tag.t -> Tag.t) : M unit :=
  let* st := get in
  match heap st !! a with
  | Some t => modify (set_heap (<[a := f t]> (heap st)))
  | None => throw Unmodelled
  end.

(** A tag name is used as a set element, as a dictionary key and as a
    [tag_text].  Lists and dicts are unhashable; names that are neither
    strings nor unhashable are not modelled. *)
Definition tag_name (v : json) : result string :=
  match v with
  | JStr s => Ok s
  | JList _ | JObj _ => Raise TypeError
  | _ => Raise Unmodelled
  end.

(** The body of the loop of [from_tags_json] for a name not seen yet in
    this call: find the tag in the cache, else in the session, else create
    it and flush; merge the translation; cache the tag. *)
Definition resolve_tag (language : string) (cache : gmap string addr)
    (t_name : string) (t_translate : json) : M (addr * gmap string addr) :=
  let* t := match cache !! t_name with
            | Some a => ret (Some a)
            | None => query_tag t_name
            end in
  let* t := match t with
            | Some a => ret a
            | None =>
                let* a := new_tag t_name in
                let* _ := session_add_tag a in
                let* _ := modify flush in
                ret a
            end in
  let* _ := when (truthy t_translate) (update_tag t (merge_translation language t_translate)) in
  ret (t, <[t_name := t]> cache).

Fixpoint from_tags_loop (language : string) (tags : list json)
    (_tags : gset string) (cache : gmap string addr) (r : list addr)
  : M (list addr * gmap string addr) :=
  match tags with
  | [] => ret (r, cache)
  | _t :: tags' =>
      let* t_name := lift (getitem _t "name") in
      let* t_translate := lift (dict_get _t "translated_name") in
      let* t_name := lift (tag_name t_name) in
      if decide (t_name ∈ _tags) then
        from_tags_loop language tags' _tags cache r
      else
        let* (t, cache) := resolve_tag language cache t_name t_translate in
        from_tags_loop language tags' ({[t_name]} ∪ _tags) cache (r ++ [t])
  end.

Fixpoint chars (s : string) : list json :=
  match s with
  | EmptyString => []
  | String c s' => JStr (String c "") :: chars s'
  end.

(** [for x in v]: the elements of a list, the characters of a string, the
    keys of a dict. *)
Definition iter (v : json) : result (list json) :=
  match v with
  | JList l => Ok l
  | JStr s => Ok (chars s)
  | JObj d => Ok ((fun kv => JStr kv.1) <$> d)
  | _ => Raise TypeError
  end.

(** [Tag.from_tags_json(session, tags, language, cache)].  The cache is
    the caller's dictionary; the dictionary as the call leaves it is
    returned with the result. *)
Definition Tag_from_tags_json (tags : json) (language : string)
    (cache : gmap string addr) : M (list addr * gmap string addr) :=
  let* tags := lift (iter tags) in
  from_tags_loop language tags ∅ cache [].


(** ** Attributes and [dict_setattr] *)

(** The values found in the [kv] dictionaries: an integer key, a plain
    column value, the derived rate, a timestamp, and the objects assigned
    to relationships. *)
Inductive attr :=
| AId (n : Z)
| AVal (v : json)
| AFloat (x : option spec_float)
| ADate (d : option Z)
| ATags (l : list addr)
| ADelay (l : list json)
| ACaption (o : ref WorksCaption.t)
| AImageURLs (l : list (ref WorksImageURLs.t))
| AUgoira (o : ref Ugoira.t)
| ADetail (o : ref UserDetail.t).

(** [dict_setattr(obj, d)]: [setattr(obj, k, v)] for every item of [d], in
    the order of the dictionary. *)
Fixpoint dict_setattr {A} (setattr : A -> string -> attr -> M A)
    (obj : A) (d : list (string * attr)) : M A :=
  match d with
  | [] => ret obj
  | (k, v) :: d' =>
      let* obj := setattr obj k v in
      dict_setattr setattr obj d'
  end.

(** An integer key read from JSON.  Keys that are not [int] are not
    modelled. *)
Definition as_id (v : json) : result Z :=
  match v with
  | JInt n => Ok n
  | _ => Raise Unmodelled
  end.

(** [v > k] and [v == k] for an integer constant [k] *)
Definition gt_int (v : json) (k : Z) : result bool :=
  match as_number v with
  | Some (NInt n) => Ok (k <? n)
  | Some (NFloat f) => Ok (SFltb (binary_normalize prec emax k 0 false) f)
  | None => Raise TypeError
  end.

Definition eq_int (v : json) (k : Z) : bool :=
  match as_number v with
  | Some (NInt n) => n =? k
  | Some (NFloat f) => SFeqb f (binary_normalize prec emax k 0 false)
  | None => false
  end.

(** The row a reference stands for. *)
Definition deref {A} (table : list A) (o : ref A) : result A :=
  match o with
  | Persistent i => match table !! i with
                    | Some row => Ok row
                    | None => Raise Unmodelled
                    end
  | Transient row => Ok row
  end.

(** ** WorksCaption *)

(** [WorksCaption.get_by_id(session, works_id, save_to_session)] *)
Definition WorksCaption_get_by_id (works_id : Z) (save_to_session : bool)
  : M (ref WorksCaption.t) :=
  let* o := query_one_or_none works_captions
              (fun c => WorksCaption.works_id c =? works_id) in
  match o with
  | Some i => ret (Persistent i)
  | None =>
      let o := WorksCaption.mk works_id JNull in
      if save_to_session then
        let* st := get in
        let* _ := modify_session
                    (fun s => set_works_captions (works_captions s ++ [o]) s) in
        ret (Persistent (length (works_captions (session st))))
      else ret (Transient o)
  end.

(** [o.caption_text = v] *)
Definition assign_caption_text (o : ref WorksCaption.t) (v : json)
  : M (ref WorksCaption.t) :=
  match o with
  | Persistent i =>
      let* _ := modify_session (fun s =>
                  set_works_captions
                    (alter (WorksCaption.set_caption_text v) i (works_captions s)) s) in
      ret o
  | Transient row => ret (Transient (WorksCaption.set_caption_text v row))
  end.

(** ** WorksImageURLs *)

(** [WorksImageURLs.get_by_id(session, works_id, page, create_if_not_exist,
    save_to_session)] *)
Definition WorksImageURLs_get_by_id (works_id page : Z)
    (create_if_not_exist save_to_session : bool)
  : M (option (ref WorksImageURLs.t)) :=
  let* o := query_one_or_none works_image_urls
              (fun r => (WorksImageURLs.works_id r =? works_id)
                        && (WorksImageURLs.page r =? page)) in
  match o with
  | Some i => ret (Some (Persistent i))
  | None =>
      if create_if_not_exist then
        let o := WorksImageURLs.mk works_id page JNull JNull JNull JNull in
        if save_to_session then
          let* st := get in
          let* _ := modify_session
                      (fun s => set_works_image_urls (works_image_urls s ++ [o]) s) in
          ret (Some (Persistent (length (works_image_urls (session st)))))
        else ret (Some (Transient o))
      else ret None
  end.

(** The four assignments [o.square_medium = ...; ...; o.original = ...];
    [o] is [None] when [get_by_id] found and created nothing. *)
Definition assign_urls (o : option (ref WorksImageURLs.t))
    (square_medium medium large original : json) : M (ref WorksImageURLs.t) :=
  let set r :=
    WorksImageURLs.set_original original
      (WorksImageURLs.set_large large
         (WorksImageURLs.set_medium medium
            (WorksImageURLs.set_square_medium square_medium r))) in
  match o with
  | None => throw AttributeError
  | Some (Persistent i) =>
      let* _ := modify_session (fun s =>
                  set_works_image_urls (alter set i (works_image_urls s)) s) in
      ret (Persistent i)
  | Some (Transient row) => ret (Transient (set row))
  end.

(** [session.add(o)] for an image row: a new object becomes a row of the
    session, a row of the session stays where it is. *)
Definition session_add_image_urls (o : ref WorksImageURLs.t)
  : M (ref WorksImageURLs.t) :=
  match o with
  | Persistent i => ret o
  | Transient row =>
      let* st := get in
      let* _ := modify_session
                  (fun s => set_works_image_urls (works_image_urls s ++ [row]) s) in
      ret (Persistent (length (works_image_urls (session st))))
  end.

Fixpoint mapM_state {A B} (f : A -> M B) (l : list A) : M (list B) :=
  match l with
  | [] => ret []
  | x :: l' =>
      let* y := f x in
      let* ys := mapM_state f l' in
      ret (y :: ys)
  end.

(** The loop over [enumerate(works_json_info['meta_pages'])]. *)
Fixpoint image_urls_loop (works_json_info : json) (save_to_session : bool)
    (page : Z) (meta_pages : list json) : M (list (ref WorksImageURLs.t)) :=
  match meta_pages with
  | [] => ret []
  | u :: rest =>
      let* id := lift (do v <- getitem works_json_info "id"; as_id v) in
      let* o := WorksImageURLs_get_by_id id page true save_to_session in
      let* urls := lift (getitem u "image_urls") in
      let* square_medium := lift (getitem urls "square_medium") in
      let* medium := lift (getitem urls "medium") in
      let* large := lift (getitem urls "large") in
      let* original := lift (getitem urls "original") in
      let* o := assign_urls o square_medium medium large original in
      let* r := image_urls_loop works_json_info save_to_session (page + 1) rest in
      ret (o :: r)
  end.

(** [WorksImageURLs.from_works_json(session, works_json_info,
    save_to_session)] *)
Definition WorksImageURLs_from_works_json (works_json_info : json)
    (save_to_session : bool) : M (list (ref WorksImageURLs.t)) :=
  let* page_count := lift (getitem works_json_info "page_count") in
  let* many := lift (gt_int page_count 1) in
  let* meta_pages :=
    if many then lift (getitem works_json_info "meta_pages") else ret JNull in
  let* r :=
    if many && truthy meta_pages then
      let* pages := lift (iter meta_pages) in
      image_urls_loop works_json_info save_to_session 0 pages
    else
      let* page_count := lift (getitem works_json_info "page_count") in
      let* meta_single_page :=
        if eq_int page_count 1
        then lift (getitem works_json_info "meta_single_page") else ret JNull in
      if eq_int page_count 1 && truthy meta_single_page then
        let* id := lift (do v <- getitem works_json_info "id"; as_id v) in
        let* o := WorksImageURLs_get_by_id id 0 true save_to_session in
        let* urls := lift (getitem works_json_info "image_urls") in
        let* square_medium := lift (getitem urls "square_medium") in
        let* medium := lift (getitem urls "medium") in
        let* large := lift (getitem urls "large") in
        let* meta_single_page := lift (getitem works_json_info "meta_single_page") in
        let* original := lift (getitem meta_single_page "original_image_url") in
        let* o := assign_urls o square_medium medium large original in
        ret [o]
      else ret [] in
  if save_to_session then mapM_state session_add_image_urls r else ret r.

(** ** Ugoira *)

Definition setattr_Ugoira (ug : Ugoira.t) (k : string) (v : attr) : M Ugoira.t :=
  match v with
  | AId n =>
      if String.eqb k "works_id" then ret (Ugoira.set_works_id n ug)
      else throw Unmodelled
  | AVal x =>
      if String.eqb k "zip_url" then ret (Ugoira.set_zip_url x ug)
      else if String.eqb k "delay_text" then ret (Ugoira.set_delay_text x ug)
      else throw Unmodelled
  | ADelay l =>
      if String.eqb k "_delay" then ret (Ugoira.set__delay l ug)
      else throw Unmodelled
  | _ => throw Unmodelled
  end.

(** The property [Ugoira.delay]: the list memoized in [_delay] when it is
    not empty, else the integers read from [delay_text], memoized.  The
    value and the object as the access leaves it are returned. *)
Definition Ugoira_delay (self : Ugoira.t) : result (list json * Ugoira.t) :=
  if negb (truthy (JList (Ugoira._delay self))) then
    match Ugoira.delay_text self with
    | JStr text =>
        do l <- mapM int_of_str (split text);
        Ok (JInt <$> l, Ugoira.set__delay (JInt <$> l) self)
    | _ => Raise AttributeError
    end
  else Ok (Ugoira._delay self, self).

(** [' '.join(map(str, _delay))] *)
Definition encode_delay (_delay : list json) : result string :=
  do l <- mapM str _delay; Ok (join " " l).

(** [[f['delay'] for f in ugoira_json['ugoira_metadata']['frames']]] *)
Definition frame_delays (ugoira_json : json) : result (list json) :=
  do metadata <- getitem ugoira_json "ugoira_metadata";
  do frames <- getitem metadata "frames";
  do frames <- iter frames;
  mapM (fun f => getitem f "delay") frames.

(** [Ugoira.from_json(session, works_id, ugoira_json, save_to_session)] *)
Definition Ugoira_from_json (works_id : Z) (ugoira_json : json)
    (save_to_session : bool) : M (ref Ugoira.t) :=
  let* _delay := lift (frame_delays ugoira_json) in
  let* zip_url := lift (do m <- getitem ugoira_json "ugoira_metadata";
                        do z <- getitem m "zip_urls";
                        getitem z "medium") in
  let* delay_text := lift (encode_delay _delay) in
  let kv := [("works_id", AId works_id);
             ("zip_url", AVal zip_url);
             ("delay_text", AVal (JStr delay_text));
             ("_delay", ADelay _delay)] in
  let* ug := query_one_or_none ugoiras
               (fun u => Ugoira.works_id u =? works_id) in
  match ug with
  | None =>
      let* ug := dict_setattr setattr_Ugoira (Ugoira.mk 0 JNull JNull []) kv in
      if save_to_session then
        let* st := get in
        let* _ := modify_session (fun s => set_ugoiras (ugoiras s ++ [ug]) s) in
        ret (Persistent (length (ugoiras (session st))))
      else ret (Transient ug)
  | Some i =>
      let* st := get in
      let* ug := lift (deref (ugoiras (session st)) (Persistent i)) in
      let* ug := dict_setattr setattr_Ugoira ug kv in
      let* _ := modify_session (fun s => set_ugoiras (<[i := ug]> (ugoiras s)) s) in
      ret (Persistent i)
  end.

(** ** Works *)

Definition persistent_indices {A} (l : list (ref A)) : list nat :=
  omap (fun o => match o with Persistent i => Some i | Transient _ => None end) l.

Definition transient_rows {A} (l : list (ref A)) : list A :=
  omap (fun o => match o with Persistent _ => None | Transient r => Some r end) l.

(** The image rows of [owner] left out of the new collection are deleted
    (the relationship cascades [delete-orphan]); [i] is the position of
    the head of [table]. *)
Fixpoint drop_orphans (keep : list nat) (owner : Z) (i : nat)
    (table : list WorksImageURLs.t) : list WorksImageURLs.t :=
  match table with
  | [] => []
  | r :: table' =>
      if (WorksImageURLs.works_id r =? owner) && negb (bool_decide (i ∈ keep))
      then drop_orphans keep owner (S i) table'
      else r :: drop_orphans keep owner (S i) table'
  end.

(** [setattr(w, k, v)].  Assigning a new object to a relationship makes
    it a row of the session (cascade [save-update]). *)
Definition setattr_Works (w : Works.t) (k : string) (v : attr) : M Works.t :=
  match v with
  | AId n =>
      if String.eqb k "works_id" then ret (Works.set_works_id n w)
      else throw Unmodelled
  | AVal x =>
      if String.eqb k "author_id" then ret (Works.set_author_id x w)
      else if String.eqb k "works_type" then ret (Works.set_works_type x w)
      else if String.eqb k "title" then ret (Works.set_title x w)
      else if String.eqb k "page_count" then ret (Works.set_page_count x w)
      else if String.eqb k "total_views" then ret (Works.set_total_views x w)
      else if String.eqb k "total_bookmarks" then ret (Works.set_total_bookmarks x w)
      else if String.eqb k "is_bookmarked" then ret (Works.set_is_bookmarked x w)
      else throw Unmodelled
  | AFloat x =>
      if String.eqb k "bookmark_rate" then ret (Works.set_bookmark_rate x w)
      else throw Unmodelled
  | ADate d =>
      if String.eqb k "create_date" then ret (Works.set_create_date d w)
      else throw Unmodelled
  | ATags l =>
      if String.eqb k "tags" then ret (Works.set_tags l w)
      else throw Unmodelled
  | ACaption o =>
      if String.eqb k "caption" then
        let* _ := modify_session (fun s =>
                    set_works_captions (works_captions s ++ transient_rows [o]) s) in
        ret w
      else throw Unmodelled
  | AImageURLs l =>
      if String.eqb k "image_urls" then
        let* _ := modify_session (fun s =>
                    let kept :=
                      if Works.persistent w
                      then drop_orphans (persistent_indices l) (Works.works_id w) 0
                             (works_image_urls s)
                      else works_image_urls s in
                    set_works_image_urls (kept ++ transient_rows l) s) in
        ret w
      else throw Unmodelled
  | AUgoira o =>
      if String.eqb k "ugoira" then
        let* _ := modify_session (fun s =>
                    set_ugoiras (ugoiras s ++ transient_rows [o]) s) in
        ret w
      else throw Unmodelled
  | _ => throw Unmodelled
  end.

(** An object whose attributes are all unset.  The primary key of such an
    object is unset as well; every [kv] assigns it. *)
Definition blank_Works : Works.t :=
  Works.mk 0 JNull JNull JNull JNull JNull JNull JNull JNull None None None [] false.

(** Lines 136-137 of [Works.from_json]: the derived [_bookmark_rate]. *)
Definition derive_bookmark_rate (j : json) : result (option spec_float) :=
  do total_bookmarks <- dict_get j "total_bookmarks";
  do total_view <- (if truthy total_bookmarks then dict_get j "total_view"
                    else Ok total_bookmarks);
  if truthy total_bookmarks && truthy total_view then
    do total_bookmarks <- getitem j "total_bookmarks";
    do total_view <- getitem j "total_view";
    do q <- truediv total_bookmarks total_view;
    Ok (Some (round q 5))
  else Ok None.

(** Lines 145-156 of [Works.from_json]: the dictionary [kv] as the literal
    builds it. *)
Definition Works_columns (j : json) (_bookmark_rate : option spec_float)
    (_create_date : option Z) : result (list (string * attr)) :=
  do works_id <- (do v <- getitem j "id"; as_id v);
  do author_id <- (do u <- getitem j "user"; getitem u "id");
  do works_type <- dict_get j "type";
  do title <- dict_get j "title";
  do page_count <- dict_get j "page_count";
  do total_views <- dict_get j "total_view";
  do total_bookmarks <- dict_get j "total_bookmarks";
  do is_bookmarked <- dict_get j "is_bookmarked";
  Ok [("works_id", AId works_id);
      ("author_id", AVal author_id);
      ("works_type", AVal works_type);
      ("title", AVal title);
      ("page_count", AVal page_count);
      ("total_views", AVal total_views);
      ("total_bookmarks", AVal total_bookmarks);
      ("is_bookmarked", AVal is_bookmarked);
      ("bookmark_rate", AFloat _bookmark_rate);
      ("create_date", ADate _create_date)].

(** Lines 157-164 of [Works.from_json]: the items added to [kv] under a
    guard; each is the empty list when the guard fails. *)
Definition caption_item (_caption : option (ref WorksCaption.t))
  : list (string * attr) :=
  match _caption with
  | Some o => [("caption", ACaption o)]
  | None => []
  end.

Definition tags_item (_tags : list addr) : list (string * attr) :=
  match _tags with
  | [] => []
  | _ => [("tags", ATags _tags)]
  end.

Definition image_urls_item (_image_urls : list (ref WorksImageURLs.t))
  : list (string * attr) :=
  match _image_urls with
  | [] => []
  | _ => [("image_urls", AImageURLs _image_urls)]
  end.

Definition ugoira_item (ugoira : option (ref Ugoira.t)) : list (string * attr) :=
  match ugoira with
  | Some ug => [("ugoira", AUgoira ug)]
  | None => []
  end.

(** Lines 130-164 of [Works.from_json]: the objects the work refers to are
    fetched or built, and [kv] is filled.  [iso_to_datetime] is the function
    of that name of [pixivmanager.helpers].  [kv] is returned with the
    cache as the call leaves it. *)
Definition Works_from_json_kv (iso_to_datetime : json -> result Z)
    (json_info : json) (language : string) (ugoira_json : json)
    (tags_cache : gmap string addr)
  : M (list (string * attr) * gmap string addr) :=
  let j := json_info in
  let* caption := lift (dict_get j "caption") in
  let* _caption :=
    if truthy caption then
      let* id := lift (do v <- getitem j "id"; as_id v) in
      let* o := WorksCaption_get_by_id id false in
      let* text := lift (getitem j "caption") in
      let* o := assign_caption_text o text in
      ret (Some o)
    else ret None in
  let* _bookmark_rate := lift (derive_bookmark_rate j) in
  let* tags := lift (dict_get j "tags") in
  let* (_tags, tags_cache) :=
    if truthy tags then
      let* tags := lift (getitem j "tags") in
      Tag_from_tags_json tags language tags_cache
    else ret ([], tags_cache) in
  let* create_date := lift (dict_get j "create_date") in
  let* _create_date :=
    if truthy create_date then
      let* d := lift (do v <- dict_get j "create_date"; iso_to_datetime v) in
      ret (Some d)
    else ret None in
  let* _image_urls := WorksImageURLs_from_works_json j false in
  let* kv := lift (Works_columns j _bookmark_rate _create_date) in
  let kv := kv ++ caption_item _caption in
  let kv := kv ++ tags_item _tags in
  let kv := kv ++ image_urls_item _image_urls in
  let* ugoira :=
    if truthy ugoira_json then
      let* id := lift (do v <- getitem j "id"; as_id v) in
      let* ug := Ugoira_from_json id ugoira_json false in
      ret (Some ug)
    else ret None in
  let kv := kv ++ ugoira_item ugoira in
  ret (kv, tags_cache).

(** [kv['works_id']] *)
Definition kv_id (k : string) (kv : list (string * attr)) : result Z :=
  match assoc k kv with
  | Some (AId n) => Ok n
  | Some _ => Raise Unmodelled
  | None => Raise KeyError
  end.

(** Lines 165-172 of [Works.from_json]: the work is looked up by
    [works_id]; a new one is built from [kv] and added, a known one takes
    the items of [kv].  The position of the work in [works] is returned. *)
Definition Works_upsert (kv : list (string * attr)) : M nat :=
  let* works_id := lift (kv_id "works_id" kv) in
  let* w := query_one_or_none works (fun w => Works.works_id w =? works_id) in
  match w with
  | None =>
      let* w := dict_setattr setattr_Works blank_Works kv in
      let* st := get in
      let* _ := modify_session (fun s => set_works (works s ++ [w]) s) in
      ret (length (works (session st)))
  | Some i =>
      let* st := get in
      let* w := lift (deref (works (session st)) (Persistent i)) in
      let* w := dict_setattr setattr_Works w kv in
      let* _ := modify_session (fun s => set_works (<[i := w]> (works s)) s) in
      ret i
  end.

(** [Works.from_json(session, json_info, language, ugoira_json,
    tags_cache)].  [tags_cache] is [None] when the caller leaves the
    argument out: the dictionary bound to the default is used then, and
    keeps what the call stores in it.  The position of the work in [works]
    is returned, with the cache as the call leaves it. *)
Definition Works_from_json (iso_to_datetime : json -> result Z)
    (json_info : json) (language : string) (ugoira_json : json)
    (tags_cache : option (gmap string addr)) : M (nat * gmap string addr) :=
  let* st := get in
  let cache := default (tags_cache_default st) tags_cache in
  let* (kv, cache) :=
    Works_from_json_kv iso_to_datetime json_info language ugoira_json cache in
  let* _ := match tags_cache with
            | None => modify (set_tags_cache_default cache)
            | Some _ => ret tt
            end in
  let* w := Works_upsert kv in
  ret (w, cache).

(** ** WorksLocal *)

(** [WorksLocal.create_if_not_exist(session, works_id)]; the position of
    the row in [works_local] is returned. *)
Definition WorksLocal_create_if_not_exist (works_id : Z) : M nat :=
  let* w := query_one_or_none works_local
              (fun r => WorksLocal.works_id r =? works_id) in
  match w with
  | None =>
      let w := WorksLocal.mk None works_id in
      let* st := get in
      let* _ := modify_session (fun s =>
                  set_works_local (works_local s ++ [w]) (next_works_local_id s) s) in
      ret (length (works_local (session st)))
  | Some i => ret i
  end.

(** ** UserDetail *)

Definition setattr_UserDetail (u : UserDetail.t) (k : string) (v : attr)
  : M UserDetail.t :=
  match v with
  | AId n =>
      if String.eqb k "user_id" then ret (UserDetail.set_user_id n u)
      else throw Unmodelled
  | AVal x =>
      if String.eqb k "total_illusts" then ret (UserDetail.set_total_illusts x u)
      else if String.eqb k "total_manga" then ret (UserDetail.set_total_manga x u)
      else if String.eqb k "total_novels" then ret (UserDetail.set_total_novels x u)
      else if String.eqb k "total_illust_bookmarks_public"
           then ret (UserDetail.set_total_illust_bookmarks_public x u)
      else if String.eqb k "total_follow_users"
           then ret (UserDetail.set_total_follow_users x u)
      else if String.eqb k "avatar_url" then ret (UserDetail.set_avatar_url x u)
      else if String.eqb k "background_url" then ret (UserDetail.set_background_url x u)
      else if String.eqb k "comment" then ret (UserDetail.set_comment x u)
      else throw Unmodelled
  | _ => throw Unmodelled
  end.

Definition blank_UserDetail : UserDetail.t :=
  UserDetail.mk 0 JNull JNull JNull JNull JNull JNull JNull JNull.

(** [d[k1][k2]] *)
Definition getitem2 (d : json) (k1 k2 : string) : result json :=
  do x <- getitem d k1; getitem x k2.

(** [UserDetail.from_user_json(session, json_info, save_to_session)] *)
Definition UserDetail_from_user_json (json_info : json) (save_to_session : bool)
  : M (ref UserDetail.t) :=
  let* user_id := lift (do v <- getitem2 json_info "user" "id"; as_id v) in
  let* total_illusts := lift (getitem2 json_info "profile" "total_illusts") in
  let* total_manga := lift (getitem2 json_info "profile" "total_manga") in
  let* total_novels := lift (getitem2 json_info "profile" "total_novels") in
  let* total_illust_bookmarks_public :=
    lift (getitem2 json_info "profile" "total_illust_bookmarks_public") in
  let* total_follow_users :=
    lift (getitem2 json_info "profile" "total_follow_users") in
  let* avatar_url :=
    lift (do p <- getitem2 json_info "user" "profile_image_urls";
          getitem p "medium") in
  let* background_url :=
    lift (getitem2 json_info "profile" "background_image_url") in
  let* comment := lift (getitem2 json_info "user" "comment") in
  let kv := [("user_id", AId user_id);
             ("total_illusts", AVal total_illusts);
             ("total_manga", AVal total_manga);
             ("total_novels", AVal total_novels);
             ("total_illust_bookmarks_public", AVal total_illust_bookmarks_public);
             ("total_follow_users", AVal total_follow_users);
             ("avatar_url", AVal avatar_url);
             ("background_url", AVal background_url);
             ("comment", AVal comment)] in
  let* u := query_one_or_none users_details
              (fun u => UserDetail.user_id u =? user_id) in
  match u with
  | None =>
      let* u := dict_setattr setattr_UserDetail blank_UserDetail kv in
      if save_to_session then
        let* st := get in
        let* _ := modify_session
                    (fun s => set_users_details (users_details s ++ [u]) s) in
        ret (Persistent (length (users_details (session st))))
      else ret (Transient u)
  | Some i =>
      let* st := get in
      let* u := lift (deref (users_details (session st)) (Persistent i)) in
      let* u := dict_setattr setattr_UserDetail u kv in
      let* _ := modify_session
                  (fun s => set_users_details (<[i := u]> (users_details s)) s) in
      ret (Persistent i)
  end.

(** ** User *)

Definition setattr_User (u : User.t) (k : string) (v : attr) : M User.t :=
  match v with
  | AId n =>
      if String.eqb k "user_id" then ret (User.set_user_id n u)
      else throw Unmodelled
  | AVal x =>
      if String.eqb k "name" then ret (User.set_name x u)
      else if String.eqb k "account" then ret (User.set_account x u)
      else if String.eqb k "is_followed" then ret (User.set_is_followed x u)
      else throw Unmodelled
  | ADetail o =>
      if String.eqb k "detial" then
        let* _ := modify_session (fun s =>
                    set_users_details (users_details s ++ transient_rows [o]) s) in
        ret u
      else throw Unmodelled
  | _ => throw Unmodelled
  end.

Definition blank_User : User.t := User.mk None 0 JNull JNull JNull None.

(** [User.from_json(session, json_info)]; the position of the user in
    [users] is returned. *)
Definition User_from_json (json_info : json) : M nat :=
  let* user_id := lift (do v <- getitem2 json_info "user" "id"; as_id v) in
  let* name := lift (getitem2 json_info "user" "name") in
  let* account := lift (getitem2 json_info "user" "account") in
  let* is_followed := lift (getitem2 json_info "user" "is_followed") in
  let* detial := UserDetail_from_user_json json_info false in
  let kv := [("user_id", AId user_id);
             ("name", AVal name);
             ("account", AVal account);
             ("is_followed", AVal is_followed);
             ("detial", ADetail detial)] in
  let* u := query_one_or_none users (fun u => User.user_id u =? user_id) in
  match u with
  | None =>
      let* u := dict_setattr setattr_User blank_User kv in
      let* st := get in
      let* _ := modify_session (fun s =>
                  set_users (users s ++ [u]) (next_user_local_id s) s) in
      ret (length (users (session st)))
  | Some i =>
      let* st := get in
      let* u := lift (deref (users (session st)) (Persistent i)) in
      let* u := dict_setattr setattr_User u kv in
      let* _ := modify_session (fun s =>
                  set_users (<[i := u]> (users s)) (next_user_local_id s) s) in
      ret (i)
  end.

(** ** DatabaseHelper.get_session and the life cycle of a session

    The part of a [Session] that decides what reaches the database: the
    changes made to its objects and not flushed yet, the open transaction,
    and the attributes [autoflush], [flush] and [commit] of the session
    object, which [get_session] rebinds.  [D] is the content of the
    database.  The operations are the ones the repository performs on a
    session: changing an object of the session ([add], an attribute
    assignment), a query, [flush], [commit] and [rollback]. *)

Inductive method :=
| builtin      (* the method of the class [Session] *)
| no_write.    (* the local function [no_write] of [get_session] *)

Record SessionObject (D : Type) := mkSessionObject {
  autoflush : bool;
  flush_attr : method;
  commit_attr : method;
  (* the unit of work: changes not sent to the database yet *)
  pending : list (D -> D);
  (* the view of the open transaction, [None] when none is open *)
  transaction : option D
}.
Arguments mkSessionObject {D}.
Arguments autoflush {D}.
Arguments flush_attr {D}.
Arguments commit_attr {D}.
Arguments pending {D}.
Arguments transaction {D}.

(** A database and a session bound to it. *)
Record Bound (D : Type) := mkBound {
  database : D;
  object : SessionObject D
}.
Arguments mkBound {D}.
Arguments database {D}.
Arguments object {D}.

Inductive op (D : Type) :=
| Change (f : D -> D)
| Query
| Flush
| Commit
| Rollback.
Arguments Change {D} f.
Arguments Query {D}.
Arguments Flush {D}.
Arguments Commit {D}.
Arguments Rollback {D}.

(** [self.sessionmaker()] *)
Definition sessionmaker {D} : SessionObject D :=
  mkSessionObject true builtin builtin [] None.

(** [Session.flush]: the pending changes are sent, inside the transaction. *)
Definition Session_flush {D} (x : Bound D) : Bound D :=
  let s := object x in
  let view := default (database x) (transaction s) in
  mkBound (database x)
    (mkSessionObject (autoflush s) (flush_attr s) (commit_attr s) []
       (Some (foldl (fun d f => f d) view (pending s)))).

(** [s.flush()]: what the attribute [flush] of the object is bound to. *)
Definition call_flush {D} (x : Bound D) : Bound D :=
  match flush_attr (object x) with
  | builtin => Session_flush x
  | no_write => x
  end.

(** [Session.commit]: flushes through [self.flush()], then makes the
    transaction durable. *)
Definition Session_commit {D} (x : Bound D) : Bound D :=
  let x := call_flush x in
  let s := object x in
  mkBound (default (database x) (transaction s))
    (mkSessionObject (autoflush s) (flush_attr s) (commit_attr s) (pending s) None).

Definition call_commit {D} (x : Bound D) : Bound D :=
  match commit_attr (object x) with
  | builtin => Session_commit x
  | no_write => x
  end.

(** [Session.rollback] and [Session.close]: the transaction is dropped and
    the session forgets its changes. *)
Definition Session_rollback {D} (x : Bound D) : Bound D :=
  let s := object x in
  mkBound (database x)
    (mkSessionObject (autoflush s) (flush_attr s) (commit_attr s) [] None).

Definition Session_close {D} (x : Bound D) : Bound D := Session_rollback x.

Definition step {D} (x : Bound D) (o : op D) : Bound D :=
  let s := object x in
  match o with
  | Change f =>
      mkBound (database x)
        (mkSessionObject (autoflush s) (flush_attr s) (commit_attr s)
           (pending s ++ [f]) (transaction s))
  | Query => if autoflush s then call_flush x else x
  | Flush => call_flush x
  | Commit => call_commit x
  | Rollback => Session_rollback x
  end.

(** The session [get_session(readonly)] yields. *)
Definition yielded_session {D} (readonly : bool) : SessionObject D :=
  let s := sessionmaker in
  if readonly
  then mkSessionObject false no_write no_write (pending s) (transaction s)
  else s.

(** [with db.get_session(readonly) as session: body]: the database once
    the block is left.  [raises] tells whether [body] ends with an
    exception, in which case [get_session] rolls back before closing. *)
Definition get_session {D} (readonly : bool) (body : list (op D)) (raises : bool)
    (db : D) : D :=
  let x := foldl step (mkBound db (yielded_session readonly)) body in
  let x := if raises then Session_rollback x else x in
  database (Session_close x).

(** The database query of [App.websocket_handler] for a [tags_like]
    message: [q.all()] inside [with self.db.get_session() as session]. *)
Definition websocket_handler_tags_like {D} (db : D) : D :=
  get_session true [Query] false db.

(** ** Predicates used in the statements *)

(** [s] has no white space. *)
Fixpoint no_space (s : string) : bool :=
  match s with
  | EmptyString => true
  | String c s' => negb (isspace c) && no_space s'
  end.

(** ** Sample inputs *)

Definition sample_ugoira_json : json :=
  JObj [("ugoira_metadata",
         JObj [("frames", JList [JObj [("file", JStr "000000.jpg"); ("delay", JInt 30)];
                                 JObj [("file", JStr "000001.jpg"); ("delay", JInt 45)]]);
               ("zip_urls", JObj [("medium", JStr "https://i.pximg.net/7.zip")])])].

Definition sample_iso_to_datetime (v : json) : result Z :=
  match v with
  | JStr _ => Ok 1546268400
  | _ => Raise TypeError
  end.

Definition sample_tag (name : string) (translated_name : json) : json :=
  JObj [("name", JStr name); ("translated_name", translated_name)].

Definition sample_works_json : json :=
  JObj [("id", JInt 7);
        ("user", JObj [("id", JInt 3)]);
        ("type", JStr "illust");
        ("title", JStr "T");
        ("caption", JStr "cap");
        ("page_count", JInt 1);
        ("meta_single_page", JObj [("original_image_url", JStr "o.png")]);
        ("image_urls", JObj [("square_medium", JStr "s.png");
                             ("medium", JStr "m.png");
                             ("large", JStr "l.png")]);
        ("total_view", JInt 3);
        ("total_bookmarks", JInt 1);
        ("is_bookmarked", JBool true);
        ("tags", JList [sample_tag "cat" (JStr "neko"); sample_tag "dog" JNull;
                        sample_tag "cat" (JStr "neko")]);
        ("create_date", JStr "2019-01-01T00:00:00+09:00")].

(** The same work as a later page could show it, with nothing but what
    [from_json] cannot do without. *)
Definition sample_sparse_json : json :=
  JObj [("id", JInt 7); ("user", JObj [("id", JInt 3)]); ("page_count", JInt 0)].

Definition state_after {A} (r : result (A * State)) : State :=
  match r with
  | Ok (_, st) => st
  | Raise _ => initial_state
  end.

Definition value_after {A} (d : A) (r : result (A * State)) : A :=
  match r with
  | Ok (a, _) => a
  | Raise _ => d
  end.

(** A session that holds [sample_works_json], flushed. *)
Definition sample_resident_state : State :=
  flush (state_after (Works_from_json sample_iso_to_datetime sample_works_json
                        "en" JNull None initial_state)).

(** A work that was never viewed. *)
Definition sample_unseen_json : json :=
  JObj [("id", JInt 7); ("total_bookmarks", JInt 5); ("total_view", JInt 0)].

(** What [get_session(readonly=True)] sets up and every operation keeps:
    nothing is open, nothing can be flushed or committed. *)
Definition patched {D} (s : SessionObject D) : Prop :=
  autoflush s = false /\ flush_attr s = no_write /\ commit_attr s = no_write /\
  transaction s = None.

(** The keys of the insertion-order records. *)
Definition works_local_keys (st : State) : list Z :=
  WorksLocal.works_id <$> works_local (session st).

(** The items of [kv] that [Works.from_json] adds under a guard: objects
    assigned to relationships. *)
Definition relationship_item (kv : string * attr) : Prop :=
  match kv.2 with
  | ACaption _ | ATags _ | AImageURLs _ | AUgoira _ => True
  | _ => False
  end.

(** [m] changes the state only along [R]. *)
Definition preserves {A} (R : State -> State -> Prop) (m : M A) : Prop :=
  forall st a st', m st = Ok (a, st') -> R st st'.

(** [R] for "the part [proj] of the state is left as it is". *)
Definition keeps {B} (proj : State -> B) : State -> State -> Prop :=
  fun st st' => proj st' = proj st.

(** The table of works as the next flush leaves it. *)
Definition flushed_works (st : State) : list Works.t :=
  insert_works (now (session st)) <$> works (session st).

(** The state with one table of the session replaced. *)
Definition with_works_captions (t : list WorksCaption.t) (st : State) : State :=
  set_session (set_works_captions t (session st)) st.
Definition with_works_image_urls (t : list WorksImageURLs.t) (st : State) : State :=
  set_session (set_works_image_urls t (session st)) st.
Definition with_ugoiras (t : list Ugoira.t) (st : State) : State :=
  set_session (set_ugoiras t (session st)) st.
Definition with_tags (t : list addr) (n : Z) (st : State) : State :=
  set_session (set_tags t n (session st)) st.
Definition with_works (t : list Works.t) (st : State) : State :=
  set_session (set_works t (session st)) st.

(** The list [setattr] leaves in [Works.tags] after the items [ext], from
    the list [cur]: the one of the last [tags] item. *)
Fixpoint assigned_tags (ext : list (string * attr)) (cur : list addr) : list addr :=
  match ext with
  | [] => cur
  | (_, ATags l) :: ext' => assigned_tags ext' l
  | _ :: ext' => assigned_tags ext' cur
  end.

(** The keys of the works of a session. *)
Definition works_keys (st : State) : list Z :=
  Works.works_id <$> works (session st).

(** The statement "the merge step never overwrites an existing value with
    [None]", for the columns the specification names: for a work that is in
    the session, a field that is absent or [None] in the JSON keeps the
    stored value. *)
Definition merge_keeps_value_on_None : Prop :=
  forall iso j language ugoira_json tags_cache st i0 w0 i c st' w,
    works (session st) !! i0 = Some w0 ->
    (do v <- getitem j "id"; as_id v) = Ok (Works.works_id w0) ->
    Works_from_json iso j language ugoira_json tags_cache st = Ok ((i, c), st') ->
    works (session st') !! i = Some w ->
    (dict_get j "title" = Ok JNull -> Works.title w = Works.title w0) /\
    (dict_get j "type" = Ok JNull -> Works.works_type w = Works.works_type w0) /\
    (dict_get j "total_view" = Ok JNull ->
     Works.total_views w = Works.total_views w0) /\
    (dict_get j "total_bookmarks" = Ok JNull ->
     Works.total_bookmarks w = Works.total_bookmarks w0).

(** *** Tags *)

(** The text of the tag at [a], when there is a tag at [a]. *)
Definition tag_text_at (h : list Tag.t) (a : addr) : option string :=
  Tag.tag_text <$> h !! a.

(** The tags of the session are objects of the heap, with distinct texts
    ([tag_text] is unique). *)
Definition tags_ok (st : State) : Prop :=
  Forall (fun a => is_Some (heap st !! a)) (tags (session st)) /\
  NoDup (tag_text_at (heap st) <$> tags (session st)).

(** A cache of the session: every entry is a tag of the session, under
    its text. *)
Definition cache_ok (st : State) (cache : gmap string addr) : Prop :=
  forall name a, cache !! name = Some a ->
    a ∈ tags (session st) /\ tag_text_at (heap st) a = Some name.

(** The session keeps its tags and the objects keep their texts. *)
Definition tags_grow (st st' : State) : Prop :=
  (forall a, a ∈ tags (session st) -> a ∈ tags (session st')) /\
  (forall a, is_Some (heap st !! a) ->
     tag_text_at (heap st') a = tag_text_at (heap st) a).

(** What a tag is besides its generated key. *)
Definition tag_content (t : Tag.t) : string * list TagTranslation.t :=
  (Tag.tag_text t, Tag.translation t).

(** The tag items of a list, as pairs of a name and a translated name
    ([None] when there is none), and the ones [from_tags_json] resolves:
    the first occurrence of each name that is not in [seen]. *)
Definition item_pair (t : json) : option (string * json) :=
  match getitem t "name", dict_get t "translated_name" with
  | Ok (JStr s), Ok v => Some (s, v)
  | _, _ => None
  end.

Definition item_pairs (l : list json) : list (string * json) :=
  omap item_pair l.

Fixpoint unique_items (seen : gset string) (l : list (string * json))
  : list (string * json) :=
  match l with
  | [] => []
  | (n, v) :: l' =>
      if decide (n ∈ seen) then unique_items seen l'
      else (n, v) :: unique_items ({[n]} ∪ seen) l'
  end.

(** At most one translation per language, for every tag object. *)
Definition translations_ok (st : State) : Prop :=
  forall a t, heap st !! a = Some t ->
    NoDup (TagTranslation.language <$> Tag.translation t).

(** The objects selected by [keep] are what they were, up to the
    generated key. *)
Definition content_kept (keep : nat -> Prop) (st st' : State) : Prop :=
  forall b t, keep b -> heap st !! b = Some t ->
    tag_content <$> heap st' !! b = Some (tag_content t).

(** [tr] is a translation into [language]. *)
Definition in_language (language : string) (tr : TagTranslation.t) : bool :=
  String.eqb (TagTranslation.language tr) language.

(** What a step of the tag resolution that works on the tag at [a] keeps:
    the invariants, the tags of the session, the texts, and the content of
    every other object. *)
Definition tag_step (a : nat) (st st' : State) : Prop :=
  (tags_ok st -> tags_ok st') /\
  (translations_ok st -> translations_ok st') /\
  (forall cache, cache_ok st cache -> cache_ok st' cache) /\
  tags_grow st st' /\
  content_kept (fun b => b <> a) st st'.

(** How the tag at [a] translates into [language]. *)
Definition translation_at (st : State) (a : nat) (language : string) : option json :=
  (fun t => get_translation t language) <$> heap st !! a.

(** The tag at [a] is a tag of the session, has the name of the item, and
    translates into [language] as the item says when the item has a
    translation. *)
Definition resolved (st : State) (language : string) (a : nat)
    (item : string * json) : Prop :=
  a ∈ tags (session st) /\
  tag_text_at (heap st) a = Some item.1 /\
  (truthy item.2 = true -> translation_at st a language = Some item.2).

(** Another work with the tag [cat], and a later traversal run: a new
    session on a store of its own, in the process that made [st]. *)
Definition sample_other_json : json :=
  JObj [("id", JInt 8); ("user", JObj [("id", JInt 3)]); ("page_count", JInt 0);
        ("tags", JList [sample_tag "cat" JNull])].

Definition new_run (st : State) : State := set_session empty_session st.

(** The session has the tags it had, with the texts they had. *)
Definition same_tags (st st' : State) : Prop :=
  tags (session st') = tags (session st) /\
  forall a, tag_text_at (heap st') a = tag_text_at (heap st) a.

(** Lines 139-140 of [Works.from_json], as a function of the input. *)
Definition derive_create_date (iso_to_datetime : json -> result Z) (j : json)
  : result (option Z) :=
  do create_date <- dict_get j "create_date";
  if truthy create_date then
    do d <- (do v <- dict_get j "create_date"; iso_to_datetime v);
    Ok (Some d)
  else Ok None.

(** The tag items [Works.from_json] has resolved for [j]. *)
Definition tag_items (j : json) : list (string * json) :=
  match dict_get j "tags" with
  | Ok tags =>
      if truthy tags then
        match (do t <- getitem j "tags"; iter t) with
        | Ok l => unique_items ∅ (item_pairs l)
        | Raise _ => []
        end
      else []
  | Raise _ => []
  end.

(** [a] is the tag of the session with the name of [item]. *)
Definition named (st : State) (a : nat) (item : string * json) : Prop :=
  a ∈ tags (session st) /\ tag_text_at (heap st) a = Some item.1.

(** The natural keys of the users. *)
Definition users_keys (st : State) : list Z :=
  User.user_id <$> users (session st).

(** The table of users as the next flush leaves it. *)
Definition flushed_users (st : State) : list User.t :=
  (flush_users (now (session st)) (users (session st))
     (next_user_local_id (session st))).1.

(** A user as the detail response shows it. *)
Definition sample_user_json : json :=
  JObj [("user", JObj [("id", JInt 3); ("name", JStr "N"); ("account", JStr "acc");
                       ("is_followed", JBool false);
                       ("profile_image_urls", JObj [("medium", JStr "a.png")]);
                       ("comment", JStr "hi")]);
        ("profile", JObj [("total_illusts", JInt 4); ("total_manga", JInt 0);
                          ("total_novels", JInt 0);
                          ("total_illust_bookmarks_public", JInt 9);
                          ("total_follow_users", JInt 2);
                          ("background_image_url", JNull)])].

(** * More of the code *)

(** What [Works.from_json] has no business with: the users, their details
    and the insertion-order records. *)
Definition beside_works (st : State)
  : list User.t * list UserDetail.t * list Z :=
  (flushed_users st, users_details (session st), works_local_keys st).

(** ** User.create_if_empty *)


(** ** The rows the ingestion describes *)

(** The [kv] of [UserDetail.from_user_json] as a row: every column of the
    table is in it. *)
Definition detail_row (json_info : json) : result UserDetail.t :=
  do user_id <- (do v <- getitem2 json_info "user" "id"; as_id v);
  do total_illusts <- getitem2 json_info "profile" "total_illusts";
  do total_manga <- getitem2 json_info "profile" "total_manga";
  do total_novels <- getitem2 json_info "profile" "total_novels";
  do total_illust_bookmarks_public <-
    getitem2 json_info "profile" "total_illust_bookmarks_public";
  do total_follow_users <- getitem2 json_info "profile" "total_follow_users";
  do avatar_url <- (do p <- getitem2 json_info "user" "profile_image_urls";
                    getitem p "medium");
  do background_url <- getitem2 json_info "profile" "background_image_url";
  do comment <- getitem2 json_info "user" "comment";
  Ok (UserDetail.mk user_id total_illusts total_manga total_novels
        total_illust_bookmarks_public total_follow_users avatar_url
        background_url comment).

(** The keys of the user details. *)
Definition details_keys (st : State) : list Z :=
  UserDetail.user_id <$> users_details (session st).

(** The [kv] of [Ugoira.from_json] as a row. *)
Definition ugoira_row (works_id : Z) (ugoira_json : json) : result Ugoira.t :=
  do _delay <- frame_delays ugoira_json;
  do zip_url <- (do m <- getitem ugoira_json "ugoira_metadata";
                 do z <- getitem m "zip_urls";
                 getitem z "medium");
  do delay_text <- encode_delay _delay;
  Ok (Ugoira.mk works_id (JStr delay_text) zip_url _delay).

Definition ugoiras_keys (st : State) : list Z :=
  Ugoira.works_id <$> ugoiras (session st).

(** ** What a block does with its session *)

Definition is_commit {D} (o : op D) : bool :=
  match o with
  | Commit => true
  | _ => false
  end.

(** Every tag of the session has its generated key, and its translations
    carry that key. *)
Definition tags_keyed (st : State) : Prop :=
  forall a t, a ∈ tags (session st) -> heap st !! a = Some t ->
    is_Some (Tag.tag_id t) /\
    Forall (fun tr => TagTranslation.tag_id tr = Tag.tag_id t) (Tag.translation t).

(** ** The steps of [Works.from_json] *)

(** Lines 133-135: the caption of the work, fetched or built, with the text
    of the JSON. *)
Definition caption_step (j : json) : M (option (ref WorksCaption.t)) :=
  let* caption := lift (dict_get j "caption") in
  if truthy caption then
    let* id := lift (do v <- getitem j "id"; as_id v) in
    let* o := WorksCaption_get_by_id id false in
    let* text := lift (getitem j "caption") in
    let* o := assign_caption_text o text in
    ret (Some o)
  else ret None.

(** Lines 138-140: the tags of the work. *)
Definition tags_step (j : json) (language : string) (tags_cache : gmap string addr)
  : M (list addr * gmap string addr) :=
  let* tags := lift (dict_get j "tags") in
  if truthy tags then
    let* tags := lift (getitem j "tags") in
    Tag_from_tags_json tags language tags_cache
  else ret ([], tags_cache).

(** Lines 163-164: the ugoira record of the work. *)
Definition ugoira_step (j ugoira_json : json) : M (option (ref Ugoira.t)) :=
  if truthy ugoira_json then
    let* id := lift (do v <- getitem j "id"; as_id v) in
    let* ug := Ugoira_from_json id ugoira_json false in
    ret (Some ug)
  else ret None.

(** The rows of the table that belong to the work. *)
Definition image_rows_of (works_id : Z) (table : list WorksImageURLs.t)
  : list WorksImageURLs.t :=
  filter (fun r => WorksImageURLs.works_id r = works_id) table.

Definition captions_keys (st : State) : list Z :=
  WorksCaption.works_id <$> works_captions (session st).

(** ** The image rows a works JSON describes *)

(** The row of a page of [meta_pages]. *)
Definition meta_page_row (j : json) (page : Z) (u : json)
  : result WorksImageURLs.t :=
  do id <- (do v <- getitem j "id"; as_id v);
  do urls <- getitem u "image_urls";
  do square_medium <- getitem urls "square_medium";
  do medium <- getitem urls "medium";
  do large <- getitem urls "large";
  do original <- getitem urls "original";
  Ok (WorksImageURLs.mk id page square_medium medium large original).

Fixpoint meta_pages_rows (j : json) (page : Z) (meta_pages : list json)
  : result (list WorksImageURLs.t) :=
  match meta_pages with
  | [] => Ok []
  | u :: rest =>
      do row <- meta_page_row j page u;
      do rows <- meta_pages_rows j (page + 1) rest;
      Ok (row :: rows)
  end.

(** The row of a work of one page. *)
Definition single_page_row (j : json) : result WorksImageURLs.t :=
  do id <- (do v <- getitem j "id"; as_id v);
  do urls <- getitem j "image_urls";
  do square_medium <- getitem urls "square_medium";
  do medium <- getitem urls "medium";
  do large <- getitem urls "large";
  do meta_single_page <- getitem j "meta_single_page";
  do original <- getitem meta_single_page "original_image_url";
  Ok (WorksImageURLs.mk id 0 square_medium medium large original).

(** The rows [WorksImageURLs.from_works_json] hands over, as the JSON
    describes them: one per page of [meta_pages] for a work of several
    pages, one for a work of one page, none otherwise. *)
Definition image_rows (j : json) : result (list WorksImageURLs.t) :=
  do page_count <- getitem j "page_count";
  do many <- gt_int page_count 1;
  do meta_pages <- (if many then getitem j "meta_pages" else Ok JNull);
  if many && truthy meta_pages then
    do pages <- iter meta_pages;
    meta_pages_rows j 0 pages
  else
    do meta_single_page <-
      (if eq_int page_count 1 then getitem j "meta_single_page" else Ok JNull);
    if eq_int page_count 1 && truthy meta_single_page then
      do row <- single_page_row j;
      Ok [row]
    else Ok [].

(** The object [o] stands for the row [row] of the table. *)
Definition stands_for (table : list WorksImageURLs.t)
    (o : ref WorksImageURLs.t) (row : WorksImageURLs.t) : Prop :=
  deref table o = Ok row.

(** A page of [meta_pages] whose four addresses are [name]. *)
Definition sample_page (name : string) : json :=
  JObj [("image_urls", JObj [("square_medium", JStr name);
                             ("medium", JStr name);
                             ("large", JStr name);
                             ("original", JStr name)])].

(** A work of the pages [pages]. *)
Definition sample_manga_json (pages : list json) : json :=
  JObj [("id", JInt 9);
        ("user", JObj [("id", JInt 3)]);
        ("page_count", JInt (Z.of_nat (length pages)));
        ("meta_pages", JList pages)].

Definition sample_page_row (page : Z) (name : string) : WorksImageURLs.t :=
  WorksImageURLs.mk 9 page (JStr name) (JStr name) (JStr name) (JStr name).

(** [sample_works_json] with other addresses for its one page. *)
Definition sample_moved_json : json :=
  JObj [("id", JInt 7);
        ("page_count", JInt 1);
        ("meta_single_page", JObj [("original_image_url", JStr "o2.png")]);
        ("image_urls", JObj [("square_medium", JStr "s2.png");
                             ("medium", JStr "m2.png");
                             ("large", JStr "l2.png")])].

(** ** [App.websocket_handler] (webserver.py) *)

(** [aiohttp.WSMsgType] *)
Inductive WSMsgType :=
| CONTINUATION | TEXT | BINARY | PING | PONG | CLOSE | CLOSING | CLOSED | ERROR.

Record WSMessage := mkWSMessage {
  msg_type : WSMsgType;
  msg_data : string
}.

(** What leaves the handler as an exception: [web.HTTPBadRequest], or an
    exception of Python. *)
Inductive ws_exn :=
| HTTPBadRequest
| PyExn (e : exn).

(** What the handler does to the clients: [self.ws_clients.append(ws)],
    [self.ws_clients.remove(ws)] and [ws.send_json(j)], for the socket
    [ws].  Logging and printing are left out. *)
Inductive ws_event :=
| ClientsAppend (ws : nat)
| ClientsRemove (ws : nat)
| SendJson (ws : nat) (j : json).

(** ** Handlers and commands: what they do, in order, and how they end *)

Inductive ended (X A : Type) :=
| Done (a : A)
| Raised (e : X).
Arguments Done {X A} a.
Arguments Raised {X A} e.

(** A piece of code with events of type [E] and exceptions of type [X]:
    the events it gave rise to, in order, and how it ended. *)
Record T (E X A : Type) := mkT {
  trace : list E;
  outcome : ended X A
}.
Arguments mkT {E X A} trace outcome.
Arguments trace {E X A} t.
Arguments outcome {E X A} t.

#[global] Instance T_ret {E X} : MRet (T E X) := fun A a => mkT [] (Done a).

#[global] Instance T_bind {E X} : MBind (T E X) := fun A B k m =>
  match outcome m with
  | Done a => mkT (trace m ++ trace (k a)) (outcome (k a))
  | Raised e => mkT (trace m) (Raised e)
  end.

Definition emit {E X} (e : E) : T E X unit := mkT [e] (Done tt).

Definition raise {E X A} (e : X) : T E X A := mkT [] (Raised e).

(** [try: body finally: fin] *)
Definition try_finally {E X A} (body : T E X A) (fin : T E X unit) : T E X A :=
  match outcome fin with
  | Done _ => mkT (trace body ++ trace fin) (outcome body)
  | Raised e => mkT (trace body ++ trace fin) (Raised e)
  end.

Definition ws_lift {A} (r : result A) : T ws_event ws_exn A :=
  match r with
  | Ok a => mret a
  | Raise e => raise (PyExn e)
  end.

(** [d.get(k, dflt)] *)
Definition dict_get_default (j : json) (k : string) (dflt : json) : result json :=
  match j with
  | JObj d => Ok (default dflt (assoc k d))
  | _ => Raise AttributeError
  end.

(** [v == s] for a string constant [s] *)
Definition eq_str (v : json) (s : string) : bool :=
  match v with
  | JStr s' => String.eqb s' s
  | _ => false
  end.

Section WebServer.
(** [json.loads]: [None] stands for [json.JSONDecodeError]. *)
Variable loads : string -> option json.
(** The rows of [tags_like(text)], as [q.all] returns them in the session
    of [self.db.get_session()]. *)
Variable tags_like : json -> result (list Tag.t).
(** [self.language] *)
Variable language : string.

(** [{'name': t.tag_text, 'translation': t.get_translation(self.language)}] *)
Definition tag_entry (t : Tag.t) : json :=
  JObj [("name", JStr (Tag.tag_text t));
        ("translation", get_translation t language)].

(** Lines 44-68: a message of type [TEXT]. *)
Definition on_text (ws : nat) (data : string) : T ws_event ws_exn unit :=
  d ← match loads data with
      | Some d => mret d
      | None => raise HTTPBadRequest
      end;
  query ← ws_lift (dict_get_default d "query" (JObj []));
  type ← ws_lift (dict_get query "type");
  if eq_str type "tags_like" then
    query ← ws_lift (dict_get d "query");
    text ← ws_lift (dict_get query "text");
    if truthy text then
      r ← ws_lift (tags_like text);
      id ← ws_lift (dict_get d "id");
      emit (SendJson ws (JObj [("id", id);
                               ("result", JList (tag_entry <$> r))]))
    else mret tt
  else emit (SendJson ws (JObj [("message", JStr "qwp")])).

(** [async for msg in ws: ...], for the messages the socket yields. *)
Fixpoint handle_messages (ws : nat) (msgs : list WSMessage) : T ws_event ws_exn unit :=
  match msgs with
  | [] => mret tt
  | msg :: rest =>
      match msg_type msg with
      | TEXT => _ ← on_text ws (msg_data msg); handle_messages ws rest
      | ERROR => mret tt
      | _ => handle_messages ws rest
      end
  end.

(** [App.websocket_handler], for the socket [ws] and the messages it
    yields. *)
Definition websocket_handler (ws : nat) (msgs : list WSMessage) : T ws_event ws_exn unit :=
  _ ← emit (ClientsAppend ws);
  _ ← emit (SendJson ws (JObj [("message", JStr "hi")]));
  try_finally (handle_messages ws msgs) (emit (ClientsRemove ws)).

End WebServer.

(** [self.ws_clients] after the events [tr]; [list.remove] takes out the
    first occurrence and raises [ValueError] when there is none. *)
Fixpoint list_remove (ws : nat) (l : list nat) : option (list nat) :=
  match l with
  | [] => None
  | x :: l' => if decide (x = ws) then Some l'
               else cons x <$> list_remove ws l'
  end.

Fixpoint ws_clients_after (tr : list ws_event) (ws_clients : list nat)
  : option (list nat) :=
  match tr with
  | [] => Some ws_clients
  | ClientsAppend ws :: tr' => ws_clients_after tr' (ws_clients ++ [ws])
  | ClientsRemove ws :: tr' =>
      list_remove ws ws_clients ≫= ws_clients_after tr'
  | SendJson _ _ :: tr' => ws_clients_after tr' ws_clients
  end.

(** The replies among the events. *)
Definition sent (tr : list ws_event) : list json :=
  omap (fun e => match e with SendJson _ j => Some j | _ => None end) tr.

Definition is_text (msg : WSMessage) : bool :=
  match msg_type msg with TEXT => true | _ => false end.

(** The message ends the loop: it is of type [ERROR], or a text the
    handler raises on. *)
Definition stops (loads : string -> option json)
    (tags_like : json -> result (list Tag.t)) (language : string)
    (ws : nat) (msg : WSMessage) : bool :=
  match msg_type msg with
  | ERROR => true
  | TEXT => match outcome (on_text loads tags_like language ws (msg_data msg)) with
            | Raised _ => true
            | Done _ => false
            end
  | _ => false
  end.

(** [json.loads] on the texts of the samples: an empty object, an empty
    list, and texts that are not JSON. *)
Definition sample_loads (data : string) : option json :=
  if String.eqb data "{}" then Some (JObj [])
  else if String.eqb data "[]" then Some (JList [])
  else None.

(** A database without tags. *)
Definition sample_tags_like (text : json) : result (list Tag.t) := Ok [].

(** ** [main] (cli.py) *)

(** [s.split(sep)] for a separator of one character *)
Fixpoint str_split (sep : ascii) (s : string) : list string :=
  match s with
  | EmptyString => [EmptyString]
  | String c s' =>
      if Ascii.eqb c sep then EmptyString :: str_split sep s'
      else match str_split sep s' with
           | w :: ws => String c w :: ws
           | [] => [String c EmptyString]
           end
  end.

(** [None if not tags else set(tags.split(';'))] *)
Definition tags_set (tags : option string) : option (gset string) :=
  match tags with
  | None => None
  | Some s => if String.eqb s "" then None
              else Some (list_to_set (str_split ";" s))
  end.

(** What leaves [main] as an exception: [SystemExit] of [exit(code)], the
    two exceptions of the login, or another exception of Python. *)
Inductive cli_exn :=
| SystemExit (code : Z)
| LoginTokenError
| LoginPasswordError
| OtherError (e : exn).

(** The two calls of [login_with_pw()]: in the [try] block and in the
    handler of [LoginTokenError]. *)
Inductive call_site := InTry | InExcept.

(** Where [main] runs: the operating system, the configuration file as
    [Config] loads it, and how the logins end. *)
Record Env := mkEnv {
  os_name_nt : bool;
  cfg : json;
  papi_login : json -> ended cli_exn json;
  login_with_pw_result : call_site -> ended cli_exn json
}.

Inductive log_message :=
| ConfigFile
| DownloadingAllBookmarks
| DownloadingUsersWorks
| TaskDone.

(** [user or papi.pixiv_user_id] *)
Inductive user_arg :=
| GivenUser (user : Z)
| PixivUserId.

(** What [main] does: the calls it makes, with their arguments. *)
Inductive cli_event :=
| MakeDirs
| NewConfig (config_path : option string)
| InitColorama
| LoggerInfo (msg : log_message)
| DaemonMain
| NewPixivAPI (language : json)
| PapiLogin (refresh_token : json)
| LoginWithPw (site : call_site)
| ClickEcho
| SaveCfg
| NewDatabaseHelper (echo : bool)
| NewPixivDownloader
| AllWorks (download_type : string) (user : user_arg) (max_times : option Z)
    (works_type : option string) (tags_include tags_exclude : option (gset string))
| WaitTasks.

(** [try: body except: ...]; [handler e] is [None] when no clause catches
    [e]. *)
Definition try_except {E X A} (body : T E X A) (handler : X -> option (T E X A))
  : T E X A :=
  match outcome body with
  | Done _ => body
  | Raised e =>
      match handler e with
      | Some h => mkT (trace body ++ trace h) (outcome h)
      | None => body
      end
  end.

Definition cli_lift {A} (r : result A) : T cli_event cli_exn A :=
  match r with
  | Ok a => mret a
  | Raise e => raise (OtherError e)
  end.

(** A string option of click that is not given is [None]. *)
Definition truthy_option (o : option string) : bool :=
  match o with
  | None => false
  | Some s => negb (String.eqb s "")
  end.

(** [login_with_pw()] *)
Definition login_with_pw (env : Env) (site : call_site)
  : T cli_event cli_exn json :=
  mkT [LoginWithPw site] (login_with_pw_result env site).

(** Lines 92-101: the [try] statement of the login.  [login_result] is
    [None] where the handler of [LoginPasswordError] leaves it so. *)
Definition login (env : Env) : T cli_event cli_exn json :=
  try_except
    (refresh_token ← cli_lift (getitem2 (cfg env) "pixiv" "refresh_token");
     if truthy refresh_token
     then mkT [PapiLogin refresh_token] (papi_login env refresh_token)
     else login_with_pw env InTry)
    (fun e => match e with
              | LoginTokenError => Some (login_with_pw env InExcept)
              | LoginPasswordError => Some (_ ← emit ClickEcho; mret JNull)
              | _ => None
              end).

(** Lines 106-126 of [main]: what follows the login. *)
Definition download (user : Z) (max_times : option Z) (download_type : string)
    (works_type : option string) (tags_include tags_exclude : option (gset string))
    (echo : bool) : T cli_event cli_exn unit :=
  _ ← emit SaveCfg;
  _ ← emit (NewDatabaseHelper echo);
  _ ← emit NewPixivDownloader;
  _ ← (if String.eqb download_type "bookmarks"
       then emit (LoggerInfo DownloadingAllBookmarks)
       else if String.eqb download_type "works"
            then emit (LoggerInfo DownloadingUsersWorks)
            else mret tt);
  let user := if user =? 0 then PixivUserId else GivenUser user in
  _ ← emit (AllWorks download_type user max_times works_type
              tags_include tags_exclude);
  _ ← emit WaitTasks;
  emit (LoggerInfo TaskDone).

(** Lines 55-64 of [main]: the configuration. *)
Definition configure (env : Env) (config : option string)
  : T cli_event cli_exn unit :=
  _ ← (if negb (truthy_option config) then emit MakeDirs else mret tt);
  _ ← emit (NewConfig (if truthy_option config then config else None));
  _ ← (if os_name_nt env then emit InitColorama else mret tt);
  emit (LoggerInfo ConfigFile).

(** [main(user, max_times, private, download_type, works_type,
    tags_include, tags_exclude, echo, config)].  The handler of the
    first [try] is left out: [tags_set] raises nothing. *)
Definition main (env : Env) (user : Z) (max_times : option Z) (private : bool)
    (download_type : string) (works_type tags_include tags_exclude : option string)
    (echo : bool) (config : option string) : T cli_event cli_exn unit :=
  _ ← configure env config;
  if String.eqb download_type "daemon" then emit DaemonMain
  else
    let tags_include := tags_set tags_include in
    let tags_exclude := tags_set tags_exclude in
    language ← cli_lift (getitem2 (cfg env) "pixiv" "language");
    _ ← emit (NewPixivAPI language);
    login_result ← login env;
    if negb (truthy login_result) then raise (SystemExit (-1))
    else download user max_times download_type works_type
           tags_include tags_exclude echo.

(** [click.Choice(('bookmark', 'works', 'daemon'))] *)
Definition download_types : list string := ["bookmark"; "works"; "daemon"].

(** The calls of the login. *)
Definition of_login (e : cli_event) : bool :=
  match e with
  | PapiLogin _ | LoginWithPw _ | ClickEcho => true
  | _ => false
  end.

(** The calls of [main] that follow the login. *)
Definition after_login (e : cli_event) : bool :=
  match e with
  | SaveCfg | NewDatabaseHelper _ | NewPixivDownloader | AllWorks _ _ _ _ _ _
  | WaitTasks | LoggerInfo DownloadingAllBookmarks
  | LoggerInfo DownloadingUsersWorks | LoggerInfo TaskDone => true
  | _ => false
  end.

(** A configuration file with a language and the refresh token
    [refresh_token]. *)
Definition sample_cfg (refresh_token : json) : json :=
  JObj [("pixiv", JObj [("language", JStr "en");
                        ("refresh_token", refresh_token)])].

(** A run where the login with a refresh token ends as [token_login] and
    the logins with a password as [pw] says. *)
Definition sample_env (refresh_token : json) (token_login : ended cli_exn json)
    (pw : call_site -> ended cli_exn json) : Env :=
  mkEnv false (sample_cfg refresh_token) (fun _ => token_login) pw.

(** The primary key of an image row, and the keys of a table. *)
Definition image_key (x : WorksImageURLs.t) : Z * Z :=
  (WorksImageURLs.works_id x, WorksImageURLs.page x).

Definition image_keys (st : State) : list (Z * Z) :=
  image_key <$> works_image_urls (session st).

(** * Properties *)

(** ** Computations *)

Lemma bind_Ok {A B} (m : M A) (k : A -> M B) st r :
  bind m k st = Ok r <-> exists a st', m st = Ok (a, st') /\ k a st' = Ok r.
Proof.
  unfold bind. split.
  - destruct (m st) as [[a st']|e]; [eauto | discriminate].
  - intros (a & st' & -> & H). exact H.
Qed.

Lemma lift_Ok {A} (r : result A) st a st' :
  lift r st = Ok (a, st') <-> r = Ok a /\ st' = st.
Proof.
  unfold lift. destruct r; split; try intros [? ?]; try congruence.
  intros [= -> ->]. auto.
Qed.

Lemma rbind_Ok {A B} (r : result A) (k : A -> result B) b :
  rbind r k = Ok b <-> exists a, r = Ok a /\ k a = Ok b.
Proof.
  destruct r; simpl; split; try intros (? & ? & ?); eauto; congruence.
Qed.

Lemma mapM_Ok_fmap {A B} (f : A -> result B) (g : B -> A) (l : list B) :
  (forall b, f (g b) = Ok b) -> mapM f (g <$> l) = Ok l.
Proof.
  intros Hfg. induction l as [|b l IH]; [done|].
  rewrite fmap_cons. simpl. by rewrite Hfg, IH.
Qed.

Lemma get_Ok st a st' : get st = Ok (a, st') <-> a = st /\ st' = st.
Proof. unfold get. split; [intros [= <- <-] | intros [-> ->]]; auto. Qed.

Lemma modify_Ok f st u st' : modify f st = Ok (u, st') <-> st' = f st.
Proof. unfold modify. destruct u. split; [intros [= <-] | intros ->]; auto. Qed.

Lemma ret_Ok {A} (a : A) st b st' : ret a st = Ok (b, st') <-> b = a /\ st' = st.
Proof. unfold ret. split; [intros [= <- <-] | intros [-> ->]]; auto. Qed.

Lemma query_one_or_none_Ok {A} (table : Session -> list A) p st o st' :
  query_one_or_none table p st = Ok (o, st') <->
  st' = flush st /\ one_or_none p (table (session (flush st))) = Ok o.
Proof.
  unfold query_one_or_none, bind, modify, get, lift.
  destruct (one_or_none _ _); split; try intros [= <- <-]; try intros [-> [=]];
    subst; auto.
Qed.

(** ** Strings *)

Lemma no_space_app s1 s2 :
  no_space (s1 +:+ s2) = no_space s1 && no_space s2.
Proof. induction s1 as [|c s1 IH]; simpl; [done|]. by rewrite IH, andb_assoc. Qed.

Lemma app_cons c (s t : string) : String c s +:+ t = String c (s +:+ t).
Proof. reflexivity. Qed.

Lemma app_empty_r (s : string) : s +:+ "" = s.
Proof. induction s as [|c s IH]; [done|]. by rewrite app_cons, IH. Qed.

Lemma app_assoc_s (a b c : string) : (a +:+ b) +:+ c = a +:+ (b +:+ c).
Proof. induction a as [|x a IH]; [done|]. by rewrite !app_cons, IH. Qed.

Lemma eqb_empty_app cur c :
  String.eqb (cur +:+ String c "") "" = false.
Proof. destruct cur; reflexivity. Qed.

(** Reading a run of non-space characters extends the current word. *)
Lemma split_from_word w cur rest :
  no_space w = true ->
  split_from cur (w +:+ rest) = split_from (cur +:+ w) rest.
Proof.
  revert cur. induction w as [|c w IH]; intros cur Hw; simpl in *.
  - by rewrite app_empty_r.
  - apply andb_true_iff in Hw as [Hc Hw].
    apply negb_true_iff in Hc. rewrite Hc, IH by done.
    by rewrite app_assoc_s.
Qed.

Lemma split_word w :
  no_space w = true -> w <> "" -> split w = [w].
Proof.
  intros Hw Hne. unfold split.
  rewrite <- (app_empty_r w) at 1. rewrite split_from_word by done.
  simpl. destruct w; [done|reflexivity].
Qed.

Lemma split_word_space w rest :
  no_space w = true -> w <> "" ->
  split (w +:+ " " +:+ rest) = w :: split rest.
Proof.
  intros Hw Hne. unfold split. rewrite split_from_word by done.
  simpl. destruct w; [done|reflexivity].
Qed.

Lemma split_join (l : list string) :
  Forall (fun w => no_space w = true /\ w <> "") l ->
  split (join " " l) = l.
Proof.
  induction 1 as [|w l [Hw Hne] Hl IH]; [reflexivity|].
  destruct l as [|w' l].
  - simpl. by apply split_word.
  - change (join " " (w :: w' :: l)) with (w +:+ " " +:+ join " " (w' :: l)).
    rewrite split_word_space by done. by rewrite IH.
Qed.

Lemma lstrip_no_space s : no_space s = true -> lstrip s = s.
Proof.
  destruct s as [|c s]; simpl; [done|].
  intros [Hc _]%andb_true_iff. apply negb_true_iff in Hc. by rewrite Hc.
Qed.

Lemma rstrip_no_space s : no_space s = true -> rstrip s = s.
Proof.
  induction s as [|c s IH]; simpl; [done|].
  intros [Hc Hs]%andb_true_iff. apply negb_true_iff in Hc.
  rewrite IH by done. rewrite Hc. by destruct s.
Qed.

Lemma strip_no_space s : no_space s = true -> strip s = s.
Proof.
  intros H. unfold strip. by rewrite lstrip_no_space, rstrip_no_space.
Qed.

Lemma no_space_string_of_uint d : no_space (string_of_uint d) = true.
Proof. induction d; simpl; auto. Qed.

Lemma string_of_uint_nonempty d : d <> Nil -> string_of_uint d <> "".
Proof. by destruct d. Qed.

Lemma parse_digits_string_of_uint d :
  parse_digits true (string_of_uint d) = Some d.
Proof. induction d; simpl; [done|..]; by rewrite IHd. Qed.

Lemma parse_digits_string_of_uint_start d :
  d <> Nil -> parse_digits false (string_of_uint d) = Some d.
Proof.
  destruct d; [done|..]; intros _; simpl; by rewrite parse_digits_string_of_uint.
Qed.

Lemma int_of_str_digits d :
  d <> Nil -> int_of_str (string_of_uint d) = Ok (Z.of_uint d).
Proof.
  intros Hd. unfold int_of_str.
  rewrite strip_no_space by apply no_space_string_of_uint.
  destruct d; [done|..]; simpl; rewrite parse_digits_string_of_uint;
    cbn [fmap option_fmap option_map]; by rewrite Z.mul_1_l.
Qed.

Lemma Z_of_uint_to_uint p : Z.of_uint (Pos.to_uint p) = Zpos p.
Proof. unfold Z.of_uint. by rewrite Unsigned.of_to. Qed.

Lemma no_space_str_of_int n : no_space (str_of_int n) = true.
Proof.
  unfold str_of_int. destruct (Z.to_int n); simpl;
    apply no_space_string_of_uint.
Qed.

Lemma str_of_int_nonempty n : str_of_int n <> "".
Proof.
  unfold str_of_int. destruct n; simpl; try done.
  apply string_of_uint_nonempty, Unsigned.to_uint_nonnil.
Qed.

(** [int(str(n)) == n] *)
Lemma int_of_str_str_of_int n : int_of_str (str_of_int n) = Ok n.
Proof.
  destruct n as [|p|p]; [reflexivity|..].
  - unfold str_of_int. simpl Z.to_int. cbv iota.
    rewrite int_of_str_digits by apply Unsigned.to_uint_nonnil.
    by rewrite Z_of_uint_to_uint.
  - unfold str_of_int, int_of_str. simpl Z.to_int. cbv iota.
    rewrite strip_no_space
      by (simpl; apply no_space_string_of_uint).
    rewrite parse_digits_string_of_uint_start by apply Unsigned.to_uint_nonnil.
    by rewrite Z_of_uint_to_uint.
Qed.

Lemma decode_encode (l : list Z) :
  mapM int_of_str (split (join " " (str_of_int <$> l))) = Ok l.
Proof.
  rewrite split_join.
  - apply mapM_Ok_fmap, int_of_str_str_of_int.
  - apply Forall_fmap, Forall_forall. intros n _. simpl. split.
    + apply no_space_str_of_int.
    + apply str_of_int_nonempty.
Qed.

(** ** Ugoira: frame delays *)

Lemma mapM_str_ints (l : list Z) :
  mapM str (JInt <$> l) = Ok (str_of_int <$> l).
Proof.
  induction l as [|n l IH]; [done|].
  rewrite !fmap_cons. simpl. by rewrite IH.
Qed.

Lemma encode_delay_ints (l : list Z) :
  encode_delay (JInt <$> l) = Ok (join " " (str_of_int <$> l)).
Proof. unfold encode_delay. by rewrite mapM_str_ints. Qed.

(** A row read back from the database has an empty [_delay]: the property
    decodes [delay_text]. *)
Lemma Ugoira_delay_decode (l : list Z) (ug : Ugoira.t) :
  Ugoira.delay_text ug = JStr (join " " (str_of_int <$> l)) ->
  Ugoira._delay ug = [] ->
  Ugoira_delay ug = Ok (JInt <$> l, Ugoira.set__delay (JInt <$> l) ug).
Proof.
  intros Htext Hmemo. unfold Ugoira_delay.
  rewrite Hmemo, Htext. simpl. by rewrite decode_encode.
Qed.

(** The object [from_json] builds carries the list itself. *)
Lemma Ugoira_delay_memo (l : list Z) (ug : Ugoira.t) :
  Ugoira.delay_text ug = JStr (join " " (str_of_int <$> l)) ->
  Ugoira._delay ug = JInt <$> l ->
  Ugoira_delay ug = Ok (JInt <$> l, ug).
Proof.
  intros Htext Hmemo. destruct l as [|n l].
  - rewrite (Ugoira_delay_decode [] ug Htext Hmemo).
    destruct ug; simpl in *; by subst.
  - unfold Ugoira_delay. by rewrite Hmemo.
Qed.

Lemma Ugoira_from_json_fields works_id ugoira_json save st o st' _delay :
  frame_delays ugoira_json = Ok _delay ->
  Ugoira_from_json works_id ugoira_json save st = Ok (o, st') ->
  exists ug text,
    deref (ugoiras (session st')) o = Ok ug /\
    encode_delay _delay = Ok text /\
    Ugoira.works_id ug = works_id /\
    Ugoira.delay_text ug = JStr text /\
    Ugoira._delay ug = _delay.
Proof.
  intros Hd H. unfold Ugoira_from_json in H. rewrite Hd in H.
  apply bind_Ok in H as (? & ? & [[= <-] ->]%lift_Ok & H).
  apply bind_Ok in H as (zip & ? & [Hzip ->]%lift_Ok & H).
  apply bind_Ok in H as (text & ? & [Htext ->]%lift_Ok & H).
  apply bind_Ok in H as (q & ? & [-> Hq]%query_one_or_none_Ok & H).
  destruct q as [i|].
  - apply bind_Ok in H as (? & ? & [-> ->]%get_Ok & H).
    apply bind_Ok in H as (ug0 & ? & [Hug0 ->]%lift_Ok & H).
    cbn in H. injection H as <- <-.
    simpl in Hug0. destruct (ugoiras (session (flush st)) !! i) eqn:Hi; [|done].
    eexists _, text. split.
    { cbn. rewrite list_lookup_insert_eq; [done|]. by eapply lookup_lt_Some. }
    by repeat split.
  - cbn in H. destruct save.
    + cbn in H. injection H as <- <-.
      eexists _, text. split.
      { cbn. by rewrite lookup_app_r, Nat.sub_diag. }
      by repeat split.
    + cbn in H. injection H as <- <-.
      eexists _, text. by repeat split.
Qed.

(** C7: for every list [l] of integer frame delays, the object
    [Ugoira.from_json] builds from frames that carry [l] stores the
    space-joined text of [l], and reading [delay] gives [l] back: on the
    object as built, and on the object as a later session loads it, where
    [_delay] is the empty list of the class and [delay_text] is decoded.
    The empty list is included. *)
Theorem delay_round_trip (l : list Z) works_id ugoira_json save st o st' :
  frame_delays ugoira_json = Ok (JInt <$> l) ->
  Ugoira_from_json works_id ugoira_json save st = Ok (o, st') ->
  exists ug,
    deref (ugoiras (session st')) o = Ok ug /\
    Ugoira.delay_text ug = JStr (join " " (str_of_int <$> l)) /\
    Ugoira_delay ug = Ok (JInt <$> l, ug) /\
    Ugoira_delay (Ugoira.set__delay [] ug) = Ok (JInt <$> l, ug).
Proof.
  intros Hd H.
  destruct (Ugoira_from_json_fields _ _ _ _ _ _ _ Hd H)
    as (ug & text & Ho & Htext & _ & Hdt & Hmemo).
  rewrite encode_delay_ints in Htext. injection Htext as <-.
  exists ug. split_and!; [done..| |].
  - by apply Ugoira_delay_memo.
  - rewrite (Ugoira_delay_decode l) by done.
    destruct ug; simpl in *; by subst.
Qed.

(** ** Numbers: a non-zero integer converts to a non-zero float *)

Lemma SFeqb_zero_false (f : spec_float) :
  (forall s, f <> S754_zero s) -> SFeqb f float_zero = false.
Proof.
  intros H. destruct f as [s|s| |s m e]; try reflexivity; try by destruct s.
  by destruct (H s).
Qed.

Lemma Zdigits2_pos_iff (m : Z) : 0 < Zdigits2 m <-> m <> 0.
Proof. destruct m; simpl; split; intros; try done; lia. Qed.

Lemma Zdigits2_shr_1 (r : shr_record) :
  Zdigits2 (shr_m (shr_1 r)) = Z.max 0 (Zdigits2 (shr_m r) - 1).
Proof.
  destruct r as [m b s]. destruct m as [|p|p]; simpl; [done|..];
    destruct p; simpl; lia.
Qed.

Lemma Zdigits2_iter_shr_1 (p : positive) (r : shr_record) :
  Zdigits2 (shr_m (SpecFloat.iter_pos shr_1 p r))
  = Z.max 0 (Zdigits2 (shr_m r) - Zpos p).
Proof.
  revert r. induction p as [p IH|p IH|]; intros r; simpl.
  - rewrite !IH, Zdigits2_shr_1. lia.
  - rewrite !IH. lia.
  - apply Zdigits2_shr_1.
Qed.

Lemma shr_1_nonneg (r : shr_record) : 0 <= shr_m r -> 0 <= shr_m (shr_1 r).
Proof.
  destruct r as [m b s]. destruct m as [|q|q]; simpl; try done; by destruct q.
Qed.

Lemma iter_shr_1_nonneg (p : positive) (r : shr_record) :
  0 <= shr_m r -> 0 <= shr_m (SpecFloat.iter_pos shr_1 p r).
Proof.
  revert r. induction p as [p IH|p IH|]; intros r Hr; simpl;
    auto using shr_1_nonneg.
Qed.

Lemma shr_m_record_of_loc m l : shr_m (shr_record_of_loc m l) = m.
Proof. by destruct l as [|[]]. Qed.

(** Above the subnormal range, [shr_fexp] keeps a positive mantissa
    positive and does not lower the exponent. *)
Lemma shr_fexp_positive (m e : Z) (l : location) :
  0 < m -> emin prec emax <= Zdigits2 m + e - prec ->
  0 < shr_m (shr_fexp prec emax m e l).1 /\
  e <= (shr_fexp prec emax m e l).2.
Proof.
  intros Hm He. unfold shr_fexp, shr, fexp.
  assert (0 < Zdigits2 m) by (apply Zdigits2_pos_iff; lia).
  rewrite Z.max_l by lia.
  destruct (Zdigits2 m + e - prec - e) as [|p|p] eqn:Hn; simpl;
    rewrite ?shr_m_record_of_loc; try (split; lia).
  assert (Hd := Zdigits2_iter_shr_1 p (shr_record_of_loc m l)).
  assert (Hs := iter_shr_1_nonneg p (shr_record_of_loc m l)).
  rewrite shr_m_record_of_loc in Hd, Hs. unfold prec in *.
  split; [|lia].
  assert (0 < Zdigits2 (shr_m (SpecFloat.iter_pos shr_1 p (shr_record_of_loc m l))))
    as Hpos%Zdigits2_pos_iff by lia.
  lia.
Qed.

Lemma round_nearest_even_positive m l : 0 < m -> 0 < round_nearest_even m l.
Proof.
  intros Hm. destruct l as [|[]]; simpl; try lia. destruct (Z.even m); lia.
Qed.

Lemma binary_round_aux_nonzero (sx : bool) (m e : Z) (l : location) :
  0 < m -> -52 <= e ->
  forall s, binary_round_aux prec emax sx m e l <> S754_zero s.
Proof.
  intros Hm He s. unfold binary_round_aux.
  assert (0 < Zdigits2 m) by (apply Zdigits2_pos_iff; lia).
  destruct (shr_fexp_positive m e l) as [H1 H1e];
    [done | unfold emin, prec, emax; lia |].
  destruct (shr_fexp prec emax m e l) as [mrs' e']. simpl in H1, H1e.
  pose proof (round_nearest_even_positive _ (loc_of_shr_record mrs') H1) as H2.
  assert (0 < Zdigits2 (round_nearest_even (shr_m mrs') (loc_of_shr_record mrs')))
    by (apply Zdigits2_pos_iff; lia).
  destruct (shr_fexp_positive _ e' loc_Exact H2) as [H3 _];
    [unfold emin, prec, emax; lia |].
  destruct (shr_fexp prec emax _ e' loc_Exact) as [mrs'' e'']. simpl in H3.
  destruct (shr_m mrs''); [lia| |done]. by destruct (_ <=? _).
Qed.

Lemma binary_round_nonzero (sx : bool) (m : positive) :
  forall s, binary_round prec emax sx m 0 <> S754_zero s.
Proof.
  intros s. unfold binary_round, shl_align.
  assert (Hf : -52 <= fexp prec emax (Z.pos (digits2_pos m) + 0)).
  { unfold fexp, prec. lia. }
  destruct (fexp prec emax (Z.pos (digits2_pos m) + 0) - 0) eqn:Hd;
    apply binary_round_aux_nonzero; lia.
Qed.

Lemma float_of_int_nonzero (n : Z) (f : spec_float) :
  n <> 0 -> float_of_int n = Ok f -> SFeqb f float_zero = false.
Proof.
  intros Hn Hf. apply SFeqb_zero_false. intros s ->.
  unfold float_of_int, finite_or_overflow in Hf.
  destruct (is_infinity _); [done|]. injection Hf as Hf.
  destruct n as [|m|m]; [done|..]; simpl in Hf;
    by eapply binary_round_nonzero.
Qed.

(** ** Works: the derived bookmark rate *)

Lemma truthy_number_nonzero (b : json) :
  truthy b = true ->
  match as_number b with
  | Some (NInt y) => y <> 0
  | Some (NFloat y) => SFeqb y float_zero = false
  | None => True
  end.
Proof.
  destruct b as [|[]|n|f| | |]; simpl; try done.
  - intros H%negb_true_iff. by apply Z.eqb_neq.
  - by intros H%negb_true_iff.
Qed.

(** A truthy divisor is never a zero divisor. *)
Lemma truediv_truthy (a b : json) :
  truthy b = true -> truediv a b <> Raise ZeroDivisionError.
Proof.
  intros Hb%truthy_number_nonzero. unfold truediv.
  destruct (as_number a) as [[x|x]|], (as_number b) as [[y|y]|]; try done.
  - unfold int_truediv. destruct y; [done|..];
      destruct x; try done; unfold finite_or_overflow;
      by destruct (is_infinity _).
  - destruct (float_of_int x) as [fx|e] eqn:Hx; simpl.
    + unfold float_truediv. by rewrite Hb.
    + unfold float_of_int, finite_or_overflow in Hx.
      destruct (is_infinity _); congruence.
  - destruct (float_of_int y) as [fy|e] eqn:Hy; simpl.
    + unfold float_truediv. by rewrite (float_of_int_nonzero y fy).
    + unfold float_of_int, finite_or_overflow in Hy.
      destruct (is_infinity _); congruence.
  - unfold float_truediv. by rewrite Hb.
Qed.

(** C10: deriving the bookmark rate never divides by zero, whatever the
    JSON value: the quotient is taken only when both counts are truthy.
    When [total_bookmarks] or [total_view] is falsy (zero, [None], or
    absent, which [get] reads as [None]), the rate is [None] and nothing is
    raised. *)
Theorem bookmark_rate_never_divides_by_zero (j : json) :
  derive_bookmark_rate j <> Raise ZeroDivisionError /\
  (forall total_bookmarks total_view,
     dict_get j "total_bookmarks" = Ok total_bookmarks ->
     dict_get j "total_view" = Ok total_view ->
     truthy total_bookmarks = false \/ truthy total_view = false ->
     derive_bookmark_rate j = Ok None).
Proof.
  unfold derive_bookmark_rate. destruct j; try (split; [done|intros; done]).
  simpl. split.
  - destruct (truthy (default JNull (assoc "total_bookmarks" d))) eqn:Hb;
      simpl; [|done].
    destruct (truthy (default JNull (assoc "total_view" d))) eqn:Hv;
      simpl; [|done].
    destruct (assoc "total_bookmarks" d) as [b|]; [|done].
    destruct (assoc "total_view" d) as [v|]; [|done]. simpl in *.
    pose proof (truediv_truthy b v Hv).
    by destruct (truediv b v) as [q|[]].
  - intros b v [= <-] [= <-] [H|H]; rewrite ?H; simpl; [done|].
    destruct (truthy (default JNull (assoc "total_bookmarks" d)));
      simpl; by rewrite ?H.
Qed.

Lemma bookmark_rate_never_divides_by_zero_witness :
  dict_get sample_unseen_json "total_bookmarks" = Ok (JInt 5) /\
  dict_get sample_unseen_json "total_view" = Ok (JInt 0) /\
  derive_bookmark_rate sample_unseen_json = Ok None.
Proof.
  split; [reflexivity|]. split; [reflexivity|].
  apply (proj2 (bookmark_rate_never_divides_by_zero sample_unseen_json)
           (JInt 5) (JInt 0)); [reflexivity|reflexivity|].
  right. reflexivity.
Defined.

Lemma delay_round_trip_witness :
  frame_delays sample_ugoira_json = Ok (JInt <$> [30; 45]) /\
  exists ug,
    deref (ugoiras (session (flush initial_state)))
      (Transient (Ugoira.mk 7 (JStr "30 45") (JStr "https://i.pximg.net/7.zip")
                    [JInt 30; JInt 45])) = Ok ug /\
    Ugoira.delay_text ug = JStr (join " " (str_of_int <$> [30; 45])) /\
    Ugoira_delay ug = Ok (JInt <$> [30; 45], ug) /\
    Ugoira_delay (Ugoira.set__delay [] ug) = Ok (JInt <$> [30; 45], ug).
Proof.
  split; [reflexivity|].
  apply (delay_round_trip [30; 45] 7 sample_ugoira_json false initial_state);
    reflexivity.
Defined.

(** ** Sessions of [get_session] *)

Lemma step_patched {D} (x : Bound D) (o : op D) :
  patched (object x) ->
  patched (object (step x o)) /\ database (step x o) = database x.
Proof.
  intros (Ha & Hf & Hc & Ht). destruct x as [db s]. simpl in *.
  destruct o; simpl; unfold call_flush, call_commit; simpl;
    rewrite ?Ha, ?Hf, ?Hc; simpl; unfold patched; simpl; auto.
Qed.

Lemma steps_patched {D} (body : list (op D)) (x : Bound D) :
  patched (object x) ->
  patched (object (foldl step x body)) /\
  database (foldl step x body) = database x.
Proof.
  revert x. induction body as [|o body IH]; intros x Hx; simpl; [done|].
  destruct (step_patched x o Hx) as [Hp Hd].
  destruct (IH _ Hp) as [Hp' Hd']. split; [done|]. by rewrite Hd'.
Qed.

(** C9: in a session obtained from [get_session(readonly=True)], [flush]
    and [commit] return without doing anything; whatever is done through
    the session (changes to its objects, queries, flushes, commits,
    rollbacks, in any number and order), the database holds what it held
    before, at every point of the block and once the block is left,
    whether the block raised or not; a change is taken into the session
    without an error.  In particular the query the dashboard runs for
    [tags_like] leaves the database as it was. *)
Theorem readonly_session_never_persists {D} (body : list (op D)) (raises : bool)
    (db : D) :
  let s := yielded_session true in
  call_flush (mkBound db s) = mkBound db s /\
  call_commit (mkBound db s) = mkBound db s /\
  (forall f, pending (object (step (mkBound db s) (Change f))) = [f]) /\
  (forall n, database (foldl step (mkBound db s) (take n body)) = db) /\
  get_session true body raises db = db /\
  websocket_handler_tags_like db = db.
Proof.
  assert (Hp : patched (@yielded_session D true)) by (by repeat split).
  simpl. split_and!; try reflexivity.
  - intros n. by destruct (steps_patched (take n body) (mkBound db _) Hp).
  - unfold get_session.
    destruct (steps_patched body (mkBound db _) Hp) as [_ Hd].
    by destruct raises.
Qed.

(** For contrast: a session of [get_session(readonly=False)] persists a
    change once it commits, and loses it when the block is left without a
    commit. *)
Lemma readwrite_session_commits {D} (f : D -> D) (db : D) :
  get_session false [Change f; Commit] false db = f db /\
  get_session false [Change f; Flush] false db = db.
Proof. split; reflexivity. Qed.

(** ** WorksLocal *)

Lemma indices_shift {A} (p : A -> bool) (i : nat) (l : list A) :
  indices p (S i) l = S <$> indices p i l.
Proof.
  revert i. induction l as [|x l IH]; intros i; simpl; [done|].
  destruct (p x); by rewrite IH.
Qed.

Lemma indices_nil {A} (p : A -> bool) (i : nat) (l : list A) :
  indices p i l = [] <-> Forall (fun x => p x = false) l.
Proof.
  revert i. induction l as [|x l IH]; intros i; simpl; [by split|].
  destruct (p x) eqn:Hx.
  - split; [done|]. inversion 1; congruence.
  - rewrite IH. split; [by constructor | by inversion 1].
Qed.

(** With unique keys a query by key finds the row that has the key. *)
Lemma indices_unique {A} (key : A -> Z) (k : Z) (l : list A) (i : nat) (r : A) :
  NoDup (key <$> l) -> l !! i = Some r -> key r = k ->
  indices (fun x => key x =? k) 0 l = [i].
Proof.
  revert i. induction l as [|x l IH]; intros i Hnd Hi Hk; [done|].
  rewrite fmap_cons in Hnd. apply NoDup_cons in Hnd as [Hx Hnd]. simpl.
  destruct i as [|i]; simpl in Hi.
  - injection Hi as ->. rewrite Hk, Z.eqb_refl. f_equal.
    rewrite indices_nil. apply Forall_forall. intros y Hy.
    apply Z.eqb_neq. intros Hyk. apply Hx. rewrite Hk, <- Hyk.
    apply list_elem_of_fmap. eauto.
  - destruct (key x =? k) eqn:Hxk.
    + apply Z.eqb_eq in Hxk. exfalso. apply Hx. rewrite Hxk, <- Hk.
      apply list_elem_of_fmap. exists r. split; [done|].
      by eapply list_elem_of_lookup_2.
    + rewrite indices_shift, (IH i) by done. done.
Qed.

Lemma one_or_none_unique {A} (key : A -> Z) (k : Z) (l : list A) (i : nat) (r : A) :
  NoDup (key <$> l) -> l !! i = Some r -> key r = k ->
  one_or_none (fun x => key x =? k) l = Ok (Some i).
Proof. intros. unfold one_or_none. by erewrite indices_unique. Qed.

Lemma one_or_none_absent {A} (key : A -> Z) (k : Z) (l : list A) :
  k ∉ key <$> l -> one_or_none (fun x => key x =? k) l = Ok None.
Proof.
  intros Hk. unfold one_or_none.
  replace (indices _ 0 l) with (@nil nat); [done|]. symmetry.
  apply indices_nil, Forall_forall. intros x Hx. apply Z.eqb_neq.
  intros <-. apply Hk. apply list_elem_of_fmap. eauto.
Qed.

Lemma one_or_none_Some {A} (p : A -> bool) (l : list A) (i : nat) :
  one_or_none p l = Ok (Some i) -> exists r, l !! i = Some r /\ p r = true.
Proof.
  unfold one_or_none.
  assert (H : forall j n, indices p n l !! 0%nat = Some j ->
            exists r, l !! (j - n)%nat = Some r /\ p r = true /\ (n <= j)%nat).
  { induction l as [|x l IH]; intros j n; simpl; [done|].
    destruct (p x) eqn:Hx.
    - intros [= <-]. rewrite Nat.sub_diag. eauto.
    - intros (r & Hr & Hp & Hle)%IH.
      exists r. replace (j - n)%nat with (S (j - S n)) by lia. split_and!; [done..|lia]. }
  destruct (indices p 0 l) as [|j [|]] eqn:Hi; try done.
  intros [= <-]. destruct (H j 0%nat) as (r & Hr & Hp & _); [by rewrite Hi|].
  rewrite Nat.sub_0_r in Hr. eauto.
Qed.

Lemma one_or_none_None {A} (p : A -> bool) (l : list A) :
  one_or_none p l = Ok None -> Forall (fun x => p x = false) l.
Proof.
  unfold one_or_none. destruct (indices p 0 l) as [|j [|]] eqn:Hi; try done.
  intros _. by apply indices_nil in Hi.
Qed.

Lemma works_local_flush st :
  works_local (session (flush st))
  = (flush_works_local (works_local (session st))
       (next_works_local_id (session st))).1.
Proof.
  unfold flush. destruct (flush_tags _ _ _), (flush_works_local _ _),
    (flush_users _ _ _). reflexivity.
Qed.

Lemma flush_works_local_keys l n :
  WorksLocal.works_id <$> (flush_works_local l n).1 = WorksLocal.works_id <$> l.
Proof.
  revert n. induction l as [|r l IH]; intros n; simpl; [done|].
  destruct (WorksLocal.local_id r).
  - specialize (IH n). destruct (flush_works_local l n). simpl in *.
    f_equal. exact IH.
  - specialize (IH (n + 1)). destruct (flush_works_local l (n + 1)). simpl in *.
    f_equal. exact IH.
Qed.

(** Flushing gives every row a [local_id] and changes no [local_id] that
    is already there. *)
Lemma flush_works_local_lookup l n i r :
  l !! i = Some r ->
  exists r', (flush_works_local l n).1 !! i = Some r' /\
    WorksLocal.works_id r' = WorksLocal.works_id r /\
    is_Some (WorksLocal.local_id r') /\
    (forall k, WorksLocal.local_id r = Some k -> WorksLocal.local_id r' = Some k).
Proof.
  revert n i. induction l as [|x l IH]; intros n i Hi; [done|]. simpl.
  destruct (WorksLocal.local_id x) eqn:Hx.
  - specialize (IH n). destruct (flush_works_local l n) as [l' n'].
    destruct i as [|i]; simpl in *.
    + injection Hi as ->. exists r. rewrite Hx. eauto.
    + by apply IH.
  - specialize (IH (n + 1)). destruct (flush_works_local l (n + 1)) as [l' n'].
    destruct i as [|i]; simpl in *.
    + injection Hi as ->. eexists. split; [done|]. simpl. rewrite Hx.
      split_and!; [done|by eexists|done].
    + by apply IH.
Qed.

Lemma works_local_keys_flush st : works_local_keys (flush st) = works_local_keys st.
Proof.
  unfold works_local_keys. by rewrite works_local_flush, flush_works_local_keys.
Qed.

(** C6: [WorksLocal.create_if_not_exist] keeps one insertion-order record
    per work.  In a session whose records have distinct [works_id]s:
    on the first sighting of [works_id] the call adds one record for it
    and returns it; when a record for [works_id] is there, at whatever
    position, the call returns that record, adds none, and the flush of
    its query leaves the record's [local_id] as it was if it had one.
    Either way the [works_id]s stay distinct, so there is never a second
    record for the work. *)
Theorem create_if_not_exist_once (works_id : Z) (st : State) :
  NoDup (works_local_keys st) ->
  (works_id ∉ works_local_keys st ->
   exists st1,
     WorksLocal_create_if_not_exist works_id st
     = Ok (length (works_local (session st)), st1) /\
     works_local (session st1)
     = works_local (session (flush st)) ++ [WorksLocal.mk None works_id] /\
     NoDup (works_local_keys st1)) /\
  (forall i r,
     works_local (session st) !! i = Some r ->
     WorksLocal.works_id r = works_id ->
     WorksLocal_create_if_not_exist works_id st = Ok (i, flush st) /\
     length (works_local (session (flush st))) = length (works_local (session st)) /\
     NoDup (works_local_keys (flush st)) /\
     exists r', works_local (session (flush st)) !! i = Some r' /\
       WorksLocal.works_id r' = works_id /\
       is_Some (WorksLocal.local_id r') /\
       (forall k, WorksLocal.local_id r = Some k -> WorksLocal.local_id r' = Some k)).
Proof.
  intros Hnd. split.
  - intros Hnew. unfold WorksLocal_create_if_not_exist.
    exists (set_session
              (set_works_local
                 (works_local (session (flush st)) ++ [WorksLocal.mk None works_id])
                 (next_works_local_id (session (flush st))) (session (flush st)))
              (flush st)).
    split_and!.
    + unfold bind at 1.
      rewrite (proj2 (query_one_or_none_Ok works_local _ st None (flush st))).
      * cbn. unfold ret. do 2 f_equal.
        pose proof (f_equal length (works_local_keys_flush st)) as Hl.
        unfold works_local_keys in Hl. by rewrite !length_fmap in Hl.
      * split; [done|]. apply one_or_none_absent.
        fold (works_local_keys (flush st)). by rewrite works_local_keys_flush.
    + reflexivity.
    + unfold works_local_keys.
      cbn [works_local session set_session set_works_local].
      rewrite fmap_app. fold (works_local_keys (flush st)).
      rewrite works_local_keys_flush.
      apply NoDup_app. split_and!; [done| |apply NoDup_singleton].
      intros x Hx ->%list_elem_of_singleton. done.
  - intros i r Hi Hr.
    destruct (flush_works_local_lookup _ (next_works_local_id (session st)) _ _ Hi)
      as (r' & Hi' & Hk & Hsome & Hkeep).
    rewrite <- works_local_flush in Hi'.
    split_and!.
    + unfold WorksLocal_create_if_not_exist, bind.
      rewrite (proj2 (query_one_or_none_Ok works_local _ st (Some i) (flush st)));
        [done|].
      split; [done|].
      apply (one_or_none_unique WorksLocal.works_id works_id _ i r');
        [|done|congruence].
      fold (works_local_keys (flush st)). by rewrite works_local_keys_flush.
    + pose proof (f_equal length (works_local_keys_flush st)) as Hl.
      unfold works_local_keys in Hl. by rewrite !length_fmap in Hl.
    + by rewrite works_local_keys_flush.
    + exists r'. split_and!; [done|congruence|done|done].
Qed.

(** ** Works: what [from_json] assigns *)

Lemma throw_Ok {A} e st (r : A * State) : throw e st = Ok r -> False.
Proof. done. Qed.

Lemma modify_session_Ok f st u st' :
  modify_session f st = Ok (u, st') <-> st' = set_session (f (session st)) st.
Proof. unfold modify_session. by rewrite modify_Ok. Qed.

Lemma dict_setattr_app {A} (f : A -> string -> attr -> M A) w d1 d2 st :
  dict_setattr f w (d1 ++ d2) st
  = bind (dict_setattr f w d1) (fun w' => dict_setattr f w' d2) st.
Proof.
  revert w st. induction d1 as [|[k v] d1 IH]; intros w st; simpl.
  - reflexivity.
  - unfold bind. destruct (f w k v st) as [[w1 st1]|e]; [|done].
    specialize (IH w1 st1). unfold bind in IH. exact IH.
Qed.

(** The ten items of the literal assign the ten columns. *)
Lemma dict_setattr_columns w0 st id a ty ti pc tv tb ib rate date :
  dict_setattr setattr_Works w0
    [("works_id", AId id); ("author_id", AVal a); ("works_type", AVal ty);
     ("title", AVal ti); ("page_count", AVal pc); ("total_views", AVal tv);
     ("total_bookmarks", AVal tb); ("is_bookmarked", AVal ib);
     ("bookmark_rate", AFloat rate); ("create_date", ADate date)] st
  = Ok (Works.mk id a ty ti pc tv tb ib (Works.is_downloaded w0) rate date
          (Works.insert_date w0) (Works.tags w0) (Works.persistent w0), st).
Proof. reflexivity. Qed.

(** Assigning a relationship leaves the columns and the table of works
    alone. *)
Lemma setattr_Works_relationship w k v st w' st' :
  relationship_item (k, v) ->
  setattr_Works w k v st = Ok (w', st') ->
  w' = Works.set_tags (assigned_tags [(k, v)] (Works.tags w)) w.
Proof.
  destruct v; try done; intros _; simpl;
    destruct (String.eqb k _); try done.
  - intros [= <- <-]. by destruct w.
  - intros H. apply bind_Ok in H as ([] & ? & ->%modify_session_Ok & [= <- <-]).
    by destruct w.
  - intros H. apply bind_Ok in H as ([] & ? & ->%modify_session_Ok & [= <- <-]).
    by destruct w.
  - intros H. apply bind_Ok in H as ([] & ? & ->%modify_session_Ok & [= <- <-]).
    by destruct w.
Qed.

Lemma dict_setattr_relationships w ext st w' st' :
  Forall relationship_item ext ->
  dict_setattr setattr_Works w ext st = Ok (w', st') ->
  w' = Works.set_tags (assigned_tags ext (Works.tags w)) w.
Proof.
  intros Hext. revert w st. induction Hext as [|[k v] ext Hkv Hext IH];
    intros w st; simpl.
  - intros [= <- <-]. by destruct w.
  - intros H. apply bind_Ok in H as (w1 & st1 & H1 & H).
    pose proof (setattr_Works_relationship _ _ _ _ _ _ Hkv H1) as E1.
    rewrite (IH _ _ H), E1. destruct v; try done; by destruct w.
Qed.

Lemma assigned_tags_items oc lt li ou cur :
  assigned_tags
    (caption_item oc ++ tags_item lt ++ image_urls_item li ++ ugoira_item ou) cur
  = match lt with [] => cur | _ => lt end.
Proof. by destruct oc, lt, li, ou. Qed.

Lemma Works_columns_Ok j rate date base :
  Works_columns j rate date = Ok base ->
  exists id a ty ti pc tv tb ib,
    (do v <- getitem j "id"; as_id v) = Ok id /\
    (do u <- getitem j "user"; getitem u "id") = Ok a /\
    dict_get j "type" = Ok ty /\ dict_get j "title" = Ok ti /\
    dict_get j "page_count" = Ok pc /\ dict_get j "total_view" = Ok tv /\
    dict_get j "total_bookmarks" = Ok tb /\ dict_get j "is_bookmarked" = Ok ib /\
    base = [("works_id", AId id); ("author_id", AVal a); ("works_type", AVal ty);
            ("title", AVal ti); ("page_count", AVal pc); ("total_views", AVal tv);
            ("total_bookmarks", AVal tb); ("is_bookmarked", AVal ib);
            ("bookmark_rate", AFloat rate); ("create_date", ADate date)].
Proof.
  unfold Works_columns. intros H.
  apply rbind_Ok in H as (id & Hid & H). apply rbind_Ok in H as (a & Ha & H).
  apply rbind_Ok in H as (ty & Hty & H). apply rbind_Ok in H as (ti & Hti & H).
  apply rbind_Ok in H as (pc & Hpc & H). apply rbind_Ok in H as (tv & Htv & H).
  apply rbind_Ok in H as (tb & Htb & H). apply rbind_Ok in H as (ib & Hib & H).
  injection H as <-. by exists id, a, ty, ti, pc, tv, tb, ib.
Qed.

(** ** Frames *)

Global Instance keeps_refl {B} (proj : State -> B) : Reflexive (keeps proj).
Proof. by intros st. Qed.

Global Instance keeps_trans {B} (proj : State -> B) : Transitive (keeps proj).
Proof. unfold keeps. intros st1 st2 st3 H1 H2. congruence. Qed.

Section Preserves.
Context (R : State -> State -> Prop) `{!Reflexive R, !Transitive R}.

Lemma preserves_ret {A} (a : A) : preserves R (ret a).
Proof. intros st b st' [-> ->]%ret_Ok. reflexivity. Qed.

Lemma preserves_lift {A} (r : result A) : preserves R (lift r).
Proof. intros st b st' [_ ->]%lift_Ok. reflexivity. Qed.

Lemma preserves_throw {A} e : preserves R (@throw A e).
Proof. intros st b st' []%throw_Ok. Qed.

Lemma preserves_get : preserves R get.
Proof. intros st b st' [-> ->]%get_Ok. reflexivity. Qed.

Lemma preserves_bind {A B} (m : M A) (k : A -> M B) :
  preserves R m -> (forall a, preserves R (k a)) -> preserves R (bind m k).
Proof.
  intros Hm Hk st b st' (a & st1 & H1 & H2)%bind_Ok.
  transitivity st1; [by eapply Hm | by eapply Hk].
Qed.

Lemma preserves_modify (f : State -> State) :
  (forall st, R st (f st)) -> preserves R (modify f).
Proof. intros Hf st b st' ->%modify_Ok. apply Hf. Qed.

Lemma preserves_modify_session (f : Session -> Session) :
  (forall st, R st (set_session (f (session st)) st)) ->
  preserves R (modify_session f).
Proof. intros Hf st b st' ->%modify_session_Ok. apply Hf. Qed.

Lemma preserves_when (c : bool) (m : M unit) :
  preserves R m -> preserves R (when c m).
Proof. destruct c; [done|]. intros _. apply preserves_ret. Qed.

Lemma preserves_query {A} (table : Session -> list A) p :
  (forall st, R st (flush st)) -> preserves R (query_one_or_none table p).
Proof. intros Hf st o st' [-> _]%query_one_or_none_Ok. apply Hf. Qed.

Lemma preserves_mapM_state {A B} (f : A -> M B) (l : list A) :
  (forall x, preserves R (f x)) -> preserves R (mapM_state f l).
Proof.
  intros Hf. induction l as [|x l IH]; simpl.
  - apply preserves_ret.
  - apply preserves_bind; [done|]. intros y.
    apply preserves_bind; [done|]. intros ys. apply preserves_ret.
Qed.

Lemma preserves_dict_setattr {A} (f : A -> string -> attr -> M A) w d :
  (forall w k v, preserves R (f w k v)) -> preserves R (dict_setattr f w d).
Proof.
  intros Hf. revert w. induction d as [|[k v] d IH]; intros w; simpl.
  - apply preserves_ret.
  - apply preserves_bind; [done|]. intros w'. apply IH.
Qed.

End Preserves.

(** One step of a frame proof: split a sequence, or case on what a
    conditional tests. *)
Ltac frame_step :=
  first
    [ apply preserves_ret; solve [typeclasses eauto]
    | apply preserves_lift; solve [typeclasses eauto]
    | apply preserves_get; solve [typeclasses eauto]
    | apply preserves_throw
    | apply preserves_when; [typeclasses eauto | ]
    | apply preserves_bind; [typeclasses eauto | | intros ?]
    | match goal with
      | |- preserves _ (match ?x with _ => _ end) => destruct x
      | |- preserves _ (let (_, _) := ?x in _) => destruct x
      end ].

Ltac frame := repeat frame_step.

(** *** What each method can change *)

Section MethodFrames.
Context (R : State -> State -> Prop) `{!Reflexive R, !Transitive R}.
Hypothesis R_flush : forall st, R st (flush st).

Lemma preserves_flush : preserves R (modify flush).
Proof. by apply preserves_modify. Qed.

Lemma WorksCaption_get_by_id_preserves works_id :
  preserves R (WorksCaption_get_by_id works_id false).
Proof.
  unfold WorksCaption_get_by_id.
  apply preserves_bind; [done|by apply preserves_query|]. intros [i|]; frame.
Qed.

Lemma assign_caption_text_preserves o v :
  (forall t st, R st (with_works_captions t st)) ->
  preserves R (assign_caption_text o v).
Proof.
  intros Hc. unfold assign_caption_text. destruct o; frame.
  apply preserves_modify_session. intros st. apply Hc.
Qed.

Lemma query_tag_preserves t_name : preserves R (query_tag t_name).
Proof. unfold query_tag. frame. apply preserves_flush. Qed.

Lemma resolve_tag_preserves language cache t_name t_translate :
  (forall h st, R st (set_heap h st)) ->
  (forall t n st, R st (with_tags t n st)) ->
  preserves R (resolve_tag language cache t_name t_translate).
Proof.
  intros Hh Ht. unfold resolve_tag, new_tag, session_add_tag, update_tag.
  frame; try apply query_tag_preserves; try apply preserves_flush;
    try (apply preserves_modify; intros; apply Hh);
    try (apply preserves_modify_session; intros; apply Ht).
Qed.

Lemma from_tags_loop_preserves language tags _tags cache r :
  (forall h st, R st (set_heap h st)) ->
  (forall t n st, R st (with_tags t n st)) ->
  preserves R (from_tags_loop language tags _tags cache r).
Proof.
  intros Hh Ht. revert _tags cache r.
  induction tags as [|_t tags IH]; intros _tags cache r;
    cbn [from_tags_loop]; frame;
    try apply IH; try apply preserves_flush;
    try (apply preserves_modify; intros; apply Hh);
    try (apply preserves_modify_session; intros; apply Ht).
Qed.

Lemma Tag_from_tags_json_preserves tags language cache :
  (forall h st, R st (set_heap h st)) ->
  (forall t n st, R st (with_tags t n st)) ->
  preserves R (Tag_from_tags_json tags language cache).
Proof.
  intros Hh Ht. unfold Tag_from_tags_json. frame.
  by apply from_tags_loop_preserves.
Qed.

Lemma WorksImageURLs_get_by_id_preserves works_id page :
  preserves R (WorksImageURLs_get_by_id works_id page true false).
Proof.
  unfold WorksImageURLs_get_by_id.
  apply preserves_bind; [done|by apply preserves_query|]. intros [i|]; frame.
Qed.

Lemma assign_urls_preserves o a b c d :
  (forall t st, R st (with_works_image_urls t st)) ->
  preserves R (assign_urls o a b c d).
Proof.
  intros Hi. unfold assign_urls. destruct o as [[i|row]|]; frame.
  apply preserves_modify_session. intros st. apply Hi.
Qed.

Lemma image_urls_loop_preserves j page meta_pages :
  (forall t st, R st (with_works_image_urls t st)) ->
  preserves R (image_urls_loop j false page meta_pages).
Proof.
  intros Hi. revert page.
  induction meta_pages as [|u rest IH]; intros page;
    cbn [image_urls_loop]; frame;
    try apply IH; try apply preserves_flush;
    try (by apply assign_urls_preserves);
    try (apply preserves_modify_session; intros; apply Hi).
Qed.

Lemma WorksImageURLs_from_works_json_preserves j :
  (forall t st, R st (with_works_image_urls t st)) ->
  preserves R (WorksImageURLs_from_works_json j false).
Proof.
  intros Hi. unfold WorksImageURLs_from_works_json. frame;
    try (by apply image_urls_loop_preserves);
    try apply preserves_flush;
    try (by apply assign_urls_preserves);
    try (apply preserves_modify_session; intros; apply Hi).
Qed.

Lemma setattr_Ugoira_preserves ug k v : preserves R (setattr_Ugoira ug k v).
Proof. unfold setattr_Ugoira. destruct v; frame. Qed.

Lemma Ugoira_from_json_preserves works_id ugoira_json :
  (forall t st, R st (with_ugoiras t st)) ->
  preserves R (Ugoira_from_json works_id ugoira_json false).
Proof.
  intros Hu. unfold Ugoira_from_json. frame;
    try apply preserves_flush;
    try (apply preserves_dict_setattr; [done..|apply setattr_Ugoira_preserves]);
    try (apply preserves_modify_session; intros; apply Hu).
Qed.

End MethodFrames.

(** *** What [Works.from_json] can change *)

Lemma preserves_bind_lift (R : State -> State -> Prop) `{!Reflexive R}
    {A B} (r : result A) (k : A -> M B) :
  (forall a, r = Ok a -> preserves R (k a)) -> preserves R (bind (lift r) k).
Proof.
  intros Hk st b st' H. apply bind_Ok in H as (a & st1 & H1 & H2).
  apply lift_Ok in H1 as [Hr ->]. by eapply Hk.
Qed.

Lemma setattr_Works_preserves (R : State -> State -> Prop)
    `{!Reflexive R, !Transitive R} w k v :
  (forall o, v = ACaption o -> forall t st, R st (with_works_captions t st)) ->
  (forall l, v = AImageURLs l -> forall t st, R st (with_works_image_urls t st)) ->
  (forall o, v = AUgoira o -> forall t st, R st (with_ugoiras t st)) ->
  preserves R (setattr_Works w k v).
Proof.
  intros Hc Hi Hu. unfold setattr_Works.
  destruct v;
    repeat match goal with
           | |- preserves _ (if ?c then _ else _) => destruct c
           end;
    try (by apply preserves_ret); try apply preserves_throw;
    (apply preserves_bind; [done| |intros; by apply preserves_ret]);
    apply preserves_modify_session; intros st.
  - by eapply Hc.
  - by eapply Hi.
  - by eapply Hu.
Qed.

Lemma dict_setattr_Works_preserves (R : State -> State -> Prop)
    `{!Reflexive R, !Transitive R} w kv :
  (forall k o, (k, ACaption o) ∈ kv -> forall t st, R st (with_works_captions t st)) ->
  (forall k l, (k, AImageURLs l) ∈ kv ->
     forall t st, R st (with_works_image_urls t st)) ->
  (forall k o, (k, AUgoira o) ∈ kv -> forall t st, R st (with_ugoiras t st)) ->
  preserves R (dict_setattr setattr_Works w kv).
Proof.
  revert w. induction kv as [|[k v] kv IH]; intros w Hc Hi Hu; simpl.
  - by apply preserves_ret.
  - apply preserves_bind; [done| |].
    + apply setattr_Works_preserves; [done|done|..].
      * intros o ->. eapply Hc. left.
      * intros l ->. eapply Hi. left.
      * intros o ->. eapply Hu. left.
    + intros w'. apply IH.
      * intros k' o Ho. eapply Hc. right. exact Ho.
      * intros k' l Hl. eapply Hi. right. exact Hl.
      * intros k' o Ho. eapply Hu. right. exact Ho.
Qed.

Lemma Works_upsert_preserves (R : State -> State -> Prop)
    `{!Reflexive R, !Transitive R} kv :
  (forall st, R st (flush st)) ->
  (forall t st, R st (with_works t st)) ->
  (forall k o, (k, ACaption o) ∈ kv -> forall t st, R st (with_works_captions t st)) ->
  (forall k l, (k, AImageURLs l) ∈ kv ->
     forall t st, R st (with_works_image_urls t st)) ->
  (forall k o, (k, AUgoira o) ∈ kv -> forall t st, R st (with_ugoiras t st)) ->
  preserves R (Works_upsert kv).
Proof.
  intros Hf Hw Hc Hi Hu. unfold Works_upsert. frame;
    try (by apply preserves_flush);
    try (by apply dict_setattr_Works_preserves);
    apply preserves_modify_session; intros; apply Hw.
Qed.

Lemma Works_from_json_kv_preserves (R : State -> State -> Prop)
    `{!Reflexive R, !Transitive R} iso j language ugoira_json cache :
  (forall st, R st (flush st)) ->
  (forall h st, R st (set_heap h st)) ->
  (forall t n st, R st (with_tags t n st)) ->
  (forall t st, R st (with_works_image_urls t st)) ->
  (forall caption, dict_get j "caption" = Ok caption -> truthy caption = true ->
     forall t st, R st (with_works_captions t st)) ->
  (truthy ugoira_json = true -> forall t st, R st (with_ugoiras t st)) ->
  preserves R (Works_from_json_kv iso j language ugoira_json cache).
Proof.
  intros Hf Hh Ht Hi Hc Hu. unfold Works_from_json_kv.
  apply preserves_bind_lift; [done|]. intros caption Hcap.
  apply preserves_bind; [done| |intros _caption].
  { destruct (truthy caption) eqn:Hcap'; frame.
    - by apply preserves_flush.
    - apply assign_caption_text_preserves; [done..|]. by eapply Hc. }
  apply preserves_bind; [done|frame|intros].
  apply preserves_bind; [done|frame|intros].
  apply preserves_bind; [done| |intros [_tags tags_cache]].
  { match goal with
    | |- preserves _ (if truthy ?x then _ else _) => destruct (truthy x)
    end; frame.
    by apply from_tags_loop_preserves. }
  apply preserves_bind; [done|frame|intros].
  apply preserves_bind; [done|frame|intros].
  apply preserves_bind; [done| |intros].
  { by apply WorksImageURLs_from_works_json_preserves. }
  apply preserves_bind; [done|frame|intros].
  apply preserves_bind; [done| |intros; by apply preserves_ret].
  destruct (truthy ugoira_json) eqn:Hug; [|by apply preserves_ret].
  apply preserves_bind; [done|by apply preserves_lift|intros id].
  apply preserves_bind; [done| |intros; by apply preserves_ret].
  apply Ugoira_from_json_preserves; [done..|]. by apply Hu.
Qed.

(** The dictionary [kv]: the ten columns, then the guarded items. *)
Lemma Works_from_json_kv_Ok iso j language ugoira_json c st kv c' st' :
  Works_from_json_kv iso j language ugoira_json c st = Ok ((kv, c'), st') ->
  exists rate date base oc lt li ou tg,
    derive_bookmark_rate j = Ok rate /\
    Works_columns j rate date = Ok base /\
    kv = base ++ caption_item oc ++ tags_item lt ++ image_urls_item li
           ++ ugoira_item ou /\
    (forall cap, dict_get j "caption" = Ok cap -> truthy cap = false -> oc = None) /\
    dict_get j "tags" = Ok tg /\
    (truthy tg = false -> lt = [] /\ c' = c) /\
    (truthy ugoira_json = false -> ou = None) /\
    (forall cd, dict_get j "create_date" = Ok cd -> truthy cd = false ->
       date = None).
Proof.
  unfold Works_from_json_kv. intros H.
  apply bind_Ok in H as (cap & ? & [Hcap ->]%lift_Ok & H).
  apply bind_Ok in H as (oc & st1 & Hoc & H).
  apply bind_Ok in H as (rate & ? & [Hrate ->]%lift_Ok & H).
  apply bind_Ok in H as (tg & ? & [Htg ->]%lift_Ok & H).
  apply bind_Ok in H as ([lt c1] & st2 & Hlt & H).
  apply bind_Ok in H as (cd & ? & [Hcd ->]%lift_Ok & H).
  apply bind_Ok in H as (date & st3 & Hdate & H).
  apply bind_Ok in H as (li & st4 & Hli & H).
  apply bind_Ok in H as (base & ? & [Hbase ->]%lift_Ok & H).
  apply bind_Ok in H as (ou & st5 & Hou & H).
  apply ret_Ok in H as [[= -> ->] ->].
  exists rate, date, base, oc, lt, li, ou, tg.
  split_and!; try done.
  - by rewrite <- !app_assoc.
  - intros cap' Hcap' Hf. rewrite Hcap in Hcap'. injection Hcap' as <-.
    rewrite Hf in Hoc. by apply ret_Ok in Hoc as [-> _].
  - intros Hf. rewrite Hf in Hlt. by apply ret_Ok in Hlt as [[= -> ->] _].
  - intros Hf. rewrite Hf in Hou. by apply ret_Ok in Hou as [-> _].
  - intros cd' Hcd' Hf. rewrite Hcd in Hcd'. injection Hcd' as <-.
    rewrite Hf in Hdate. by apply ret_Ok in Hdate as [-> _].
Qed.

Lemma kv_id_columns base ext id a ty ti pc tv tb ib rate date :
  base = [("works_id", AId id); ("author_id", AVal a); ("works_type", AVal ty);
          ("title", AVal ti); ("page_count", AVal pc); ("total_views", AVal tv);
          ("total_bookmarks", AVal tb); ("is_bookmarked", AVal ib);
          ("bookmark_rate", AFloat rate); ("create_date", ADate date)] ->
  kv_id "works_id" (base ++ ext) = Ok id.
Proof. by intros ->. Qed.

Lemma relationship_items oc lt li ou :
  Forall relationship_item
    (caption_item oc ++ tags_item lt ++ image_urls_item li ++ ugoira_item ou).
Proof.
  repeat apply Forall_app_2;
    [destruct oc|destruct lt|destruct li|destruct ou]; by repeat constructor.
Qed.

(** [setattr] never touches the table of works. *)
Lemma dict_setattr_Works_works w kv st w' st' :
  dict_setattr setattr_Works w kv st = Ok (w', st') ->
  works (session st') = works (session st).
Proof.
  apply (dict_setattr_Works_preserves (keeps (fun st => works (session st))));
    by intros.
Qed.

(** The two ways out of [Works_upsert]. *)
Lemma Works_upsert_Ok kv st i st' :
  Works_upsert kv st = Ok (i, st') ->
  exists id w0 w st2,
    kv_id "works_id" kv = Ok id /\
    dict_setattr setattr_Works w0 kv (flush st) = Ok (w, st2) /\
    works (session st') !! i = Some w /\
    ((one_or_none (fun w => Works.works_id w =? id) (works (session (flush st)))
      = Ok None /\
      w0 = blank_Works /\ i = length (works (session (flush st))) /\
      st' = with_works (works (session st2) ++ [w]) st2) \/
     (one_or_none (fun w => Works.works_id w =? id) (works (session (flush st)))
      = Ok (Some i) /\
      works (session (flush st)) !! i = Some w0 /\
      st' = with_works (<[i := w]> (works (session st2))) st2)).
Proof.
  unfold Works_upsert. intros H.
  apply bind_Ok in H as (id & ? & [Hid ->]%lift_Ok & H).
  apply bind_Ok in H as (q & ? & [-> Hq]%query_one_or_none_Ok & H).
  destruct q as [i0|].
  - apply bind_Ok in H as (? & ? & [-> ->]%get_Ok & H).
    apply bind_Ok in H as (w0 & ? & [Hw0 ->]%lift_Ok & H).
    apply bind_Ok in H as (w & st2 & Hw & H).
    apply bind_Ok in H as ([] & ? & ->%modify_session_Ok & H).
    apply ret_Ok in H as [-> ->].
    simpl in Hw0. destruct (works (session (flush st)) !! i0) as [w0'|] eqn:Hi0;
      [|done]. injection Hw0 as ->.
    exists id, w0, w, st2. split_and!; [done..| |right; by split_and!].
    cbn. rewrite list_lookup_insert_eq; [done|].
    rewrite (dict_setattr_Works_works _ _ _ _ _ Hw). by eapply lookup_lt_Some.
  - apply bind_Ok in H as (w & st2 & Hw & H).
    apply bind_Ok in H as (? & ? & [-> ->]%get_Ok & H).
    apply bind_Ok in H as ([] & ? & ->%modify_session_Ok & H).
    apply ret_Ok in H as [-> ->].
    exists id, blank_Works, w, st2.
    split_and!; [done..| |left; split_and!; try done].
    + cbn. by rewrite lookup_app_r, Nat.sub_diag.
    + by rewrite (dict_setattr_Works_works _ _ _ _ _ Hw).
Qed.

Lemma Works_from_json_Ok iso j language ugoira_json tags_cache st i c st' :
  Works_from_json iso j language ugoira_json tags_cache st = Ok ((i, c), st') ->
  exists kv st1,
    Works_from_json_kv iso j language ugoira_json
      (default (tags_cache_default st) tags_cache) st = Ok ((kv, c), st1) /\
    Works_upsert kv
      (match tags_cache with
       | None => set_tags_cache_default c st1
       | Some _ => st1
       end) = Ok (i, st').
Proof.
  unfold Works_from_json. intros H.
  apply bind_Ok in H as (? & ? & [-> ->]%get_Ok & H).
  apply bind_Ok in H as ([kv c1] & st1 & Hkv & H).
  apply bind_Ok in H as ([] & st2 & Hc & H).
  apply bind_Ok in H as (i' & st3 & Hup & H).
  apply ret_Ok in H as [[= -> ->] ->].
  exists kv, st1. split; [done|].
  destruct tags_cache.
  - by apply ret_Ok in Hc as [_ ->].
  - by apply modify_Ok in Hc as ->.
Qed.

(** *** Flushing the works *)

Lemma works_flush st : works (session (flush st)) = flushed_works st.
Proof.
  unfold flush, flushed_works.
  by destruct (flush_tags _ _ _), (flush_works_local _ _), (flush_users _ _ _).
Qed.

Lemma now_flush st : now (session (flush st)) = now (session st).
Proof.
  unfold flush.
  by destruct (flush_tags _ _ _), (flush_works_local _ _), (flush_users _ _ _).
Qed.

Lemma insert_works_idemp n w : insert_works n (insert_works n w) = insert_works n w.
Proof. unfold insert_works. by destruct (Works.persistent w) eqn:E; simpl; rewrite ?E. Qed.

Lemma insert_works_persistent n w :
  Works.persistent w = true -> insert_works n w = w.
Proof. unfold insert_works. by intros ->. Qed.

Lemma insert_works_id n w : Works.works_id (insert_works n w) = Works.works_id w.
Proof. unfold insert_works. by destruct (Works.persistent w). Qed.

Lemma flushed_works_flush st : flushed_works (flush st) = flushed_works st.
Proof.
  unfold flushed_works at 1. rewrite works_flush, now_flush.
  unfold flushed_works. rewrite <- list_fmap_compose.
  apply list_fmap_ext. intros ? w _. simpl. apply insert_works_idemp.
Qed.

Lemma flushed_works_keys st :
  Works.works_id <$> flushed_works st = works_keys st.
Proof.
  unfold flushed_works, works_keys. rewrite <- list_fmap_compose.
  apply list_fmap_ext. intros ? w _. simpl. apply insert_works_id.
Qed.

Lemma Works_from_json_kv_flushed_works iso j language ugoira_json c st r st' :
  Works_from_json_kv iso j language ugoira_json c st = Ok (r, st') ->
  flushed_works st' = flushed_works st.
Proof.
  apply (Works_from_json_kv_preserves (keeps flushed_works)); try by intros.
  intros st0. apply flushed_works_flush.
Qed.

(** The row [Works.from_json] returns: its columns are the ones of [kv],
    read from the JSON; [Works.tags] is the list of resolved tags unless
    that list is empty; what [kv] does not name is as in the row before,
    [w0]: the row that has the key once the session is flushed, or the
    blank object when no row has it. *)
Lemma Works_from_json_row iso j language ugoira_json tags_cache st i c st' :
  Works_from_json iso j language ugoira_json tags_cache st = Ok ((i, c), st') ->
  exists w w0 id a ty ti pc tv tb ib rate date lt tg,
    works (session st') !! i = Some w /\
    (do v <- getitem j "id"; as_id v) = Ok id /\
    (do u <- getitem j "user"; getitem u "id") = Ok a /\
    dict_get j "type" = Ok ty /\ dict_get j "title" = Ok ti /\
    dict_get j "page_count" = Ok pc /\ dict_get j "total_view" = Ok tv /\
    dict_get j "total_bookmarks" = Ok tb /\ dict_get j "is_bookmarked" = Ok ib /\
    derive_bookmark_rate j = Ok rate /\
    dict_get j "tags" = Ok tg /\ (truthy tg = false -> lt = []) /\
    (forall cd, dict_get j "create_date" = Ok cd -> truthy cd = false ->
       date = None) /\
    w = Works.mk id a ty ti pc tv tb ib (Works.is_downloaded w0) rate date
          (Works.insert_date w0)
          (match lt with [] => Works.tags w0 | _ => lt end)
          (Works.persistent w0) /\
    ((one_or_none (fun w => Works.works_id w =? id) (flushed_works st) = Ok None /\
      w0 = blank_Works /\ i = length (works (session st)) /\
      length (works (session st')) = S (length (works (session st)))) \/
     (flushed_works st !! i = Some w0 /\ Works.works_id w0 = id /\
      length (works (session st')) = length (works (session st)))).
Proof.
  intros H. apply Works_from_json_Ok in H as (kv & st1 & Hkv & Hup).
  pose proof (Works_from_json_kv_flushed_works _ _ _ _ _ _ _ _ Hkv) as Hfw.
  apply Works_from_json_kv_Ok in Hkv
    as (rate & date & base & oc & lt & li & ou & tg & Hrate & Hbase & -> & _
        & Htg & Hlt & _ & Hdate).
  apply Works_upsert_Ok in Hup as (id' & w0 & w & st2 & Hid & Hw & Hi & Hor).
  apply Works_columns_Ok in Hbase
    as (id & a & ty & ti & pc & tv & tb & ib & ? & ? & ? & ? & ? & ? & ? & ? & ->).
  simpl in Hid. injection Hid as <-.
  pose proof (dict_setattr_Works_works _ _ _ _ _ Hw) as Hworks.
  rewrite dict_setattr_app in Hw. apply bind_Ok in Hw as (w1 & st3 & Hw1 & Hw).
  rewrite dict_setattr_columns in Hw1. injection Hw1 as <- <-.
  apply dict_setattr_relationships in Hw; [|apply relationship_items].
  rewrite assigned_tags_items in Hw. simpl in Hw.
  set (st1' := match tags_cache with
               | Some _ => st1
               | None => set_tags_cache_default c st1
               end) in *.
  assert (Hfw' : works (session (flush st1')) = flushed_works st).
  { rewrite works_flush, <- Hfw. by destruct tags_cache. }
  assert (Hlen : length (flushed_works st) = length (works (session st))).
  { unfold flushed_works. by rewrite length_fmap. }
  exists w, w0, id, a, ty, ti, pc, tv, tb, ib, rate, date, lt, tg.
  split_and!; try done.
  - intros Hf. by destruct (Hlt Hf).
  - rewrite Hworks, Hfw' in Hor.
    destruct Hor as [(Hq & -> & -> & ->)|(Hq & Hi0 & ->)]; [left|right].
    + split_and!; try done.
      unfold with_works. cbn [works session set_session set_works].
      rewrite length_app, Hlen. simpl. lia.
    + apply one_or_none_Some in Hq as (w0' & Hi0' & Hk).
      rewrite Hi0 in Hi0'. injection Hi0' as <-. apply Z.eqb_eq in Hk.
      split_and!; try done.
      unfold with_works. cbn [works session set_session set_works].
      by rewrite length_insert, ?Hworks, ?Hfw', Hlen.
Qed.

(** C4: the [bookmark_rate] of the work [Works.from_json] returns is
    [round(total_bookmarks / total_view, 5)] when it is computed, which is
    when both counts are truthy, and is [None] otherwise; in particular it
    is [None] when [total_bookmarks] or [total_view] is missing from the
    input ([get] reads a missing key as [None]). *)
Theorem bookmark_rate_stored iso j language ugoira_json tags_cache st i c st' :
  Works_from_json iso j language ugoira_json tags_cache st = Ok ((i, c), st') ->
  exists w total_bookmarks total_view,
    works (session st') !! i = Some w /\
    dict_get j "total_bookmarks" = Ok total_bookmarks /\
    dict_get j "total_view" = Ok total_view /\
    (if truthy total_bookmarks && truthy total_view
     then exists q, truediv total_bookmarks total_view = Ok q /\
                    Works.bookmark_rate w = Some (round q 5)
     else Works.bookmark_rate w = None) /\
    (total_bookmarks = JNull \/ total_view = JNull -> Works.bookmark_rate w = None).
Proof.
  intros H. apply Works_from_json_row in H
    as (w & w0 & id & a & ty & ti & pc & tv & tb & ib & rate & date & lt & tg
        & Hi & _ & _ & _ & _ & _ & Htv & Htb & _ & Hrate & _ & _ & _ & Hw & _).
  assert (Hr : Works.bookmark_rate w = rate) by (by rewrite Hw).
  exists w, tb, tv. split_and!; [done..| |].
  - unfold derive_bookmark_rate in Hrate. rewrite Htb in Hrate. simpl in Hrate.
    destruct (truthy tb) eqn:Eb; simpl in *.
    + rewrite Htv in Hrate. simpl in Hrate.
      destruct (truthy tv) eqn:Ev; simpl in *; [|congruence].
      destruct j as [| | | | | |d]; try done. simpl in *.
      injection Htb as Htb. injection Htv as Htv.
      destruct (assoc "total_bookmarks" d) as [b|]; simpl in *;
        [|by subst tb].
      destruct (assoc "total_view" d) as [v|]; simpl in *;
        [|by subst tv]. subst b v.
      destruct (truediv tb tv) as [q|e]; [|done]. simpl in Hrate.
      exists q. split; congruence.
    + congruence.
  - unfold derive_bookmark_rate in Hrate. rewrite Htb in Hrate. simpl in Hrate.
    intros [-> | ->]; simpl in *; [congruence|].
    destruct (truthy tb); simpl in *; [|congruence].
    rewrite Htv in Hrate. simpl in Hrate. congruence.
Qed.

(** ** Works: merging onto a known work *)

(** The stored title "T" of work 7 is replaced by [None] when the work
    comes again without a title. *)
Lemma merge_overwrites_title_with_None : ~ merge_keeps_value_on_None.
Proof.
  intros H.
  assert (exists c st' w0 w,
    Works_from_json sample_iso_to_datetime sample_sparse_json "en" JNull None
      sample_resident_state = Ok ((0%nat, c), st') /\
    works (session sample_resident_state) !! 0%nat = Some w0 /\
    works (session st') !! 0%nat = Some w /\
    Works.works_id w0 = 7 /\ Works.title w0 = JStr "T" /\ Works.title w = JNull)
    as (c & st' & w0 & w & Hrun & Hw0 & Hw & Hid & Ht0 & Ht).
  { eexists _, _, _, _. split; [vm_compute; reflexivity|].
    split; [vm_compute; reflexivity|]. split; [vm_compute; reflexivity|].
    split_and!; reflexivity. }
  assert (Hjid : (do v <- getitem sample_sparse_json "id"; as_id v)
                 = Ok (Works.works_id w0)) by (by rewrite Hid).
  destruct (H _ _ _ _ _ _ _ _ _ _ _ _ Hw0 Hjid Hrun Hw) as (Hkeep & _).
  specialize (Hkeep eq_refl). congruence.
Qed.

Lemma works_captions_flush st :
  works_captions (session (flush st)) = works_captions (session st).
Proof.
  unfold flush.
  by destruct (flush_tags _ _ _), (flush_works_local _ _), (flush_users _ _ _).
Qed.

Lemma ugoiras_flush st : ugoiras (session (flush st)) = ugoiras (session st).
Proof.
  unfold flush.
  by destruct (flush_tags _ _ _), (flush_works_local _ _), (flush_users _ _ _).
Qed.

Lemma kv_without_caption k o base lt li ou :
  Forall (fun kv => forall o, kv.2 <> ACaption o) base ->
  (k, ACaption o)
    ∈ base ++ caption_item None ++ tags_item lt ++ image_urls_item li
        ++ ugoira_item ou -> False.
Proof.
  intros Hb. rewrite !elem_of_app. intros [H|[H|[H|[H|H]]]].
  - rewrite Forall_forall in Hb. by eapply (Hb _ H).
  - by apply elem_of_nil in H.
  - destruct lt; [by apply elem_of_nil in H|].
    by apply list_elem_of_singleton in H.
  - destruct li; [by apply elem_of_nil in H|].
    by apply list_elem_of_singleton in H.
  - destruct ou; [|by apply elem_of_nil in H].
    by apply list_elem_of_singleton in H.
Qed.

Lemma kv_without_ugoira k o base oc lt li :
  Forall (fun kv => forall o, kv.2 <> AUgoira o) base ->
  (k, AUgoira o)
    ∈ base ++ caption_item oc ++ tags_item lt ++ image_urls_item li
        ++ ugoira_item None -> False.
Proof.
  intros Hb. rewrite !elem_of_app. intros [H|[H|[H|[H|H]]]].
  - rewrite Forall_forall in Hb. by eapply (Hb _ H).
  - destruct oc; [|by apply elem_of_nil in H].
    by apply list_elem_of_singleton in H.
  - destruct lt; [by apply elem_of_nil in H|].
    by apply list_elem_of_singleton in H.
  - destruct li; [by apply elem_of_nil in H|].
    by apply list_elem_of_singleton in H.
  - by apply elem_of_nil in H.
Qed.

(** Without a caption in the JSON the captions are left alone. *)
Lemma Works_from_json_keeps_captions iso j language ugoira_json tags_cache
    st r st' cap :
  dict_get j "caption" = Ok cap -> truthy cap = false ->
  Works_from_json iso j language ugoira_json tags_cache st = Ok (r, st') ->
  works_captions (session st') = works_captions (session st).
Proof.
  intros Hcap Hf H. destruct r as [i c].
  apply Works_from_json_Ok in H as (kv & st1 & Hkv & Hup).
  transitivity (works_captions (session st1)).
  - pose proof Hkv as Hshape.
    apply Works_from_json_kv_Ok in Hshape
      as (rate & date & base & oc & lt & li & ou & tg & _ & Hbase & -> & Hoc & _).
    rewrite (Hoc _ Hcap Hf) in Hup.
    apply Works_columns_Ok in Hbase
      as (? & ? & ? & ? & ? & ? & ? & ? & _ & _ & _ & _ & _ & _ & _ & _ & ->).
    eapply (Works_upsert_preserves
              (keeps (fun st => works_captions (session st)))) in Hup;
      [|try by intros..].
    + rewrite Hup. by destruct tags_cache.
    + intros st0. apply works_captions_flush.
    + intros k o Hin. exfalso. eapply kv_without_caption; [|exact Hin].
      by repeat constructor.
  - eapply (Works_from_json_kv_preserves
              (keeps (fun st => works_captions (session st)))); [..|exact Hkv];
      try by intros.
    + intros st0. apply works_captions_flush.
    + intros cap' Hcap'. congruence.
Qed.

(** Without [ugoira_json] the frame records are left alone. *)
Lemma Works_from_json_keeps_ugoiras iso j language ugoira_json tags_cache
    st r st' :
  truthy ugoira_json = false ->
  Works_from_json iso j language ugoira_json tags_cache st = Ok (r, st') ->
  ugoiras (session st') = ugoiras (session st).
Proof.
  intros Hf H. destruct r as [i c].
  apply Works_from_json_Ok in H as (kv & st1 & Hkv & Hup).
  transitivity (ugoiras (session st1)).
  - pose proof Hkv as Hshape.
    apply Works_from_json_kv_Ok in Hshape
      as (rate & date & base & oc & lt & li & ou & tg & _ & Hbase & -> & _ & _
          & _ & Hou & _).
    rewrite (Hou Hf) in Hup.
    apply Works_columns_Ok in Hbase
      as (? & ? & ? & ? & ? & ? & ? & ? & _ & _ & _ & _ & _ & _ & _ & _ & ->).
    eapply (Works_upsert_preserves
              (keeps (fun st => ugoiras (session st)))) in Hup;
      [|try by intros..].
    + rewrite Hup. by destruct tags_cache.
    + intros st0. apply ugoiras_flush.
    + intros k o Hin. exfalso. eapply kv_without_ugoira; [|exact Hin].
      by repeat constructor.
  - eapply (Works_from_json_kv_preserves
              (keeps (fun st => ugoiras (session st)))); [..|exact Hkv];
      try by intros.
    + intros st0. apply ugoiras_flush.
    + congruence.
Qed.

Lemma flushed_works_lookup st i w :
  works (session st) !! i = Some w ->
  flushed_works st !! i = Some (insert_works (now (session st)) w).
Proof. intros H. unfold flushed_works. by rewrite list_lookup_fmap, H. Qed.

(** A work that is in the session is the one [from_json] merges onto. *)
Lemma resident_work_found st i0 w0 i w0' id :
  NoDup (works_keys st) ->
  works (session st) !! i0 = Some w0 -> Works.works_id w0 = id ->
  (one_or_none (fun w => Works.works_id w =? id) (flushed_works st) = Ok None
   -> False) /\
  (flushed_works st !! i = Some w0' -> Works.works_id w0' = id ->
   i = i0 /\ w0' = insert_works (now (session st)) w0).
Proof.
  intros Hnd Hi0 Hid. rewrite <- flushed_works_keys in Hnd.
  pose proof (flushed_works_lookup _ _ _ Hi0) as Hf.
  split.
  - rewrite (one_or_none_unique Works.works_id id _ i0 _ Hnd Hf); [done|].
    by rewrite insert_works_id.
  - intros Hi Hid'.
    assert (i = i0).
    { eapply NoDup_lookup; [exact Hnd|..].
      - by rewrite list_lookup_fmap, Hi.
      - rewrite list_lookup_fmap, Hf. simpl. rewrite insert_works_id. congruence. }
    subst i. split; [done|congruence].
Qed.

(** C2, as the code has it: for a work that is in the session (flushed,
    under a [works_id] that no other row has), [Works.from_json] returns
    that row and adds none; every column named in [kv] takes the value read
    from the JSON, which is [None] for a field that is absent or [None]
    ([bookmark_rate] and [create_date] become [None] when their sources
    are falsy); what keeps its stored value is what [kv] leaves out:
    [is_downloaded] and [insert_date] always, [Works.tags] when [tags] is
    falsy, the caption rows when [caption] is falsy, and the frame records
    when there is no [ugoira_json]. *)
Theorem merge_assigns_every_column iso j language ugoira_json tags_cache
    st i0 w0 i c st' :
  NoDup (works_keys st) ->
  works (session st) !! i0 = Some w0 ->
  Works.persistent w0 = true ->
  (do v <- getitem j "id"; as_id v) = Ok (Works.works_id w0) ->
  Works_from_json iso j language ugoira_json tags_cache st = Ok ((i, c), st') ->
  i = i0 /\
  length (works (session st')) = length (works (session st)) /\
  exists w,
    works (session st') !! i = Some w /\
    Works.works_id w = Works.works_id w0 /\
    dict_get j "type" = Ok (Works.works_type w) /\
    dict_get j "title" = Ok (Works.title w) /\
    dict_get j "page_count" = Ok (Works.page_count w) /\
    dict_get j "total_view" = Ok (Works.total_views w) /\
    dict_get j "total_bookmarks" = Ok (Works.total_bookmarks w) /\
    dict_get j "is_bookmarked" = Ok (Works.is_bookmarked w) /\
    derive_bookmark_rate j = Ok (Works.bookmark_rate w) /\
    (dict_get j "create_date" = Ok JNull -> Works.create_date w = None) /\
    Works.is_downloaded w = Works.is_downloaded w0 /\
    Works.insert_date w = Works.insert_date w0 /\
    (forall tags, dict_get j "tags" = Ok tags -> truthy tags = false ->
       Works.tags w = Works.tags w0) /\
    (forall caption, dict_get j "caption" = Ok caption -> truthy caption = false ->
       works_captions (session st') = works_captions (session st)) /\
    (truthy ugoira_json = false ->
       ugoiras (session st') = ugoiras (session st)).
Proof.
  intros Hnd Hi0 Hp Hid H.
  pose proof H as Hrow. apply Works_from_json_row in Hrow
    as (w & w1 & id & a & ty & ti & pc & tv & tb & ib & rate & date & lt & tg
        & Hi & Hid' & _ & Hty & Hti & Hpc & Htv & Htb & Hib & Hrate & Htg & Hlt
        & Hdate & Hw & Hor).
  rewrite Hid in Hid'. injection Hid' as <-.
  destruct (resident_work_found st i0 w0 i w1 _ Hnd Hi0 eq_refl) as [Hnone Hsome].
  destruct Hor as [(Hq & _)|(Hi1 & Hk & Hlen)]; [by destruct (Hnone Hq)|].
  destruct (Hsome Hi1 Hk) as [-> Hw1].
  rewrite insert_works_persistent in Hw1 by done. subst w1.
  split; [done|]. split; [done|].
  exists w. split; [done|]. clear Hi. subst w. simpl.
  split_and!; try done.
  - intros Hcd. by rewrite (Hdate _ Hcd).
  - intros tags Htags Hf. rewrite Htg in Htags. injection Htags as <-.
    by rewrite (Hlt Hf).
  - intros cap Hcap Hf. by eapply Works_from_json_keeps_captions.
  - intros Hf. by eapply Works_from_json_keeps_ugoiras.
Qed.

Lemma merge_assigns_every_column_witness :
  let run := Works_from_json sample_iso_to_datetime sample_sparse_json "en" JNull
               None sample_resident_state in
  let i := (value_after (0%nat, ∅) run).1 in
  let c := (value_after (0%nat, ∅) run).2 in
  let st' := state_after run in
  NoDup (works_keys sample_resident_state) /\
  (exists w0, works (session sample_resident_state) !! 0%nat = Some w0 /\
     Works.persistent w0 = true /\
     (do v <- getitem sample_sparse_json "id"; as_id v) = Ok (Works.works_id w0)) /\
  run = Ok ((i, c), st') /\
  i = 0%nat /\
  length (works (session st')) = length (works (session sample_resident_state)).
Proof.
  intros run i c st'.
  assert (Hnd : NoDup (works_keys sample_resident_state)).
  { change (NoDup [7]). apply NoDup_singleton. }
  assert (Hrun : run = Ok ((i, c), st')) by (vm_compute; reflexivity).
  split; [exact Hnd|]. split.
  { eexists. split; [vm_compute; reflexivity|]. split; reflexivity. }
  split; [exact Hrun|].
  destruct (merge_assigns_every_column sample_iso_to_datetime sample_sparse_json
              "en" JNull None sample_resident_state 0%nat
              (Works.mk 7 (JInt 3) (JStr "illust") (JStr "T") (JInt 1) (JInt 3)
                 (JInt 1) (JBool true) JNull
                 (Some (S754_finite false 6004739455165630 (-54)))
                 (Some 1546268400) (Some 0) [0%nat; 1%nat] true)
              i c st' Hnd) as (Hi & Hlen & _);
    [vm_compute; reflexivity|reflexivity|reflexivity|exact Hrun|].
  split; [exact Hi|exact Hlen].
Defined.

Lemma bookmark_rate_stored_witness :
  let run := Works_from_json sample_iso_to_datetime sample_works_json "en" JNull
               None initial_state in
  let i := (value_after (0%nat, ∅) run).1 in
  let c := (value_after (0%nat, ∅) run).2 in
  let st' := state_after run in
  run = Ok ((i, c), st') /\
  exists w total_bookmarks total_view,
    works (session st') !! i = Some w /\
    dict_get sample_works_json "total_bookmarks" = Ok total_bookmarks /\
    dict_get sample_works_json "total_view" = Ok total_view /\
    (if truthy total_bookmarks && truthy total_view
     then exists q, truediv total_bookmarks total_view = Ok q /\
                    Works.bookmark_rate w = Some (round q 5)
     else Works.bookmark_rate w = None) /\
    (total_bookmarks = JNull \/ total_view = JNull -> Works.bookmark_rate w = None).
Proof.
  intros run i c st'.
  assert (Hrun : run = Ok ((i, c), st')) by (vm_compute; reflexivity).
  split; [exact Hrun|].
  exact (bookmark_rate_stored _ _ _ _ _ _ _ _ _ Hrun).
Defined.

Lemma create_if_not_exist_once_witness :
  NoDup (works_local_keys initial_state) /\
  (7 ∉ works_local_keys initial_state) /\
  exists st1,
    WorksLocal_create_if_not_exist 7 initial_state
    = Ok (length (works_local (session initial_state)), st1) /\
    works_local (session st1)
    = works_local (session (flush initial_state)) ++ [WorksLocal.mk None 7] /\
    NoDup (works_local_keys st1).
Proof.
  assert (Hnd : NoDup (works_local_keys initial_state)) by apply NoDup_nil_2.
  assert (Hnew : 7 ∉ works_local_keys initial_state) by apply not_elem_of_nil.
  split; [exact Hnd|]. split; [exact Hnew|].
  exact (proj1 (create_if_not_exist_once 7 initial_state Hnd) Hnew).
Defined.

(** ** Tags *)

(** *** Flushing the tags *)

Lemma flush_tags_content tbl h n :
  tag_content <$> (flush_tags tbl h n).1 = tag_content <$> h.
Proof.
  revert h n. induction tbl as [|a tbl IH]; intros h n;
    cbn [flush_tags]; [done|].
  destruct (h !! a) as [t|] eqn:Ha; [|apply IH].
  destruct (Tag.tag_id t); [apply IH|].
  rewrite IH, list_fmap_insert. apply list_insert_id.
  by rewrite list_lookup_fmap, Ha.
Qed.

Lemma heap_flush st :
  heap (flush st) = (flush_tags (tags (session st)) (heap st)
                       (next_tag_id (session st))).1.
Proof.
  unfold flush.
  by destruct (flush_tags _ _ _), (flush_works_local _ _), (flush_users _ _ _).
Qed.

Lemma tags_flush st : tags (session (flush st)) = tags (session st).
Proof.
  unfold flush.
  by destruct (flush_tags _ _ _), (flush_works_local _ _), (flush_users _ _ _).
Qed.

Lemma content_flush st : tag_content <$> heap (flush st) = tag_content <$> heap st.
Proof. rewrite heap_flush. apply flush_tags_content. Qed.

(** Two heaps with the same contents have tags at the same addresses,
    with the same texts and translations. *)
Lemma same_content_lookup (h h' : list Tag.t) a :
  tag_content <$> h' = tag_content <$> h ->
  tag_content <$> h' !! a = tag_content <$> h !! a.
Proof. intros H. by rewrite <- !list_lookup_fmap, H. Qed.

Lemma same_content_text (h h' : list Tag.t) a :
  tag_content <$> h' = tag_content <$> h ->
  tag_text_at h' a = tag_text_at h a.
Proof.
  intros H%(same_content_lookup _ _ a). unfold tag_text_at.
  destruct (h' !! a), (h !! a); simpl in *; try done. by injection H as -> _.
Qed.

Lemma same_content_is_Some (h h' : list Tag.t) a :
  tag_content <$> h' = tag_content <$> h ->
  is_Some (h' !! a) <-> is_Some (h !! a).
Proof.
  intros H%(same_content_lookup _ _ a).
  destruct (h' !! a), (h !! a); simpl in *; try done; by split.
Qed.

Lemma same_content_has_text (h h' : list Tag.t) name a :
  tag_content <$> h' = tag_content <$> h ->
  tag_has_text h' name a = tag_has_text h name a.
Proof.
  intros H%(same_content_lookup _ _ a). unfold tag_has_text.
  destruct (h' !! a), (h !! a); simpl in *; try done. by injection H as -> _.
Qed.

Lemma tag_text_at_flush st a :
  tag_text_at (heap (flush st)) a = tag_text_at (heap st) a.
Proof. apply same_content_text, content_flush. Qed.

Lemma is_Some_tag_text_at (h : list Tag.t) a :
  is_Some (h !! a) <-> is_Some (tag_text_at h a).
Proof. unfold tag_text_at. by rewrite fmap_is_Some. Qed.

Lemma tag_has_text_true (h : list Tag.t) name a :
  tag_has_text h name a = true <-> tag_text_at h a = Some name.
Proof.
  unfold tag_has_text, tag_text_at. destruct (h !! a) as [t|]; simpl; [|done].
  rewrite String.eqb_eq. split; congruence.
Qed.

(** The invariants only look at the tags of the session and at the texts
    of the objects. *)
Lemma tags_ok_same_text st st' :
  tags (session st') = tags (session st) ->
  (forall a, tag_text_at (heap st') a = tag_text_at (heap st) a) ->
  tags_ok st -> tags_ok st'.
Proof.
  intros Ht Hc [Hall Hnd]. split; rewrite Ht.
  - eapply Forall_impl; [exact Hall|]. intros a Ha.
    apply is_Some_tag_text_at. rewrite Hc. by apply is_Some_tag_text_at.
  - erewrite list_fmap_ext; [exact Hnd|]. intros ? a _. apply Hc.
Qed.

Lemma cache_ok_same_text st st' cache :
  tags (session st') = tags (session st) ->
  (forall a, tag_text_at (heap st') a = tag_text_at (heap st) a) ->
  cache_ok st cache -> cache_ok st' cache.
Proof.
  intros Ht Hc H name a Hna. destruct (H name a Hna) as [Hin Htext].
  rewrite Ht. split; [done|]. by rewrite Hc.
Qed.

Lemma tags_grow_same_text st st' :
  tags (session st') = tags (session st) ->
  (forall a, tag_text_at (heap st') a = tag_text_at (heap st) a) ->
  tags_grow st st'.
Proof. intros Ht Hc. split; [by rewrite Ht|]. intros a _. apply Hc. Qed.

Lemma tags_ok_flush st : tags_ok st -> tags_ok (flush st).
Proof. apply tags_ok_same_text; [apply tags_flush|apply tag_text_at_flush]. Qed.

Lemma cache_ok_flush st cache : cache_ok st cache -> cache_ok (flush st) cache.
Proof. apply cache_ok_same_text; [apply tags_flush|apply tag_text_at_flush]. Qed.

Lemma tags_grow_flush st : tags_grow st (flush st).
Proof. apply tags_grow_same_text; [apply tags_flush|apply tag_text_at_flush]. Qed.

Global Instance tags_grow_refl : Reflexive tags_grow.
Proof. by intros st. Qed.

Global Instance tags_grow_trans : Transitive tags_grow.
Proof.
  intros st1 st2 st3 [Ht1 Hh1] [Ht2 Hh2]. split; [by auto|].
  intros a Ha. rewrite Hh2, Hh1; [done..|].
  unfold tag_text_at in Hh1. specialize (Hh1 a Ha).
  destruct Ha as [t Ha]. rewrite Ha in Hh1. simpl in Hh1.
  destruct (heap st2 !! a); [by eexists|done].
Qed.

(** *** Merging a translation *)

Lemma merge_translation_text language v t :
  Tag.tag_text (merge_translation language v t) = Tag.tag_text t.
Proof. unfold merge_translation. by destruct (existsb _ _). Qed.

Lemma merge_translation_tag_id language v t :
  Tag.tag_id (merge_translation language v t) = Tag.tag_id t.
Proof. unfold merge_translation. by destruct (existsb _ _). Qed.

Lemma merge_translation_present language v t :
  existsb (in_language language) (Tag.translation t) = true ->
  Tag.translation (merge_translation language v t)
  = (fun tr => if in_language language tr
               then TagTranslation.set_translation_text v tr else tr)
      <$> Tag.translation t.
Proof. unfold merge_translation, in_language. by intros ->. Qed.

Lemma existsb_false {A} (f : A -> bool) (l : list A) :
  existsb f l = false -> forall x, In x l -> f x = false.
Proof.
  intros H x Hx. destruct (f x) eqn:E; [|done].
  rewrite <- H. symmetry. apply existsb_exists. eauto.
Qed.

Lemma merge_translation_absent language v t :
  existsb (in_language language) (Tag.translation t) = false ->
  Tag.translation (merge_translation language v t)
  = Tag.translation t ++ [TagTranslation.mk (Tag.tag_id t) language v].
Proof.
  unfold merge_translation, in_language. intros H. rewrite H. simpl. f_equal.
  pose proof (existsb_false _ _ H) as H'. clear H. rename H' into H.
  rewrite <- (list_fmap_id (Tag.translation t)) at 2.
  apply list_fmap_ext. intros i tr Hi.
  assert (Hin : In tr (Tag.translation t))
    by (apply list_elem_of_In; by eapply list_elem_of_lookup_2).
  by rewrite (H tr Hin).
Qed.

Lemma merge_translation_languages language v t :
  TagTranslation.language <$> Tag.translation (merge_translation language v t)
  = (TagTranslation.language <$> Tag.translation t)
      ++ (if existsb (in_language language) (Tag.translation t)
          then [] else [language]).
Proof.
  destruct (existsb _ _) eqn:E.
  - rewrite merge_translation_present by done. rewrite app_nil_r.
    rewrite <- list_fmap_compose. apply list_fmap_ext. intros i tr _. simpl.
    by destruct (in_language language tr).
  - rewrite merge_translation_absent by done. by rewrite fmap_app.
Qed.

Lemma existsb_in_language language (l : list TagTranslation.t) :
  existsb (in_language language) l = true
  <-> language ∈ TagTranslation.language <$> l.
Proof.
  rewrite existsb_exists, list_elem_of_fmap. unfold in_language.
  split; intros (tr & H1 & H2).
  - apply String.eqb_eq in H2. exists tr. split; [done|]. by apply list_elem_of_In.
  - exists tr. split; [by apply list_elem_of_In|]. by apply String.eqb_eq.
Qed.

Lemma merge_translation_NoDup language v t :
  NoDup (TagTranslation.language <$> Tag.translation t) ->
  NoDup (TagTranslation.language
           <$> Tag.translation (merge_translation language v t)).
Proof.
  intros Hnd. rewrite merge_translation_languages.
  destruct (existsb _ _) eqn:E; [by rewrite app_nil_r|].
  apply NoDup_app. split_and!; [done| |apply NoDup_singleton].
  intros x Hx ->%list_elem_of_singleton.
  apply existsb_in_language in Hx. congruence.
Qed.

Lemma find_in_language_fmap language v (l : list TagTranslation.t) :
  List.find (in_language language)
    ((fun tr => if in_language language tr
                then TagTranslation.set_translation_text v tr else tr) <$> l)
  = TagTranslation.set_translation_text v <$> List.find (in_language language) l.
Proof.
  induction l as [|tr l IH]; [done|]. rewrite fmap_cons. simpl.
  destruct (in_language language tr) eqn:E; simpl.
  - unfold in_language in *. simpl. by rewrite E.
  - by rewrite E.
Qed.

(** After the merge the tag translates into [language] as [v]. *)
Lemma get_translation_merge language v t :
  get_translation (merge_translation language v t) language = v.
Proof.
  unfold get_translation. fold (in_language language).
  destruct (existsb (in_language language) (Tag.translation t)) eqn:E.
  - rewrite merge_translation_present, find_in_language_fmap by done.
    apply existsb_exists in E as (tr & Hin & Htr).
    destruct (List.find _ _) eqn:F; [done|].
    by rewrite (find_none _ _ F tr Hin) in Htr.
  - rewrite merge_translation_absent by done.
    assert (F : List.find (in_language language) (Tag.translation t) = None).
    { destruct (List.find _ _) as [tr|] eqn:F; [|done].
      apply find_some in F as [Hin Htr].
      by rewrite (existsb_false _ _ E tr Hin) in Htr. }
    revert F. generalize (Tag.translation t). intros l.
    induction l as [|tr l IH]; simpl.
    + intros _. unfold in_language. simpl. by rewrite String.eqb_refl.
    + destruct (in_language language tr); [done|]. exact IH.
Qed.

(** The other languages are left as they were. *)
Lemma get_translation_merge_other language v t language' :
  language' <> language ->
  get_translation (merge_translation language v t) language'
  = get_translation t language'.
Proof.
  intros Hne. unfold get_translation. fold (in_language language').
  assert (Hmap : forall l : list TagTranslation.t,
    TagTranslation.translation_text
      <$> List.find (in_language language')
            ((fun tr => if in_language language tr
                        then TagTranslation.set_translation_text v tr else tr) <$> l)
    = TagTranslation.translation_text <$> List.find (in_language language') l).
  { induction l as [|tr l IH]; [done|]. rewrite fmap_cons. simpl.
    destruct (in_language language tr) eqn:E1.
    - unfold in_language in *. simpl. apply String.eqb_eq in E1.
      destruct (String.eqb (TagTranslation.language tr) language') eqn:E2;
        [|exact IH].
      apply String.eqb_eq in E2. congruence.
    - destruct (in_language language' tr); [done|exact IH]. }
  assert (Happ : forall (l : list TagTranslation.t) x,
    in_language language' x = false ->
    List.find (in_language language') (l ++ [x])
    = List.find (in_language language') l).
  { intros l x Hx. induction l as [|tr l IH]; simpl; [by rewrite Hx|].
    by destruct (in_language language' tr). }
  destruct (existsb (in_language language) (Tag.translation t)) eqn:E.
  - rewrite merge_translation_present by done.
    specialize (Hmap (Tag.translation t)).
    by destruct (List.find _ _), (List.find _ _); simpl in *; simplify_eq.
  - rewrite merge_translation_absent, Happ; [done| |done].
    unfold in_language. simpl. apply String.eqb_neq. congruence.
Qed.

(** *** The steps of the resolution *)

Lemma content_kept_trans keep st1 st2 st3 :
  content_kept keep st1 st2 -> content_kept keep st2 st3 ->
  content_kept keep st1 st3.
Proof.
  intros H1 H2 b t Hb Ht. specialize (H1 b t Hb Ht).
  destruct (heap st2 !! b) as [t2|] eqn:E2; [|done].
  simpl in H1. rewrite (H2 b t2 Hb E2). exact H1.
Qed.

Lemma content_kept_weaken (keep keep' : nat -> Prop) st st' :
  (forall b, keep' b -> keep b) ->
  content_kept keep st st' -> content_kept keep' st st'.
Proof. intros Hk H b t Hb. apply H. by apply Hk. Qed.

Global Instance tag_step_refl a : Reflexive (tag_step a).
Proof.
  intros st. split_and!; try done. intros b t _ Ht. by rewrite Ht.
Qed.

Global Instance tag_step_trans a : Transitive (tag_step a).
Proof.
  intros st1 st2 st3 (A1 & B1 & C1 & D1 & E1) (A2 & B2 & C2 & D2 & E2).
  split_and!; [by auto..| |].
  - by transitivity st2.
  - by eapply content_kept_trans.
Qed.

Lemma translations_ok_same_content st st' :
  tag_content <$> heap st' = tag_content <$> heap st ->
  translations_ok st -> translations_ok st'.
Proof.
  intros Hc H a t' Ha.
  pose proof (same_content_lookup _ _ a Hc) as Hl. rewrite Ha in Hl.
  destruct (heap st !! a) as [t|] eqn:E; [|done].
  injection Hl as _ Hl. rewrite Hl. by eapply H.
Qed.

Lemma tag_step_same_content a st st' :
  tags (session st') = tags (session st) ->
  tag_content <$> heap st' = tag_content <$> heap st ->
  tag_step a st st'.
Proof.
  intros Ht Hc.
  assert (Htext : forall b, tag_text_at (heap st') b = tag_text_at (heap st) b)
    by (intros b; by apply same_content_text).
  split_and!.
  - by apply tags_ok_same_text.
  - by apply translations_ok_same_content.
  - intros cache. by apply cache_ok_same_text.
  - by apply tags_grow_same_text.
  - intros b t _ Hb. rewrite (same_content_lookup _ _ b Hc). by rewrite Hb.
Qed.

Lemma tag_step_flush a st : tag_step a st (flush st).
Proof. apply tag_step_same_content; [apply tags_flush|apply content_flush]. Qed.

(** The tag at [a] is replaced by one with the same text. *)
Lemma tag_step_update a t t' st :
  heap st !! a = Some t ->
  Tag.tag_text t' = Tag.tag_text t ->
  (NoDup (TagTranslation.language <$> Tag.translation t) ->
   NoDup (TagTranslation.language <$> Tag.translation t')) ->
  tag_step a st (set_heap (<[a := t']> (heap st)) st).
Proof.
  intros Ha Htext Hnd.
  assert (Hl : forall b, tag_text_at (<[a := t']> (heap st)) b
                         = tag_text_at (heap st) b).
  { intros b. unfold tag_text_at. destruct (decide (a = b)) as [<-|Hne].
    - rewrite list_lookup_insert_eq by (by eapply lookup_lt_Some).
      rewrite Ha. simpl. by rewrite Htext.
    - by rewrite list_lookup_insert_ne. }
  split_and!.
  - by apply tags_ok_same_text.
  - intros H b tb. simpl. destruct (decide (a = b)) as [<-|Hne].
    + rewrite list_lookup_insert_eq by (by eapply lookup_lt_Some).
      intros [= <-]. apply Hnd. by eapply H.
    + rewrite list_lookup_insert_ne by done. apply H.
  - intros cache. by apply cache_ok_same_text.
  - by apply tags_grow_same_text.
  - intros b tb Hb Hl'. simpl. rewrite list_lookup_insert_ne by done.
    by rewrite Hl'.
Qed.

(** A tag with a text no tag of the session has is created and added. *)
Lemma tag_step_create a name n st :
  (forall b, b ∈ tags (session st) -> tag_text_at (heap st) b <> Some name) ->
  tag_step a st
    (with_tags (tags (session st) ++ [length (heap st)]) n
       (set_heap (heap st ++ [Tag.mk None name []]) st)).
Proof.
  intros Hnew.
  assert (Hl : forall b, is_Some (heap st !! b) ->
            (heap st ++ [Tag.mk None name []]) !! b = heap st !! b).
  { intros b Hb. apply lookup_app_l. by apply lookup_lt_is_Some. }
  split_and!.
  - intros [Hall Hnd]. split; simpl.
    + apply Forall_app. split.
      * eapply Forall_impl; [exact Hall|]. intros b Hb. by rewrite Hl.
      * apply Forall_singleton. rewrite lookup_app_r, Nat.sub_diag by done.
        by eexists.
    + rewrite fmap_app. apply NoDup_app. split_and!.
      * erewrite list_fmap_ext; [exact Hnd|]. intros i b Hi.
        unfold tag_text_at. rewrite Hl; [done|].
        rewrite Forall_forall in Hall. apply Hall.
        by eapply list_elem_of_lookup_2.
      * intros x Hx Hx'. apply list_elem_of_fmap in Hx as (b & -> & Hb).
        apply list_elem_of_singleton in Hx'.
        rewrite Forall_forall in Hall.
        unfold tag_text_at in Hx' at 1. rewrite Hl in Hx' by (by apply Hall).
        unfold tag_text_at in Hx' at 1.
        rewrite lookup_app_r, Nat.sub_diag in Hx' by done. simpl in Hx'.
        by apply (Hnew b Hb).
      * apply NoDup_singleton.
  - intros H b tb. simpl. intros Hb.
    apply lookup_app_Some in Hb as [Hb|[_ Hb]]; [by eapply H|].
    destruct (b - length (heap st))%nat; [|done]. injection Hb as <-.
    apply NoDup_nil_2.
  - intros cache H name' b Hb. destruct (H name' b Hb) as [Hin Htext]. simpl.
    split; [apply elem_of_app; by left|].
    unfold tag_text_at in *. rewrite Hl; [done|].
    destruct (heap st !! b); [by eexists|done].
  - split; simpl.
    + intros b Hb. apply elem_of_app. by left.
    + intros b Hb. unfold tag_text_at. by rewrite Hl.
  - intros b tb _ Hb. simpl. rewrite Hl by (by eexists). by rewrite Hb.
Qed.

Lemma query_tag_Ok t_name st o st' :
  query_tag t_name st = Ok (o, st') ->
  st' = flush st /\
  match o with
  | Some a => a ∈ tags (session st) /\ tag_text_at (heap st) a = Some t_name
  | None => forall b, b ∈ tags (session st) ->
              tag_text_at (heap st) b <> Some t_name
  end.
Proof.
  unfold query_tag. intros H.
  apply bind_Ok in H as ([] & ? & ->%modify_Ok & H).
  apply bind_Ok in H as (? & ? & [-> ->]%get_Ok & H).
  apply bind_Ok in H as (i & ? & [Hq ->]%lift_Ok & H).
  apply ret_Ok in H as [-> ->]. split; [done|].
  rewrite tags_flush in *.
  destruct i as [i|]; simpl.
  - apply one_or_none_Some in Hq as (a & Hi & Ha). rewrite Hi.
    split; [by eapply list_elem_of_lookup_2|].
    apply tag_has_text_true in Ha. by rewrite tag_text_at_flush in Ha.
  - apply one_or_none_None in Hq. rewrite Forall_forall in Hq.
    intros b Hb Htext. specialize (Hq b Hb).
    rewrite <- tag_text_at_flush in Htext.
    apply tag_has_text_true in Htext. congruence.
Qed.

Lemma update_tag_Ok a f st u st' :
  update_tag a f st = Ok (u, st') ->
  exists t, heap st !! a = Some t /\ st' = set_heap (<[a := f t]> (heap st)) st.
Proof.
  unfold update_tag. intros H.
  apply bind_Ok in H as (? & ? & [-> ->]%get_Ok & H).
  destruct (heap st !! a) as [t|]; [|done].
  apply modify_Ok in H as ->. by exists t.
Qed.

(** What one resolution does: the tag it returns is a tag of the session
    under the name; the cache takes the name; the invariants hold on;
    every other object is left as it was; a translation that was given is
    the translation of the tag.  The tag is the one of the cache when the
    cache has the name, else the one of the session that has the text,
    else a new one, added to the session. *)
Lemma resolve_tag_spec language cache t_name t_translate st a cache' st' :
  tags_ok st -> cache_ok st cache ->
  resolve_tag language cache t_name t_translate st = Ok ((a, cache'), st') ->
  tag_step a st st' /\
  cache' = <[t_name := a]> cache /\
  a ∈ tags (session st') /\
  tag_text_at (heap st') a = Some t_name /\
  (truthy t_translate = true ->
   translation_at st' a language = Some t_translate) /\
  (truthy t_translate = false -> content_kept (fun _ => True) st st') /\
  (forall a0, cache !! t_name = Some a0 ->
     a = a0 /\ tags (session st') = tags (session st)) /\
  (cache !! t_name = None ->
   forall b, b ∈ tags (session st) -> tag_text_at (heap st) b = Some t_name ->
     a = b /\ tags (session st') = tags (session st)) /\
  (cache !! t_name = None ->
   (forall b, b ∈ tags (session st) -> tag_text_at (heap st) b <> Some t_name) ->
   tags (session st') = tags (session st) ++ [a] /\ heap st !! a = None).
Proof.
  intros Hok Hcache H. unfold resolve_tag in H.
  apply bind_Ok in H as (o & st1 & Hfind & H).
  apply bind_Ok in H as (a' & st2 & Hget & H).
  apply bind_Ok in H as ([] & st3 & Hupd & H).
  apply ret_Ok in H as [[= -> ->] ->]. rename a' into a.
  (* the tag before the translation is merged *)
  assert (Hfound :
    tag_step a st st2 /\ a ∈ tags (session st2) /\
    tag_text_at (heap st2) a = Some t_name /\
    content_kept (fun _ => True) st st2 /\
    (forall a0, cache !! t_name = Some a0 ->
       a = a0 /\ tags (session st2) = tags (session st)) /\
    (cache !! t_name = None ->
     forall b, b ∈ tags (session st) -> tag_text_at (heap st) b = Some t_name ->
       a = b /\ tags (session st2) = tags (session st)) /\
    (cache !! t_name = None ->
     (forall b, b ∈ tags (session st) -> tag_text_at (heap st) b <> Some t_name) ->
     tags (session st2) = tags (session st) ++ [a] /\ heap st !! a = None)).
  { assert (Hall : forall st0, content_kept (fun _ => True) st0 (flush st0)).
    { intros st0 b t _ Hb.
      rewrite (same_content_lookup _ _ b (content_flush st0)). by rewrite Hb. }
    destruct (cache !! t_name) as [a0|] eqn:Hc.
    - apply ret_Ok in Hfind as [-> ->]. apply ret_Ok in Hget as [Heq ->].
      subst a0. destruct (Hcache _ _ Hc) as [Hin Htext].
      split_and!; try done.
      + intros b t _ Hb. by rewrite Hb.
      + by intros a1 [= <-].
    - apply query_tag_Ok in Hfind as [-> Ho]. destruct o as [b0|].
      + apply ret_Ok in Hget as [Heq ->]. subst b0.
        destruct Ho as [Hin Htext].
        split_and!; try done.
        * apply tag_step_flush.
        * by rewrite tags_flush.
        * by rewrite tag_text_at_flush.
        * intros _ b Hb Hbt. rewrite tags_flush. split; [|done].
          destruct Hok as [_ Hnd].
          apply list_elem_of_lookup in Hin as [i Hi].
          apply list_elem_of_lookup in Hb as [k Hk].
          assert (i = k); [|congruence].
          apply (NoDup_lookup _ i k (Some t_name) Hnd);
            rewrite list_lookup_fmap; [rewrite Hi|rewrite Hk]; simpl; congruence.
        * intros _ Hnone. by destruct (Hnone a Hin).
      + unfold new_tag, session_add_tag in Hget.
        apply bind_Ok in Hget as (? & ? & Hnew & Hget).
        apply bind_Ok in Hnew as (? & ? & [-> ->]%get_Ok & Hnew).
        apply bind_Ok in Hnew as ([] & ? & ->%modify_Ok & Hnew).
        apply ret_Ok in Hnew as [-> ->].
        apply bind_Ok in Hget as ([] & ? & ->%modify_session_Ok & Hget).
        apply bind_Ok in Hget as ([] & ? & ->%modify_Ok & Hget).
        apply ret_Ok in Hget as [-> ->].
        set (st1 := flush st) in *.
        set (st1' := set_session _ _).
        assert (Hnone : forall b, b ∈ tags (session st1) ->
                  tag_text_at (heap st1) b <> Some t_name).
        { intros b. unfold st1. rewrite tags_flush, tag_text_at_flush. apply Ho. }
        assert (Hstep : tag_step (length (heap st1)) st st1').
        { transitivity st1; [apply tag_step_flush|].
          apply (tag_step_create _ t_name (next_tag_id (session st1)) st1 Hnone). }
        assert (Hlen : length (heap st1) = length (heap st)).
        { pose proof (f_equal length (content_flush st)) as Hl.
          by rewrite !length_fmap in Hl. }
        split_and!.
        * transitivity st1'; [done|apply tag_step_flush].
        * rewrite tags_flush. simpl. apply elem_of_app. right.
          by apply list_elem_of_singleton.
        * rewrite tag_text_at_flush. unfold tag_text_at. simpl.
          by rewrite lookup_app_r, Nat.sub_diag.
        * eapply content_kept_trans; [|apply Hall].
          eapply content_kept_trans; [apply Hall|].
          intros b t _ Hb. unfold st1'. cbn [heap set_session set_heap].
          change (heap st1 !! b = Some t) in Hb.
          rewrite lookup_app_l; [by rewrite Hb|].
          by eapply lookup_lt_Some.
        * done.
        * intros _ b Hb Hbt. by destruct (Ho b Hb).
        * intros _ _. rewrite tags_flush. simpl. unfold st1 at 1.
          rewrite tags_flush. split; [done|].
          apply lookup_ge_None. lia. }
  destruct Hfound as (Hstep & Hin & Htext & Hkept & Hhit & Hstore & Hcreate).
  destruct (truthy t_translate) eqn:Htr; simpl in Hupd.
  - apply update_tag_Ok in Hupd as (t & Ha & ->).
    assert (Hstep' : tag_step a st2
              (set_heap (<[a := merge_translation language t_translate t]> (heap st2)) st2)).
    { apply (tag_step_update a t); [done|apply merge_translation_text|].
      apply merge_translation_NoDup. }
    split_and!; try done.
    + by transitivity st2.
    + unfold tag_text_at in *. simpl.
      rewrite list_lookup_insert_eq by (by eapply lookup_lt_Some).
      rewrite Ha in Htext. simpl in *. by rewrite merge_translation_text.
    + intros _. unfold translation_at. simpl.
      rewrite list_lookup_insert_eq by (by eapply lookup_lt_Some).
      simpl. by rewrite get_translation_merge.
  - apply ret_Ok in Hupd as [_ ->]. by split_and!.
Qed.

(** *** The loop of [from_tags_json] *)

Lemma unique_items_not_seen seen l n v :
  (n, v) ∈ unique_items seen l -> n ∉ seen.
Proof.
  revert seen. induction l as [|[n' v'] l IH]; intros seen; simpl.
  - by intros ?%elem_of_nil.
  - destruct (decide (n' ∈ seen)) as [Hin|Hout]; [apply IH|].
    intros [[= -> ->]|H]%elem_of_cons; [done|].
    apply IH in H. set_solver.
Qed.

Lemma unique_items_NoDup seen l : NoDup (unique_items seen l).*1.
Proof.
  revert seen. induction l as [|[n v] l IH]; intros seen; simpl.
  - apply NoDup_nil_2.
  - destruct (decide (n ∈ seen)); [apply IH|].
    rewrite fmap_cons. apply NoDup_cons. split; [|apply IH].
    intros ([n' v'] & Hn & H)%list_elem_of_fmap. simpl in Hn. subst n'.
    apply unique_items_not_seen in H. set_solver.
Qed.

(** Two tags of the session with the same text are the same tag. *)
Lemma tags_ok_same_text_same_tag st a b :
  tags_ok st -> a ∈ tags (session st) -> b ∈ tags (session st) ->
  tag_text_at (heap st) a = tag_text_at (heap st) b -> a = b.
Proof.
  intros [_ Hnd] [i Hi]%list_elem_of_lookup [k Hk]%list_elem_of_lookup Heq.
  assert (i = k); [|congruence].
  apply (NoDup_lookup _ i k (tag_text_at (heap st) a) Hnd);
    rewrite list_lookup_fmap; [rewrite Hi|rewrite Hk]; simpl; congruence.
Qed.

Lemma resolved_kept st st' language a item (keep : nat -> Prop) :
  tags_grow st st' -> content_kept keep st st' -> keep a ->
  resolved st language a item -> resolved st' language a item.
Proof.
  intros [Hin Htext] Hkept Ha (H1 & H2 & H3).
  assert (Hsome : is_Some (heap st !! a)).
  { apply is_Some_tag_text_at. rewrite H2. by eexists. }
  split_and!.
  - by apply Hin.
  - by rewrite Htext.
  - intros Hv. specialize (H3 Hv). unfold translation_at in *.
    destruct Hsome as [t Ht]. specialize (Hkept a t Ha Ht).
    rewrite Ht in H3. simpl in H3.
    destruct (heap st' !! a) as [t'|]; [|done]. simpl in *.
    injection Hkept as _ Htr. unfold get_translation in *. by rewrite Htr.
Qed.

Lemma from_tags_loop_spec language l :
  forall _tags cache r st r' cache' st',
  tags_ok st -> cache_ok st cache ->
  from_tags_loop language l _tags cache r st = Ok ((r', cache'), st') ->
  exists rn,
    r' = r ++ rn /\
    tags_ok st' /\ cache_ok st' cache' /\
    (translations_ok st -> translations_ok st') /\
    tags_grow st st' /\
    content_kept (fun b => b ∉ rn) st st' /\
    Forall2 (resolved st' language) rn (unique_items _tags (item_pairs l)).
Proof.
  induction l as [|_t l IH]; intros _tags cache r st r' cache' st' Hok Hc H.
  - apply ret_Ok in H as [[= -> ->] ->]. exists [].
    rewrite app_nil_r. split_and!; try done.
    intros b t _ Hb. by rewrite Hb.
  - cbn [from_tags_loop] in H.
    apply bind_Ok in H as (v1 & ? & [Hname ->]%lift_Ok & H).
    apply bind_Ok in H as (v2 & ? & [Htr ->]%lift_Ok & H).
    apply bind_Ok in H as (n & ? & [Hn ->]%lift_Ok & H).
    assert (v1 = JStr n) as -> by (by destruct v1; simplify_eq/=).
    assert (Hpairs : item_pairs (_t :: l) = (n, v2) :: item_pairs l).
    { unfold item_pairs. simpl. unfold item_pair. by rewrite Hname, Htr. }
    rewrite Hpairs. simpl.
    destruct (decide (n ∈ _tags)) as [Hseen|Hnew];
      [exact (IH _ _ _ _ _ _ _ Hok Hc H)|].
    apply bind_Ok in H as ([a c1] & st1 & Hres & H).
    destruct (resolve_tag_spec _ _ _ _ _ _ _ _ Hok Hc Hres)
      as ((Hok1 & Htrs1 & Hc1 & Hgrow1 & Hkept1) & -> & Hin & Htext & Htrans & _).
    assert (Hcache1 : cache_ok st1 (<[n := a]> cache)).
    { intros n' b. destruct (decide (n = n')) as [<-|Hne].
      - rewrite lookup_insert_eq. by intros [= <-].
      - rewrite lookup_insert_ne by done. by apply Hc1. }
    destruct (IH _ _ _ _ _ _ _ (Hok1 Hok) Hcache1 H)
      as (rn & -> & Hok' & Hc' & Htrs' & Hgrow' & Hkept' & Hall).
    exists (a :: rn). rewrite <- app_assoc. simpl.
    assert (Ha : a ∉ rn).
    { intros Ha. apply list_elem_of_lookup in Ha as [i Hi].
      destruct (Forall2_lookup_l _ _ _ _ _ Hall Hi) as ([n' v'] & Hi' & _ & Ht' & _).
      apply list_elem_of_lookup_2, unique_items_not_seen in Hi'.
      destruct Hgrow' as [_ Hg]. rewrite Hg in Ht'.
      - simpl in Ht'. rewrite Htext in Ht'. injection Ht' as ->. set_solver.
      - apply is_Some_tag_text_at. rewrite Htext. by eexists. }
    split_and!; try done.
    + by auto.
    + by transitivity st1.
    + eapply content_kept_trans.
      * eapply content_kept_weaken; [|exact Hkept1]. set_solver.
      * eapply content_kept_weaken; [|exact Hkept']. set_solver.
    + constructor; [|done].
      eapply (resolved_kept st1 st'); [done|exact Hkept'|exact Ha|].
      by split_and!.
Qed.

Lemma Tag_from_tags_json_spec tags language cache st r cache' st' :
  tags_ok st -> cache_ok st cache ->
  Tag_from_tags_json tags language cache st = Ok ((r, cache'), st') ->
  exists l,
    iter tags = Ok l /\
    tags_ok st' /\ cache_ok st' cache' /\
    (translations_ok st -> translations_ok st') /\
    tags_grow st st' /\
    content_kept (fun b => b ∉ r) st st' /\
    Forall2 (resolved st' language) r (unique_items ∅ (item_pairs l)).
Proof.
  intros Hok Hc H. unfold Tag_from_tags_json in H.
  apply bind_Ok in H as (l & ? & [Hl ->]%lift_Ok & H).
  destruct (from_tags_loop_spec _ _ _ _ _ _ _ _ _ Hok Hc H)
    as (rn & -> & H'). by exists l.
Qed.

Lemma resolved_texts st language r items :
  Forall2 (resolved st language) r items ->
  tag_text_at (heap st) <$> r = Some <$> items.*1.
Proof.
  induction 1 as [|a item r items (_ & Ht & _) _ IH]; [done|].
  rewrite !fmap_cons. by f_equal.
Qed.

Lemma resolved_in_session st language r items a :
  Forall2 (resolved st language) r items -> a ∈ r -> a ∈ tags (session st).
Proof.
  intros H [i Hi]%list_elem_of_lookup.
  by destruct (Forall2_lookup_l _ _ _ _ _ H Hi) as (item & _ & Hin & _).
Qed.

(** C3.  [Tag.from_tags_json] resolves each distinct name of an item's tag
    list once, in the order of first occurrence, to a tag of the session
    with that text, and no tag is returned twice.  Two calls of one run (the
    second in any later state of the session that still holds the tags, with
    any cache of that session) return the same tag object for the same text.
    A name is looked up in the cache, then in the store by [tag_text], and a
    new tag is created only when both miss: a hit returns that tag and
    leaves the tags of the session as they are, a miss on both appends one
    new object. *)
Theorem same_text_same_tag tags1 language1 cache1 tags2 language2 cache2
    st r1 c1 st1 st1' r2 c2 st2 :
  tags_ok st -> cache_ok st cache1 ->
  Tag_from_tags_json tags1 language1 cache1 st = Ok ((r1, c1), st1) ->
  tags_grow st1 st1' -> tags_ok st1' -> cache_ok st1' cache2 ->
  Tag_from_tags_json tags2 language2 cache2 st1' = Ok ((r2, c2), st2) ->
  (exists l1, iter tags1 = Ok l1 /\
     tag_text_at (heap st1) <$> r1
     = Some <$> (unique_items ∅ (item_pairs l1)).*1) /\
  NoDup r1 /\
  (forall a1 a2, a1 ∈ r1 -> a2 ∈ r2 ->
     tag_text_at (heap st2) a1 = tag_text_at (heap st2) a2 -> a1 = a2) /\
  tags_ok st1 /\ cache_ok st1 c1 /\ tags_ok st2 /\ cache_ok st2 c2 /\
  (forall language cache t_name t_translate s a c' s',
     tags_ok s -> cache_ok s cache ->
     resolve_tag language cache t_name t_translate s = Ok ((a, c'), s') ->
     (forall a0, cache !! t_name = Some a0 ->
        a = a0 /\ tags (session s') = tags (session s)) /\
     (cache !! t_name = None ->
      forall b, b ∈ tags (session s) ->
        tag_text_at (heap s) b = Some t_name ->
        a = b /\ tags (session s') = tags (session s)) /\
     (cache !! t_name = None ->
      (forall b, b ∈ tags (session s) ->
         tag_text_at (heap s) b <> Some t_name) ->
      tags (session s') = tags (session s) ++ [a] /\ heap s !! a = None)).
Proof.
  intros Hok Hc H1 Hgrow Hok1' Hc2 H2.
  destruct (Tag_from_tags_json_spec _ _ _ _ _ _ _ Hok Hc H1)
    as (l1 & Hl1 & Hok1 & Hc1 & _ & _ & _ & Hres1).
  destruct (Tag_from_tags_json_spec _ _ _ _ _ _ _ Hok1' Hc2 H2)
    as (l2 & Hl2 & Hok2 & Hc2' & _ & Hgrow2 & _ & Hres2).
  pose proof (resolved_texts _ _ _ _ Hres1) as Htexts.
  split_and!; try done.
  - by exists l1.
  - apply (NoDup_fmap_1 (tag_text_at (heap st1))). rewrite Htexts.
    apply NoDup_fmap_2; [by intros ?? [=]|apply unique_items_NoDup].
  - intros a1 a2 Ha1 Ha2. apply tags_ok_same_text_same_tag; [done| |].
    + apply Hgrow2, Hgrow. by eapply resolved_in_session.
    + by eapply resolved_in_session.
  - intros language cache t_name t_translate s a c' s' Hs Hcs Hr.
    destruct (resolve_tag_spec _ _ _ _ _ _ _ _ Hs Hcs Hr)
      as (_ & _ & _ & _ & _ & _ & Hhit & Hstore & Hnew).
    by split_and!.
Qed.

Lemma same_text_same_tag_witness :
  let tags1 := JList [sample_tag "cat" (JStr "neko"); sample_tag "dog" JNull;
                      sample_tag "cat" (JStr "neko")] in
  let tags2 := JList [sample_tag "dog" (JStr "inu"); sample_tag "bird" JNull] in
  let run1 := Tag_from_tags_json tags1 "en" ∅ initial_state in
  let st1 := state_after run1 in
  let run2 := Tag_from_tags_json tags2 "en" ∅ (flush st1) in
  let st2 := state_after run2 in
  run1 = Ok (([0; 1]%nat, (value_after ([], ∅) run1).2), st1) /\
  run2 = Ok (([1; 2]%nat, (value_after ([], ∅) run2).2), st2) /\
  tag_text_at (heap st2) <$> [0; 1; 2]%nat = [Some "cat"; Some "dog"; Some "bird"] /\
  forall a1 a2, a1 ∈ [0; 1]%nat -> a2 ∈ [1; 2]%nat ->
    tag_text_at (heap st2) a1 = tag_text_at (heap st2) a2 -> a1 = a2.
Proof.
  intros tags1 tags2 run1 st1 run2 st2.
  assert (H1 : run1 = Ok (([0; 1]%nat, (value_after ([], ∅) run1).2), st1))
    by (vm_compute; reflexivity).
  assert (H2 : run2 = Ok (([1; 2]%nat, (value_after ([], ∅) run2).2), st2))
    by (vm_compute; reflexivity).
  assert (Hok : tags_ok initial_state).
  { split; [constructor|apply NoDup_nil_2]. }
  assert (Hc : forall st, cache_ok st ∅).
  { intros st name a. by rewrite lookup_empty. }
  assert (Hok1 : tags_ok st1).
  { by destruct (Tag_from_tags_json_spec _ _ _ _ _ _ _ Hok (Hc _) H1)
      as (_ & _ & ? & _). }
  split_and!; [exact H1|exact H2|vm_compute; reflexivity|].
  pose proof (same_text_same_tag tags1 "en" ∅ tags2 "en" ∅ initial_state _ _ st1
                (flush st1) _ _ st2 Hok (Hc _) H1 (tags_grow_flush st1)
                (tags_ok_flush st1 Hok1) (Hc _) H2) as (_ & _ & Hsame & _).
  exact Hsame.
Defined.

(** C5.  One resolution of a tag with a translated name, [merge_translation]:
    when the tag has a translation into [language], every such translation
    takes the new text and no row is added; otherwise exactly one row for
    [language] with the new text is appended; either way the tag then
    translates into [language] as the new text, its other translations are
    what they were, and a tag with at most one translation per language
    stays so.  Any call of [Tag.from_tags_json] on a session whose tags have
    at most one translation per language leaves it so, and every tag it
    returns for an item with a translated name translates into [language] as
    that item says. *)
Theorem translation_merged language tags cache st r cache' st' :
  tags_ok st -> cache_ok st cache -> translations_ok st ->
  Tag_from_tags_json tags language cache st = Ok ((r, cache'), st') ->
  (forall t_translate t,
     let t' := merge_translation language t_translate t in
     (existsb (in_language language) (Tag.translation t) = true ->
      Tag.translation t'
      = (fun tr => if in_language language tr
                   then TagTranslation.set_translation_text t_translate tr
                   else tr) <$> Tag.translation t) /\
     (existsb (in_language language) (Tag.translation t) = false ->
      Tag.translation t'
      = Tag.translation t
          ++ [TagTranslation.mk (Tag.tag_id t) language t_translate]) /\
     get_translation t' language = t_translate /\
     (forall other, other <> language ->
        get_translation t' other = get_translation t other) /\
     (NoDup (TagTranslation.language <$> Tag.translation t) ->
      NoDup (TagTranslation.language <$> Tag.translation t'))) /\
  translations_ok st' /\
  exists l, iter tags = Ok l /\
    Forall2 (fun a item =>
               tag_text_at (heap st') a = Some item.1 /\
               (truthy item.2 = true ->
                translation_at st' a language = Some item.2))
      r (unique_items ∅ (item_pairs l)).
Proof.
  intros Hok Hc Htr H. split; [|split].
  - intros t_translate t t'. split_and!.
    + apply merge_translation_present.
    + apply merge_translation_absent.
    + apply get_translation_merge.
    + intros other. apply get_translation_merge_other.
    + apply merge_translation_NoDup.
  - destruct (Tag_from_tags_json_spec _ _ _ _ _ _ _ Hok Hc H)
      as (_ & _ & _ & _ & Htr' & _). by apply Htr'.
  - destruct (Tag_from_tags_json_spec _ _ _ _ _ _ _ Hok Hc H)
      as (l & Hl & _ & _ & _ & _ & _ & Hres).
    exists l. split; [done|].
    eapply Forall2_impl; [exact Hres|].
    by intros a item (_ & ? & ?).
Qed.

Lemma translation_merged_witness :
  let tags1 := JList [sample_tag "cat" (JStr "neko"); sample_tag "dog" JNull] in
  let tags2 := JList [sample_tag "cat" (JStr "cat"); sample_tag "dog" (JStr "inu");
                      sample_tag "cat" (JStr "chat")] in
  let st := state_after (Tag_from_tags_json tags1 "en" ∅ initial_state) in
  let run := Tag_from_tags_json tags2 "en" ∅ st in
  let st' := state_after run in
  run = Ok (([0; 1]%nat, (value_after ([], ∅) run).2), st') /\
  translations_ok st' /\
  translation_at st 0 "en" = Some (JStr "neko") /\
  translation_at st 1 "en" = Some JNull /\
  translation_at st' 0 "en" = Some (JStr "cat") /\
  translation_at st' 1 "en" = Some (JStr "inu") /\
  (length ∘ Tag.translation <$> heap st') = [1; 1]%nat.
Proof.
  intros tags1 tags2 st run st'.
  assert (H0 : Tag_from_tags_json tags1 "en" ∅ initial_state
               = Ok (([0; 1]%nat,
                      (value_after ([], ∅)
                         (Tag_from_tags_json tags1 "en" ∅ initial_state)).2), st))
    by (vm_compute; reflexivity).
  assert (H : run = Ok (([0; 1]%nat, (value_after ([], ∅) run).2), st'))
    by (vm_compute; reflexivity).
  assert (Hok : tags_ok initial_state).
  { split; [constructor|apply NoDup_nil_2]. }
  assert (Hc : forall s, cache_ok s ∅).
  { intros s name a. by rewrite lookup_empty. }
  assert (Htr : translations_ok initial_state).
  { by intros [|a] t. }
  destruct (Tag_from_tags_json_spec _ _ _ _ _ _ _ Hok (Hc _) H0)
    as (_ & _ & Hok1 & _ & Htr1 & _).
  pose proof (translation_merged "en" tags2 ∅ st _ _ st' Hok1 (Hc _) (Htr1 Htr) H)
    as (_ & Htr' & _).
  split_and!; [exact H|exact Htr'|vm_compute; reflexivity..].
Defined.

(** *** The default of [tags_cache] *)

(** C8.  [Works.from_json] has the default [tags_cache={}], one dictionary
    for every call that supplies none.  A first call without a cache leaves
    its tags in that dictionary, where a first call with a cache of its own
    leaves it empty; the heap and the session are the same either way.  A
    second call without a cache, made in a new run, then takes [cat] from
    the dictionary: the work it returns refers to the tag object of the
    first run and its session gets no tag, whereas after the first call
    with its own cache the second call creates the tag in its session.  So
    what the second call does depends on which tags the first resolved.
    What a session then does with the object of another session is outside
    the embedding. *)
Theorem default_tags_cache_shared :
  let first tags_cache :=
    state_after (Works_from_json sample_iso_to_datetime sample_works_json "en"
                   JNull tags_cache initial_state) in
  let second st :=
    Works_from_json sample_iso_to_datetime sample_other_json "en" JNull None
      (new_run st) in
  heap (first None) = heap (first (Some ∅)) /\
  session (new_run (first None)) = session (new_run (first (Some ∅))) /\
  map_to_list (tags_cache_default (first None)) = [("cat", 0%nat); ("dog", 1%nat)] /\
  map_to_list (tags_cache_default (first (Some ∅))) = [] /\
  (exists c st, second (first None) = Ok ((0%nat, c), st) /\
     Works.tags <$> works (session st) = [[0%nat]] /\
     tags (session st) = []) /\
  (exists c st, second (first (Some ∅)) = Ok ((0%nat, c), st) /\
     Works.tags <$> works (session st) = [[2%nat]] /\
     tags (session st) = [2%nat]).
Proof.
  intros first second. split_and!; try (vm_compute; reflexivity).
  - eexists _, _. split; [vm_compute; reflexivity|].
    split; vm_compute; reflexivity.
  - eexists _, _. split; [vm_compute; reflexivity|].
    split; vm_compute; reflexivity.
Qed.

(** ** Ingesting an item again *)

Global Instance same_tags_refl : Reflexive same_tags.
Proof. by intros st. Qed.

Global Instance same_tags_trans : Transitive same_tags.
Proof.
  intros st1 st2 st3 [H1 H1'] [H2 H2']. split; [congruence|].
  intros a. by rewrite H2', H1'.
Qed.

Lemma same_tags_flush st : same_tags st (flush st).
Proof. split; [apply tags_flush|apply tag_text_at_flush]. Qed.

Lemma same_tags_ok st st' : same_tags st st' -> tags_ok st -> tags_ok st'.
Proof. intros [? ?]. by apply tags_ok_same_text. Qed.

Lemma same_tags_cache_ok st st' cache :
  same_tags st st' -> cache_ok st cache -> cache_ok st' cache.
Proof. intros [? ?]. by apply cache_ok_same_text. Qed.

Lemma same_tags_grow st st' : same_tags st st' -> tags_grow st st'.
Proof. intros [? ?]. by apply tags_grow_same_text. Qed.

Lemma named_grow st st' r items :
  tags_grow st st' -> Forall2 (named st) r items -> Forall2 (named st') r items.
Proof.
  intros [Hin Htext] H. eapply Forall2_impl; [exact H|].
  intros a item [Ha Ht].
  split; [by apply Hin|]. rewrite Htext; [done|].
  apply is_Some_tag_text_at. rewrite Ht. by eexists.
Qed.

(** The tags of a session are determined by their names. *)
Lemma named_unique st r1 r2 items :
  tags_ok st -> Forall2 (named st) r1 items -> Forall2 (named st) r2 items ->
  r1 = r2.
Proof.
  intros Hok H1. revert r2.
  induction H1 as [|a1 item r1 items [Ha1 Ht1] _ IH]; intros r2 H2.
  - by apply Forall2_nil_inv_r in H2.
  - apply Forall2_cons_inv_r in H2 as (a2 & r2' & [Ha2 Ht2] & H2 & ->).
    f_equal; [|by apply IH].
    apply (tags_ok_same_text_same_tag st); [done..|congruence].
Qed.

Lemma resolved_named st language r items :
  Forall2 (resolved st language) r items -> Forall2 (named st) r items.
Proof.
  intros H. eapply Forall2_impl; [exact H|]. by intros a item (? & ? & _).
Qed.

Lemma Works_from_json_kv_trace iso j language ugoira_json c st kv c' st' :
  Works_from_json_kv iso j language ugoira_json c st = Ok ((kv, c'), st') ->
  exists rate date base oc lt li ou tg st_a st_b,
    derive_bookmark_rate j = Ok rate /\
    derive_create_date iso j = Ok date /\
    Works_columns j rate date = Ok base /\
    kv = base ++ caption_item oc ++ tags_item lt ++ image_urls_item li
           ++ ugoira_item ou /\
    dict_get j "tags" = Ok tg /\
    same_tags st st_a /\
    (truthy tg = true ->
     exists l, (do t <- getitem j "tags"; iter t) = Ok l /\
       from_tags_loop language l ∅ c [] st_a = Ok ((lt, c'), st_b)) /\
    (truthy tg = false -> lt = [] /\ c' = c /\ st_b = st_a) /\
    same_tags st_b st'.
Proof.
  unfold Works_from_json_kv. intros H.
  apply bind_Ok in H as (cap & ? & [Hcap ->]%lift_Ok & H).
  apply bind_Ok in H as (oc & st1 & Hoc & H).
  apply bind_Ok in H as (rate & ? & [Hrate ->]%lift_Ok & H).
  apply bind_Ok in H as (tg & ? & [Htg ->]%lift_Ok & H).
  apply bind_Ok in H as ([lt c1] & st2 & Hlt & H).
  apply bind_Ok in H as (cd & ? & [Hcd ->]%lift_Ok & H).
  apply bind_Ok in H as (date & st3 & Hdate & H).
  apply bind_Ok in H as (li & st4 & Hli & H).
  apply bind_Ok in H as (base & ? & [Hbase ->]%lift_Ok & H).
  apply bind_Ok in H as (ou & st5 & Hou & H).
  apply ret_Ok in H as [[= -> ->] ->].
  exists rate, date, base, oc, lt, li, ou, tg, st1, st2.
  assert (Hflush : forall s, same_tags s (flush s)) by apply same_tags_flush.
  split_and!; try done.
  - unfold derive_create_date. rewrite Hcd. simpl.
    destruct (truthy cd).
    + apply bind_Ok in Hdate as (d & ? & [Hd ->]%lift_Ok & Hdate).
      apply ret_Ok in Hdate as [-> _]. rewrite Hcd in Hd. simpl in Hd.
      by rewrite Hd.
    + by apply ret_Ok in Hdate as [-> _].
  - by rewrite <- !app_assoc.
  - revert Hoc. generalize st, oc, st1.
    change (preserves same_tags
              (if truthy cap
               then
                 let* id := lift (do v <- getitem j "id"; as_id v) in
                 let* o := WorksCaption_get_by_id id false in
                 let* text := lift (getitem j "caption") in
                 let* o0 := assign_caption_text o text in ret (Some o0)
               else ret None)).
    destruct (truthy cap); frame.
    + by apply preserves_flush.
    + apply assign_caption_text_preserves; [apply _|apply _|by intros].
  - intros Ht. rewrite Ht in Hlt.
    apply bind_Ok in Hlt as (tg' & ? & [Htg' ->]%lift_Ok & Hlt).
    unfold Tag_from_tags_json in Hlt.
    apply bind_Ok in Hlt as (l & ? & [Hl ->]%lift_Ok & Hlt).
    exists l. rewrite Htg'. by split.
  - intros Hf. rewrite Hf in Hlt. by apply ret_Ok in Hlt as [[= -> ->] ->].
  - transitivity st3.
    { destruct (truthy cd).
      - apply bind_Ok in Hdate as (d & ? & [Hd ->]%lift_Ok & Hdate).
        by apply ret_Ok in Hdate as [_ ->].
      - by apply ret_Ok in Hdate as [_ ->]. }
    transitivity st4.
    { revert Hli. by apply (WorksImageURLs_from_works_json_preserves same_tags). }
    revert Hou. generalize st4, ou, st5.
    change (preserves same_tags
              (if truthy ugoira_json
               then
                 let* id := lift (do v <- getitem j "id"; as_id v) in
                 let* ug := Ugoira_from_json id ugoira_json false in
                 ret (Some ug)
               else ret None)).
    destruct (truthy ugoira_json); [|apply preserves_ret; apply _].
    apply preserves_bind; [apply _|apply preserves_lift; apply _|intros id].
    apply preserves_bind; [apply _| |intros; apply preserves_ret; apply _].
    apply Ugoira_from_json_preserves; [apply _|apply _|done|by intros].
Qed.

Lemma tag_items_truthy j tg l :
  dict_get j "tags" = Ok tg -> truthy tg = true ->
  (do t <- getitem j "tags"; iter t) = Ok l ->
  tag_items j = unique_items ∅ (item_pairs l).
Proof. unfold tag_items. by intros -> -> ->. Qed.

Lemma tag_items_falsy j tg :
  dict_get j "tags" = Ok tg -> truthy tg = false -> tag_items j = [].
Proof. unfold tag_items. by intros -> ->. Qed.

Lemma Works_from_json_trace iso j language ugoira_json tags_cache st i c st' :
  Works_from_json iso j language ugoira_json tags_cache st = Ok ((i, c), st') ->
  exists w w0 id a ty ti pc tv tb ib rate date lt,
    (do v <- getitem j "id"; as_id v) = Ok id /\
    (do u <- getitem j "user"; getitem u "id") = Ok a /\
    dict_get j "type" = Ok ty /\ dict_get j "title" = Ok ti /\
    dict_get j "page_count" = Ok pc /\ dict_get j "total_view" = Ok tv /\
    dict_get j "total_bookmarks" = Ok tb /\ dict_get j "is_bookmarked" = Ok ib /\
    derive_bookmark_rate j = Ok rate /\
    derive_create_date iso j = Ok date /\
    w = Works.mk id a ty ti pc tv tb ib (Works.is_downloaded w0) rate date
          (Works.insert_date w0)
          (match lt with [] => Works.tags w0 | _ => lt end)
          (Works.persistent w0) /\
    ((one_or_none (fun w => Works.works_id w =? id) (flushed_works st) = Ok None /\
      w0 = blank_Works /\ i = length (works (session st)) /\
      works (session st') = flushed_works st ++ [w]) \/
     (flushed_works st !! i = Some w0 /\ Works.works_id w0 = id /\
      works (session st') = <[i := w]> (flushed_works st))) /\
    (tags_ok st -> cache_ok st (default (tags_cache_default st) tags_cache) ->
     tags_ok st' /\ cache_ok st' c /\ tags_grow st st' /\
     Forall2 (named st') lt (tag_items j)).
Proof.
  intros H. apply Works_from_json_Ok in H as (kv & st1 & Hkv & Hup).
  pose proof (Works_from_json_kv_flushed_works _ _ _ _ _ _ _ _ Hkv) as Hfw.
  apply Works_from_json_kv_trace in Hkv
    as (rate & date & base & oc & lt & li & ou & tg & st_a & st_b & Hrate & Hdate
        & Hbase & -> & Htg & Hpre & Htrue & Hfalse & Hpost).
  set (st1' := match tags_cache with
               | Some _ => st1
               | None => set_tags_cache_default c st1
               end) in *.
  assert (Hst1' : same_tags st1 st1') by (by destruct tags_cache).
  assert (Hupsert : same_tags st1' st').
  { revert Hup. by apply (Works_upsert_preserves same_tags);
      try apply same_tags_flush. }
  apply Works_upsert_Ok in Hup as (id' & w0 & w & st2 & Hid & Hw & Hi & Hor).
  apply Works_columns_Ok in Hbase
    as (id & a & ty & ti & pc & tv & tb & ib & ? & ? & ? & ? & ? & ? & ? & ? & ->).
  simpl in Hid. injection Hid as <-.
  pose proof (dict_setattr_Works_works _ _ _ _ _ Hw) as Hworks.
  rewrite dict_setattr_app in Hw. apply bind_Ok in Hw as (w1 & st3 & Hw1 & Hw).
  rewrite dict_setattr_columns in Hw1. injection Hw1 as <- <-.
  apply dict_setattr_relationships in Hw; [|apply relationship_items].
  rewrite assigned_tags_items in Hw. simpl in Hw.
  assert (Hfw' : works (session (flush st1')) = flushed_works st).
  { rewrite works_flush, <- Hfw. by destruct tags_cache. }
  assert (Hlen : length (flushed_works st) = length (works (session st))).
  { unfold flushed_works. by rewrite length_fmap. }
  exists w, w0, id, a, ty, ti, pc, tv, tb, ib, rate, date, lt.
  split_and!; try done.
  - rewrite Hworks, Hfw' in Hor.
    destruct Hor as [(Hq & -> & -> & ->)|(Hq & Hi0 & ->)]; [left|right].
    + by split_and!.
    + apply one_or_none_Some in Hq as (w0' & Hi0' & Hk).
      rewrite Hi0 in Hi0'. injection Hi0' as <-. apply Z.eqb_eq in Hk.
      by split_and!.
  - intros Hok Hc.
    assert (Hok_a : tags_ok st_a) by (by eapply same_tags_ok).
    assert (Hc_a : cache_ok st_a (default (tags_cache_default st) tags_cache))
      by (by eapply same_tags_cache_ok).
    assert (Hrest : same_tags st_b st').
    { transitivity st1; [done|]. by transitivity st1'. }
    assert (Hb : tags_ok st_b /\ cache_ok st_b c /\ tags_grow st_a st_b /\
                 Forall2 (named st_b) lt (tag_items j)).
    { destruct (truthy tg) eqn:Ht.
      - destruct (Htrue eq_refl) as (l & Hl & Hloop).
        destruct (from_tags_loop_spec _ _ _ _ _ _ _ _ _ Hok_a Hc_a Hloop)
          as (rn & Hrn & ? & ? & _ & ? & _ & Hres).
        simpl in Hrn. subst rn.
        rewrite (tag_items_truthy _ _ _ Htg Ht Hl).
        split_and!; try done. by eapply resolved_named.
      - destruct (Hfalse eq_refl) as (-> & -> & ->).
        rewrite (tag_items_falsy _ _ Htg Ht).
        by split_and!. }
    destruct Hb as (Hok_b & Hc_b & Hgrow & Hnamed).
    split_and!.
    + by eapply same_tags_ok.
    + by eapply same_tags_cache_ok.
    + transitivity st_a; [by apply same_tags_grow|].
      transitivity st_b; [done|by apply same_tags_grow].
    + eapply named_grow; [|exact Hnamed]. by apply same_tags_grow.
Qed.

Lemma tags_cache_default_flush st :
  tags_cache_default (flush st) = tags_cache_default st.
Proof.
  unfold flush. by destruct (flush_tags _ _ _), (flush_works_local _ _),
    (flush_users _ _ _).
Qed.

Lemma works_keys_flush st : works_keys (flush st) = works_keys st.
Proof. unfold works_keys. by rewrite works_flush, flushed_works_keys. Qed.

(** [Works.from_json] keeps the keys of the works distinct: a work is added
    under a key that no work has, or takes the place of the one with its
    key. *)
Lemma Works_from_json_keys iso j language ugoira_json tags_cache st i c st' :
  NoDup (works_keys st) ->
  Works_from_json iso j language ugoira_json tags_cache st = Ok ((i, c), st') ->
  NoDup (works_keys st') /\
  exists id, (do v <- getitem j "id"; as_id v) = Ok id /\
    works_keys st' !! i = Some id /\
    (id ∈ works_keys st -> works_keys st' = works_keys st) /\
    (id ∉ works_keys st -> works_keys st' = works_keys st ++ [id]).
Proof.
  intros Hnd H. apply Works_from_json_trace in H
    as (w & w0 & id & a & ty & ti & pc & tv & tb & ib & rate & date & lt
        & Hid & _ & _ & _ & _ & _ & _ & _ & _ & _ & Hw & Hor & _).
  assert (Hwid : Works.works_id w = id) by (by subst w).
  destruct Hor as [(Hq & _ & -> & Hworks)|(Hi & Hid0 & Hworks)].
  - apply one_or_none_None in Hq.
    assert (Hout : id ∉ works_keys st).
    { rewrite <- flushed_works_keys. intros (w' & Hk & Hin)%list_elem_of_fmap.
      rewrite Forall_forall in Hq. apply Hq in Hin. lia. }
    assert (Hkeys : works_keys st' = works_keys st ++ [id]).
    { unfold works_keys at 1. rewrite Hworks, fmap_app, flushed_works_keys.
      simpl. by rewrite Hwid. }
    split; [|exists id; split_and!; try done].
    + rewrite Hkeys. apply NoDup_app. split_and!; [done| |apply NoDup_singleton].
      intros k Hk ->%list_elem_of_singleton. done.
    + rewrite Hkeys. rewrite lookup_app_r; unfold works_keys;
        rewrite length_fmap; [|done]. by rewrite Nat.sub_diag.
  - assert (Hk : works_keys st !! i = Some id).
    { rewrite <- flushed_works_keys, list_lookup_fmap, Hi. simpl. by f_equal. }
    assert (Hkeys : works_keys st' = works_keys st).
    { unfold works_keys at 1. rewrite Hworks, list_fmap_insert, Hwid.
      rewrite flushed_works_keys. by apply list_insert_id. }
    split; [by rewrite Hkeys|]. exists id. rewrite Hkeys. split_and!; try done.
    intros Hout. destruct Hout. by eapply list_elem_of_lookup_2.
Qed.

(** Ingesting the item again, in any later state of the session in which
    its row is as the first ingestion left it, changes nothing in the
    works. *)
Lemma Works_from_json_again iso j language ugoira_json tc1 tc2
    st i1 c1 st1 st1' i2 c2 st2 :
  tags_ok st -> cache_ok st (default (tags_cache_default st) tc1) ->
  Works_from_json iso j language ugoira_json tc1 st = Ok ((i1, c1), st1) ->
  NoDup (works_keys st1') -> tags_ok st1' -> tags_grow st1 st1' ->
  cache_ok st1' (default (tags_cache_default st1') tc2) ->
  flushed_works st1' !! i1 = flushed_works st1 !! i1 ->
  Works_from_json iso j language ugoira_json tc2 st1' = Ok ((i2, c2), st2) ->
  i2 = i1 /\ works (session st2) = flushed_works st1' /\
  exists w, works (session st2) !! i2 = Some w /\
    (do v <- getitem j "id"; as_id v) = Ok (Works.works_id w) /\
    (do u <- getitem j "user"; getitem u "id") = Ok (Works.author_id w) /\
    dict_get j "type" = Ok (Works.works_type w) /\
    dict_get j "title" = Ok (Works.title w) /\
    dict_get j "page_count" = Ok (Works.page_count w) /\
    dict_get j "total_view" = Ok (Works.total_views w) /\
    dict_get j "total_bookmarks" = Ok (Works.total_bookmarks w) /\
    dict_get j "is_bookmarked" = Ok (Works.is_bookmarked w) /\
    derive_bookmark_rate j = Ok (Works.bookmark_rate w) /\
    derive_create_date iso j = Ok (Works.create_date w).
Proof.
  intros Hok Hc H1 Hnd1 Hok1' Hgrow1 Hc2 Hrow H2.
  apply Works_from_json_trace in H1
    as (w1 & w01 & id & a & ty & ti & pc & tv & tb & ib & rate & date & lt1
        & Hid & Ha & Hty & Hti & Hpc & Htv & Htb & Hib & Hrate & Hdate
        & Hw1 & Hor1 & Htags1).
  destruct (Htags1 Hok Hc) as (Hok1 & _ & _ & Hnamed1).
  apply Works_from_json_trace in H2
    as (w2 & w02 & id' & a' & ty' & ti' & pc' & tv' & tb' & ib' & rate' & date'
        & lt2 & Hid' & Ha' & Hty' & Hti' & Hpc' & Htv' & Htb' & Hib' & Hrate'
        & Hdate' & Hw2 & Hor2 & Htags2).
  rewrite Hid in Hid'. injection Hid' as <-.
  rewrite Ha in Ha'. injection Ha' as <-.
  rewrite Hty in Hty'. injection Hty' as <-.
  rewrite Hti in Hti'. injection Hti' as <-.
  rewrite Hpc in Hpc'. injection Hpc' as <-.
  rewrite Htv in Htv'. injection Htv' as <-.
  rewrite Htb in Htb'. injection Htb' as <-.
  rewrite Hib in Hib'. injection Hib' as <-.
  rewrite Hrate in Hrate'. injection Hrate' as <-.
  rewrite Hdate in Hdate'. injection Hdate' as <-.
  destruct (Htags2 Hok1' Hc2) as (Hok2 & _ & Hgrow2 & Hnamed2).
  assert (Hlt : lt2 = lt1).
  { apply (named_unique st2 _ _ (tag_items j)); [done..|].
    eapply named_grow; [|exact Hnamed1]. by transitivity st1'. }
  subst lt2.
  assert (Hi1 : works (session st1) !! i1 = Some w1).
  { destruct Hor1 as [(_ & _ & -> & ->)|(Hi & _ & ->)].
    - rewrite lookup_app_r; unfold flushed_works; rewrite length_fmap; [|done].
      by rewrite Nat.sub_diag.
    - apply list_lookup_insert_eq. by eapply lookup_lt_Some. }
  assert (Hwid : Works.works_id w1 = id) by (by subst w1).
  rewrite (flushed_works_lookup _ _ _ Hi1) in Hrow.
  assert (Hndf : NoDup (Works.works_id <$> flushed_works st1'))
    by (by rewrite flushed_works_keys).
  assert (Hfid : Works.works_id (insert_works (now (session st1)) w1) = id)
    by (by rewrite insert_works_id).
  destruct Hor2 as [(Hq & _)|(Hi2 & Hid2 & Hworks2)].
  { by rewrite (one_or_none_unique Works.works_id id _ i1 _ Hndf Hrow) in Hq. }
  assert (i2 = i1) as ->.
  { eapply NoDup_lookup; [exact Hndf|..]; rewrite list_lookup_fmap.
    - by rewrite Hi2.
    - rewrite Hrow. simpl. congruence. }
  rewrite Hrow in Hi2. injection Hi2 as <-.
  assert (Hsame : w2 = insert_works (now (session st1)) w1).
  { rewrite Hw2, Hw1. unfold insert_works. simpl.
    destruct (Works.persistent w01), lt1; reflexivity. }
  assert (Hworks : works (session st2) = flushed_works st1').
  { rewrite Hworks2. apply list_insert_id. by rewrite Hrow, Hsame. }
  split_and!; [done..|].
  exists w2. split; [by rewrite Hworks, Hrow, Hsame|].
  rewrite Hw2. by split_and!.
Qed.


Lemma users_flush st : users (session (flush st)) = flushed_users st.
Proof.
  unfold flush, flushed_users.
  by destruct (flush_tags _ _ _), (flush_works_local _ _), (flush_users _ _ _).
Qed.

Lemma flush_users_flushed now l n :
  Forall (fun u => is_Some (User.local_id u)) (flush_users now l n).1.
Proof.
  revert n. induction l as [|u l IH]; intros n; simpl; [constructor|].
  destruct (User.local_id u) eqn:E.
  - specialize (IH n). destruct (flush_users now l n). simpl in *.
    constructor; [by rewrite E|done].
  - specialize (IH (n + 1)). destruct (flush_users now l (n + 1)). simpl in *.
    constructor; [by eexists|done].
Qed.

Lemma flush_users_persistent now l n :
  Forall (fun u => is_Some (User.local_id u)) l -> flush_users now l n = (l, n).
Proof.
  induction 1 as [|u l [k Hk] _ IH]; simpl; [done|]. by rewrite Hk, IH.
Qed.

(** What a flush leaves of a user: the row with its generated key and its
    insertion date filled in. *)
Lemma flush_users_lookup now l n i u :
  l !! i = Some u ->
  exists u', (flush_users now l n).1 !! i = Some u' /\
    User.user_id u' = User.user_id u /\ User.name u' = User.name u /\
    User.account u' = User.account u /\
    User.is_followed u' = User.is_followed u.
Proof.
  revert n i. induction l as [|u0 l IH]; intros n i; [done|]. simpl.
  destruct (User.local_id u0) eqn:E.
  - specialize (IH n). destruct (flush_users now l n). simpl in *.
    destruct i as [|i]; simpl; [intros [= ->]; by exists u|apply IH].
  - specialize (IH (n + 1)). destruct (flush_users now l (n + 1)). simpl in *.
    destruct i as [|i]; simpl; [|apply IH].
    intros [= ->]. by eexists.
Qed.

Lemma flush_users_keys now l n :
  User.user_id <$> (flush_users now l n).1 = User.user_id <$> l.
Proof.
  revert n. induction l as [|u l IH]; intros n; simpl; [done|].
  destruct (User.local_id u).
  - specialize (IH n). destruct (flush_users now l n). simpl in *. by f_equal.
  - specialize (IH (n + 1)). destruct (flush_users now l (n + 1)). simpl in *.
    by f_equal.
Qed.

Lemma flushed_users_keys st : User.user_id <$> flushed_users st = users_keys st.
Proof. apply flush_users_keys. Qed.

Lemma flushed_users_flush st : flushed_users (flush st) = flushed_users st.
Proof.
  unfold flushed_users at 1. rewrite users_flush.
  rewrite flush_users_persistent; [done|]. apply flush_users_flushed.
Qed.

Lemma users_keys_flush st : users_keys (flush st) = users_keys st.
Proof. unfold users_keys. by rewrite users_flush, flushed_users_keys. Qed.

Lemma setattr_UserDetail_preserves (R : State -> State -> Prop)
    `{!Reflexive R} u k v :
  preserves R (setattr_UserDetail u k v).
Proof.
  unfold setattr_UserDetail.
  destruct v;
    repeat match goal with
           | |- preserves _ (if ?c then _ else _) => destruct c
           end;
    try (by apply preserves_ret); apply preserves_throw.
Qed.

Lemma UserDetail_from_user_json_flushed_users j st o st' :
  UserDetail_from_user_json j false st = Ok (o, st') ->
  flushed_users st' = flushed_users st.
Proof.
  revert st o st'.
  change (preserves (keeps flushed_users) (UserDetail_from_user_json j false)).
  unfold UserDetail_from_user_json.
  do 9 (apply preserves_bind; [apply _|apply preserves_lift; apply _|intros ?]).
  apply preserves_bind; [apply _| |intros [i|]].
  - apply preserves_query; [apply _..|]. intros st. apply flushed_users_flush.
  - apply preserves_bind; [apply _|apply preserves_get; apply _|intros ?].
    apply preserves_bind; [apply _|apply preserves_lift; apply _|intros ?].
    apply preserves_bind; [apply _| |intros ?].
    + apply preserves_dict_setattr; [apply _..|].
      intros. apply setattr_UserDetail_preserves. apply _.
    + apply preserves_bind; [apply _| |intros; apply preserves_ret; apply _].
      apply preserves_modify_session. by intros.
  - apply preserves_bind; [apply _| |intros ?; apply preserves_ret; apply _].
    apply preserves_dict_setattr; [apply _..|].
    intros. apply setattr_UserDetail_preserves. apply _.
Qed.

Lemma dict_setattr_User u0 id name account is_followed o st :
  dict_setattr setattr_User u0
    [("user_id", AId id); ("name", AVal name); ("account", AVal account);
     ("is_followed", AVal is_followed); ("detial", ADetail o)] st
  = Ok (User.mk (User.local_id u0) id name account is_followed
          (User.insert_date u0),
        set_session
          (set_users_details
             (users_details (session st) ++ transient_rows [o]) (session st))
          st).
Proof. reflexivity. Qed.

Lemma User_from_json_trace j st i st' :
  User_from_json j st = Ok (i, st') ->
  exists u u0 id name account is_followed,
    (do v <- getitem2 j "user" "id"; as_id v) = Ok id /\
    getitem2 j "user" "name" = Ok name /\
    getitem2 j "user" "account" = Ok account /\
    getitem2 j "user" "is_followed" = Ok is_followed /\
    u = User.mk (User.local_id u0) id name account is_followed
          (User.insert_date u0) /\
    ((one_or_none (fun u => User.user_id u =? id) (flushed_users st) = Ok None /\
      u0 = blank_User /\ i = length (users (session st)) /\
      users (session st') = flushed_users st ++ [u]) \/
     (flushed_users st !! i = Some u0 /\ User.user_id u0 = id /\
      users (session st') = <[i := u]> (flushed_users st))).
Proof.
  unfold User_from_json. intros H.
  apply bind_Ok in H as (id & ? & [Hid ->]%lift_Ok & H).
  apply bind_Ok in H as (name & ? & [Hname ->]%lift_Ok & H).
  apply bind_Ok in H as (account & ? & [Hacc ->]%lift_Ok & H).
  apply bind_Ok in H as (is_followed & ? & [Hfol ->]%lift_Ok & H).
  apply bind_Ok in H as (detial & st1 & Hdet & H).
  apply UserDetail_from_user_json_flushed_users in Hdet.
  apply bind_Ok in H as (o & st2 & [-> Hq]%query_one_or_none_Ok & H).
  rewrite users_flush, Hdet in Hq.
  assert (Hlen : length (flushed_users st) = length (users (session st))).
  { rewrite <- (length_fmap User.user_id), flushed_users_keys.
    unfold users_keys. by rewrite length_fmap. }
  destruct o as [i0|].
  - apply bind_Ok in H as (? & ? & [-> ->]%get_Ok & H).
    apply bind_Ok in H as (u0 & ? & [Hu0 ->]%lift_Ok & H).
    apply bind_Ok in H as (u & st3 & Hu & H).
    rewrite dict_setattr_User in Hu. injection Hu as <- <-.
    apply bind_Ok in H as ([] & st4 & ->%modify_session_Ok & H).
    apply ret_Ok in H as [-> ->].
    simpl in Hu0. rewrite users_flush, Hdet in Hu0.
    destruct (flushed_users st !! i0) as [u0'|] eqn:Hi0; [|done].
    injection Hu0 as ->.
    apply one_or_none_Some in Hq as (u0' & Hi0' & Hk).
    rewrite Hi0 in Hi0'. injection Hi0' as <-. apply Z.eqb_eq in Hk.
    eexists _, u0, id, name, account, is_followed.
    split_and!; try done. right. split_and!; try done.
    cbn [users session set_session set_users set_users_details].
    by rewrite users_flush, Hdet.
  - apply bind_Ok in H as (u & st3 & Hu & H).
    rewrite dict_setattr_User in Hu. injection Hu as <- <-.
    apply bind_Ok in H as (? & ? & [-> ->]%get_Ok & H).
    apply bind_Ok in H as ([] & st4 & ->%modify_session_Ok & H).
    apply ret_Ok in H as [-> ->].
    eexists _, blank_User, id, name, account, is_followed.
    split_and!; try done. left. split_and!; try done.
    + cbn [users session set_session set_users set_users_details].
      by rewrite users_flush, Hdet.
    + cbn [users session set_session set_users set_users_details].
      by rewrite users_flush, Hdet.
Qed.

(** [User.from_json] keeps the keys of the users distinct. *)
Lemma User_from_json_keys j st i st' :
  NoDup (users_keys st) ->
  User_from_json j st = Ok (i, st') ->
  NoDup (users_keys st') /\
  exists id, (do v <- getitem2 j "user" "id"; as_id v) = Ok id /\
    users_keys st' !! i = Some id /\
    (id ∈ users_keys st -> users_keys st' = users_keys st) /\
    (id ∉ users_keys st -> users_keys st' = users_keys st ++ [id]).
Proof.
  intros Hnd H. apply User_from_json_trace in H
    as (u & u0 & id & name & account & is_followed
        & Hid & _ & _ & _ & Hu & Hor).
  assert (Huid : User.user_id u = id) by (by subst u).
  destruct Hor as [(Hq & _ & -> & Husers)|(Hi & Hid0 & Husers)].
  - apply one_or_none_None in Hq.
    assert (Hout : id ∉ users_keys st).
    { rewrite <- flushed_users_keys. intros (u' & Hk & Hin)%list_elem_of_fmap.
      rewrite Forall_forall in Hq. apply Hq in Hin. lia. }
    assert (Hkeys : users_keys st' = users_keys st ++ [id]).
    { unfold users_keys at 1. rewrite Husers, fmap_app, flushed_users_keys.
      simpl. by rewrite Huid. }
    split; [|exists id; split_and!; try done].
    + rewrite Hkeys. apply NoDup_app. split_and!; [done| |apply NoDup_singleton].
      intros k Hk ->%list_elem_of_singleton. done.
    + rewrite Hkeys. rewrite lookup_app_r; unfold users_keys;
        rewrite length_fmap; [|done]. by rewrite Nat.sub_diag.
  - assert (Hk : users_keys st !! i = Some id).
    { rewrite <- flushed_users_keys, list_lookup_fmap, Hi. simpl. by f_equal. }
    assert (Hkeys : users_keys st' = users_keys st).
    { unfold users_keys at 1. rewrite Husers, list_fmap_insert, Huid.
      rewrite flushed_users_keys. by apply list_insert_id. }
    split; [by rewrite Hkeys|]. exists id. rewrite Hkeys. split_and!; try done.
    intros Hout. destruct Hout. by eapply list_elem_of_lookup_2.
Qed.

(** Ingesting the user again, in any later state of the session in which
    its row is as the first ingestion left it, changes nothing in the
    users. *)
Lemma User_from_json_again j st i1 st1 st1' i2 st2 :
  User_from_json j st = Ok (i1, st1) ->
  NoDup (users_keys st1') ->
  flushed_users st1' !! i1 = flushed_users st1 !! i1 ->
  User_from_json j st1' = Ok (i2, st2) ->
  i2 = i1 /\ users (session st2) = flushed_users st1' /\
  exists u, users (session st2) !! i2 = Some u /\
    (do v <- getitem2 j "user" "id"; as_id v) = Ok (User.user_id u) /\
    getitem2 j "user" "name" = Ok (User.name u) /\
    getitem2 j "user" "account" = Ok (User.account u) /\
    getitem2 j "user" "is_followed" = Ok (User.is_followed u).
Proof.
  intros H1 Hnd1 Hrow H2.
  apply User_from_json_trace in H1
    as (u1 & u01 & id & name & account & is_followed
        & Hid & Hname & Hacc & Hfol & Hu1 & Hor1).
  apply User_from_json_trace in H2
    as (u2 & u02 & id' & name' & account' & is_followed'
        & Hid' & Hname' & Hacc' & Hfol' & Hu2 & Hor2).
  rewrite Hid in Hid'. injection Hid' as <-.
  rewrite Hname in Hname'. injection Hname' as <-.
  rewrite Hacc in Hacc'. injection Hacc' as <-.
  rewrite Hfol in Hfol'. injection Hfol' as <-.
  assert (Hlen : length (flushed_users st) = length (users (session st))).
  { rewrite <- (length_fmap User.user_id), flushed_users_keys.
    unfold users_keys. by rewrite length_fmap. }
  assert (Hi1 : users (session st1) !! i1 = Some u1).
  { destruct Hor1 as [(_ & _ & -> & ->)|(Hi & _ & ->)].
    - rewrite <- Hlen, lookup_app_r; [|done]. by rewrite Nat.sub_diag.
    - apply list_lookup_insert_eq. by eapply lookup_lt_Some. }
  destruct (flush_users_lookup (now (session st1)) _
              (next_user_local_id (session st1)) _ _ Hi1)
    as (u1' & Hu1' & Hid1' & Hname1' & Hacc1' & Hfol1').
  change (flushed_users st1 !! i1 = Some u1') in Hu1'.
  rewrite Hu1' in Hrow.
  assert (Hndf : NoDup (User.user_id <$> flushed_users st1'))
    by (by rewrite flushed_users_keys).
  assert (Hu1id : User.user_id u1' = id) by (by rewrite Hid1', Hu1).
  destruct Hor2 as [(Hq & _)|(Hi2 & Hid2 & Husers2)].
  { by rewrite (one_or_none_unique User.user_id id _ i1 _ Hndf Hrow) in Hq. }
  assert (i2 = i1) as ->.
  { eapply NoDup_lookup; [exact Hndf|..]; rewrite list_lookup_fmap.
    - by rewrite Hi2.
    - rewrite Hrow. simpl. congruence. }
  rewrite Hrow in Hi2. injection Hi2 as <-.
  assert (Hsame : u2 = u1').
  { rewrite Hu2. destruct u1' as [l0 k0 n0 a0 f0 d0]. simpl in *.
    subst u1. simpl in *. congruence. }
  assert (Husers : users (session st2) = flushed_users st1').
  { rewrite Husers2. apply list_insert_id. by rewrite Hrow, Hsame. }
  split_and!; [done..|].
  exists u2. split; [by rewrite Husers, Hrow, Hsame|].
  rewrite Hu2. by split_and!.
Qed.


(** C1.  A work is ingested with [Works.from_json], and ingested again from
    the same JSON in any later state of the session in which its row is
    still as the first ingestion left it (the tags of the session have
    distinct texts, the caches belong to the session, the keys of the works
    are distinct): the second ingestion returns the row of the first and
    leaves the table of works exactly as it was (as flushed), so it adds no
    row and changes no value; the row carries the fields of the JSON, and
    the keys are still distinct.  The same holds for a user ingested twice
    with [User.from_json]. *)
Theorem reingest_adds_no_row
    iso jw language ugoira_json tc1 tc2 sw i1 c1 sw1 sw1' i2 c2 sw2
    ju su k1 su1 su1' k2 su2 :
  tags_ok sw -> cache_ok sw (default (tags_cache_default sw) tc1) ->
  Works_from_json iso jw language ugoira_json tc1 sw = Ok ((i1, c1), sw1) ->
  NoDup (works_keys sw1') -> tags_ok sw1' -> tags_grow sw1 sw1' ->
  cache_ok sw1' (default (tags_cache_default sw1') tc2) ->
  flushed_works sw1' !! i1 = flushed_works sw1 !! i1 ->
  Works_from_json iso jw language ugoira_json tc2 sw1' = Ok ((i2, c2), sw2) ->
  User_from_json ju su = Ok (k1, su1) ->
  NoDup (users_keys su1') ->
  flushed_users su1' !! k1 = flushed_users su1 !! k1 ->
  User_from_json ju su1' = Ok (k2, su2) ->
  (i2 = i1 /\
   works (session sw2) = flushed_works sw1' /\
   length (works (session sw2)) = length (works (session sw1')) /\
   NoDup (works_keys sw2) /\
   exists w, works (session sw2) !! i2 = Some w /\
     (do v <- getitem jw "id"; as_id v) = Ok (Works.works_id w) /\
     (do u <- getitem jw "user"; getitem u "id") = Ok (Works.author_id w) /\
     dict_get jw "type" = Ok (Works.works_type w) /\
     dict_get jw "title" = Ok (Works.title w) /\
     dict_get jw "page_count" = Ok (Works.page_count w) /\
     dict_get jw "total_view" = Ok (Works.total_views w) /\
     dict_get jw "total_bookmarks" = Ok (Works.total_bookmarks w) /\
     dict_get jw "is_bookmarked" = Ok (Works.is_bookmarked w) /\
     derive_bookmark_rate jw = Ok (Works.bookmark_rate w) /\
     derive_create_date iso jw = Ok (Works.create_date w)) /\
  (k2 = k1 /\
   users (session su2) = flushed_users su1' /\
   length (users (session su2)) = length (users (session su1')) /\
   NoDup (users_keys su2) /\
   exists u, users (session su2) !! k2 = Some u /\
     (do v <- getitem2 ju "user" "id"; as_id v) = Ok (User.user_id u) /\
     getitem2 ju "user" "name" = Ok (User.name u) /\
     getitem2 ju "user" "account" = Ok (User.account u) /\
     getitem2 ju "user" "is_followed" = Ok (User.is_followed u)).
Proof.
  intros Hok Hc Hw1 Hndw Hok1 Hgrow Hc2 Hroww Hw2 Hu1 Hndu Hrowu Hu2.
  destruct (Works_from_json_again _ _ _ _ _ _ _ _ _ _ _ _ _ _
              Hok Hc Hw1 Hndw Hok1 Hgrow Hc2 Hroww Hw2) as (Hi & Hworks & Hw).
  destruct (User_from_json_again _ _ _ _ _ _ _ Hu1 Hndu Hrowu Hu2)
    as (Hk & Husers & Hu).
  split; split_and!; try done.
  - rewrite Hworks. unfold flushed_works. by rewrite length_fmap.
  - unfold works_keys. by rewrite Hworks, flushed_works_keys.
  - rewrite Husers, <- (length_fmap User.user_id), flushed_users_keys.
    unfold users_keys. by rewrite length_fmap.
  - unfold users_keys at 1. by rewrite Husers, flushed_users_keys.
Qed.

Lemma reingest_adds_no_row_witness :
  let runw st tc := Works_from_json sample_iso_to_datetime sample_works_json "en"
                      JNull tc st in
  let sw1 := state_after (runw initial_state (Some ∅)) in
  let c1 := (value_after (0%nat, ∅) (runw initial_state (Some ∅))).2 in
  let sw2 := state_after (runw (flush sw1) (Some c1)) in
  let su1 := state_after (User_from_json sample_user_json initial_state) in
  let su2 := state_after (User_from_json sample_user_json (flush su1)) in
  runw initial_state (Some ∅) = Ok ((0%nat, c1), sw1) /\
  runw (flush sw1) (Some c1) = Ok ((0%nat, c1), sw2) /\
  works (session sw2) = works (session (flush sw1)) /\
  length (works (session sw2)) = 1%nat /\
  User_from_json sample_user_json initial_state = Ok (0%nat, su1) /\
  User_from_json sample_user_json (flush su1) = Ok (0%nat, su2) /\
  users (session su2) = users (session (flush su1)) /\
  length (users (session su2)) = 1%nat.
Proof.
  intros runw sw1 c1 sw2 su1 su2.
  assert (Hw1 : runw initial_state (Some ∅) = Ok ((0%nat, c1), sw1))
    by (vm_compute; reflexivity).
  assert (Hw2 : runw (flush sw1) (Some c1) = Ok ((0%nat, c1), sw2))
    by (vm_compute; reflexivity).
  assert (Hu1 : User_from_json sample_user_json initial_state = Ok (0%nat, su1))
    by (vm_compute; reflexivity).
  assert (Hu2 : User_from_json sample_user_json (flush su1) = Ok (0%nat, su2))
    by (vm_compute; reflexivity).
  assert (Hok : tags_ok initial_state).
  { split; [constructor|apply NoDup_nil_2]. }
  assert (Hc : cache_ok initial_state ∅).
  { intros name a. by rewrite lookup_empty. }
  assert (Hnd : NoDup (works_keys initial_state)) by apply NoDup_nil_2.
  assert (Hndu : NoDup (users_keys initial_state)) by apply NoDup_nil_2.
  destruct (Works_from_json_keys _ _ _ _ _ _ _ _ _ Hnd Hw1) as [Hnd1 _].
  destruct (User_from_json_keys _ _ _ _ Hndu Hu1) as [Hndu1 _].
  destruct (Works_from_json_trace _ _ _ _ _ _ _ _ _ Hw1)
    as (? & ? & ? & ? & ? & ? & ? & ? & ? & ? & ? & ? & ? & _ & _ & _ & _ & _ & _
        & _ & _ & _ & _ & _ & _ & Htags).
  destruct (Htags Hok Hc) as (Hok1 & Hc1 & _ & _).
  rewrite <- works_keys_flush in Hnd1. rewrite <- users_keys_flush in Hndu1.
  pose proof (reingest_adds_no_row sample_iso_to_datetime sample_works_json "en"
                JNull (Some ∅) (Some c1) initial_state 0 c1 sw1 (flush sw1) 0 c1 sw2
                sample_user_json initial_state 0 su1 (flush su1) 0 su2
                Hok Hc Hw1 Hnd1 (tags_ok_flush _ Hok1) (tags_grow_flush _)
                (cache_ok_flush _ _ Hc1)
                (f_equal (fun l => l !! 0%nat) (flushed_works_flush sw1)) Hw2
                Hu1 Hndu1
                (f_equal (fun l => l !! 0%nat) (flushed_users_flush su1)) Hu2)
    as ((_ & Hworks & _) & (_ & Husers & _)).
  rewrite flushed_works_flush, <- works_flush in Hworks.
  rewrite flushed_users_flush, <- users_flush in Husers.
  split_and!; try done; vm_compute; reflexivity.
Defined.

(** * More of [Works.from_json] *)

Lemma users_details_flush st :
  users_details (session (flush st)) = users_details (session st).
Proof.
  unfold flush.
  by destruct (flush_tags _ _ _), (flush_works_local _ _), (flush_users _ _ _).
Qed.

Lemma beside_works_flush st : beside_works (flush st) = beside_works st.
Proof.
  unfold beside_works.
  by rewrite flushed_users_flush, users_details_flush, works_local_keys_flush.
Qed.

(** X1: [Works.from_json] reads [json_info['id']], [json_info['user']['id']]
    and [json_info['page_count']] with subscripts: a call that returns has
    found all three, and [page_count] was a number (the comparison
    [page_count > 1] raises [TypeError] on [None]).  A JSON that lacks one of
    them makes the call raise, whatever else it holds. *)
Theorem Works_from_json_needs iso j language ugoira_json tags_cache st r :
  Works_from_json iso j language ugoira_json tags_cache st = Ok r ->
  exists id author_id page_count many,
    getitem j "id" = Ok id /\
    (do u <- getitem j "user"; getitem u "id") = Ok author_id /\
    getitem j "page_count" = Ok page_count /\
    gt_int page_count 1 = Ok many /\
    page_count <> JNull.
Proof.
  destruct r as [[i c] st']. intros H.
  pose proof (Works_from_json_trace _ _ _ _ _ _ _ _ _ H)
    as (_ & _ & id & a & _ & _ & _ & _ & _ & _ & _ & _ & _ & Hid & Ha & _).
  apply Works_from_json_Ok in H as (kv & st1 & Hkv & _).
  unfold Works_from_json_kv in Hkv.
  apply bind_Ok in Hkv as (cap & ? & _ & Hkv).
  apply bind_Ok in Hkv as (oc & ? & _ & Hkv).
  apply bind_Ok in Hkv as (rate & ? & _ & Hkv).
  apply bind_Ok in Hkv as (tg & ? & _ & Hkv).
  apply bind_Ok in Hkv as ([lt c1] & ? & _ & Hkv).
  apply bind_Ok in Hkv as (cd & ? & _ & Hkv).
  apply bind_Ok in Hkv as (date & ? & _ & Hkv).
  apply bind_Ok in Hkv as (li & ? & Hli & _).
  unfold WorksImageURLs_from_works_json in Hli.
  apply bind_Ok in Hli as (pc & ? & [Hpc ->]%lift_Ok & Hli).
  apply bind_Ok in Hli as (many & ? & [Hmany ->]%lift_Ok & _).
  destruct (getitem j "id") as [v|] eqn:Hv; [|done].
  exists v, a, pc, many. split_and!; try done. by intros ->.
Qed.

Lemma Works_from_json_needs_witness :
  let run := Works_from_json sample_iso_to_datetime sample_works_json "en" JNull
               None initial_state in
  run = Ok (value_after (0%nat, ∅) run, state_after run) /\
  exists id author_id page_count many,
    getitem sample_works_json "id" = Ok id /\
    (do u <- getitem sample_works_json "user"; getitem u "id") = Ok author_id /\
    getitem sample_works_json "page_count" = Ok page_count /\
    gt_int page_count 1 = Ok many /\
    page_count <> JNull.
Proof.
  intros run.
  assert (H : run = Ok (value_after (0%nat, ∅) run, state_after run))
    by (vm_compute; reflexivity).
  split; [exact H|]. exact (Works_from_json_needs _ _ _ _ _ _ _ H).
Defined.

(** X2: [Works.from_json] creates and changes no user, no user detail and no
    insertion-order record: the author named by [author_id] is not looked
    up, and is left for the caller to ingest. *)
Theorem Works_from_json_beside iso j language ugoira_json tags_cache st r :
  Works_from_json iso j language ugoira_json tags_cache st = Ok r ->
  flushed_users r.2 = flushed_users st /\
  users_keys r.2 = users_keys st /\
  users_details (session r.2) = users_details (session st) /\
  works_local_keys r.2 = works_local_keys st.
Proof.
  destruct r as [[i c] st']. intros H. simpl.
  apply Works_from_json_Ok in H as (kv & st1 & Hkv & Hup).
  assert (H1 : beside_works st1 = beside_works st).
  { revert Hkv.
    apply (Works_from_json_kv_preserves (keeps beside_works)); try by intros.
    intros st0. apply beside_works_flush. }
  assert (H2 : beside_works st' = beside_works st1).
  { transitivity (beside_works
                    (match tags_cache with
                     | Some _ => st1
                     | None => set_tags_cache_default c st1
                     end)); [|by destruct tags_cache].
    revert Hup.
    apply (Works_upsert_preserves (keeps beside_works)); try by intros.
    intros st0. apply beside_works_flush. }
  rewrite H1 in H2. unfold beside_works in H2. injection H2 as Hu Hd Hl.
  split_and!; try done. by rewrite <- !flushed_users_keys, Hu.
Qed.

Lemma Works_from_json_beside_witness :
  let run := Works_from_json sample_iso_to_datetime sample_works_json "en" JNull
               None initial_state in
  run = Ok (value_after (0%nat, ∅) run, state_after run) /\
  users (session (state_after run)) = [] /\
  users_details (session (state_after run)) = [] /\
  works_local (session (state_after run)) = [].
Proof.
  intros run.
  assert (H : run = Ok (value_after (0%nat, ∅) run, state_after run))
    by (vm_compute; reflexivity).
  split; [exact H|].
  pose proof (Works_from_json_beside _ _ _ _ _ _ _ H) as (_ & Hu & Hd & Hl).
  cbn [snd] in Hu, Hd, Hl. split_and!.
  - by apply fmap_nil_inv in Hu.
  - exact Hd.
  - by apply fmap_nil_inv in Hl.
Defined.

(** X3: Whatever is ingested, [Works.from_json] keeps the [works_id]s distinct:
    a work with a new key is added as one row at the end, a work with a known
    key takes the place of the row with that key and the table keeps its
    length. *)
Theorem Works_from_json_keeps_keys_distinct iso j language ugoira_json
    tags_cache st i c st' :
  NoDup (works_keys st) ->
  Works_from_json iso j language ugoira_json tags_cache st = Ok ((i, c), st') ->
  NoDup (works_keys st') /\
  exists id, (do v <- getitem j "id"; as_id v) = Ok id /\
    works_keys st' !! i = Some id /\
    (id ∈ works_keys st -> works_keys st' = works_keys st) /\
    (id ∉ works_keys st ->
     works_keys st' = works_keys st ++ [id] /\
     i = length (works (session st))).
Proof.
  intros Hnd H.
  destruct (Works_from_json_keys _ _ _ _ _ _ _ _ _ Hnd H)
    as (Hnd' & id & Hid & Hi & Hin & Hout).
  split; [done|]. exists id. split_and!; try done.
  intros Hnew. split; [by apply Hout|].
  rewrite (Hout Hnew) in Hi. apply lookup_lt_Some in Hi as Hlt.
  destruct (decide (i < length (works_keys st))%nat) as [Hi'|Hi'].
  - rewrite lookup_app_l in Hi by done.
    destruct Hnew. by eapply list_elem_of_lookup_2.
  - rewrite length_app in Hlt. simpl in Hlt.
    unfold works_keys in Hlt, Hi'. rewrite length_fmap in Hlt, Hi'. lia.
Qed.

Lemma Works_from_json_keeps_keys_distinct_witness :
  let run j st := Works_from_json sample_iso_to_datetime j "en" JNull None st in
  let st1 := state_after (run sample_works_json initial_state) in
  let st2 := state_after (run sample_other_json st1) in
  let st3 := state_after (run sample_sparse_json st2) in
  run sample_other_json st1
  = Ok ((1%nat, (value_after (0%nat, ∅) (run sample_other_json st1)).2), st2) /\
  run sample_sparse_json st2
  = Ok ((0%nat, (value_after (0%nat, ∅) (run sample_sparse_json st2)).2), st3) /\
  works_keys st1 = [7] /\ works_keys st2 = [7; 8] /\ works_keys st3 = [7; 8] /\
  NoDup (works_keys st2) /\ NoDup (works_keys st3).
Proof.
  intros run st1 st2 st3.
  assert (H1 : run sample_works_json initial_state
               = Ok ((0%nat, (value_after (0%nat, ∅)
                                (run sample_works_json initial_state)).2), st1))
    by (vm_compute; reflexivity).
  assert (H2 : run sample_other_json st1
               = Ok ((1%nat, (value_after (0%nat, ∅) (run sample_other_json st1)).2),
                     st2))
    by (vm_compute; reflexivity).
  assert (H3 : run sample_sparse_json st2
               = Ok ((0%nat, (value_after (0%nat, ∅) (run sample_sparse_json st2)).2),
                     st3))
    by (vm_compute; reflexivity).
  assert (Hnd0 : NoDup (works_keys initial_state)) by apply NoDup_nil_2.
  destruct (Works_from_json_keeps_keys_distinct _ _ _ _ _ _ _ _ _ Hnd0 H1)
    as (Hnd1 & _).
  destruct (Works_from_json_keeps_keys_distinct _ _ _ _ _ _ _ _ _ Hnd1 H2)
    as (Hnd2 & _).
  destruct (Works_from_json_keeps_keys_distinct _ _ _ _ _ _ _ _ _ Hnd2 H3)
    as (Hnd3 & _).
  split_and!; [exact H2|exact H3|vm_compute; reflexivity..|exact Hnd2|exact Hnd3].
Defined.

(** * [User.create_if_empty] *)








(** * Queries by key and upserts *)

Lemma elem_of_indices {A} (p : A -> bool) (n : nat) (l : list A) (k : nat) :
  k ∈ indices p n l <->
  (n <= k)%nat /\ exists r, l !! (k - n)%nat = Some r /\ p r = true.
Proof.
  revert n. induction l as [|x l IH]; intros n; simpl.
  - split; [by intros ?%elem_of_nil|]. by intros (_ & r & ? & _).
  - assert (Htail : k ∈ indices p (S n) l <->
                    (n < k)%nat /\
                    exists r, (x :: l) !! (k - n)%nat = Some r /\ p r = true).
    { rewrite IH. split.
      - intros (Hle & r & Hr & Hp). split; [lia|]. exists r. split; [|done].
        replace (k - n)%nat with (S (k - S n)) by lia. done.
      - intros (Hlt & r & Hr & Hp). split; [lia|]. exists r. split; [|done].
        replace (k - n)%nat with (S (k - S n)) in Hr by lia. done. }
    destruct (p x) eqn:Hx.
    + rewrite elem_of_cons, Htail. split.
      * intros [->|(Hlt & Hr)]; [|split; [lia|done]].
        split; [lia|]. exists x. by rewrite Nat.sub_diag.
      * intros (Hle & r & Hr & Hp).
        destruct (decide (k = n)) as [->|Hne]; [by left|right].
        split; [lia|]. by exists r.
    + rewrite Htail. split.
      * intros (Hlt & Hr). split; [lia|done].
      * intros (Hle & r & Hr & Hp).
        destruct (decide (k = n)) as [->|Hne].
        -- rewrite Nat.sub_diag in Hr. simpl in Hr. congruence.
        -- split; [lia|]. by exists r.
Qed.

(** A query that finds one row has found the only row that matches. *)
Lemma one_or_none_Some_only {A} (p : A -> bool) (l : list A) i k r :
  one_or_none p l = Ok (Some i) -> l !! k = Some r -> p r = true -> k = i.
Proof.
  unfold one_or_none. intros H Hk Hp.
  assert (Hin : k ∈ indices p 0 l).
  { apply elem_of_indices. split; [lia|]. exists r. by rewrite Nat.sub_0_r. }
  destruct (indices p 0 l) as [|i' [|? ?]]; try done.
  injection H as <-. by apply list_elem_of_singleton in Hin.
Qed.

Lemma one_or_none_None_key {A} (key : A -> Z) (k : Z) (l : list A) :
  one_or_none (fun x => key x =? k) l = Ok None -> k ∉ key <$> l.
Proof.
  intros H%one_or_none_None (x & -> & Hx)%list_elem_of_fmap.
  rewrite Forall_forall in H. apply H in Hx. lia.
Qed.

Lemma one_or_none_Some_key {A} (key : A -> Z) (k : Z) (l : list A) i :
  one_or_none (fun x => key x =? k) l = Ok (Some i) ->
  exists r, l !! i = Some r /\ key r = k.
Proof.
  intros (r & Hr & Hk%Z.eqb_eq)%one_or_none_Some. by exists r.
Qed.

(** A row added under a new key, or put in the place of the row with its
    key, keeps the keys distinct. *)
Lemma NoDup_keys_snoc {A} (key : A -> Z) (l : list A) (d : A) :
  key d ∉ key <$> l -> NoDup (key <$> l) -> NoDup (key <$> (l ++ [d])).
Proof.
  intros Hout Hnd. rewrite fmap_app. apply NoDup_app.
  split_and!; [done| |apply NoDup_singleton].
  by intros k Hin ->%list_elem_of_singleton.
Qed.

Lemma keys_insert {A} (key : A -> Z) (l : list A) (i : nat) (r d : A) :
  l !! i = Some r -> key r = key d -> key <$> <[i := d]> l = key <$> l.
Proof.
  intros Hi Hk. rewrite list_fmap_insert. apply list_insert_id.
  by rewrite list_lookup_fmap, Hi, <- Hk.
Qed.

(** * The details of a user *)

Lemma dict_setattr_UserDetail d0 d st :
  dict_setattr setattr_UserDetail d0
    [("user_id", AId (UserDetail.user_id d));
     ("total_illusts", AVal (UserDetail.total_illusts d));
     ("total_manga", AVal (UserDetail.total_manga d));
     ("total_novels", AVal (UserDetail.total_novels d));
     ("total_illust_bookmarks_public",
      AVal (UserDetail.total_illust_bookmarks_public d));
     ("total_follow_users", AVal (UserDetail.total_follow_users d));
     ("avatar_url", AVal (UserDetail.avatar_url d));
     ("background_url", AVal (UserDetail.background_url d));
     ("comment", AVal (UserDetail.comment d))] st
  = Ok (d, st).
Proof. by destruct d. Qed.

(** [UserDetail.from_user_json]: the row of the user takes every value of
    the JSON; a new row is built when the user has none, and is added to the
    session only on request. *)
Lemma UserDetail_from_user_json_Ok j save st o st' :
  UserDetail_from_user_json j save st = Ok (o, st') ->
  exists d,
    detail_row j = Ok d /\
    flushed_users st' = flushed_users st /\
    let T := users_details (session st) in
    (((UserDetail.user_id d ∉ UserDetail.user_id <$> T) /\
      (if save
       then o = Persistent (length T) /\ users_details (session st') = T ++ [d]
       else o = Transient d /\ users_details (session st') = T)) \/
     (exists i d0, T !! i = Some d0 /\ UserDetail.user_id d0 = UserDetail.user_id d /\
        (forall k r, T !! k = Some r ->
           UserDetail.user_id r = UserDetail.user_id d -> k = i) /\
        o = Persistent i /\ users_details (session st') = <[i := d]> T)).
Proof.
  unfold UserDetail_from_user_json. intros H.
  apply bind_Ok in H as (id & ? & [Hid ->]%lift_Ok & H).
  apply bind_Ok in H as (x1 & ? & [H1 ->]%lift_Ok & H).
  apply bind_Ok in H as (x2 & ? & [H2 ->]%lift_Ok & H).
  apply bind_Ok in H as (x3 & ? & [H3 ->]%lift_Ok & H).
  apply bind_Ok in H as (x4 & ? & [H4 ->]%lift_Ok & H).
  apply bind_Ok in H as (x5 & ? & [H5 ->]%lift_Ok & H).
  apply bind_Ok in H as (x6 & ? & [H6 ->]%lift_Ok & H).
  apply bind_Ok in H as (x7 & ? & [H7 ->]%lift_Ok & H).
  apply bind_Ok in H as (x8 & ? & [H8 ->]%lift_Ok & H).
  apply bind_Ok in H as (q & ? & [-> Hq]%query_one_or_none_Ok & H).
  rewrite users_details_flush in Hq.
  set (d := UserDetail.mk id x1 x2 x3 x4 x5 x6 x7 x8).
  exists d. split.
  { unfold detail_row. by rewrite Hid, H1, H2, H3, H4, H5, H6, H7, H8. }
  destruct q as [i|].
  - apply bind_Ok in H as (? & ? & [-> ->]%get_Ok & H).
    apply bind_Ok in H as (d0 & ? & [Hd0 ->]%lift_Ok & H).
    apply bind_Ok in H as (d' & st1 & Hd & H).
    rewrite (dict_setattr_UserDetail d0 d) in Hd. injection Hd as <- <-.
    apply bind_Ok in H as ([] & ? & ->%modify_session_Ok & H).
    apply ret_Ok in H as [-> ->].
    split. { by rewrite <- (flushed_users_flush st). }
    right. simpl in Hd0. rewrite users_details_flush in Hd0.
    destruct (users_details (session st) !! i) as [d0'|] eqn:Hi; [|done].
    injection Hd0 as ->.
    destruct (one_or_none_Some_key _ _ _ _ Hq) as (r & Hr & Hk).
    rewrite Hi in Hr. injection Hr as <-.
    exists i, d0. split_and!; try done.
    + intros k r Hr Hkr. eapply one_or_none_Some_only; [exact Hq|exact Hr|].
      apply Z.eqb_eq. by rewrite Hkr.
    + cbn [users_details session set_session set_users_details].
      by rewrite users_details_flush.
  - apply one_or_none_None_key in Hq.
    apply bind_Ok in H as (d' & st1 & Hd & H).
    rewrite (dict_setattr_UserDetail blank_UserDetail d) in Hd.
    injection Hd as <- <-.
    destruct save.
    + apply bind_Ok in H as (? & ? & [-> ->]%get_Ok & H).
      apply bind_Ok in H as ([] & ? & ->%modify_session_Ok & H).
      apply ret_Ok in H as [-> ->].
      split. { by rewrite <- (flushed_users_flush st). }
      left. split; [done|].
      cbn [users_details session set_session set_users_details].
      by rewrite users_details_flush.
    + apply ret_Ok in H as [-> ->].
      split. { apply flushed_users_flush. }
      left. split; [done|]. by rewrite users_details_flush.
Qed.

Lemma User_from_json_details j st i st' :
  User_from_json j st = Ok (i, st') ->
  exists d,
    detail_row j = Ok d /\
    let T := users_details (session st) in
    (((UserDetail.user_id d ∉ UserDetail.user_id <$> T) /\
      users_details (session st') = T ++ [d]) \/
     (exists k d0, T !! k = Some d0 /\
        UserDetail.user_id d0 = UserDetail.user_id d /\
        (forall k' r, T !! k' = Some r ->
           UserDetail.user_id r = UserDetail.user_id d -> k' = k) /\
        users_details (session st') = <[k := d]> T)).
Proof.
  unfold User_from_json. intros H.
  apply bind_Ok in H as (id & ? & [Hid ->]%lift_Ok & H).
  apply bind_Ok in H as (name & ? & [Hname ->]%lift_Ok & H).
  apply bind_Ok in H as (account & ? & [Hacc ->]%lift_Ok & H).
  apply bind_Ok in H as (is_followed & ? & [Hfol ->]%lift_Ok & H).
  apply bind_Ok in H as (detial & st1 & Hdet & H).
  apply UserDetail_from_user_json_Ok in Hdet as (d & Hd & _ & Hdet).
  apply bind_Ok in H as (o & st2 & [-> Hq]%query_one_or_none_Ok & H).
  assert (Hrest : users_details (session st')
                  = users_details (session st1) ++ transient_rows [detial]).
  { destruct o as [i0|].
    - apply bind_Ok in H as (? & ? & [-> ->]%get_Ok & H).
      apply bind_Ok in H as (u0 & ? & [Hu0 ->]%lift_Ok & H).
      apply bind_Ok in H as (u & st3 & Hu & H).
      rewrite dict_setattr_User in Hu. injection Hu as <- <-.
      apply bind_Ok in H as ([] & st4 & ->%modify_session_Ok & H).
      apply ret_Ok in H as [-> ->].
      cbn [users_details session set_session set_users set_users_details].
      by rewrite users_details_flush.
    - apply bind_Ok in H as (u & st3 & Hu & H).
      rewrite dict_setattr_User in Hu. injection Hu as <- <-.
      apply bind_Ok in H as (? & ? & [-> ->]%get_Ok & H).
      apply bind_Ok in H as ([] & st4 & ->%modify_session_Ok & H).
      apply ret_Ok in H as [-> ->].
      cbn [users_details session set_session set_users set_users_details].
      by rewrite users_details_flush. }
  exists d. split; [done|]. simpl in Hdet |- *.
  destruct Hdet as [(Hout & -> & Ht)|(k & d0 & Hk & Hkey & Honly & -> & Ht)].
  - left. split; [done|]. by rewrite Hrest, Ht.
  - right. exists k, d0. split_and!; try done.
    rewrite Hrest, Ht. simpl. by rewrite app_nil_r.
Qed.

(** X6: After [User.from_json] the details of the user are the row the JSON
    describes: added at the end when the user had none, put in the place of
    the row the user had otherwise, the other rows being left alone.  The
    keys of the details stay distinct. *)
Theorem User_from_json_detail j st i st' :
  User_from_json j st = Ok (i, st') ->
  exists d,
    detail_row j = Ok d /\
    d ∈ users_details (session st') /\
    (UserDetail.user_id d ∉ details_keys st ->
     users_details (session st') = users_details (session st) ++ [d]) /\
    (forall k d0, users_details (session st) !! k = Some d0 ->
       UserDetail.user_id d0 = UserDetail.user_id d ->
       users_details (session st') = <[k := d]> (users_details (session st))) /\
    (NoDup (details_keys st) -> NoDup (details_keys st')).
Proof.
  intros H. apply User_from_json_details in H as (d & Hd & Hor).
  exists d. split; [done|]. simpl in Hor. unfold details_keys.
  destruct Hor as [(Hout & ->)|(k & d0 & Hk & Hkey & Honly & ->)].
  - split_and!.
    + apply elem_of_app. right. by apply list_elem_of_singleton.
    + done.
    + intros k d0 Hk Hkey. destruct Hout. rewrite <- Hkey.
      apply list_elem_of_fmap. exists d0. split; [done|].
      by eapply list_elem_of_lookup_2.
    + by apply NoDup_keys_snoc.
  - split_and!.
    + eapply list_elem_of_lookup_2. apply list_lookup_insert_eq.
      by eapply lookup_lt_Some.
    + intros Hout. destruct Hout. rewrite <- Hkey.
      apply list_elem_of_fmap. exists d0. split; [done|].
      by eapply list_elem_of_lookup_2.
    + intros k' d0' Hk' Hkey'. by rewrite (Honly _ _ Hk' Hkey').
    + by rewrite (keys_insert _ _ _ _ _ Hk Hkey).
Qed.

Lemma User_from_json_detail_witness :
  let st1 := state_after (User_from_json sample_user_json initial_state) in
  User_from_json sample_user_json initial_state = Ok (0%nat, st1) /\
  exists d,
    detail_row sample_user_json = Ok d /\
    users_details (session st1) = [d] /\
    UserDetail.user_id d = 3 /\ UserDetail.total_illusts d = JInt 4.
Proof.
  intros st1.
  assert (H : User_from_json sample_user_json initial_state = Ok (0%nat, st1))
    by (vm_compute; reflexivity).
  split; [exact H|].
  destruct (User_from_json_detail _ _ _ _ H) as (d & Hd & _ & Hnew & _).
  exists d. split; [exact Hd|]. split; [|by injection Hd as <-].
  apply Hnew. unfold details_keys. simpl. apply not_elem_of_nil.
Defined.

(** X7: Ingesting the same user again leaves the details as they were: the
    second call finds the row of the first and writes the same values. *)
Theorem User_from_json_detail_again j st i1 st1 st1' i2 st2 :
  User_from_json j st = Ok (i1, st1) ->
  users_details (session st1') = users_details (session st1) ->
  User_from_json j st1' = Ok (i2, st2) ->
  users_details (session st2) = users_details (session st1).
Proof.
  intros H1 Hsame H2.
  apply User_from_json_details in H1 as (d & Hd & Hor1).
  apply User_from_json_details in H2 as (d' & Hd' & Hor2).
  rewrite Hd in Hd'. injection Hd' as <-. simpl in Hor1, Hor2.
  rewrite Hsame in Hor2.
  assert (Hin : exists k1, users_details (session st1) !! k1 = Some d).
  { destruct Hor1 as [(_ & ->)|(k & d0 & Hk & _ & _ & ->)].
    - exists (length (users_details (session st))).
      by rewrite lookup_app_r, Nat.sub_diag.
    - exists k. apply list_lookup_insert_eq. by eapply lookup_lt_Some. }
  destruct Hin as (k1 & Hk1).
  destruct Hor2 as [(Hout & _)|(k & d0 & Hk & Hkey & Honly & ->)].
  - destruct Hout. apply list_elem_of_fmap. exists d. split; [done|].
    by eapply list_elem_of_lookup_2.
  - rewrite (Honly _ _ Hk1 eq_refl) in Hk1. by apply list_insert_id.
Qed.

Lemma User_from_json_detail_again_witness :
  let st1 := state_after (User_from_json sample_user_json initial_state) in
  let st2 := state_after (User_from_json sample_user_json (flush st1)) in
  User_from_json sample_user_json initial_state = Ok (0%nat, st1) /\
  User_from_json sample_user_json (flush st1) = Ok (0%nat, st2) /\
  users_details (session st2) = users_details (session st1) /\
  length (users_details (session st2)) = 1%nat.
Proof.
  intros st1 st2.
  assert (H1 : User_from_json sample_user_json initial_state = Ok (0%nat, st1))
    by (vm_compute; reflexivity).
  assert (H2 : User_from_json sample_user_json (flush st1) = Ok (0%nat, st2))
    by (vm_compute; reflexivity).
  split_and!; [exact H1|exact H2| |vm_compute; reflexivity].
  exact (User_from_json_detail_again _ _ _ _ _ _ _ H1 (users_details_flush st1) H2).
Defined.

(** * [Ugoira.from_json] *)

Lemma Ugoira_from_json_Ok works_id ugoira_json save st o st' :
  Ugoira_from_json works_id ugoira_json save st = Ok (o, st') ->
  exists ug,
    ugoira_row works_id ugoira_json = Ok ug /\
    let T := ugoiras (session st) in
    (((works_id ∉ Ugoira.works_id <$> T) /\
      (if save
       then o = Persistent (length T) /\ ugoiras (session st') = T ++ [ug]
       else o = Transient ug /\ ugoiras (session st') = T)) \/
     (exists i u0, T !! i = Some u0 /\ Ugoira.works_id u0 = works_id /\
        (forall k r, T !! k = Some r -> Ugoira.works_id r = works_id -> k = i) /\
        o = Persistent i /\ ugoiras (session st') = <[i := ug]> T)).
Proof.
  unfold Ugoira_from_json. intros H.
  apply bind_Ok in H as (_delay & ? & [Hd ->]%lift_Ok & H).
  apply bind_Ok in H as (zip & ? & [Hzip ->]%lift_Ok & H).
  apply bind_Ok in H as (text & ? & [Htext ->]%lift_Ok & H).
  apply bind_Ok in H as (q & ? & [-> Hq]%query_one_or_none_Ok & H).
  rewrite ugoiras_flush in Hq.
  exists (Ugoira.mk works_id (JStr text) zip _delay). split.
  { unfold ugoira_row. rewrite Hd, Hzip. cbn [rbind]. by rewrite Htext. }
  destruct q as [i|].
  - apply bind_Ok in H as (? & ? & [-> ->]%get_Ok & H).
    apply bind_Ok in H as (ug0 & ? & [Hug0 ->]%lift_Ok & H).
    cbn in H. injection H as <- <-.
    simpl in Hug0. rewrite ugoiras_flush in Hug0.
    destruct (ugoiras (session st) !! i) as [u0|] eqn:Hi; [|done].
    destruct (one_or_none_Some_key _ _ _ _ Hq) as (r & Hr & Hk).
    rewrite Hi in Hr. injection Hr as <-.
    right. exists i, u0. split_and!; try done.
    + intros k r Hr Hkr. eapply one_or_none_Some_only; [exact Hq|exact Hr|].
      by apply Z.eqb_eq.
    + cbn [ugoiras session set_session set_ugoiras].
      by rewrite ugoiras_flush.
  - apply one_or_none_None_key in Hq. left. split; [done|].
    cbn in H. destruct save; cbn in H; injection H as <- <-.
    + cbn [ugoiras session set_session set_ugoiras].
      by rewrite ugoiras_flush.
    + by rewrite ugoiras_flush.
Qed.

(** X8: [Ugoira.from_json] keeps one record per work.  The record of the work
    takes the values of the JSON; when the work has none, a new one is built,
    and it joins the session only with [save_to_session]: without it the
    table is left as it is and the object is handed to the caller.  The keys
    stay distinct. *)
Theorem Ugoira_from_json_upsert works_id ugoira_json save st o st' :
  Ugoira_from_json works_id ugoira_json save st = Ok (o, st') ->
  exists ug,
    ugoira_row works_id ugoira_json = Ok ug /\
    deref (ugoiras (session st')) o = Ok ug /\
    (works_id ∉ ugoiras_keys st ->
     if save
     then o = Persistent (length (ugoiras (session st))) /\
          ugoiras (session st') = ugoiras (session st) ++ [ug]
     else o = Transient ug /\ ugoiras (session st') = ugoiras (session st)) /\
    (forall k u0, ugoiras (session st) !! k = Some u0 ->
       Ugoira.works_id u0 = works_id ->
       o = Persistent k /\
       ugoiras (session st') = <[k := ug]> (ugoiras (session st))) /\
    (NoDup (ugoiras_keys st) -> NoDup (ugoiras_keys st')).
Proof.
  intros H. apply Ugoira_from_json_Ok in H as (ug & Hug & Hor).
  assert (Hid : Ugoira.works_id ug = works_id).
  { unfold ugoira_row in Hug.
    destruct (frame_delays _); [|done]. simpl in Hug.
    destruct (getitem ugoira_json "ugoira_metadata") as [m|]; [|done].
    simpl in Hug.
    destruct (getitem m "zip_urls") as [z|]; [|done]. simpl in Hug.
    destruct (getitem z "medium"); [|done]. simpl in Hug.
    destruct (encode_delay _); [|done]. simpl in Hug. by injection Hug as <-. }
  exists ug. split; [done|]. simpl in Hor. unfold ugoiras_keys.
  destruct Hor as [(Hout & Hsave)|(i & u0 & Hi & Hk & Honly & -> & ->)].
  - split_and!.
    + destruct save; destruct Hsave as [-> ->]; [|done].
      simpl. by rewrite lookup_app_r, Nat.sub_diag.
    + done.
    + intros k u0 Hk Hku. destruct Hout. rewrite <- Hku.
      apply list_elem_of_fmap. exists u0. split; [done|].
      by eapply list_elem_of_lookup_2.
    + intros Hnd. destruct save; destruct Hsave as [_ ->]; [|done].
      apply NoDup_keys_snoc; [by rewrite Hid|done].
  - split_and!.
    + simpl. rewrite list_lookup_insert_eq; [done|]. by eapply lookup_lt_Some.
    + intros Hout. destruct Hout. rewrite <- Hk.
      apply list_elem_of_fmap. exists u0. split; [done|].
      by eapply list_elem_of_lookup_2.
    + intros k u0' Hk' Hku'. by rewrite (Honly _ _ Hk' Hku').
    + rewrite (keys_insert Ugoira.works_id _ _ u0 ug Hi); [done|congruence].
Qed.

Lemma Ugoira_from_json_upsert_witness :
  let st1 := state_after (Ugoira_from_json 7 sample_ugoira_json true initial_state) in
  let st2 := state_after (Ugoira_from_json 7 sample_ugoira_json false st1) in
  Ugoira_from_json 7 sample_ugoira_json true initial_state
  = Ok (Persistent 0%nat, st1) /\
  Ugoira_from_json 7 sample_ugoira_json false st1 = Ok (Persistent 0%nat, st2) /\
  ugoiras_keys st2 = [7] /\
  NoDup (ugoiras_keys st2).
Proof.
  intros st1 st2.
  assert (H1 : Ugoira_from_json 7 sample_ugoira_json true initial_state
               = Ok (Persistent 0%nat, st1)) by (vm_compute; reflexivity).
  assert (H2 : Ugoira_from_json 7 sample_ugoira_json false st1
               = Ok (Persistent 0%nat, st2)) by (vm_compute; reflexivity).
  destruct (Ugoira_from_json_upsert _ _ _ _ _ _ H1) as (? & _ & _ & _ & _ & Hnd1).
  destruct (Ugoira_from_json_upsert _ _ _ _ _ _ H2) as (? & _ & _ & _ & _ & Hnd2).
  split_and!; [exact H1|exact H2|vm_compute; reflexivity|].
  apply Hnd2, Hnd1. apply NoDup_nil_2.
Defined.

(** * [DatabaseHelper.get_session]: what reaches the database *)

Lemma step_database {D} (x : Bound D) (o : op D) :
  is_commit o = false -> database (step x o) = database x.
Proof.
  destruct x as [db [a f c p t]], o; try done; simpl.
  - by destruct a, f.
  - by destruct f.
Qed.

Lemma steps_database {D} (body : list (op D)) (x : Bound D) :
  forallb (fun o => negb (is_commit o)) body = true ->
  database (foldl step x body) = database x.
Proof.
  revert x. induction body as [|o body IH]; intros x H; [done|].
  simpl in H. apply andb_true_iff in H as [Ho H]. apply negb_true_iff in Ho.
  simpl. by rewrite IH, step_database.
Qed.

Lemma steps_changes {D} (fs : list (D -> D)) db a f c p t :
  foldl step (mkBound db (mkSessionObject a f c p t)) (Change <$> fs)
  = mkBound db (mkSessionObject a f c (p ++ fs) t).
Proof.
  revert p. induction fs as [|g fs IH]; intros p; simpl.
  - by rewrite app_nil_r.
  - by rewrite IH, <- app_assoc.
Qed.

(** X9: [get_session] never commits: it rolls back when the block raises and
    closes the session in every case.  So a block that does not call
    [commit] leaves the database as it found it, read-only or not, whatever
    it changed, flushed or rolled back, and whether it raised or not. *)
Theorem get_session_never_commits {D} (readonly : bool) (body : list (op D))
    (raises : bool) (db : D) :
  forallb (fun o => negb (is_commit o)) body = true ->
  get_session readonly body raises db = db.
Proof.
  intros H. unfold get_session.
  pose proof (steps_database body (mkBound db (yielded_session readonly)) H) as Hd.
  simpl in Hd. by destruct raises.
Qed.

Lemma get_session_never_commits_witness :
  get_session false [Change Z.succ; Query; Flush; Rollback; Change Z.succ] true 5
  = 5.
Proof. by apply get_session_never_commits. Defined.

(** X10: In a session of [get_session(readonly=False)], what the block changed
    before it committed is in the database in the order of the changes, and
    stays there: what the block does after its last [commit] is lost when the
    block is left, and an exception after the commit does not undo it. *)
Theorem get_session_commit_persists {D} (fs : list (D -> D)) (rest : list (op D))
    (raises : bool) (db : D) :
  forallb (fun o => negb (is_commit o)) rest = true ->
  get_session false ((Change <$> fs) ++ Commit :: rest) raises db
  = foldl (fun d f => f d) db fs.
Proof.
  intros H. unfold get_session.
  rewrite foldl_app. cbn [foldl]. unfold yielded_session, sessionmaker.
  rewrite steps_changes.
  set (x := step _ Commit).
  assert (Hx : database x = foldl (fun d f => f d) db fs) by reflexivity.
  pose proof (steps_database rest x H) as Hd. rewrite Hx in Hd.
  by destruct raises.
Qed.

Lemma get_session_commit_persists_witness :
  get_session false ((Change <$> [Z.succ; Z.mul 2]) ++ Commit :: [Change Z.succ; Flush])
    true 5 = 12.
Proof. by apply (get_session_commit_persists [Z.succ; Z.mul 2]). Defined.

(** * The cache of [Tag.from_tags_json] *)

Lemma from_tags_loop_cache language l :
  forall _tags cache r st r' cache' st',
  tags_ok st -> cache_ok st cache ->
  from_tags_loop language l _tags cache r st = Ok ((r', cache'), st') ->
  exists rn,
    r' = r ++ rn /\
    cache ⊆ cache' /\
    Forall2 (fun a item => cache' !! item.1 = Some a) rn
      (unique_items _tags (item_pairs l)) /\
    (forall name, name ∉ (unique_items _tags (item_pairs l)).*1 ->
       cache' !! name = cache !! name).
Proof.
  induction l as [|_t l IH]; intros _tags cache r st r' cache' st' Hok Hc H.
  - apply ret_Ok in H as [[= -> ->] ->]. exists [].
    rewrite app_nil_r. by split_and!.
  - cbn [from_tags_loop] in H.
    apply bind_Ok in H as (v1 & ? & [Hname ->]%lift_Ok & H).
    apply bind_Ok in H as (v2 & ? & [Htr ->]%lift_Ok & H).
    apply bind_Ok in H as (n & ? & [Hn ->]%lift_Ok & H).
    assert (v1 = JStr n) as -> by (by destruct v1; simplify_eq/=).
    assert (Hpairs : item_pairs (_t :: l) = (n, v2) :: item_pairs l).
    { unfold item_pairs. simpl. unfold item_pair. by rewrite Hname, Htr. }
    rewrite Hpairs. simpl.
    destruct (decide (n ∈ _tags)) as [Hseen|Hnew];
      [exact (IH _ _ _ _ _ _ _ Hok Hc H)|].
    apply bind_Ok in H as ([a c1] & st1 & Hres & H).
    destruct (resolve_tag_spec _ _ _ _ _ _ _ _ Hok Hc Hres)
      as ((Hok1 & _ & Hc1 & _ & _) & -> & Hin & Htext & _ & _ & Hhit & _).
    assert (Hcache1 : cache_ok st1 (<[n := a]> cache)).
    { intros n' b. destruct (decide (n = n')) as [<-|Hne].
      - rewrite lookup_insert_eq. by intros [= <-].
      - rewrite lookup_insert_ne by done. by apply Hc1. }
    destruct (IH _ _ _ _ _ _ _ (Hok1 Hok) Hcache1 H)
      as (rn & -> & Hsub & Hall & Hother).
    exists (a :: rn). rewrite <- app_assoc. simpl.
    assert (Hsub1 : cache ⊆ <[n := a]> cache).
    { apply map_subseteq_spec. intros n' b Hb.
      destruct (decide (n = n')) as [<-|Hne].
      - destruct (Hhit _ Hb) as [-> _]. by rewrite lookup_insert_eq.
      - by rewrite lookup_insert_ne. }
    split_and!; try done.
    + by transitivity (<[n := a]> cache).
    + constructor; [|done]. simpl.
      eapply lookup_weaken; [|exact Hsub]. by rewrite lookup_insert_eq.
    + intros name Hout. apply not_elem_of_cons in Hout as [Hne Hout].
      rewrite (Hother _ Hout). by rewrite lookup_insert_ne.
Qed.

(** X11: [Tag.from_tags_json] only adds to the cache it is given: every entry
    the cache had is still there with the same tag, every name the call
    resolved is in the cache with the tag the call returned for it, and no
    other name is.  The cache still belongs to the session. *)
Theorem Tag_from_tags_json_cache tags language cache st r cache' st' :
  tags_ok st -> cache_ok st cache ->
  Tag_from_tags_json tags language cache st = Ok ((r, cache'), st') ->
  exists l,
    iter tags = Ok l /\
    cache ⊆ cache' /\
    Forall2 (fun a item => cache' !! item.1 = Some a) r
      (unique_items ∅ (item_pairs l)) /\
    (forall name, name ∉ (unique_items ∅ (item_pairs l)).*1 ->
       cache' !! name = cache !! name) /\
    cache_ok st' cache'.
Proof.
  intros Hok Hc H.
  destruct (Tag_from_tags_json_spec _ _ _ _ _ _ _ Hok Hc H)
    as (l & Hl & _ & Hc' & _).
  unfold Tag_from_tags_json in H. rewrite Hl in H.
  apply bind_Ok in H as (? & ? & [[= <-] ->]%lift_Ok & H).
  destruct (from_tags_loop_cache _ _ _ _ _ _ _ _ _ Hok Hc H)
    as (rn & -> & Hsub & Hall & Hother).
  exists l. by split_and!.
Qed.

Lemma Tag_from_tags_json_cache_witness :
  let tags1 := JList [sample_tag "cat" (JStr "neko"); sample_tag "dog" JNull] in
  let tags2 := JList [sample_tag "dog" (JStr "inu"); sample_tag "bird" JNull] in
  let run1 := Tag_from_tags_json tags1 "en" ∅ initial_state in
  let c1 := (value_after ([], ∅) run1).2 in
  let run2 := Tag_from_tags_json tags2 "en" c1 (state_after run1) in
  let c2 := (value_after ([], ∅) run2).2 in
  run1 = Ok (([0; 1]%nat, c1), state_after run1) /\
  run2 = Ok (([1; 2]%nat, c2), state_after run2) /\
  c1 ⊆ c2 /\
  (c2 !! "cat", c2 !! "dog", c2 !! "bird") = (Some 0%nat, Some 1%nat, Some 2%nat).
Proof.
  intros tags1 tags2 run1 c1 run2 c2.
  assert (H1 : run1 = Ok (([0; 1]%nat, c1), state_after run1))
    by (vm_compute; reflexivity).
  assert (H2 : run2 = Ok (([1; 2]%nat, c2), state_after run2))
    by (vm_compute; reflexivity).
  assert (Hok : tags_ok initial_state).
  { split; [constructor|apply NoDup_nil_2]. }
  assert (Hc : cache_ok initial_state ∅).
  { intros name a. by rewrite lookup_empty. }
  destruct (Tag_from_tags_json_spec _ _ _ _ _ _ _ Hok Hc H1)
    as (_ & _ & Hok1 & Hc1 & _).
  destruct (Tag_from_tags_json_cache _ _ _ _ _ _ _ Hok1 Hc1 H2)
    as (_ & _ & Hsub & _).
  split_and!; [exact H1|exact H2|exact Hsub|vm_compute; reflexivity].
Defined.

(** * The keys of the translations *)

Lemma flush_tags_keyed tbl h n :
  (forall a t, a ∈ tbl -> h !! a = Some t -> is_Some (Tag.tag_id t)) ->
  flush_tags tbl h n = (h, n).
Proof.
  induction tbl as [|a tbl IH]; intros Hk; [done|]. simpl.
  destruct (h !! a) as [t|] eqn:Ha.
  - destruct (Hk a t) as [k Hid]; [left|done|]. rewrite Hid.
    apply IH. intros b t' Hb. apply Hk. by right.
  - apply IH. intros b t' Hb. apply Hk. by right.
Qed.

Lemma flush_tags_app tbl1 tbl2 h n :
  flush_tags (tbl1 ++ tbl2) h n
  = flush_tags tbl2 (flush_tags tbl1 h n).1 (flush_tags tbl1 h n).2.
Proof.
  revert h n. induction tbl1 as [|a tbl1 IH]; intros h n; [done|]. simpl.
  destruct (h !! a) as [t|]; [destruct (Tag.tag_id t)|]; apply IH.
Qed.

Lemma heap_flush_keyed st : tags_keyed st -> heap (flush st) = heap st.
Proof.
  intros Hk. rewrite heap_flush, flush_tags_keyed; [done|].
  intros a t Ha Ht. by destruct (Hk a t Ha Ht).
Qed.

Lemma tags_keyed_flush st : tags_keyed st -> tags_keyed (flush st).
Proof.
  intros Hk a t. rewrite tags_flush, heap_flush_keyed by done. apply Hk.
Qed.

Lemma merge_translation_keyed language v t :
  Forall (fun tr => TagTranslation.tag_id tr = Tag.tag_id t) (Tag.translation t) ->
  Forall (fun tr => TagTranslation.tag_id tr
                    = Tag.tag_id (merge_translation language v t))
    (Tag.translation (merge_translation language v t)).
Proof.
  intros H. rewrite merge_translation_tag_id.
  assert (Hmap : Forall (fun tr => TagTranslation.tag_id tr = Tag.tag_id t)
            ((fun tr => if in_language language tr
                        then TagTranslation.set_translation_text v tr else tr)
               <$> Tag.translation t)).
  { apply Forall_fmap. eapply Forall_impl; [exact H|].
    intros tr Htr. simpl. by destruct (in_language language tr). }
  destruct (existsb (in_language language) (Tag.translation t)) eqn:E.
  - by rewrite merge_translation_present.
  - rewrite merge_translation_absent by done.
    apply Forall_app. split; [done|]. by constructor.
Qed.

Lemma resolve_tag_keyed language cache t_name t_translate st a cache' st' :
  tags_ok st -> cache_ok st cache -> tags_keyed st ->
  resolve_tag language cache t_name t_translate st = Ok ((a, cache'), st') ->
  tags_keyed st'.
Proof.
  intros Hok Hcache Hkeyed H. unfold resolve_tag in H.
  apply bind_Ok in H as (o & st1 & Hfind & H).
  apply bind_Ok in H as (a' & st2 & Hget & H).
  apply bind_Ok in H as ([] & st3 & Hupd & H).
  apply ret_Ok in H as [[= -> ->] ->]. rename a' into a.
  assert (Hfound : tags_keyed st2 /\ a ∈ tags (session st2)).
  { destruct (cache !! t_name) as [a0|] eqn:Hc.
    - apply ret_Ok in Hfind as [-> ->]. apply ret_Ok in Hget as [Heq ->].
      subst a0. by destruct (Hcache _ _ Hc).
    - apply query_tag_Ok in Hfind as [-> Ho]. destruct o as [b0|].
      + apply ret_Ok in Hget as [Heq ->]. subst b0. destruct Ho as [Hin _].
        split; [by apply tags_keyed_flush|by rewrite tags_flush].
      + unfold new_tag, session_add_tag in Hget.
        apply bind_Ok in Hget as (? & ? & Hnew & Hget).
        apply bind_Ok in Hnew as (? & ? & [-> ->]%get_Ok & Hnew).
        apply bind_Ok in Hnew as ([] & ? & ->%modify_Ok & Hnew).
        apply ret_Ok in Hnew as [-> ->].
        apply bind_Ok in Hget as ([] & ? & ->%modify_session_Ok & Hget).
        apply bind_Ok in Hget as ([] & ? & ->%modify_Ok & Hget).
        apply ret_Ok in Hget as [-> ->].
        pose proof (heap_flush_keyed st Hkeyed) as Hheap.
        set (h := heap (flush st)) in *.
        set (new := Tag.mk None t_name []).
        set (st1' := set_session _ _).
        assert (Hold : forall b, b ∈ tags (session st) -> (b < length h)%nat).
        { intros b Hb. destruct Hok as [Hall _].
          rewrite Forall_forall in Hall. destruct (Hall b Hb) as [t Ht].
          rewrite Hheap. by eapply lookup_lt_Some. }
        assert (Hflush : heap (flush st1')
                         = h ++ [Tag.set_tag_id
                                   (Some (next_tag_id (session (flush st)))) new]).
        { rewrite heap_flush. unfold st1'.
          cbn [tags session set_session set_tags heap set_heap next_tag_id].
          rewrite tags_flush, flush_tags_app,
            (flush_tags_keyed (tags (session st))).
          - simpl. rewrite lookup_app_r, Nat.sub_diag by done. simpl.
            rewrite insert_app_r_alt, Nat.sub_diag by done. done.
          - intros b t Hb Ht. rewrite lookup_app_l in Ht by (by apply Hold).
            rewrite Hheap in Ht. by destruct (Hkeyed b t Hb Ht). }
        split.
        * intros b t. rewrite tags_flush, Hflush. unfold st1'.
          cbn [tags session set_session set_tags set_heap].
          rewrite tags_flush. intros [Hb|Hb%list_elem_of_singleton]%elem_of_app Ht.
          -- rewrite lookup_app_l in Ht by (by apply Hold).
             rewrite Hheap in Ht. exact (Hkeyed b t Hb Ht).
          -- subst b. rewrite lookup_app_r, Nat.sub_diag in Ht by done.
             injection Ht as <-. simpl. split; [by eexists|constructor].
        * rewrite tags_flush. unfold st1'.
          cbn [tags session set_session set_tags set_heap].
          apply elem_of_app. right. by apply list_elem_of_singleton. }
  destruct Hfound as [Hk2 Hin].
  destruct (truthy t_translate); simpl in Hupd.
  - apply update_tag_Ok in Hupd as (t & Ha & ->).
    destruct (Hk2 a t Hin Ha) as [Hid Htr].
    intros b t'. cbn [tags session set_heap heap]. intros Hb Ht'.
    destruct (decide (b = a)) as [->|Hne].
    + rewrite list_lookup_insert_eq in Ht' by (by eapply lookup_lt_Some).
      injection Ht' as <-. split.
      * by rewrite merge_translation_tag_id.
      * by apply merge_translation_keyed.
    + rewrite list_lookup_insert_ne in Ht' by done. exact (Hk2 b t' Hb Ht').
  - by apply ret_Ok in Hupd as [_ ->].
Qed.

Lemma from_tags_loop_keyed language l :
  forall _tags cache r st r' cache' st',
  tags_ok st -> cache_ok st cache -> tags_keyed st ->
  from_tags_loop language l _tags cache r st = Ok ((r', cache'), st') ->
  tags_keyed st'.
Proof.
  induction l as [|_t l IH]; intros _tags cache r st r' cache' st' Hok Hc Hk H.
  - by apply ret_Ok in H as [_ ->].
  - cbn [from_tags_loop] in H.
    apply bind_Ok in H as (v1 & ? & [Hname ->]%lift_Ok & H).
    apply bind_Ok in H as (v2 & ? & [Htr ->]%lift_Ok & H).
    apply bind_Ok in H as (n & ? & [Hn ->]%lift_Ok & H).
    destruct (decide (n ∈ _tags)) as [Hseen|Hnew];
      [exact (IH _ _ _ _ _ _ _ Hok Hc Hk H)|].
    apply bind_Ok in H as ([a c1] & st1 & Hres & H).
    pose proof (resolve_tag_keyed _ _ _ _ _ _ _ _ Hok Hc Hk Hres) as Hk1.
    destruct (resolve_tag_spec _ _ _ _ _ _ _ _ Hok Hc Hres)
      as ((Hok1 & _ & Hc1 & _ & _) & -> & Hin & Htext & _).
    assert (Hcache1 : cache_ok st1 (<[n := a]> cache)).
    { intros n' b. destruct (decide (n = n')) as [<-|Hne].
      - rewrite lookup_insert_eq. by intros [= <-].
      - rewrite lookup_insert_ne by done. by apply Hc1. }
    exact (IH _ _ _ _ _ _ _ (Hok1 Hok) Hcache1 Hk1 H).
Qed.

(** X12: [Tag.from_tags_json] flushes a tag it creates before it builds the
    translation, so the translation row gets the key of the tag.  In a
    session whose tags have their keys and whose translations carry the key
    of their tag, this stays so after the call, and every tag the call
    returns has a key that all its translations carry. *)
Theorem Tag_from_tags_json_keyed tags language cache st r cache' st' :
  tags_ok st -> cache_ok st cache -> tags_keyed st ->
  Tag_from_tags_json tags language cache st = Ok ((r, cache'), st') ->
  tags_keyed st' /\
  Forall (fun a => exists t k,
            heap st' !! a = Some t /\ Tag.tag_id t = Some k /\
            Forall (fun tr => TagTranslation.tag_id tr = Some k)
              (Tag.translation t)) r.
Proof.
  intros Hok Hc Hk H.
  destruct (Tag_from_tags_json_spec _ _ _ _ _ _ _ Hok Hc H)
    as (l & Hl & Hok' & _ & _ & _ & _ & Hres).
  assert (Hk' : tags_keyed st').
  { unfold Tag_from_tags_json in H. rewrite Hl in H.
    apply bind_Ok in H as (? & ? & [[= <-] ->]%lift_Ok & H).
    exact (from_tags_loop_keyed _ _ _ _ _ _ _ _ _ Hok Hc Hk H). }
  split; [done|]. apply Forall_forall. intros a Ha.
  pose proof (resolved_in_session _ _ _ _ _ Hres Ha) as Hin.
  destruct Hok' as [Hall _]. rewrite Forall_forall in Hall.
  destruct (Hall a Hin) as [t Ht].
  destruct (Hk' a t Hin Ht) as [[k Hid] Htr].
  exists t, k. split_and!; try done. by rewrite <- Hid.
Qed.

Lemma Tag_from_tags_json_keyed_witness :
  let tags := JList [sample_tag "cat" (JStr "neko"); sample_tag "dog" JNull] in
  let run := Tag_from_tags_json tags "en" ∅ initial_state in
  let st' := state_after run in
  run = Ok (([0; 1]%nat, (value_after ([], ∅) run).2), st') /\
  tags_keyed st' /\
  heap st' = [Tag.mk (Some 1) "cat" [TagTranslation.mk (Some 1) "en" (JStr "neko")];
              Tag.mk (Some 2) "dog" []].
Proof.
  intros tags run st'.
  assert (H : run = Ok (([0; 1]%nat, (value_after ([], ∅) run).2), st'))
    by (vm_compute; reflexivity).
  assert (Hok : tags_ok initial_state).
  { split; [constructor|apply NoDup_nil_2]. }
  assert (Hc : cache_ok initial_state ∅).
  { intros name a. by rewrite lookup_empty. }
  assert (Hk : tags_keyed initial_state).
  { intros a t Ha. by apply elem_of_nil in Ha. }
  destruct (Tag_from_tags_json_keyed _ _ _ _ _ _ _ Hok Hc Hk H) as [Hk' _].
  split_and!; [exact H|exact Hk'|vm_compute; reflexivity].
Defined.

(** * The steps of [Works.from_json] and what the upsert does with them *)

Lemma works_image_urls_flush st :
  works_image_urls (session (flush st)) = works_image_urls (session st).
Proof.
  unfold flush.
  by destruct (flush_tags _ _ _), (flush_works_local _ _), (flush_users _ _ _).
Qed.

(** [Works.from_json] up to [kv], step by step. *)
Lemma Works_from_json_kv_steps iso j language ugoira_json c st kv c' st' :
  Works_from_json_kv iso j language ugoira_json c st = Ok ((kv, c'), st') ->
  exists oc st1 lt st2 li st3 ou rate date base,
    caption_step j st = Ok (oc, st1) /\
    tags_step j language c st1 = Ok ((lt, c'), st2) /\
    WorksImageURLs_from_works_json j false st2 = Ok (li, st3) /\
    ugoira_step j ugoira_json st3 = Ok (ou, st') /\
    derive_bookmark_rate j = Ok rate /\
    Works_columns j rate date = Ok base /\
    kv = base ++ caption_item oc ++ tags_item lt ++ image_urls_item li
           ++ ugoira_item ou.
Proof.
  unfold Works_from_json_kv. intros H.
  apply bind_Ok in H as (cap & ? & [Hcap ->]%lift_Ok & H).
  apply bind_Ok in H as (oc & st1 & Hoc & H).
  apply bind_Ok in H as (rate & ? & [Hrate ->]%lift_Ok & H).
  apply bind_Ok in H as (tg & ? & [Htg ->]%lift_Ok & H).
  apply bind_Ok in H as ([lt c1] & st2 & Hlt & H).
  apply bind_Ok in H as (cd & ? & [Hcd ->]%lift_Ok & H).
  apply bind_Ok in H as (date & st3 & Hdate & H).
  apply bind_Ok in H as (li & st4 & Hli & H).
  apply bind_Ok in H as (base & ? & [Hbase ->]%lift_Ok & H).
  apply bind_Ok in H as (ou & st5 & Hou & H).
  apply ret_Ok in H as [[= -> ->] ->].
  assert (st3 = st2) as ->.
  { destruct (truthy cd).
    - apply bind_Ok in Hdate as (d & ? & [Hd ->]%lift_Ok & Hdate).
      by apply ret_Ok in Hdate as [_ ->].
    - by apply ret_Ok in Hdate as [_ ->]. }
  exists oc, st1, lt, st2, li, st4, ou, rate, date, base.
  split_and!; try done.
  - unfold caption_step. apply bind_Ok. exists cap, st. split; [|done].
    by apply lift_Ok.
  - unfold tags_step. apply bind_Ok. exists tg, st1. split; [|done].
    by apply lift_Ok.
  - by rewrite <- !app_assoc.
Qed.

(** What the assignment of [kv] does to the tables of the relationships: a
    new caption and a new ugoira record become rows, the image rows are
    replaced by the collection assigned (for a work of the session, the
    rows left out of the collection are deleted). *)
Lemma dict_setattr_Works_tables w0 id a ty ti pc tv tb ib rate date oc lt li ou
    st w st' :
  dict_setattr setattr_Works w0
    ([("works_id", AId id); ("author_id", AVal a); ("works_type", AVal ty);
      ("title", AVal ti); ("page_count", AVal pc); ("total_views", AVal tv);
      ("total_bookmarks", AVal tb); ("is_bookmarked", AVal ib);
      ("bookmark_rate", AFloat rate); ("create_date", ADate date)]
       ++ caption_item oc ++ tags_item lt ++ image_urls_item li ++ ugoira_item ou)
    st = Ok (w, st') ->
  works_captions (session st')
  = works_captions (session st) ++ transient_rows (option_list oc) /\
  ugoiras (session st') = ugoiras (session st) ++ transient_rows (option_list ou) /\
  works_image_urls (session st')
  = match li with
    | [] => works_image_urls (session st)
    | _ => (if Works.persistent w0
            then drop_orphans (persistent_indices li) id 0
                   (works_image_urls (session st))
            else works_image_urls (session st)) ++ transient_rows li
    end.
Proof.
  rewrite dict_setattr_app. intros H.
  apply bind_Ok in H as (w1 & st1 & Hw1 & H).
  rewrite dict_setattr_columns in Hw1. injection Hw1 as <- <-.
  destruct oc as [o|], lt as [|t lt], li as [|x li], ou as [u|];
    cbn in H; injection H as <- <-;
    cbn [works_captions ugoiras works_image_urls session set_session
         set_works_captions set_ugoiras set_works_image_urls option_list];
    rewrite ?app_nil_r; done.
Qed.

Section StepFrames.
Context (R : State -> State -> Prop) `{!Reflexive R, !Transitive R}.
Hypothesis R_flush : forall st, R st (flush st).

Lemma caption_step_preserves j :
  (forall t st, R st (with_works_captions t st)) ->
  preserves R (caption_step j).
Proof.
  intros Hc. unfold caption_step.
  apply preserves_bind; [done|by apply preserves_lift|intros caption].
  destruct (truthy caption); [|by apply preserves_ret].
  apply preserves_bind; [done|by apply preserves_lift|intros id].
  apply preserves_bind; [done|by apply WorksCaption_get_by_id_preserves|intros o].
  apply preserves_bind; [done|by apply preserves_lift|intros text].
  apply preserves_bind; [done| |intros; by apply preserves_ret].
  by apply assign_caption_text_preserves.
Qed.

Lemma tags_step_preserves j language c :
  (forall h st, R st (set_heap h st)) ->
  (forall t n st, R st (with_tags t n st)) ->
  preserves R (tags_step j language c).
Proof.
  intros Hh Ht. unfold tags_step.
  apply preserves_bind; [done|by apply preserves_lift|intros tags].
  destruct (truthy tags); [|by apply preserves_ret].
  apply preserves_bind; [done|by apply preserves_lift|intros tags'].
  by apply Tag_from_tags_json_preserves.
Qed.

Lemma ugoira_step_preserves j ugoira_json :
  (forall t st, R st (with_ugoiras t st)) ->
  preserves R (ugoira_step j ugoira_json).
Proof.
  intros Hu. unfold ugoira_step.
  destruct (truthy ugoira_json); [|by apply preserves_ret].
  apply preserves_bind; [done|by apply preserves_lift|intros id].
  apply preserves_bind; [done| |intros; by apply preserves_ret].
  by apply Ugoira_from_json_preserves.
Qed.

End StepFrames.

Lemma works_keys_kept iso j language ugoira_json c st r st' :
  Works_from_json_kv iso j language ugoira_json c st = Ok (r, st') ->
  works_keys st' = works_keys st.
Proof.
  intros H%Works_from_json_kv_flushed_works.
  by rewrite <- !flushed_works_keys, H.
Qed.

(** [Works.from_json], step by step, with what the upsert makes of the
    objects the steps hand over. *)
Lemma Works_from_json_tables iso j language ugoira_json tags_cache st i c st' :
  Works_from_json iso j language ugoira_json tags_cache st = Ok ((i, c), st') ->
  exists oc st1 lt st2 li st3 ou st4 id (resident : bool),
    (do v <- getitem j "id"; as_id v) = Ok id /\
    caption_step j st = Ok (oc, st1) /\
    tags_step j language (default (tags_cache_default st) tags_cache) st1
    = Ok ((lt, c), st2) /\
    WorksImageURLs_from_works_json j false st2 = Ok (li, st3) /\
    ugoira_step j ugoira_json st3 = Ok (ou, st4) /\
    (resident = true <-> id ∈ works_keys st) /\
    works_captions (session st')
    = works_captions (session st4) ++ transient_rows (option_list oc) /\
    ugoiras (session st') = ugoiras (session st4) ++ transient_rows (option_list ou) /\
    works_image_urls (session st')
    = match li with
      | [] => works_image_urls (session st4)
      | _ => (if resident
              then drop_orphans (persistent_indices li) id 0
                     (works_image_urls (session st4))
              else works_image_urls (session st4)) ++ transient_rows li
      end.
Proof.
  intros H. apply Works_from_json_Ok in H as (kv & st4 & Hkv & Hup).
  pose proof (works_keys_kept _ _ _ _ _ _ _ _ Hkv) as Hkeys.
  apply Works_from_json_kv_steps in Hkv
    as (oc & st1 & lt & st2 & li & st3 & ou & rate & date & base
        & Hoc & Hlt & Hli & Hou & _ & Hbase & ->).
  apply Works_columns_Ok in Hbase
    as (id & a & ty & ti & pc & tv & tb & ib & Hid & _ & _ & _ & _ & _ & _ & _ & ->).
  set (st4' := match tags_cache with
               | Some _ => st4
               | None => set_tags_cache_default c st4
               end) in *.
  assert (Hsame : works_captions (session st4') = works_captions (session st4) /\
                  ugoiras (session st4') = ugoiras (session st4) /\
                  works_image_urls (session st4') = works_image_urls (session st4) /\
                  works_keys st4' = works_keys st4)
    by (by destruct tags_cache).
  destruct Hsame as (Hc4 & Hu4 & Hi4 & Hk4).
  apply Works_upsert_Ok in Hup as (id' & w0 & w & st5 & Hid' & Hw & _ & Hor).
  simpl in Hid'. injection Hid' as <-.
  apply dict_setattr_Works_tables in Hw as (Hcap & Hug & Himg).
  rewrite works_captions_flush, Hc4 in Hcap.
  rewrite ugoiras_flush, Hu4 in Hug.
  rewrite works_image_urls_flush, Hi4 in Himg.
  rewrite works_flush in Hor.
  exists oc, st1, lt, st2, li, st3, ou, st4, id, (Works.persistent w0).
  assert (Htab : forall t, works_captions (session (with_works t st5))
                           = works_captions (session st5) /\
                           ugoiras (session (with_works t st5)) = ugoiras (session st5) /\
                           works_image_urls (session (with_works t st5))
                           = works_image_urls (session st5)) by done.
  assert (Hres : Works.persistent w0 = true <-> id ∈ works_keys st).
  { rewrite <- Hkeys, <- Hk4, <- (flushed_works_keys st4').
    destruct Hor as [(Hq & -> & _)|(Hq & Hi0 & _)].
    - apply one_or_none_None_key in Hq. by split.
    - destruct (one_or_none_Some_key _ _ _ _ Hq) as (r & Hr & Hk).
      rewrite Hi0 in Hr. injection Hr as <-. split.
      + intros _. rewrite <- Hk. apply list_elem_of_fmap. exists w0.
        split; [done|]. by eapply list_elem_of_lookup_2.
      + intros _. unfold flushed_works in Hi0.
        rewrite list_lookup_fmap in Hi0.
        destruct (works (session st4') !! i) as [w00|]; [|done].
        injection Hi0 as <-. unfold insert_works.
        by destruct (Works.persistent w00) eqn:E. }
  destruct Hor as [(_ & _ & _ & ->)|(_ & _ & ->)];
    destruct (Htab (works (session st5) ++ [w])) as (-> & -> & ->) ||
    destruct (Htab (<[i := w]> (works (session st5)))) as (-> & -> & ->);
    by split_and!.
Qed.

(** * The caption of a work *)

Lemma getitem_dict_get j k v v' :
  dict_get j k = Ok v -> getitem j k = Ok v' -> v' = v.
Proof.
  destruct j; try done. simpl. destruct (assoc k d); [|done].
  by intros [= <-] [= <-].
Qed.

Lemma list_alter_as_insert {A} (f : A -> A) (l : list A) (i : nat) (x : A) :
  l !! i = Some x -> alter f i l = <[i := f x]> l.
Proof.
  revert i. induction l as [|y l IH]; intros [|i] Hi; try done; simpl in *.
  - by injection Hi as ->.
  - f_equal. by apply IH.
Qed.

Lemma caption_step_Ok j st oc st1 :
  caption_step j st = Ok (oc, st1) ->
  exists cap,
    dict_get j "caption" = Ok cap /\
    (truthy cap = false -> oc = None /\ st1 = st) /\
    (truthy cap = true ->
     exists id, (do v <- getitem j "id"; as_id v) = Ok id /\
       let T := works_captions (session st) in
       let row := WorksCaption.mk id cap in
       (((id ∉ WorksCaption.works_id <$> T) /\
         oc = Some (Transient row) /\ works_captions (session st1) = T) \/
        (exists k c0, T !! k = Some c0 /\ WorksCaption.works_id c0 = id /\
           (forall k' r, T !! k' = Some r -> WorksCaption.works_id r = id -> k' = k) /\
           oc = Some (Persistent k) /\
           works_captions (session st1) = <[k := row]> T))).
Proof.
  unfold caption_step. intros H.
  apply bind_Ok in H as (cap & ? & [Hcap ->]%lift_Ok & H).
  exists cap. split; [done|]. destruct (truthy cap).
  - split; [done|]. intros _.
    apply bind_Ok in H as (id & ? & [Hid ->]%lift_Ok & H).
    apply bind_Ok in H as (o & st2 & Ho & H).
    apply bind_Ok in H as (text & ? & [Htext ->]%lift_Ok & H).
    apply bind_Ok in H as (o' & st3 & Ho' & H).
    apply ret_Ok in H as [-> ->].
    pose proof (getitem_dict_get _ _ _ _ Hcap Htext) as ->.
    exists id. split; [done|]. simpl.
    unfold WorksCaption_get_by_id in Ho.
    apply bind_Ok in Ho as (q & ? & [-> Hq]%query_one_or_none_Ok & Ho).
    rewrite works_captions_flush in Hq.
    destruct q as [k|].
    + apply ret_Ok in Ho as [-> ->]. simpl in Ho'.
      apply bind_Ok in Ho' as ([] & ? & ->%modify_session_Ok & Ho').
      apply ret_Ok in Ho' as [-> ->].
      destruct (one_or_none_Some_key _ _ _ _ Hq) as (c0 & Hk & Hc0).
      right. exists k, c0. split_and!; try done.
      * intros k' r Hr Hkr. eapply one_or_none_Some_only; [exact Hq|exact Hr|].
        by apply Z.eqb_eq.
      * cbn [works_captions session set_session set_works_captions].
        rewrite works_captions_flush, (list_alter_as_insert _ _ _ _ Hk).
        f_equal. destruct c0. simpl in *. by subst.
    + apply ret_Ok in Ho as [-> ->]. simpl in Ho'.
      apply ret_Ok in Ho' as [-> ->].
      apply one_or_none_None_key in Hq.
      left. split_and!; try done. by rewrite works_captions_flush.
  - split; [|done]. intros _. by apply ret_Ok in H as [-> ->].
Qed.

Lemma Works_from_json_captions iso j language ugoira_json tags_cache st r st' :
  Works_from_json iso j language ugoira_json tags_cache st = Ok (r, st') ->
  exists oc st1 st4,
    caption_step j st = Ok (oc, st1) /\
    works_captions (session st4) = works_captions (session st1) /\
    works_captions (session st')
    = works_captions (session st4) ++ transient_rows (option_list oc).
Proof.
  destruct r as [i c]. intros H.
  apply Works_from_json_tables in H
    as (oc & st1 & lt & st2 & li & st3 & ou & st4 & id & resident
        & _ & Hoc & Hlt & Hli & Hou & _ & Hcap & _).
  exists oc, st1, st4. split_and!; try done.
  pose (R := keeps (fun st => works_captions (session st))).
  assert (Hf : forall st0, R st0 (flush st0)) by apply works_captions_flush.
  transitivity (works_captions (session st3)).
  { revert Hou. by apply (ugoira_step_preserves R). }
  transitivity (works_captions (session st2)).
  { revert Hli. by apply (WorksImageURLs_from_works_json_preserves R). }
  revert Hlt. by apply (tags_step_preserves R).
Qed.

(** X13: After [Works.from_json] for a JSON with a caption, the work has one
    caption row, with the text of the JSON: added at the end when the work
    had none, put in the place of the row the work had otherwise, the other
    rows being left alone.  The keys of the captions stay distinct. *)
Theorem Works_from_json_caption iso j language ugoira_json tags_cache st r st'
    caption :
  dict_get j "caption" = Ok caption -> truthy caption = true ->
  Works_from_json iso j language ugoira_json tags_cache st = Ok (r, st') ->
  exists id,
    (do v <- getitem j "id"; as_id v) = Ok id /\
    WorksCaption.mk id caption ∈ works_captions (session st') /\
    (id ∉ captions_keys st ->
     works_captions (session st')
     = works_captions (session st) ++ [WorksCaption.mk id caption]) /\
    (forall k c0, works_captions (session st) !! k = Some c0 ->
       WorksCaption.works_id c0 = id ->
       works_captions (session st')
       = <[k := WorksCaption.mk id caption]> (works_captions (session st))) /\
    (NoDup (captions_keys st) -> NoDup (captions_keys st')).
Proof.
  intros Hcap Ht H.
  apply Works_from_json_captions in H as (oc & st1 & st4 & Hoc & H4 & H').
  apply caption_step_Ok in Hoc as (cap & Hcap' & _ & Hrow).
  rewrite Hcap in Hcap'. injection Hcap' as <-.
  destruct (Hrow Ht) as (id & Hid & Hor). simpl in Hor.
  exists id. split; [done|]. unfold captions_keys. rewrite H', H4.
  destruct Hor as [(Hout & -> & ->)|(k & c0 & Hk & Hkey & Honly & -> & ->)];
    simpl; rewrite ?app_nil_r.
  - split_and!.
    + apply elem_of_app. right. by apply list_elem_of_singleton.
    + done.
    + intros k c0 Hk Hkey. destruct Hout. rewrite <- Hkey.
      apply list_elem_of_fmap. exists c0. split; [done|].
      by eapply list_elem_of_lookup_2.
    + by apply NoDup_keys_snoc.
  - split_and!.
    + eapply list_elem_of_lookup_2. apply list_lookup_insert_eq.
      by eapply lookup_lt_Some.
    + intros Hout. destruct Hout. rewrite <- Hkey.
      apply list_elem_of_fmap. exists c0. split; [done|].
      by eapply list_elem_of_lookup_2.
    + intros k' c0' Hk' Hkey'. by rewrite (Honly _ _ Hk' Hkey').
    + by rewrite (keys_insert WorksCaption.works_id _ _ c0 _ Hk).
Qed.

Lemma Works_from_json_caption_witness :
  let run st := Works_from_json sample_iso_to_datetime sample_works_json "en"
                  JNull None st in
  let st1 := state_after (run initial_state) in
  let st2 := state_after (run st1) in
  run initial_state = Ok (value_after (0%nat, ∅) (run initial_state), st1) /\
  run st1 = Ok (value_after (0%nat, ∅) (run st1), st2) /\
  works_captions (session st1) = [WorksCaption.mk 7 (JStr "cap")] /\
  works_captions (session st2) = [WorksCaption.mk 7 (JStr "cap")].
Proof.
  intros run st1 st2.
  assert (H1 : run initial_state
               = Ok (value_after (0%nat, ∅) (run initial_state), st1))
    by (vm_compute; reflexivity).
  assert (H2 : run st1 = Ok (value_after (0%nat, ∅) (run st1), st2))
    by (vm_compute; reflexivity).
  assert (Hcap : dict_get sample_works_json "caption" = Ok (JStr "cap"))
    by reflexivity.
  destruct (Works_from_json_caption _ _ _ _ _ _ _ _ _ Hcap eq_refl H1)
    as (id & Hid & _ & Hnew & _).
  injection Hid as <-.
  assert (Hc1 : works_captions (session st1) = [WorksCaption.mk 7 (JStr "cap")]).
  { apply Hnew. unfold captions_keys. simpl. apply not_elem_of_nil. }
  destruct (Works_from_json_caption _ _ _ _ _ _ _ _ _ Hcap eq_refl H2)
    as (id & Hid & _ & _ & Hold & _).
  injection Hid as <-.
  split_and!; [exact H1|exact H2|exact Hc1|].
  rewrite (Hold 0%nat (WorksCaption.mk 7 (JStr "cap"))), Hc1; [done|by rewrite Hc1|done].
Defined.

(** * The ugoira record of a work *)

Lemma Works_from_json_ugoiras iso j language ugoira_json tags_cache st r st' :
  Works_from_json iso j language ugoira_json tags_cache st = Ok (r, st') ->
  exists ou st3 st4,
    ugoiras (session st3) = ugoiras (session st) /\
    ugoira_step j ugoira_json st3 = Ok (ou, st4) /\
    ugoiras (session st')
    = ugoiras (session st4) ++ transient_rows (option_list ou).
Proof.
  destruct r as [i c]. intros H.
  apply Works_from_json_tables in H
    as (oc & st1 & lt & st2 & li & st3 & ou & st4 & id & resident
        & _ & Hoc & Hlt & Hli & Hou & _ & _ & Hug & _).
  exists ou, st3, st4. split_and!; try done.
  pose (R := keeps (fun st => ugoiras (session st))).
  assert (Hf : forall st0, R st0 (flush st0)) by apply ugoiras_flush.
  transitivity (ugoiras (session st2)).
  { revert Hli. by apply (WorksImageURLs_from_works_json_preserves R). }
  transitivity (ugoiras (session st1)).
  { revert Hlt. by apply (tags_step_preserves R). }
  revert Hoc. by apply (caption_step_preserves R).
Qed.

(** X14: After [Works.from_json] with an [ugoira_json], the work has one ugoira
    record, the one the JSON describes: added at the end when the work had
    none, put in the place of the record the work had otherwise, the other
    records being left alone.  The keys of the records stay distinct. *)
Theorem Works_from_json_ugoira iso j language ugoira_json tags_cache st r st' :
  truthy ugoira_json = true ->
  Works_from_json iso j language ugoira_json tags_cache st = Ok (r, st') ->
  exists id ug,
    (do v <- getitem j "id"; as_id v) = Ok id /\
    ugoira_row id ugoira_json = Ok ug /\
    ug ∈ ugoiras (session st') /\
    (id ∉ ugoiras_keys st -> ugoiras (session st') = ugoiras (session st) ++ [ug]) /\
    (forall k u0, ugoiras (session st) !! k = Some u0 ->
       Ugoira.works_id u0 = id ->
       ugoiras (session st') = <[k := ug]> (ugoiras (session st))) /\
    (NoDup (ugoiras_keys st) -> NoDup (ugoiras_keys st')).
Proof.
  intros Ht H.
  apply Works_from_json_ugoiras in H as (ou & st3 & st4 & H3 & Hou & H').
  unfold ugoira_step in Hou. rewrite Ht in Hou.
  apply bind_Ok in Hou as (id & ? & [Hid ->]%lift_Ok & Hou).
  apply bind_Ok in Hou as (o & st5 & Ho & Hou).
  apply ret_Ok in Hou as [-> ->].
  apply Ugoira_from_json_Ok in Ho as (ug & Hug & Hor).
  assert (Hkey : Ugoira.works_id ug = id).
  { unfold ugoira_row in Hug.
    destruct (frame_delays _); [|done]. simpl in Hug.
    destruct (getitem ugoira_json "ugoira_metadata") as [m|]; [|done].
    simpl in Hug.
    destruct (getitem m "zip_urls") as [z|]; [|done]. simpl in Hug.
    destruct (getitem z "medium"); [|done]. simpl in Hug.
    destruct (encode_delay _); [|done]. simpl in Hug. by injection Hug as <-. }
  exists id, ug. split; [done|]. split; [done|].
  unfold ugoiras_keys. rewrite H'. simpl in Hor. rewrite H3 in Hor.
  destruct Hor as [(Hout & -> & ->)|(k & u0 & Hk & Hku & Honly & -> & ->)];
    simpl; rewrite ?app_nil_r.
  - split_and!.
    + apply elem_of_app. right. by apply list_elem_of_singleton.
    + done.
    + intros k u0 Hk Hku. destruct Hout. rewrite <- Hku.
      apply list_elem_of_fmap. exists u0. split; [done|].
      by eapply list_elem_of_lookup_2.
    + apply NoDup_keys_snoc. by rewrite Hkey.
  - split_and!.
    + eapply list_elem_of_lookup_2. apply list_lookup_insert_eq.
      by eapply lookup_lt_Some.
    + intros Hout. destruct Hout. rewrite <- Hku.
      apply list_elem_of_fmap. exists u0. split; [done|].
      by eapply list_elem_of_lookup_2.
    + intros k' u0' Hk' Hku'. by rewrite (Honly _ _ Hk' Hku').
    + rewrite (keys_insert Ugoira.works_id _ _ u0 ug Hk); [done|congruence].
Qed.

Lemma Works_from_json_ugoira_witness :
  let run st := Works_from_json sample_iso_to_datetime sample_works_json "en"
                  sample_ugoira_json None st in
  let st1 := state_after (run initial_state) in
  let st2 := state_after (run st1) in
  run initial_state = Ok (value_after (0%nat, ∅) (run initial_state), st1) /\
  run st1 = Ok (value_after (0%nat, ∅) (run st1), st2) /\
  ugoiras_keys st1 = [7] /\ ugoiras_keys st2 = [7] /\
  NoDup (ugoiras_keys st2).
Proof.
  intros run st1 st2.
  assert (H1 : run initial_state
               = Ok (value_after (0%nat, ∅) (run initial_state), st1))
    by (vm_compute; reflexivity).
  assert (H2 : run st1 = Ok (value_after (0%nat, ∅) (run st1), st2))
    by (vm_compute; reflexivity).
  assert (Ht : truthy sample_ugoira_json = true) by reflexivity.
  destruct (Works_from_json_ugoira _ _ _ _ _ _ _ _ Ht H1)
    as (? & ? & _ & _ & _ & _ & _ & Hnd1).
  destruct (Works_from_json_ugoira _ _ _ _ _ _ _ _ Ht H2)
    as (? & ? & _ & _ & _ & _ & _ & Hnd2).
  split_and!; [exact H1|exact H2|vm_compute; reflexivity..|].
  apply Hnd2, Hnd1, NoDup_nil_2.
Defined.

(** * [WorksImageURLs.from_works_json] *)

Lemma assign_urls_get_by_id id page sm m l orig st o st' :
  (let* o := WorksImageURLs_get_by_id id page true false in
   assign_urls o sm m l orig) st = Ok (o, st') ->
  let T := works_image_urls (session st) in
  let row := WorksImageURLs.mk id page sm m l orig in
  (o = Transient row /\ works_image_urls (session st') = T) \/
  (exists i x, o = Persistent i /\ T !! i = Some x /\
     WorksImageURLs.works_id x = id /\ WorksImageURLs.page x = page /\
     works_image_urls (session st') = <[i := row]> T).
Proof.
  intros H. apply bind_Ok in H as (o0 & st1 & Hget & Hset).
  unfold WorksImageURLs_get_by_id in Hget.
  apply bind_Ok in Hget as (q & ? & [-> Hq]%query_one_or_none_Ok & Hget).
  rewrite works_image_urls_flush in Hq. simpl.
  destruct q as [i|].
  - apply ret_Ok in Hget as [-> ->]. simpl in Hset.
    apply bind_Ok in Hset as ([] & ? & ->%modify_session_Ok & Hset).
    apply ret_Ok in Hset as [-> ->].
    apply one_or_none_Some in Hq as (x & Hx & Hk).
    apply andb_true_iff in Hk as [Hid%Z.eqb_eq Hp%Z.eqb_eq].
    right. exists i, x. split_and!; try done.
    cbn [works_image_urls session set_session set_works_image_urls].
    rewrite works_image_urls_flush, (list_alter_as_insert _ _ _ _ Hx).
    f_equal. destruct x. simpl in *. by subst.
  - apply ret_Ok in Hget as [-> ->]. simpl in Hset.
    apply ret_Ok in Hset as [-> ->].
    left. split; [done|]. by rewrite works_image_urls_flush.
Qed.

Lemma persistent_indices_cons {A} (o : ref A) (r : list (ref A)) i :
  i ∈ persistent_indices (o :: r) <-> o = Persistent i \/ i ∈ persistent_indices r.
Proof.
  unfold persistent_indices. simpl. destruct o as [k|row]; simpl.
  - rewrite elem_of_cons. split; intros [H|H]; auto; left; congruence.
  - split; [by right|]. by intros [?|?].
Qed.

Lemma image_urls_loop_spec j pages :
  forall page st r st',
  image_urls_loop j false page pages st = Ok (r, st') ->
  let T := works_image_urls (session st) in
  let T' := works_image_urls (session st') in
  exists rows,
    meta_pages_rows j page pages = Ok rows /\
    Forall2 (stands_for T') r rows /\
    length T' = length T /\
    (forall i x, T !! i = Some x ->
       exists x', T' !! i = Some x' /\
         WorksImageURLs.works_id x' = WorksImageURLs.works_id x /\
         WorksImageURLs.page x' = WorksImageURLs.page x) /\
    (forall i, i ∉ persistent_indices r -> T' !! i = T !! i) /\
    (forall i, i ∈ persistent_indices r ->
       exists x, T !! i = Some x /\
         (do v <- getitem j "id"; as_id v) = Ok (WorksImageURLs.works_id x) /\
         page <= WorksImageURLs.page x).
Proof.
  induction pages as [|u rest IH]; intros page st r st' H; simpl.
  - apply ret_Ok in H as [-> ->]. exists []. split_and!; try done.
    + intros i x Hx. by exists x.
    + intros i Hi. by apply elem_of_nil in Hi.
  - cbn [image_urls_loop] in H.
    apply bind_Ok in H as (id & ? & [Hid ->]%lift_Ok & H).
    apply bind_Ok in H as (o0 & st1 & Hget & H).
    apply bind_Ok in H as (urls & ? & [Hurls ->]%lift_Ok & H).
    apply bind_Ok in H as (sm & ? & [Hsm ->]%lift_Ok & H).
    apply bind_Ok in H as (m & ? & [Hm ->]%lift_Ok & H).
    apply bind_Ok in H as (l & ? & [Hl ->]%lift_Ok & H).
    apply bind_Ok in H as (orig & ? & [Horig ->]%lift_Ok & H).
    apply bind_Ok in H as (o & st2 & Hset & H).
    apply bind_Ok in H as (r' & st3 & Hrest & H).
    apply ret_Ok in H as [-> ->].
    assert (Hstep : (let* o := WorksImageURLs_get_by_id id page true false in
                     assign_urls o sm m l orig) st = Ok (o, st2)).
    { apply bind_Ok. by exists o0, st1. }
    apply assign_urls_get_by_id in Hstep. simpl in Hstep.
    destruct (IH _ _ _ _ Hrest) as (rows & Hrows & Hall & Hlen & Hkeys & Hother & Hidx).
    set (row := WorksImageURLs.mk id page sm m l orig) in *.
    exists (row :: rows). split.
    { unfold meta_page_row. rewrite Hid. cbn [rbind].
      rewrite Hurls. cbn [rbind]. rewrite Hsm, Hm, Hl, Horig. cbn [rbind].
      by rewrite Hrows. }
    destruct Hstep as [[-> HT]|(i & x & -> & Hx & Hxid & Hxp & HT)].
    + rewrite HT in *. split_and!.
      * by constructor.
      * done.
      * done.
      * intros i Hi. apply Hother. intros Hin. apply Hi.
        apply persistent_indices_cons. by right.
      * intros i [?|Hi]%persistent_indices_cons; [done|].
        destruct (Hidx i Hi) as (x & Hx & Hxid & Hxp). exists x.
        split_and!; try done. lia.
    + rewrite HT in *.
      assert (Hlt : (i < length (works_image_urls (session st)))%nat)
        by (by eapply lookup_lt_Some).
      assert (Hnot : i ∉ persistent_indices r').
      { intros Hi. destruct (Hidx i Hi) as (x' & Hx' & _ & Hp').
        rewrite list_lookup_insert_eq in Hx' by done. injection Hx' as <-.
        simpl in Hp'. lia. }
      split_and!.
      * constructor; [|done]. unfold stands_for. simpl.
        rewrite (Hother i Hnot). by rewrite list_lookup_insert_eq.
      * by rewrite Hlen, length_insert.
      * intros k y Hy. destruct (decide (k = i)) as [->|Hne].
        -- rewrite Hx in Hy. injection Hy as <-.
           destruct (Hkeys i row) as (x' & Hx' & Hi1 & Hi2).
           { by rewrite list_lookup_insert_eq. }
           exists x'. split_and!; try done; simpl in *; congruence.
        -- apply Hkeys. by rewrite list_lookup_insert_ne.
      * intros k Hk. rewrite Hother.
        -- rewrite list_lookup_insert_ne; [done|]. intros ->. apply Hk.
           apply persistent_indices_cons. by left.
        -- intros Hin. apply Hk. apply persistent_indices_cons. by right.
      * intros k [[= <-]|Hk]%persistent_indices_cons.
        -- exists x. split_and!; try done; [by rewrite Hxid|lia].
        -- destruct (Hidx k Hk) as (y & Hy & Hyid & Hyp).
           destruct (decide (k = i)) as [->|Hne]; [done|].
           rewrite list_lookup_insert_ne in Hy by done.
           exists y. split_and!; try done. lia.
Qed.

Lemma WorksImageURLs_from_works_json_Ok j st r st' :
  WorksImageURLs_from_works_json j false st = Ok (r, st') ->
  let T := works_image_urls (session st) in
  let T' := works_image_urls (session st') in
  exists rows,
    image_rows j = Ok rows /\
    Forall2 (stands_for T') r rows /\
    length T' = length T /\
    (forall i x, T !! i = Some x ->
       exists x', T' !! i = Some x' /\
         WorksImageURLs.works_id x' = WorksImageURLs.works_id x /\
         WorksImageURLs.page x' = WorksImageURLs.page x) /\
    (forall i, i ∉ persistent_indices r -> T' !! i = T !! i) /\
    (forall i, i ∈ persistent_indices r ->
       exists x, T !! i = Some x /\
         (do v <- getitem j "id"; as_id v) = Ok (WorksImageURLs.works_id x)) /\
    (r = [] -> st' = st).
Proof.
  unfold WorksImageURLs_from_works_json. intros H.
  apply bind_Ok in H as (pc & ? & [Hpc ->]%lift_Ok & H).
  apply bind_Ok in H as (many & ? & [Hmany ->]%lift_Ok & H).
  apply bind_Ok in H as (mp & st1 & Hmp & H).
  apply bind_Ok in H as (r0 & st2 & Hr & H).
  apply ret_Ok in H as [-> ->].
  assert (Hmp' : (if many then getitem j "meta_pages" else Ok JNull) = Ok mp
                 /\ st1 = st).
  { destruct many.
    - by apply lift_Ok in Hmp.
    - by apply ret_Ok in Hmp as [-> ->]. }
  destruct Hmp' as [Hmp' ->]. clear Hmp. simpl.
  unfold image_rows. rewrite Hpc. cbn [rbind]. rewrite Hmany. cbn [rbind].
  rewrite Hmp'. cbn [rbind].
  destruct (many && truthy mp) eqn:Hcase.
  - apply bind_Ok in Hr as (pages & ? & [Hpages ->]%lift_Ok & Hr).
    rewrite Hpages. cbn [rbind].
    destruct (image_urls_loop_spec _ _ _ _ _ _ Hr)
      as (rows & Hrows & Hall & Hlen & Hkeys & Hother & Hidx).
    exists rows. split_and!; try done.
    + intros i Hi. destruct (Hidx i Hi) as (x & Hx & Hid & _). by exists x.
    + intros ->. destruct pages as [|u rest].
      * by apply ret_Ok in Hr as [_ ->].
      * cbn [image_urls_loop] in Hr.
        repeat (apply bind_Ok in Hr as (? & ? & _ & Hr)).
        by apply ret_Ok in Hr as [? _].
  - apply bind_Ok in Hr as (pc' & ? & [Hpc' ->]%lift_Ok & Hr).
    rewrite Hpc in Hpc'. injection Hpc' as <-.
    apply bind_Ok in Hr as (msp & st1 & Hmsp & Hr).
    assert (Hmsp' : (if eq_int pc 1 then getitem j "meta_single_page" else Ok JNull)
                    = Ok msp /\ st1 = st).
    { destruct (eq_int pc 1).
      - by apply lift_Ok in Hmsp.
      - by apply ret_Ok in Hmsp as [-> ->]. }
    destruct Hmsp' as [Hmsp' ->]. clear Hmsp. rewrite Hmsp'. cbn [rbind].
    destruct (eq_int pc 1 && truthy msp) eqn:Hone.
    + apply bind_Ok in Hr as (id & ? & [Hid ->]%lift_Ok & Hr).
      apply bind_Ok in Hr as (o0 & st1 & Hget & Hr).
      apply bind_Ok in Hr as (urls & ? & [Hurls ->]%lift_Ok & Hr).
      apply bind_Ok in Hr as (sm & ? & [Hsm ->]%lift_Ok & Hr).
      apply bind_Ok in Hr as (m & ? & [Hm ->]%lift_Ok & Hr).
      apply bind_Ok in Hr as (l & ? & [Hl ->]%lift_Ok & Hr).
      apply bind_Ok in Hr as (msp' & ? & [Hmsp2 ->]%lift_Ok & Hr).
      apply bind_Ok in Hr as (orig & ? & [Horig ->]%lift_Ok & Hr).
      apply bind_Ok in Hr as (o & st3 & Hset & Hr).
      assert (Hstep : (let* o := WorksImageURLs_get_by_id id 0 true false in
                       assign_urls o sm m l orig) st = Ok (o, st3)).
      { apply bind_Ok. by exists o0, st1. }
      apply ret_Ok in Hr as [-> ->].
      apply assign_urls_get_by_id in Hstep. simpl in Hstep.
      set (row := WorksImageURLs.mk id 0 sm m l orig) in *.
      exists [row]. split.
      { unfold single_page_row. rewrite Hid. cbn [rbind].
        rewrite Hurls. cbn [rbind]. rewrite Hsm, Hm, Hl, Hmsp2. cbn [rbind].
        by rewrite Horig. }
      destruct Hstep as [[-> HT]|(i & x & -> & Hx & Hxid & Hxp & HT)];
        rewrite HT.
      * split_and!; try done.
        -- by repeat constructor.
        -- intros i x Hx. by exists x.
        -- intros i Hi. by apply elem_of_nil in Hi.
      * assert (Hlt : (i < length (works_image_urls (session st)))%nat)
          by (by eapply lookup_lt_Some).
        split_and!; try done.
        -- repeat constructor. unfold stands_for. simpl.
           by rewrite list_lookup_insert_eq.
        -- by rewrite length_insert.
        -- intros k y Hy. destruct (decide (k = i)) as [->|Hne].
           ++ rewrite Hx in Hy. injection Hy as <-.
              exists row. rewrite list_lookup_insert_eq by done.
              split_and!; try done; simpl; congruence.
           ++ exists y. by rewrite list_lookup_insert_ne.
        -- intros k Hk. rewrite list_lookup_insert_ne; [done|].
           intros ->. apply Hk. apply persistent_indices_cons. by left.
        -- intros k [[= <-]|Hk]%persistent_indices_cons.
           ++ exists x. split; [done|]. by rewrite Hxid.
           ++ by apply elem_of_nil in Hk.
    + apply ret_Ok in Hr as [-> ->]. exists []. split_and!; try done.
      * intros i x Hx. by exists x.
      * intros i Hi. by apply elem_of_nil in Hi.
Qed.

Lemma elem_of_persistent_indices {A} (l : list (ref A)) i :
  i ∈ persistent_indices l <-> Persistent i ∈ l.
Proof.
  unfold persistent_indices. rewrite list_elem_of_omap. split.
  - intros ([k|x] & Hin & [= ->]). done.
  - intros Hin. by exists (Persistent i).
Qed.

Lemma elem_of_transient_rows {A} (l : list (ref A)) x :
  x ∈ transient_rows l <-> Transient x ∈ l.
Proof.
  unfold transient_rows. rewrite list_elem_of_omap. split.
  - intros ([k|y] & Hin & [= ->]). done.
  - intros Hin. by exists (Transient x).
Qed.

Lemma elem_of_drop_orphans keep owner table x :
  forall i,
  x ∈ drop_orphans keep owner i table <->
  exists k, table !! k = Some x /\
    (WorksImageURLs.works_id x <> owner \/ (i + k)%nat ∈ keep).
Proof.
  induction table as [|r table IH]; intros i; simpl.
  - split; [by intros ?%elem_of_nil|]. by intros (k & ? & _).
  - assert (Htail : x ∈ drop_orphans keep owner (S i) table <->
                    exists k, (r :: table) !! S k = Some x /\
                      (WorksImageURLs.works_id x <> owner \/ (i + S k)%nat ∈ keep)).
    { rewrite IH. split; intros (k & Hk & Hor); exists k; split; try done;
        by replace (i + S k)%nat with (S i + k)%nat in * by lia. }
    assert (Hhead : forall k, (r :: table) !! k = Some x ->
              k = 0%nat /\ r = x \/ exists k', k = S k').
    { intros [|k'] Hk; [left|right; by exists k']. by injection Hk. }
    destruct (_ && _) eqn:Hdrop.
    + apply andb_true_iff in Hdrop as [Hid%Z.eqb_eq Hout%negb_true_iff].
      apply bool_decide_eq_false in Hout.
      rewrite Htail. split.
      * intros (k & Hk & Hor). by exists (S k).
      * intros (k & Hk & Hor).
        destruct (Hhead k Hk) as [[-> ->]|[k' ->]]; [|by exists k'].
        replace (i + 0)%nat with i in Hor by lia. by destruct Hor.
    + rewrite elem_of_cons, Htail. split.
      * intros [->|(k & Hk & Hor)]; [|by exists (S k)].
        exists 0%nat. split; [done|].
        replace (i + 0)%nat with i by lia.
        apply andb_false_iff in Hdrop as [Hid%Z.eqb_neq|Hin%negb_false_iff].
        -- by left.
        -- right. by apply bool_decide_eq_true in Hin.
      * intros (k & Hk & Hor).
        destruct (Hhead k Hk) as [[-> ->]|[k' ->]]; [by left|right; by exists k'].
Qed.

Lemma filter_drop_orphans keep owner table :
  forall i,
  filter (fun x => WorksImageURLs.works_id x <> owner)
    (drop_orphans keep owner i table)
  = filter (fun x => WorksImageURLs.works_id x <> owner) table.
Proof.
  induction table as [|r table IH]; intros i; simpl; [done|].
  destruct (_ && _) eqn:Hdrop.
  - apply andb_true_iff in Hdrop as [Hid%Z.eqb_eq _].
    rewrite (filter_cons_False _ r) by (intros Hne; by apply Hne).
    apply IH.
  - rewrite !filter_cons, IH. done.
Qed.

(** Rows that differ only where both belong to [owner] leave the rows of
    the others as they were. *)
Lemma filter_others owner (T' T : list WorksImageURLs.t) :
  Forall2 (fun x' x => x' = x \/
             (WorksImageURLs.works_id x' = owner /\
              WorksImageURLs.works_id x = owner)) T' T ->
  filter (fun x => WorksImageURLs.works_id x <> owner) T'
  = filter (fun x => WorksImageURLs.works_id x <> owner) T.
Proof.
  induction 1 as [|x' x T' T Hx _ IH]; [done|].
  destruct Hx as [->|[H' H0]].
  - by rewrite !filter_cons, IH.
  - rewrite (filter_cons_False _ x') by (intros Hne; by apply Hne).
    rewrite (filter_cons_False _ x) by (intros Hne; by apply Hne).
    done.
Qed.

Lemma meta_pages_rows_id j id pages :
  (do v <- getitem j "id"; as_id v) = Ok id ->
  forall page rows, meta_pages_rows j page pages = Ok rows ->
  Forall (fun row => WorksImageURLs.works_id row = id) rows.
Proof.
  intros Hid. induction pages as [|u rest IH]; intros page rows; simpl.
  - intros [= <-]. constructor.
  - unfold meta_page_row. rewrite Hid. cbn [rbind].
    destruct (getitem u "image_urls") as [urls|]; [|done]. cbn [rbind].
    destruct (getitem urls "square_medium") as [sm|]; [|done]. cbn [rbind].
    destruct (getitem urls "medium") as [m|]; [|done]. cbn [rbind].
    destruct (getitem urls "large") as [l|]; [|done]. cbn [rbind].
    destruct (getitem urls "original") as [orig|]; [|done]. cbn [rbind].
    destruct (meta_pages_rows j (page + 1) rest) as [rows'|] eqn:Hrest; [|done].
    cbn [rbind]. intros [= <-]. constructor; [done|]. by eapply IH.
Qed.

Lemma image_rows_id j id rows :
  (do v <- getitem j "id"; as_id v) = Ok id ->
  image_rows j = Ok rows ->
  Forall (fun row => WorksImageURLs.works_id row = id) rows.
Proof.
  intros Hid. unfold image_rows.
  destruct (getitem j "page_count") as [pc|]; [|done]. cbn [rbind].
  destruct (gt_int pc 1) as [many|]; [|done]. cbn [rbind].
  destruct (if many then getitem j "meta_pages" else Ok JNull) as [mp|]; [|done].
  cbn [rbind]. destruct (many && truthy mp).
  - destruct (iter mp) as [pages|]; [|done]. cbn [rbind].
    by apply meta_pages_rows_id.
  - destruct (if eq_int pc 1 then _ else _) as [msp|]; [|done]. cbn [rbind].
    destruct (eq_int pc 1 && truthy msp); [|intros [= <-]; constructor].
    unfold single_page_row. rewrite Hid. cbn [rbind].
    destruct (getitem j "image_urls") as [urls|]; [|done]. cbn [rbind].
    destruct (getitem urls "square_medium") as [sm|]; [|done]. cbn [rbind].
    destruct (getitem urls "medium") as [m|]; [|done]. cbn [rbind].
    destruct (getitem urls "large") as [l|]; [|done]. cbn [rbind].
    destruct (getitem j "meta_single_page") as [msp'|]; [|done]. cbn [rbind].
    destruct (getitem msp' "original_image_url") as [orig|]; [|done].
    cbn [rbind]. intros [= <-]. by repeat constructor.
Qed.

Lemma Works_from_json_images iso j language ugoira_json tags_cache st r st' :
  Works_from_json iso j language ugoira_json tags_cache st = Ok (r, st') ->
  exists li st2 st3 id (resident : bool),
    (do v <- getitem j "id"; as_id v) = Ok id /\
    WorksImageURLs_from_works_json j false st2 = Ok (li, st3) /\
    works_image_urls (session st2) = works_image_urls (session st) /\
    (resident = true <-> id ∈ works_keys st) /\
    works_image_urls (session st')
    = match li with
      | [] => works_image_urls (session st3)
      | _ => (if resident
              then drop_orphans (persistent_indices li) id 0
                     (works_image_urls (session st3))
              else works_image_urls (session st3)) ++ transient_rows li
      end.
Proof.
  destruct r as [i c]. intros H.
  apply Works_from_json_tables in H
    as (oc & st1 & lt & st2 & li & st3 & ou & st4 & id & resident
        & Hid & Hoc & Hlt & Hli & Hou & Hres & _ & _ & Himg).
  exists li, st2, st3, id, resident.
  pose (R := keeps (fun st => works_image_urls (session st))).
  assert (Hf : forall st0, R st0 (flush st0)) by apply works_image_urls_flush.
  assert (H43 : works_image_urls (session st4) = works_image_urls (session st3)).
  { revert Hou. by apply (ugoira_step_preserves R). }
  rewrite H43 in Himg. split_and!; try done.
  transitivity (works_image_urls (session st1)).
  - revert Hlt. by apply (tags_step_preserves R).
  - revert Hoc. by apply (caption_step_preserves R).
Qed.

(** X15: After [Works.from_json] the image rows of the work are the rows the
    JSON describes: each of them is in the table, and for a work that was
    in the session the rows the work had for other pages are gone.  A JSON
    that describes no row leaves the table as it was, and the rows of the
    other works are never touched. *)
Theorem Works_from_json_image_rows iso j language ugoira_json tags_cache st r st' :
  Works_from_json iso j language ugoira_json tags_cache st = Ok (r, st') ->
  exists id rows,
    (do v <- getitem j "id"; as_id v) = Ok id /\
    image_rows j = Ok rows /\
    (rows = [] -> works_image_urls (session st') = works_image_urls (session st)) /\
    (forall row, row ∈ rows ->
       row ∈ image_rows_of id (works_image_urls (session st'))) /\
    (rows <> [] -> id ∈ works_keys st ->
     forall row, row ∈ image_rows_of id (works_image_urls (session st')) ->
       row ∈ rows) /\
    filter (fun x => WorksImageURLs.works_id x <> id)
      (works_image_urls (session st'))
    = filter (fun x => WorksImageURLs.works_id x <> id)
        (works_image_urls (session st)).
Proof.
  intros H.
  apply Works_from_json_images in H
    as (li & st2 & st3 & id & resident & Hid & Hli & H2 & Hres & H').
  apply WorksImageURLs_from_works_json_Ok in Hli
    as (rows & Hrows & Hall & Hlen & Hkeys & Hother & Hidx & Hnil).
  simpl in Hall, Hlen, Hkeys, Hother, Hidx.
  rewrite H2 in Hlen, Hkeys, Hother, Hidx.
  rewrite Hid in Hidx.
  pose proof (image_rows_id _ _ _ Hid Hrows) as Hown.
  rewrite Forall_forall in Hown.
  exists id, rows. split; [done|]. split; [done|].
  set (T := works_image_urls (session st)) in *.
  set (T3 := works_image_urls (session st3)) in *.
  assert (Hfilter : filter (fun x => WorksImageURLs.works_id x <> id) T3
                    = filter (fun x => WorksImageURLs.works_id x <> id) T).
  { apply filter_others. apply Forall2_same_length_lookup. split; [done|].
    intros k x' x Hx' Hx.
    destruct (decide (k ∈ persistent_indices li)) as [Hin|Hout].
    - right. destruct (Hidx k Hin) as (y & Hy & [= Hyid]).
      rewrite Hx in Hy. injection Hy as <-.
      destruct (Hkeys k x Hx) as (y' & Hy' & Hy'id & _).
      rewrite Hx' in Hy'. injection Hy' as <-. split; congruence.
    - left. rewrite (Hother k Hout) in Hx'. congruence. }
  assert (Hfrom : forall row, row ∈ rows ->
            exists o, o ∈ li /\ stands_for T3 o row).
  { intros row (k & Hk)%list_elem_of_lookup.
    destruct (Forall2_lookup_r _ _ _ _ _ Hall Hk) as (o & Ho & Hst).
    exists o. split; [by eapply list_elem_of_lookup_2|done]. }
  assert (Hto : forall o, o ∈ li -> exists row, row ∈ rows /\ stands_for T3 o row).
  { intros o (k & Hk)%list_elem_of_lookup.
    destruct (Forall2_lookup_l _ _ _ _ _ Hall Hk) as (row & Hrow & Hst).
    exists row. split; [by eapply list_elem_of_lookup_2|done]. }
  destruct li as [|o0 li0].
  { apply Forall2_nil_inv_l in Hall as ->. unfold T3 in H'.
    rewrite (Hnil eq_refl), H2 in H'. rewrite H'. split_and!; try done. by intros row ?%elem_of_nil. }
  set (li := o0 :: li0) in *.
  assert (Hne : rows <> []).
  { intros ->. by apply Forall2_nil_inv_r in Hall. }
  rewrite H'. split_and!.
  - done.
  - intros row Hrow. apply list_elem_of_filter. split; [by apply Hown|].
    apply elem_of_app. destruct (Hfrom row Hrow) as ([k|x] & Ho & Hst).
    + left. unfold stands_for in Hst. simpl in Hst.
      destruct (T3 !! k) as [y|] eqn:Hk; [|done]. injection Hst as ->.
      destruct resident; [|by eapply list_elem_of_lookup_2].
      apply elem_of_drop_orphans. exists k. split; [done|]. right.
      by apply elem_of_persistent_indices.
    + right. unfold stands_for in Hst. simpl in Hst. injection Hst as ->.
      by apply elem_of_transient_rows.
  - intros _ Hin row [Hrid Hrow]%list_elem_of_filter.
    apply Hres in Hin. subst resident.
    apply elem_of_app in Hrow as [Hrow|Hrow].
    + apply elem_of_drop_orphans in Hrow as (k & Hk & [Hno|Hkeep]); [done|].
      apply elem_of_persistent_indices in Hkeep.
      destruct (Hto _ Hkeep) as (row' & Hrow' & Hst).
      unfold stands_for in Hst. simpl in Hst. rewrite Hk in Hst.
      by injection Hst as ->.
    + apply elem_of_transient_rows in Hrow.
      destruct (Hto _ Hrow) as (row' & Hrow' & Hst).
      unfold stands_for in Hst. simpl in Hst. by injection Hst as ->.
  - rewrite filter_app.
    assert (Hnone : filter (fun x => WorksImageURLs.works_id x <> id)
                      (transient_rows li) = []).
    { apply elem_of_nil_inv. intros x [Hx Hin]%list_elem_of_filter. apply Hx.
      apply elem_of_transient_rows in Hin.
      destruct (Hto _ Hin) as (row' & Hrow' & Hst).
      unfold stands_for in Hst. simpl in Hst. injection Hst as ->.
      by apply Hown. }
    rewrite Hnone, app_nil_r.
    destruct resident; [|done]. by rewrite filter_drop_orphans.
Qed.

Lemma Works_from_json_image_rows_witness :
  let run j st := Works_from_json sample_iso_to_datetime j "en" JNull None st in
  let j3 := sample_manga_json [sample_page "a"; sample_page "b"; sample_page "c"] in
  let j2 := sample_manga_json [sample_page "x"; sample_page "y"] in
  let st1 := state_after (run j3 initial_state) in
  let st2 := state_after (run j2 st1) in
  run j2 st1 = Ok (value_after (0%nat, ∅) (run j2 st1), st2) /\
  works_image_urls (session st1)
  = [sample_page_row 0 "a"; sample_page_row 1 "b"; sample_page_row 2 "c"] /\
  forall row,
    row ∈ image_rows_of 9 (works_image_urls (session st2)) <->
    row ∈ [sample_page_row 0 "x"; sample_page_row 1 "y"].
Proof.
  intros run j3 j2 st1 st2.
  assert (H2 : run j2 st1 = Ok (value_after (0%nat, ∅) (run j2 st1), st2))
    by (vm_compute; reflexivity).
  assert (H1 : works_image_urls (session st1)
               = [sample_page_row 0 "a"; sample_page_row 1 "b";
                  sample_page_row 2 "c"])
    by (vm_compute; reflexivity).
  assert (Hk : works_keys st1 = [9]) by (vm_compute; reflexivity).
  split; [exact H2|]. split; [exact H1|].
  destruct (Works_from_json_image_rows _ _ _ _ _ _ _ _ H2)
    as (id & rows & Hid & Hrows & _ & Hin & Hout & _).
  assert (Hid' : (do v <- getitem j2 "id"; as_id v) = Ok 9) by reflexivity.
  rewrite Hid' in Hid. injection Hid as <-.
  assert (Hrows' : image_rows j2
                   = Ok [sample_page_row 0 "x"; sample_page_row 1 "y"])
    by reflexivity.
  rewrite Hrows' in Hrows. injection Hrows as <-.
  intros row. split.
  - apply Hout; [done|]. rewrite Hk. by apply list_elem_of_singleton.
  - apply Hin.
Defined.

(** X16: [WorksImageURLs.from_works_json] without [save_to_session] returns one
    object per page the JSON describes, each carrying the row the JSON
    describes for that page.  It adds no row to the session and removes
    none: the rows it found for pages of the work are overwritten in place,
    the other rows are left alone.  A JSON that describes no page changes
    nothing at all. *)
Theorem WorksImageURLs_from_works_json_in_place j st r st' :
  WorksImageURLs_from_works_json j false st = Ok (r, st') ->
  exists rows,
    image_rows j = Ok rows /\
    Forall2 (stands_for (works_image_urls (session st'))) r rows /\
    length (works_image_urls (session st')) = length (works_image_urls (session st)) /\
    (forall i, i ∉ persistent_indices r ->
       works_image_urls (session st') !! i = works_image_urls (session st) !! i) /\
    (forall i, i ∈ persistent_indices r ->
       exists x, works_image_urls (session st) !! i = Some x /\
         (do v <- getitem j "id"; as_id v) = Ok (WorksImageURLs.works_id x)) /\
    (rows = [] -> st' = st).
Proof.
  intros H. apply WorksImageURLs_from_works_json_Ok in H
    as (rows & Hrows & Hall & Hlen & _ & Hother & Hidx & Hnil).
  exists rows. split_and!; try done.
  intros ->. apply Hnil. by apply Forall2_nil_inv_r in Hall.
Qed.

Lemma WorksImageURLs_from_works_json_in_place_witness :
  let run := WorksImageURLs_from_works_json sample_moved_json false
               sample_resident_state in
  run = Ok ([Persistent 0%nat], state_after run) /\
  works_image_urls (session sample_resident_state)
  = [WorksImageURLs.mk 7 0 (JStr "s.png") (JStr "m.png") (JStr "l.png")
       (JStr "o.png")] /\
  works_image_urls (session (state_after run))
  = [WorksImageURLs.mk 7 0 (JStr "s2.png") (JStr "m2.png") (JStr "l2.png")
       (JStr "o2.png")].
Proof.
  intros run.
  assert (H : run = Ok ([Persistent 0%nat], state_after run))
    by (vm_compute; reflexivity).
  assert (H0 : works_image_urls (session sample_resident_state)
               = [WorksImageURLs.mk 7 0 (JStr "s.png") (JStr "m.png")
                    (JStr "l.png") (JStr "o.png")])
    by (vm_compute; reflexivity).
  split; [exact H|]. split; [exact H0|].
  destruct (WorksImageURLs_from_works_json_in_place _ _ _ _ H)
    as (rows & Hrows & Hall & Hlen & _).
  assert (Hrows' : image_rows sample_moved_json
                   = Ok [WorksImageURLs.mk 7 0 (JStr "s2.png") (JStr "m2.png")
                           (JStr "l2.png") (JStr "o2.png")])
    by reflexivity.
  rewrite Hrows' in Hrows. injection Hrows as <-.
  apply Forall2_cons_1 in Hall as [Hst _].
  unfold stands_for in Hst. cbn [deref] in Hst.
  rewrite H0 in Hlen. cbn [length] in Hlen. clear H H0.
  set (T' := works_image_urls (session (state_after run))) in *.
  clearbody T'. clear run.
  destruct T' as [|x [|y l]]; [discriminate Hlen| |discriminate Hlen].
  cbn in Hst. injection Hst as ->. reflexivity.
Defined.

(** * [App.websocket_handler] *)

Section WebServerFacts.
Variable loads : string -> option json.
Variable tags_like : json -> result (list Tag.t).
Variable language : string.

Lemma T_bind_trace {E X A B} (m : T E X A) (k : A -> T E X B) a :
  outcome m = Done a ->
  m ≫= k = mkT (trace m ++ trace (k a)) (outcome (k a)).
Proof. intros H. unfold mbind, T_bind. by rewrite H. Qed.

Lemma T_bind_raised {E X A B} (m : T E X A) (k : A -> T E X B) e :
  outcome m = Raised e -> m ≫= k = mkT (trace m) (Raised e).
Proof. intros H. unfold mbind, T_bind. by rewrite H. Qed.

Lemma T_bind_ret {E X A B} (a : A) (k : A -> T E X B) : mret a ≫= k = k a.
Proof. unfold mret, T_ret, mbind, T_bind. simpl. by destruct (k a). Qed.

Lemma T_bind_raise {E X A B} (e : X) (k : A -> T E X B) :
  raise e ≫= k = raise e.
Proof. done. Qed.

Lemma T_bind_lift {A B} (r : result A) (k : A -> T ws_event ws_exn B) :
  ws_lift r ≫= k = match r with
                   | Ok a => k a
                   | Raise e => raise (PyExn e)
                   end.
Proof. destruct r; [apply T_bind_ret|done]. Qed.

(** How a text is answered. *)
Lemma on_text_cases ws data :
  on_text loads tags_like language ws data =
  match loads data with
  | None => raise HTTPBadRequest
  | Some d =>
      match dict_get_default d "query" (JObj []) with
      | Raise e => raise (PyExn e)
      | Ok query =>
          match dict_get query "type" with
          | Raise e => raise (PyExn e)
          | Ok type =>
              if eq_str type "tags_like" then
                match dict_get d "query" with
                | Raise e => raise (PyExn e)
                | Ok query' =>
                    match dict_get query' "text" with
                    | Raise e => raise (PyExn e)
                    | Ok text =>
                        if truthy text then
                          match tags_like text with
                          | Raise e => raise (PyExn e)
                          | Ok r =>
                              match dict_get d "id" with
                              | Raise e => raise (PyExn e)
                              | Ok id =>
                                  emit (SendJson ws
                                          (JObj [("id", id);
                                                 ("result",
                                                  JList (tag_entry language <$> r))]))
                              end
                          end
                        else mret tt
                    end
                end
              else emit (SendJson ws (JObj [("message", JStr "qwp")]))
          end
      end
  end.
Proof.
  unfold on_text.
  destruct (loads data) as [d|]; [rewrite T_bind_ret|done].
  rewrite T_bind_lift. destruct (dict_get_default _ _ _) as [query|]; [|done].
  rewrite T_bind_lift. destruct (dict_get query _) as [type|]; [|done].
  destruct (eq_str _ _); [|done].
  rewrite T_bind_lift. destruct (dict_get d _) as [query'|]; [|done].
  rewrite T_bind_lift. destruct (dict_get query' _) as [text|]; [|done].
  destruct (truthy text); [|done].
  rewrite T_bind_lift. destruct (tags_like text) as [r|]; [|done].
  rewrite T_bind_lift. by destruct (dict_get d "id").
Qed.

(** A text is answered with at most one reply, to the socket it came
    from, and with none when the handler raises. *)
Lemma on_text_trace ws data :
  exists replies,
    trace (on_text loads tags_like language ws data) = SendJson ws <$> replies /\
    (length replies <= 1)%nat /\
    (forall e, outcome (on_text loads tags_like language ws data) = Raised e ->
       replies = []).
Proof.
  assert (Hnone : forall o : ended ws_exn unit,
            exists replies,
              trace (mkT ([] : list ws_event) o) = SendJson ws <$> replies /\
              (length replies <= 1)%nat /\
              (forall e, outcome (mkT ([] : list ws_event) o) = Raised e ->
                 replies = [])).
  { intros o. exists []. split_and!; [done|simpl; lia|done]. }
  assert (Hone : forall j,
            exists replies,
              trace (emit (SendJson ws j) : T ws_event ws_exn unit)
              = SendJson ws <$> replies /\
              (length replies <= 1)%nat /\
              (forall e,
                 outcome (emit (SendJson ws j) : T ws_event ws_exn unit)
                 = Raised e -> replies = [])).
  { intros j. exists [j]. split_and!; [done|simpl; lia|done]. }
  rewrite on_text_cases.
  destruct (loads data) as [d|]; [|apply Hnone].
  destruct (dict_get_default _ _ _) as [query|]; [|apply Hnone].
  destruct (dict_get query _) as [type|]; [|apply Hnone].
  destruct (eq_str _ _); [|apply Hone].
  destruct (dict_get d _) as [query'|]; [|apply Hnone].
  destruct (dict_get query' _) as [text|]; [|apply Hnone].
  destruct (truthy text); [|apply Hnone].
  destruct (tags_like text) as [r|]; [|apply Hnone].
  destruct (dict_get d "id"); [apply Hone|apply Hnone].
Qed.

(** The texts the handler raises on. *)
Lemma on_text_raises ws data e :
  outcome (on_text loads tags_like language ws data) = Raised e <->
  match loads data with
  | None => e = HTTPBadRequest
  | Some (JObj kv) =>
      match assoc "query" kv with
      | None => False
      | Some (JObj q) =>
          eq_str (default JNull (assoc "type" q)) "tags_like" = true /\
          truthy (default JNull (assoc "text" q)) = true /\
          exists e', tags_like (default JNull (assoc "text" q)) = Raise e' /\
                     e = PyExn e'
      | Some _ => e = PyExn AttributeError
      end
  | Some _ => e = PyExn AttributeError
  end.
Proof.
  rewrite on_text_cases.
  destruct (loads data) as [d|]; [|simpl; split; congruence].
  destruct d as [| | | | | |kv]; try (simpl; split; congruence).
  cbn [dict_get_default dict_get].
  destruct (assoc "query" kv) as [query|] eqn:Hq; cbn [default].
  - destruct query as [| | | | | |q]; try (simpl; split; congruence).
    cbn -[eq_str truthy].
    destruct (eq_str _ _).
    + destruct (truthy _).
      * destruct (tags_like _) as [r|e']; simpl.
        -- split; [done|]. by intros (_ & _ & e' & ? & _).
        -- split.
           ++ intros [= <-]. split_and!; try done. by exists e'.
           ++ by intros (_ & _ & e'' & [= <-] & ->).
      * simpl. split; [done|]. by intros (_ & ? & _).
    + simpl. split; [done|]. by intros (? & _).
  - simpl. by split.
Qed.

Lemma handle_messages_stops ws pre msg post :
  stops loads tags_like language ws msg = true ->
  handle_messages loads tags_like language ws (pre ++ msg :: post)
  = handle_messages loads tags_like language ws (pre ++ [msg]).
Proof.
  intros Hstop. induction pre as [|m pre IH]; simpl.
  - unfold stops in Hstop. destruct (msg_type msg); try done.
    destruct (outcome (on_text _ _ _ _ _)) eqn:Ho; [done|].
    by rewrite !(T_bind_raised _ _ _ Ho).
  - by rewrite IH.
Qed.

Lemma handle_messages_trace ws msgs :
  exists replies,
    trace (handle_messages loads tags_like language ws msgs)
    = SendJson ws <$> replies /\
    (length replies <= length (List.filter is_text msgs))%nat.
Proof.
  induction msgs as [|m msgs (replies & IH & Hlen)]; [by exists []|].
  simpl. unfold is_text at 1.
  destruct (msg_type m); try (by exists replies); [|by exists []; simpl; split; [done|lia]].
  destruct (on_text_trace ws (msg_data m)) as (r1 & Hr1 & Hlen1 & _).
  unfold mbind, T_bind.
  destruct (outcome (on_text _ _ _ _ _)); simpl.
  - exists (r1 ++ replies). rewrite Hr1, IH, fmap_app, length_app.
    split; [done|lia].
  - exists r1. split; [done|lia].
Qed.

Lemma list_remove_fresh ws l : ws ∉ l -> list_remove ws (l ++ [ws]) = Some l.
Proof.
  induction l as [|x l IH]; simpl; intros Hout.
  - by rewrite decide_True.
  - apply not_elem_of_cons in Hout as [Hne Hout].
    rewrite decide_False by done. by rewrite IH.
Qed.

Lemma ws_clients_after_sends ws replies tr l :
  ws_clients_after ((SendJson ws <$> replies) ++ tr) l = ws_clients_after tr l.
Proof. induction replies as [|j replies IH]; [done|]. simpl. apply IH. Qed.

Lemma websocket_handler_unfold ws msgs :
  websocket_handler loads tags_like language ws msgs
  = mkT (ClientsAppend ws :: SendJson ws (JObj [("message", JStr "hi")])
           :: trace (handle_messages loads tags_like language ws msgs)
           ++ [ClientsRemove ws])
      (outcome (handle_messages loads tags_like language ws msgs)).
Proof. done. Qed.

Lemma handle_messages_raises ws msgs e :
  outcome (handle_messages loads tags_like language ws msgs) = Raised e <->
  exists pre msg post,
    msgs = pre ++ msg :: post /\
    Forall (fun m => stops loads tags_like language ws m = false) pre /\
    msg_type msg = TEXT /\
    outcome (on_text loads tags_like language ws (msg_data msg)) = Raised e.
Proof.
  induction msgs as [|m msgs IH].
  - split; [done|]. by intros ([|??] & ? & ? & ? & _).
  - assert (Hskip : stops loads tags_like language ws m = false ->
              (exists pre msg post,
                 msgs = pre ++ msg :: post /\
                 Forall (fun m => stops loads tags_like language ws m = false) pre /\
                 msg_type msg = TEXT /\
                 outcome (on_text loads tags_like language ws (msg_data msg))
                 = Raised e) <->
              (exists pre msg post,
                 m :: msgs = pre ++ msg :: post /\
                 Forall (fun m => stops loads tags_like language ws m = false) pre /\
                 msg_type msg = TEXT /\
                 outcome (on_text loads tags_like language ws (msg_data msg))
                 = Raised e)).
    { intros Hm. split.
      - intros (pre & msg & post & -> & Hpre & Hty & Ho).
        exists (m :: pre), msg, post. split_and!; try done. by constructor.
      - intros ([|m' pre] & msg & post & Heq & Hpre & Hty & Ho).
        + injection Heq as <- <-. unfold stops in Hm. rewrite Hty, Ho in Hm.
          done.
        + injection Heq as <- ->. apply Forall_cons in Hpre as [_ Hpre].
          by exists pre, msg, post. }
    assert (Hend : stops loads tags_like language ws m = true ->
              forall pre msg post,
                m :: msgs = pre ++ msg :: post ->
                Forall (fun m => stops loads tags_like language ws m = false) pre ->
                pre = [] /\ msg = m).
    { intros Hm [|m' pre] msg post Heq Hpre.
      - by injection Heq as <- _.
      - injection Heq as <- _. apply Forall_cons in Hpre as [Hm' _]. congruence. }
    cbn [handle_messages]. unfold stops in Hskip, Hend.
    destruct (msg_type m) eqn:Hty;
      try (rewrite IH; by apply Hskip).
    + destruct (outcome (on_text _ _ _ _ _)) as [[]|e'] eqn:Ho.
      * rewrite (T_bind_trace _ _ _ Ho). cbn [outcome]. rewrite IH.
        by apply Hskip.
      * rewrite (T_bind_raised _ _ _ Ho). cbn [outcome]. split.
        -- intros [= <-]. by exists [], m, msgs.
        -- intros (pre & msg & post & Heq & Hpre & _ & Ho').
           destruct (Hend eq_refl _ _ _ Heq Hpre) as [_ ->]. congruence.
    + split; [done|].
      intros (pre & msg & post & Heq & Hpre & Hty' & _).
      destruct (Hend eq_refl _ _ _ Heq Hpre) as [_ ->]. congruence.
Qed.

(** X20: The handler stops at the first message of type [ERROR] and at the
    first text it raises on: what the socket yields after such a message
    changes nothing, neither the replies nor how the handler ends. *)
Theorem websocket_handler_stops ws pre msg post :
  stops loads tags_like language ws msg = true ->
  websocket_handler loads tags_like language ws (pre ++ msg :: post)
  = websocket_handler loads tags_like language ws (pre ++ [msg]).
Proof.
  intros Hstop.
  by rewrite !websocket_handler_unfold, (handle_messages_stops _ _ _ post Hstop).
Qed.

(** X21: What the handler does, whatever the socket yields and however the
    handler ends: it appends the socket to [ws_clients], greets it, sends
    replies to this socket only, at most one for each message of type
    [TEXT], and removes the socket from [ws_clients] last, so that the
    list of clients is left as it was. *)
Theorem websocket_handler_events ws msgs :
  exists replies,
    trace (websocket_handler loads tags_like language ws msgs)
    = ClientsAppend ws :: SendJson ws (JObj [("message", JStr "hi")])
        :: (SendJson ws <$> replies) ++ [ClientsRemove ws] /\
    (length replies <= length (List.filter is_text msgs))%nat /\
    forall ws_clients, ws ∉ ws_clients ->
      ws_clients_after (trace (websocket_handler loads tags_like language ws msgs))
        ws_clients
      = Some ws_clients.
Proof.
  destruct (handle_messages_trace ws msgs) as (replies & Htr & Hlen).
  exists replies. rewrite websocket_handler_unfold. cbn [trace]. rewrite Htr.
  split_and!; try done.
  intros ws_clients Hout. cbn [ws_clients_after].
  rewrite ws_clients_after_sends. cbn [ws_clients_after].
  by rewrite list_remove_fresh.
Qed.

(** X22: The handler raises for one reason only, a text it cannot answer: the
    first message that stops it is a text that is not JSON
    ([HTTPBadRequest]), that is JSON but no object, or an object whose
    [query] is no object ([AttributeError]: [None] included), or a
    [tags_like] query with a text whose database query raises. *)
Theorem websocket_handler_raises ws msgs e :
  outcome (websocket_handler loads tags_like language ws msgs) = Raised e <->
  exists pre msg post,
    msgs = pre ++ msg :: post /\
    Forall (fun m => stops loads tags_like language ws m = false) pre /\
    msg_type msg = TEXT /\
    match loads (msg_data msg) with
    | None => e = HTTPBadRequest
    | Some (JObj kv) =>
        match assoc "query" kv with
        | None => False
        | Some (JObj q) =>
            eq_str (default JNull (assoc "type" q)) "tags_like" = true /\
            truthy (default JNull (assoc "text" q)) = true /\
            exists e', tags_like (default JNull (assoc "text" q)) = Raise e' /\
                       e = PyExn e'
        | Some _ => e = PyExn AttributeError
        end
    | Some _ => e = PyExn AttributeError
    end.
Proof.
  rewrite websocket_handler_unfold. cbn [outcome].
  rewrite handle_messages_raises.
  split; intros (pre & msg & post & Heq & Hpre & Hty & Ho);
    exists pre, msg, post; split_and!; try done.
  - by apply (on_text_raises ws).
  - by apply on_text_raises.
Qed.

End WebServerFacts.

Lemma websocket_handler_stops_witness :
  let h := websocket_handler sample_loads sample_tags_like "en" 0%nat in
  let ok := mkWSMessage TEXT "{}" in
  let bad := mkWSMessage TEXT "{" in
  stops sample_loads sample_tags_like "en" 0%nat bad = true /\
  h [ok; bad; ok] = h [ok; bad] /\
  h [ok; bad]
  = mkT [ClientsAppend 0%nat;
         SendJson 0%nat (JObj [("message", JStr "hi")]);
         SendJson 0%nat (JObj [("message", JStr "qwp")]);
         ClientsRemove 0%nat]
      (Raised HTTPBadRequest).
Proof.
  intros h ok bad.
  assert (Hstop : stops sample_loads sample_tags_like "en" 0%nat bad = true)
    by reflexivity.
  split; [exact Hstop|]. split; [|reflexivity].
  exact (websocket_handler_stops sample_loads sample_tags_like "en" 0%nat
           [ok] bad [ok] Hstop).
Defined.

(** * [main] *)

Lemma try_except_Done {E X A} (body : T E X A) handler a :
  outcome body = Done a -> try_except body handler = body.
Proof. intros H. unfold try_except. by rewrite H. Qed.

Lemma configure_spec env config :
  outcome (configure env config) = Done tt /\
  Forall (fun e => e ∈ [MakeDirs; NewConfig (if truthy_option config
                                             then config else None);
                        InitColorama; LoggerInfo ConfigFile])
    (trace (configure env config)).
Proof.
  unfold configure. destruct (truthy_option config), (os_name_nt env); cbn;
    (split; [done|]); repeat constructor;
    rewrite ?elem_of_cons; tauto.
Qed.

Lemma download_spec user max_times download_type works_type tags_include
    tags_exclude echo :
  download user max_times download_type works_type tags_include tags_exclude echo
  = mkT ([SaveCfg; NewDatabaseHelper echo; NewPixivDownloader]
         ++ (if String.eqb download_type "bookmarks"
             then [LoggerInfo DownloadingAllBookmarks]
             else if String.eqb download_type "works"
                  then [LoggerInfo DownloadingUsersWorks] else [])
         ++ [AllWorks download_type
               (if user =? 0 then PixivUserId else GivenUser user)
               max_times works_type tags_include tags_exclude;
             WaitTasks; LoggerInfo TaskDone])
      (Done tt).
Proof.
  unfold download.
  by destruct (String.eqb download_type "bookmarks"),
    (String.eqb download_type "works").
Qed.

(** The ways through [main]. *)
Lemma main_cases env user max_times private download_type works_type
    tags_include tags_exclude echo config :
  main env user max_times private download_type works_type tags_include
    tags_exclude echo config
  = let pre := trace (configure env config) in
    if String.eqb download_type "daemon" then mkT (pre ++ [DaemonMain]) (Done tt)
    else
      match getitem2 (cfg env) "pixiv" "language" with
      | Raise e => mkT pre (Raised (OtherError e))
      | Ok language =>
          match outcome (login env) with
          | Raised e =>
              mkT (pre ++ NewPixivAPI language :: trace (login env)) (Raised e)
          | Done login_result =>
              if truthy login_result then
                mkT (pre ++ NewPixivAPI language :: trace (login env)
                     ++ trace (download user max_times download_type works_type
                                 (tags_set tags_include) (tags_set tags_exclude)
                                 echo))
                  (Done tt)
              else
                mkT (pre ++ NewPixivAPI language :: trace (login env))
                  (Raised (SystemExit (-1)))
          end
      end.
Proof.
  unfold main. destruct (configure_spec env config) as [Hc _].
  rewrite (T_bind_trace _ _ _ Hc). cbn zeta.
  destruct (String.eqb download_type "daemon"); [done|].
  destruct (getitem2 (cfg env) "pixiv" "language") as [language|e];
    cbn [cli_lift].
  - rewrite T_bind_ret.
    rewrite (T_bind_trace (emit _) _ tt eq_refl). cbn [trace emit].
    destruct (outcome (login env)) as [r|e] eqn:Hl.
    + rewrite (T_bind_trace _ _ _ Hl).
      destruct (truthy r); cbn [negb].
      * rewrite download_spec. cbn [trace outcome]. done.
      * cbn [trace outcome raise]. by rewrite app_nil_r.
    + by rewrite (T_bind_raised _ _ _ Hl).
  - cbn. by rewrite app_nil_r.
Qed.

(** The ways through the login. *)
Lemma login_cases env :
  login env
  = match getitem2 (cfg env) "pixiv" "refresh_token" with
    | Raise e => raise (OtherError e)
    | Ok tok =>
        let first := if truthy tok then mkT [PapiLogin tok] (papi_login env tok)
                     else mkT [LoginWithPw InTry] (login_with_pw_result env InTry) in
        match outcome first with
        | Raised LoginTokenError =>
            mkT (trace first ++ [LoginWithPw InExcept])
              (login_with_pw_result env InExcept)
        | Raised LoginPasswordError => mkT (trace first ++ [ClickEcho]) (Done JNull)
        | _ => first
        end
    end.
Proof.
  unfold login, try_except, login_with_pw.
  destruct (getitem2 (cfg env) "pixiv" "refresh_token") as [tok|e]; [|done].
  cbn [cli_lift]. rewrite T_bind_ret. cbn zeta.
  destruct (truthy tok); cbn [outcome trace].
  - by destruct (papi_login env tok) as [r|[]].
  - by destruct (login_with_pw_result env InTry) as [r|[]].
Qed.

(** A login that hands over a truthy result has asked the server and got
    this result. *)
Lemma login_Done env login_result :
  outcome (login env) = Done login_result ->
  truthy login_result = true ->
  (exists tok, PapiLogin tok ∈ trace (login env) /\
     papi_login env tok = Done login_result) \/
  (exists site, LoginWithPw site ∈ trace (login env) /\
     login_with_pw_result env site = Done login_result).
Proof.
  rewrite login_cases.
  destruct (getitem2 (cfg env) "pixiv" "refresh_token") as [tok|e]; [|done].
  cbn zeta. destruct (truthy tok); cbn [outcome trace].
  - destruct (papi_login env tok) as [r|[]] eqn:Htok; cbn [outcome trace];
      try done.
    + intros [= <-] _. left. exists tok. split; [by left|done].
    + intros Hr _. right. exists InExcept. split; [|done]. right. by left.
    + by intros [= <-].
  - destruct (login_with_pw_result env InTry) as [r|[]] eqn:Hpw;
      cbn [outcome trace]; try done.
    + intros [= <-] _. right. exists InTry. split; [by left|done].
    + intros Hr _. right. exists InExcept. split; [|done]. right. by left.
    + by intros [= <-].
Qed.

Lemma login_trace env e :
  e ∈ trace (login env) -> after_login e = false.
Proof.
  rewrite login_cases.
  destruct (getitem2 (cfg env) "pixiv" "refresh_token") as [tok|];
    [|by intros ?%elem_of_nil].
  cbn zeta. destruct (truthy tok); cbn [outcome trace].
  - destruct (papi_login env tok) as [r|[]]; cbn [outcome trace app];
      rewrite ?elem_of_cons, ?elem_of_nil; intros H;
      repeat (destruct H as [->|H]; [done|]); done.
  - destruct (login_with_pw_result env InTry) as [r|[]]; cbn [outcome trace app];
      rewrite ?elem_of_cons, ?elem_of_nil; intros H;
      repeat (destruct H as [->|H]; [done|]); done.
Qed.

(** The password asked for in the handler of [LoginTokenError] decides how
    the login ends, and no message is printed. *)
Lemma login_retry env :
  LoginWithPw InExcept ∈ trace (login env) ->
  outcome (login env) = login_with_pw_result env InExcept /\
  ClickEcho ∉ trace (login env).
Proof.
  rewrite login_cases.
  destruct (getitem2 (cfg env) "pixiv" "refresh_token") as [tok|];
    [|by intros ?%elem_of_nil].
  cbn zeta. destruct (truthy tok); cbn [outcome trace].
  - destruct (papi_login env tok) as [r|[]]; cbn [outcome trace app];
      rewrite ?elem_of_cons, ?elem_of_nil; intros H;
      repeat (destruct H as [H|H]; [try done|]); try done;
      (split; [done|]); rewrite ?elem_of_cons, ?elem_of_nil;
      intros [?|[?|?]]; done.
  - destruct (login_with_pw_result env InTry) as [r|[]]; cbn [outcome trace app];
      rewrite ?elem_of_cons, ?elem_of_nil; intros H;
      repeat (destruct H as [H|H]; [try done|]); try done;
      (split; [done|]); rewrite ?elem_of_cons, ?elem_of_nil;
      intros [?|[?|?]]; done.
Qed.

(** The message is printed for [LoginPasswordError] of the first call
    only; the login then hands over [None]. *)
Lemma login_echo env :
  ClickEcho ∈ trace (login env) ->
  outcome (login env) = Done JNull /\
  (LoginWithPw InExcept ∉ trace (login env)) /\
  ((exists tok, PapiLogin tok ∈ trace (login env) /\
      papi_login env tok = Raised LoginPasswordError) \/
   (LoginWithPw InTry ∈ trace (login env) /\
      login_with_pw_result env InTry = Raised LoginPasswordError)).
Proof.
  rewrite login_cases.
  destruct (getitem2 (cfg env) "pixiv" "refresh_token") as [tok|];
    [|by intros ?%elem_of_nil].
  cbn zeta. destruct (truthy tok); cbn [outcome trace].
  - destruct (papi_login env tok) as [r|[]] eqn:Htok; cbn [outcome trace app];
      rewrite ?elem_of_cons, ?elem_of_nil; intros H;
      repeat (destruct H as [H|H]; [try done|]); try done.
    split_and!; [done| |].
    + rewrite ?elem_of_cons, ?elem_of_nil. intros [?|[?|?]]; done.
    + left. exists tok. split; [by left|done].
  - destruct (login_with_pw_result env InTry) as [r|[]] eqn:Hpw;
      cbn [outcome trace app];
      rewrite ?elem_of_cons, ?elem_of_nil; intros H;
      repeat (destruct H as [H|H]; [try done|]); try done.
    split_and!; [done| |].
    + rewrite ?elem_of_cons, ?elem_of_nil. intros [?|[?|?]]; done.
    + right. split; [by left|done].
Qed.

Lemma configure_trace env config e :
  e ∈ trace (configure env config) -> after_login e = false /\ of_login e = false.
Proof.
  destruct (configure_spec env config) as [_ H]. rewrite Forall_forall in H.
  intros Hin. apply H in Hin. rewrite !elem_of_cons, elem_of_nil in Hin.
  by destruct Hin as [->|[->|[->|[->|[]]]]].
Qed.

Lemma download_trace user max_times download_type works_type tags_include
    tags_exclude echo e :
  e ∈ trace (download user max_times download_type works_type tags_include
               tags_exclude echo) ->
  after_login e = true /\ of_login e = false.
Proof.
  rewrite download_spec. cbn [trace].
  destruct (String.eqb download_type "bookmarks"),
    (String.eqb download_type "works"); cbn [app];
    rewrite ?elem_of_cons, ?elem_of_nil; intros H;
    repeat (destruct H as [->|H]; [done|]); done.
Qed.

(** What [main] does after the login, it does when the login has handed
    over a truthy result, and then it does all of it. *)
Lemma main_after_login env user max_times private download_type works_type
    tags_include tags_exclude echo config e :
  e ∈ trace (main env user max_times private download_type works_type
               tags_include tags_exclude echo config) ->
  after_login e = true ->
  String.eqb download_type "daemon" = false /\
  exists language login_result,
    outcome (login env) = Done login_result /\
    truthy login_result = true /\
    main env user max_times private download_type works_type tags_include
      tags_exclude echo config
    = mkT (trace (configure env config) ++ NewPixivAPI language
           :: trace (login env)
           ++ trace (download user max_times download_type works_type
                       (tags_set tags_include) (tags_set tags_exclude) echo))
        (Done tt).
Proof.
  rewrite main_cases. cbn zeta. intros Hin He.
  assert (Hpre : forall l, e ∈ trace (configure env config) ++ l -> e ∈ l).
  { intros l [H|H]%elem_of_app; [|done].
    apply configure_trace in H as [H _]. congruence. }
  assert (Hlogin : forall x l, e ∈ NewPixivAPI x :: trace (login env) ++ l ->
                     e ∈ l).
  { intros x l [->|[H|H]%elem_of_app]%elem_of_cons; [done| |done].
    apply login_trace in H. congruence. }
  destruct (String.eqb download_type "daemon").
  { apply Hpre, list_elem_of_singleton in Hin. by subst. }
  split; [done|].
  destruct (getitem2 (cfg env) "pixiv" "language") as [language|].
  2:{ cbn [trace] in Hin. rewrite <- (app_nil_r (trace _)) in Hin.
      by apply Hpre, elem_of_nil in Hin. }
  destruct (outcome (login env)) as [r|] eqn:Hl.
  2:{ cbn [trace] in Hin. rewrite <- (app_nil_r (trace (login env))) in Hin.
      by apply Hpre, Hlogin, elem_of_nil in Hin. }
  destruct (truthy r) eqn:Hr.
  2:{ cbn [trace] in Hin. rewrite <- (app_nil_r (trace (login env))) in Hin.
      by apply Hpre, Hlogin, elem_of_nil in Hin. }
  by exists language, r.
Qed.

(** The calls of the login that [main] makes are those of [login]. *)
Lemma main_of_login env user max_times private download_type works_type
    tags_include tags_exclude echo config e :
  of_login e = true ->
  e ∈ trace (main env user max_times private download_type works_type
               tags_include tags_exclude echo config) <->
  String.eqb download_type "daemon" = false /\
  (exists language, getitem2 (cfg env) "pixiv" "language" = Ok language) /\
  e ∈ trace (login env).
Proof.
  intros He. rewrite main_cases. cbn zeta.
  assert (Hpre : forall l, e ∈ trace (configure env config) ++ l <-> e ∈ l).
  { intros l. rewrite elem_of_app. split; [|by right].
    intros [H|H]; [|done]. apply configure_trace in H as [_ H]. congruence. }
  assert (Hdown : e ∈ trace (login env) ++
                    trace (download user max_times download_type works_type
                             (tags_set tags_include) (tags_set tags_exclude) echo)
                  <-> e ∈ trace (login env)).
  { rewrite elem_of_app. split; [|by left].
    intros [H|H]; [done|]. apply download_trace in H as [_ H]. congruence. }
  destruct (String.eqb download_type "daemon").
  { cbn [trace]. rewrite Hpre, list_elem_of_singleton.
    split; [by intros ->|by intros [? _]]. }
  destruct (getitem2 (cfg env) "pixiv" "language") as [language|].
  2:{ cbn [trace]. rewrite <- (app_nil_r (trace _)), Hpre, elem_of_nil.
      split; [done|]. by intros (_ & [? ?] & _). }
  assert (Hcons : forall l, e ∈ NewPixivAPI language :: l <-> e ∈ l).
  { intros l. rewrite elem_of_cons. split; [|by right].
    intros [->|H]; done. }
  destruct (outcome (login env)) as [r|]; [destruct (truthy r)|];
    cbn [trace]; rewrite Hpre, Hcons, ?Hdown;
    (split; [intros ?; split_and!; by eauto|by intros (_ & _ & ?)]).
Qed.

(** X23: [main] saves the configuration, opens the database and starts the
    download only after a call of the login has handed over a truthy
    result; it then runs to its end, and [all_works] gets the download
    type, the user ([papi.pixiv_user_id] for 0), [max_times], the type of
    works and the two sets of tags: [private] is not passed on. *)
Theorem main_download_needs_login env user max_times private download_type
    works_type tags_include tags_exclude echo config e :
  e ∈ trace (main env user max_times private download_type works_type
               tags_include tags_exclude echo config) ->
  after_login e = true ->
  download_type <> "daemon" /\
  (exists login_result,
     truthy login_result = true /\
     ((exists tok,
         PapiLogin tok ∈ trace (main env user max_times private download_type
                                  works_type tags_include tags_exclude echo config) /\
         papi_login env tok = Done login_result) \/
      (exists site,
         LoginWithPw site ∈ trace (main env user max_times private download_type
                                     works_type tags_include tags_exclude echo
                                     config) /\
         login_with_pw_result env site = Done login_result))) /\
  outcome (main env user max_times private download_type works_type
             tags_include tags_exclude echo config) = Done tt /\
  AllWorks download_type (if user =? 0 then PixivUserId else GivenUser user)
    max_times works_type (tags_set tags_include) (tags_set tags_exclude)
  ∈ trace (main env user max_times private download_type works_type
             tags_include tags_exclude echo config).
Proof.
  intros Hin He.
  destruct (main_after_login _ _ _ _ _ _ _ _ _ _ _ Hin He)
    as (Hd & language & r & Hl & Hr & ->).
  cbn [trace outcome]. split_and!.
  - by apply String.eqb_neq.
  - exists r. split; [done|].
    destruct (login_Done _ _ Hl Hr) as [(tok & Ht & Hres)|(site & Hs & Hres)].
    + left. exists tok. split; [|done].
      apply elem_of_app. right. apply elem_of_cons. right.
      apply elem_of_app. by left.
    + right. exists site. split; [|done].
      apply elem_of_app. right. apply elem_of_cons. right.
      apply elem_of_app. by left.
  - done.
  - apply elem_of_app. right. apply elem_of_cons. right.
    apply elem_of_app. right. rewrite download_spec. cbn [trace].
    apply elem_of_app. right. apply elem_of_app. right. by left.
Qed.

(** X24: An exception of the password login that follows [LoginTokenError]
    leaves [main] as it is, [LoginPasswordError] included: the handler of
    [LoginPasswordError] belongs to the same [try] and does not cover it, so
    no message is printed and [main] ends with the exception instead of
    [exit(-1)].  Nothing of what follows the login is done. *)
Theorem main_retry_error_uncaught env user max_times private download_type
    works_type tags_include tags_exclude echo config x :
  LoginWithPw InExcept
  ∈ trace (main env user max_times private download_type works_type
             tags_include tags_exclude echo config) ->
  login_with_pw_result env InExcept = Raised x ->
  outcome (main env user max_times private download_type works_type
             tags_include tags_exclude echo config) = Raised x /\
  (ClickEcho ∉ trace (main env user max_times private download_type works_type
                        tags_include tags_exclude echo config)) /\
  forall e,
    e ∈ trace (main env user max_times private download_type works_type
                 tags_include tags_exclude echo config) ->
    after_login e = false.
Proof.
  intros Hin Hx.
  apply main_of_login in Hin as (Hd & [language Hlang] & Hin); [|done].
  destruct (login_retry _ Hin) as [Hout Hecho]. rewrite Hx in Hout.
  assert (Hmain : outcome (main env user max_times private download_type
                             works_type tags_include tags_exclude echo config)
                  = Raised x).
  { rewrite main_cases. cbn zeta. by rewrite Hd, Hlang, Hout. }
  split_and!.
  - done.
  - intros (_ & _ & H)%main_of_login; done.
  - intros e He. destruct (after_login e) eqn:Ha; [|done].
    destruct (main_after_login _ _ _ _ _ _ _ _ _ _ _ He Ha)
      as (_ & ? & ? & _ & _ & Heq).
    rewrite Heq in Hmain. done.
Qed.

(** X25: The message 'Username / password error!' is printed for one reason
    only: the first call of the login, with the refresh token or with a
    password, raised [LoginPasswordError].  [main] then asks for no other
    password and ends with [exit(-1)]. *)
Theorem main_password_error_message env user max_times private download_type
    works_type tags_include tags_exclude echo config :
  ClickEcho
  ∈ trace (main env user max_times private download_type works_type
             tags_include tags_exclude echo config) ->
  outcome (main env user max_times private download_type works_type
             tags_include tags_exclude echo config) = Raised (SystemExit (-1)) /\
  (LoginWithPw InExcept
   ∉ trace (main env user max_times private download_type works_type
              tags_include tags_exclude echo config)) /\
  ((exists tok,
      PapiLogin tok ∈ trace (main env user max_times private download_type
                               works_type tags_include tags_exclude echo config) /\
      papi_login env tok = Raised LoginPasswordError) \/
   (LoginWithPw InTry
    ∈ trace (main env user max_times private download_type works_type
               tags_include tags_exclude echo config) /\
    login_with_pw_result env InTry = Raised LoginPasswordError)).
Proof.
  intros Hin.
  apply main_of_login in Hin as (Hd & [language Hlang] & Hin); [|done].
  destruct (login_echo _ Hin) as (Hout & Hno & Hfirst).
  split_and!.
  - rewrite main_cases. cbn zeta. by rewrite Hd, Hlang, Hout.
  - intros (_ & _ & H)%main_of_login; done.
  - destruct Hfirst as [(tok & Ht & Hres)|[Ht Hres]].
    + left. exists tok. split; [|done]. apply main_of_login; [done|].
      split_and!; by eauto.
    + right. split; [|done]. apply main_of_login; [done|].
      split_and!; by eauto.
Qed.

(** X26: [main] never logs 'Downloading all bookmarks...': the download types
    that click lets through are [bookmark], [works] and [daemon], and the
    message is for [bookmarks]. *)
Theorem main_never_logs_bookmarks env user max_times private download_type
    works_type tags_include tags_exclude echo config :
  download_type ∈ download_types ->
  LoggerInfo DownloadingAllBookmarks
  ∉ trace (main env user max_times private download_type works_type
             tags_include tags_exclude echo config).
Proof.
  intros Hty Hin.
  destruct (main_after_login _ _ _ _ _ _ _ _ _ _ _ Hin eq_refl)
    as (Hd & language & r & Hl & Hr & Heq).
  rewrite Heq in Hin. cbn [trace] in Hin.
  apply elem_of_app in Hin as [Hin|Hin].
  { by apply configure_trace in Hin as [? _]. }
  apply elem_of_cons in Hin as [?|Hin]; [done|].
  apply elem_of_app in Hin as [Hin|Hin].
  { by apply login_trace in Hin. }
  rewrite download_spec in Hin. cbn [trace] in Hin.
  unfold download_types in Hty. rewrite !elem_of_cons, elem_of_nil in Hty.
  destruct Hty as [->|[->|[->|[]]]]; [| |done];
    cbn in Hin; rewrite !elem_of_cons, elem_of_nil in Hin;
    repeat (destruct Hin as [?|Hin]; [done|]); done.
Qed.

Lemma main_download_needs_login_witness :
  let env := sample_env (JStr "t") (Done (JBool true))
               (fun _ => Raised LoginPasswordError) in
  let m := main env 0 None true "bookmark" None (Some "a;b") None false None in
  SaveCfg ∈ trace m /\
  (exists login_result,
     truthy login_result = true /\
     papi_login env (JStr "t") = Done login_result) /\
  outcome m = Done tt /\
  AllWorks "bookmark" PixivUserId None None (tags_set (Some "a;b")) None
  ∈ trace m.
Proof.
  intros env m.
  assert (Hin : SaveCfg ∈ trace m).
  { cbn. by repeat (first [apply list_elem_of_here | apply list_elem_of_further]). }
  destruct (main_download_needs_login env 0 None true "bookmark" None
              (Some "a;b") None false None SaveCfg Hin eq_refl)
    as (_ & (r & Hr & Hlogin) & Hout & Hall).
  split_and!; [exact Hin| |exact Hout|exact Hall].
  exists r. split; [exact Hr|].
  destruct Hlogin as [(tok & _ & Hres)|(site & _ & Hres)].
  - exact Hres.
  - discriminate Hres.
Defined.

Lemma main_retry_error_uncaught_witness :
  let env := sample_env (JStr "t") (Raised LoginTokenError)
               (fun _ => Raised LoginPasswordError) in
  let m := main env 0 None false "works" None None None false None in
  trace m = [MakeDirs; NewConfig None; LoggerInfo ConfigFile;
             NewPixivAPI (JStr "en"); PapiLogin (JStr "t");
             LoginWithPw InExcept] /\
  outcome m = Raised LoginPasswordError /\
  ClickEcho ∉ trace m.
Proof.
  intros env m.
  assert (Htr : trace m = [MakeDirs; NewConfig None; LoggerInfo ConfigFile;
                           NewPixivAPI (JStr "en"); PapiLogin (JStr "t");
                           LoginWithPw InExcept])
    by reflexivity.
  assert (Hin : LoginWithPw InExcept ∈ trace m).
  { rewrite Htr.
    by repeat (first [apply list_elem_of_here | apply list_elem_of_further]). }
  destruct (main_retry_error_uncaught env 0 None false "works" None None None
              false None LoginPasswordError Hin eq_refl)
    as (Hout & Hecho & _).
  split_and!; [exact Htr|exact Hout|exact Hecho].
Defined.

Lemma main_password_error_message_witness :
  let env := sample_env (JStr "") (Raised LoginTokenError)
               (fun _ => Raised LoginPasswordError) in
  let m := main env 0 None false "works" None None None false None in
  trace m = [MakeDirs; NewConfig None; LoggerInfo ConfigFile;
             NewPixivAPI (JStr "en"); LoginWithPw InTry; ClickEcho] /\
  outcome m = Raised (SystemExit (-1)) /\
  LoginWithPw InExcept ∉ trace m.
Proof.
  intros env m.
  assert (Htr : trace m = [MakeDirs; NewConfig None; LoggerInfo ConfigFile;
                           NewPixivAPI (JStr "en"); LoginWithPw InTry;
                           ClickEcho])
    by reflexivity.
  assert (Hin : ClickEcho ∈ trace m).
  { rewrite Htr.
    by repeat (first [apply list_elem_of_here | apply list_elem_of_further]). }
  destruct (main_password_error_message env 0 None false "works" None None None
              false None Hin)
    as (Hout & Hno & _).
  split_and!; [exact Htr|exact Hout|exact Hno].
Defined.

Lemma main_never_logs_bookmarks_witness :
  let env := sample_env (JStr "t") (Done (JBool true))
               (fun _ => Raised LoginPasswordError) in
  let m := main env 0 None false "bookmark" None None None false None in
  "bookmark" ∈ download_types /\
  LoggerInfo TaskDone ∈ trace m /\
  LoggerInfo DownloadingAllBookmarks ∉ trace m.
Proof.
  intros env m.
  assert (Hty : "bookmark" ∈ download_types) by apply list_elem_of_here.
  split_and!; [exact Hty| |].
  - cbn.
    by repeat (first [apply list_elem_of_here | apply list_elem_of_further]).
  - exact (main_never_logs_bookmarks env 0 None false "bookmark" None None None
             false None Hty).
Defined.

(** * The tags of a work *)

Lemma insert_works_tags n w : Works.tags (insert_works n w) = Works.tags w.
Proof. unfold insert_works. by destruct (Works.persistent w). Qed.

(** X17: After [Works.from_json] the tags of the work are the tags of the
    session that carry the names of the JSON, one for each distinct name, in
    the order of first occurrence.  A JSON without tags (no list, or an
    empty one) does not take the tags of a work away: a work of the session
    keeps the tags it had, a new work has none. *)
Theorem Works_from_json_tags iso j language ugoira_json tags_cache st i c st' :
  tags_ok st -> cache_ok st (default (tags_cache_default st) tags_cache) ->
  Works_from_json iso j language ugoira_json tags_cache st = Ok ((i, c), st') ->
  exists w,
    works (session st') !! i = Some w /\
    (tag_items j <> [] -> Forall2 (named st') (Works.tags w) (tag_items j)) /\
    (tag_items j = [] ->
     match works (session st) !! i with
     | Some w0 => Works.tags w = Works.tags w0
     | None => Works.tags w = []
     end) /\
    tags_ok st' /\ cache_ok st' c.
Proof.
  intros Hok Hc H. apply Works_from_json_trace in H
    as (w & w0 & id & a & ty & ti & pc & tv & tb & ib & rate & date & lt
        & _ & _ & _ & _ & _ & _ & _ & _ & _ & _ & Hw & Hor & Htags).
  destruct (Htags Hok Hc) as (Hok' & Hc' & _ & Hnamed).
  assert (Hwt : Works.tags w = match lt with [] => Works.tags w0 | _ => lt end)
    by (by subst w).
  assert (Hlen : length (flushed_works st) = length (works (session st)))
    by (unfold flushed_works; by rewrite length_fmap).
  exists w. split_and!; try done.
  - destruct Hor as [(_ & _ & -> & ->)|(Hi & _ & ->)].
    + rewrite <- Hlen. by apply list_lookup_middle.
    + apply list_lookup_insert_eq. by eapply lookup_lt_Some.
  - intros Hne. rewrite Hwt. destruct lt as [|a0 lt]; [|done].
    apply Forall2_nil_inv_l in Hnamed. done.
  - intros Hnil. rewrite Hnil in Hnamed. apply Forall2_nil_inv_r in Hnamed.
    subst lt. rewrite Hwt.
    destruct Hor as [(_ & -> & -> & _)|(Hi & _ & _)].
    + by rewrite lookup_ge_None_2.
    + unfold flushed_works in Hi. rewrite list_lookup_fmap in Hi.
      destruct (works (session st) !! i) as [w1|]; [|done].
      injection Hi as <-. apply insert_works_tags.
Qed.

Lemma Works_from_json_tags_witness :
  let run j st := Works_from_json sample_iso_to_datetime j "en" JNull None st in
  let st1 := state_after (run sample_works_json initial_state) in
  let st2 := state_after (run sample_sparse_json st1) in
  run sample_works_json initial_state
  = Ok ((0%nat, (value_after (0%nat, ∅) (run sample_works_json initial_state)).2),
        st1) /\
  run sample_sparse_json st1
  = Ok ((0%nat, (value_after (0%nat, ∅) (run sample_sparse_json st1)).2), st2) /\
  tag_items sample_works_json = [("cat", JStr "neko"); ("dog", JNull)] /\
  tag_items sample_sparse_json = [] /\
  Works.tags <$> works (session st1) = [[0; 1]%nat] /\
  Works.tags <$> works (session st2) = [[0; 1]%nat].
Proof.
  intros run st1 st2.
  assert (H1 : run sample_works_json initial_state
               = Ok ((0%nat, (value_after (0%nat, ∅)
                                (run sample_works_json initial_state)).2), st1))
    by (vm_compute; reflexivity).
  assert (H2 : run sample_sparse_json st1
               = Ok ((0%nat, (value_after (0%nat, ∅)
                                (run sample_sparse_json st1)).2), st2))
    by (vm_compute; reflexivity).
  assert (Hw1 : Works.tags <$> works (session st1) = [[0; 1]%nat])
    by (vm_compute; reflexivity).
  assert (Hl2 : length (works (session st2)) = 1%nat)
    by (vm_compute; reflexivity).
  assert (Hok : tags_ok initial_state).
  { split; [constructor|apply NoDup_nil_2]. }
  assert (Hc : cache_ok initial_state
                 (default (tags_cache_default initial_state) None)).
  { intros name a. cbn. by rewrite lookup_empty. }
  destruct (Works_from_json_tags _ _ _ _ _ _ _ _ _ Hok Hc H1)
    as (w1 & _ & _ & _ & Hok1 & Hc1).
  assert (Hc1' : cache_ok st1 (default (tags_cache_default st1) None)).
  { assert (Hd : tags_cache_default st1
                 = (value_after (0%nat, ∅)
                      (run sample_works_json initial_state)).2)
      by (vm_compute; reflexivity).
    cbn [default]. rewrite Hd. exact Hc1. }
  destruct (Works_from_json_tags _ _ _ _ _ _ _ _ _ Hok1 Hc1' H2)
    as (w2 & Hw2 & _ & Hkept & _).
  split_and!; [exact H1|exact H2|reflexivity|reflexivity|exact Hw1|].
  specialize (Hkept eq_refl).
  clear H1 H2 Hok1 Hc1 Hc1'.
  set (T1 := works (session st1)) in *. set (T2 := works (session st2)) in *.
  clearbody T1 T2. clear st1 st2 run.
  destruct T1 as [|x1 [|??]]; try discriminate Hw1.
  destruct T2 as [|x2 [|??]]; try discriminate Hl2.
  cbn in *. injection Hw2 as ->. injection Hw1 as Hx1. by rewrite Hkept, Hx1.
Defined.

(** * The keys of the image rows *)

Lemma image_keys_same (T T' : list WorksImageURLs.t) :
  length T' = length T ->
  (forall i x, T !! i = Some x ->
     exists x', T' !! i = Some x' /\
       WorksImageURLs.works_id x' = WorksImageURLs.works_id x /\
       WorksImageURLs.page x' = WorksImageURLs.page x) ->
  image_key <$> T' = image_key <$> T.
Proof.
  intros Hlen Hkeys. apply list_eq. intros i. rewrite !list_lookup_fmap.
  destruct (T !! i) as [x|] eqn:Hx.
  - destruct (Hkeys i x Hx) as (x' & -> & Hid & Hp). simpl.
    unfold image_key. by rewrite Hid, Hp.
  - apply lookup_ge_None in Hx. rewrite <- Hlen in Hx.
    apply lookup_ge_None in Hx. by rewrite Hx.
Qed.

Lemma transient_rows_cons {A} (x : A) (r : list (ref A)) :
  transient_rows (Transient x :: r) = x :: transient_rows r.
Proof. done. Qed.

Lemma assign_urls_get_by_id_fresh id page sm m l orig st row st' :
  (let* o := WorksImageURLs_get_by_id id page true false in
   assign_urls o sm m l orig) st = Ok (Transient row, st') ->
  (id, page) ∉ image_keys st.
Proof.
  intros H. apply bind_Ok in H as (o0 & st1 & Hget & Hset).
  unfold WorksImageURLs_get_by_id in Hget.
  apply bind_Ok in Hget as (q & ? & [-> Hq]%query_one_or_none_Ok & Hget).
  rewrite works_image_urls_flush in Hq.
  destruct q as [i|].
  - apply ret_Ok in Hget as [-> ->]. simpl in Hset.
    apply bind_Ok in Hset as ([] & ? & _ & Hset).
    by apply ret_Ok in Hset as [? _].
  - apply one_or_none_None in Hq. rewrite Forall_forall in Hq.
    intros (x & Hkey & Hx)%list_elem_of_fmap. apply Hq in Hx.
    injection Hkey as -> ->. by rewrite !Z.eqb_refl in Hx.
Qed.

(** The new rows of the loop: their keys are not in the table, and differ
    from each other. *)
Lemma image_urls_loop_fresh j pages :
  forall page st r st',
  image_urls_loop j false page pages st = Ok (r, st') ->
  NoDup (image_key <$> transient_rows r) /\
  forall x, x ∈ transient_rows r ->
    (image_key x ∉ image_keys st') /\ page <= WorksImageURLs.page x /\
    (do v <- getitem j "id"; as_id v) = Ok (WorksImageURLs.works_id x).
Proof.
  induction pages as [|u rest IH]; intros page st r st' H.
  - apply ret_Ok in H as [-> ->]. split; [apply NoDup_nil_2|].
    by intros x ?%elem_of_nil.
  - pose proof H as Hspec. cbn [image_urls_loop] in H.
    apply bind_Ok in H as (id & ? & [Hid ->]%lift_Ok & H).
    apply bind_Ok in H as (o0 & st1 & Hget & H).
    apply bind_Ok in H as (urls & ? & [Hurls ->]%lift_Ok & H).
    apply bind_Ok in H as (sm & ? & [Hsm ->]%lift_Ok & H).
    apply bind_Ok in H as (m & ? & [Hm ->]%lift_Ok & H).
    apply bind_Ok in H as (l & ? & [Hl ->]%lift_Ok & H).
    apply bind_Ok in H as (orig & ? & [Horig ->]%lift_Ok & H).
    apply bind_Ok in H as (o & st2 & Hset & H).
    apply bind_Ok in H as (r' & st3 & Hrest & H).
    assert (Hstep : (let* o := WorksImageURLs_get_by_id id page true false in
                     assign_urls o sm m l orig) st = Ok (o, st2)).
    { apply bind_Ok. by exists o0, st1. }
    apply ret_Ok in H as [-> ->].
    destruct (IH _ _ _ _ Hrest) as [Hnd Hfresh].
    destruct (image_urls_loop_spec _ _ _ _ _ _ Hrest)
      as (rows & _ & _ & Hlen & Hkeys & _).
    pose proof (image_keys_same _ _ Hlen Hkeys) as Hsame.
    destruct o as [i|row].
    { split; [done|]. intros x Hx. destruct (Hfresh x Hx) as (? & ? & ?).
      split_and!; try done. lia. }
    pose proof (assign_urls_get_by_id_fresh _ _ _ _ _ _ _ _ _ Hstep) as Hnew.
    apply assign_urls_get_by_id in Hstep as [[[= ->] HT]|(? & ? & [=] & _)].
    rewrite transient_rows_cons.
    assert (Hkey : image_key (WorksImageURLs.mk id page sm m l orig) = (id, page))
      by done.
    split.
    + rewrite fmap_cons. apply NoDup_cons_2; [|done].
      intros (x & Hx & Hin)%list_elem_of_fmap.
      destruct (Hfresh x Hin) as (_ & Hp & _).
      rewrite Hkey in Hx. unfold image_key in Hx. injection Hx as _ Hx. lia.
    + intros x [->|Hx]%elem_of_cons.
      * split_and!; [|simpl; lia|done].
        unfold image_keys. rewrite Hsame, HT. exact Hnew.
      * destruct (Hfresh x Hx) as (? & ? & ?). split_and!; try done. lia.
Qed.

Lemma WorksImageURLs_from_works_json_fresh j st r st' :
  WorksImageURLs_from_works_json j false st = Ok (r, st') ->
  NoDup (image_key <$> transient_rows r) /\
  forall x, x ∈ transient_rows r -> image_key x ∉ image_keys st'.
Proof.
  unfold WorksImageURLs_from_works_json. intros H.
  apply bind_Ok in H as (pc & ? & [Hpc ->]%lift_Ok & H).
  apply bind_Ok in H as (many & ? & [Hmany ->]%lift_Ok & H).
  apply bind_Ok in H as (mp & st1 & Hmp & H).
  apply bind_Ok in H as (r0 & st2 & Hr & H).
  apply ret_Ok in H as [-> ->].
  assert (Hst1 : st1 = st).
  { destruct many.
    - by apply lift_Ok in Hmp as [_ ->].
    - by apply ret_Ok in Hmp as [_ ->]. }
  subst st1.
  destruct (many && truthy mp).
  - apply bind_Ok in Hr as (pages & ? & [Hpages ->]%lift_Ok & Hr).
    destruct (image_urls_loop_fresh _ _ _ _ _ _ Hr) as [Hnd Hfresh].
    split; [done|]. intros x Hx. by destruct (Hfresh x Hx).
  - apply bind_Ok in Hr as (pc' & ? & [Hpc' ->]%lift_Ok & Hr).
    apply bind_Ok in Hr as (msp & st1 & Hmsp & Hr).
    assert (Hst1 : st1 = st).
    { destruct (eq_int pc' 1).
      - by apply lift_Ok in Hmsp as [_ ->].
      - by apply ret_Ok in Hmsp as [_ ->]. }
    subst st1.
    destruct (eq_int pc' 1 && truthy msp).
    + apply bind_Ok in Hr as (id & ? & [Hid ->]%lift_Ok & Hr).
      apply bind_Ok in Hr as (o0 & st1 & Hget & Hr).
      apply bind_Ok in Hr as (urls & ? & [Hurls ->]%lift_Ok & Hr).
      apply bind_Ok in Hr as (sm & ? & [Hsm ->]%lift_Ok & Hr).
      apply bind_Ok in Hr as (m & ? & [Hm ->]%lift_Ok & Hr).
      apply bind_Ok in Hr as (l & ? & [Hl ->]%lift_Ok & Hr).
      apply bind_Ok in Hr as (msp' & ? & [Hmsp2 ->]%lift_Ok & Hr).
      apply bind_Ok in Hr as (orig & ? & [Horig ->]%lift_Ok & Hr).
      apply bind_Ok in Hr as (o & st3 & Hset & Hr).
      assert (Hstep : (let* o := WorksImageURLs_get_by_id id 0 true false in
                       assign_urls o sm m l orig) st = Ok (o, st3)).
      { apply bind_Ok. by exists o0, st1. }
      apply ret_Ok in Hr as [-> ->].
      destruct o as [i|row].
      { split; [apply NoDup_nil_2|]. by intros x ?%elem_of_nil. }
      pose proof (assign_urls_get_by_id_fresh _ _ _ _ _ _ _ _ _ Hstep) as Hnew.
      apply assign_urls_get_by_id in Hstep as [[[= ->] HT]|(? & ? & [=] & _)].
      split; [apply NoDup_singleton|].
      intros x ->%list_elem_of_singleton. unfold image_keys. by rewrite HT.
    + apply ret_Ok in Hr as [-> ->].
      split; [apply NoDup_nil_2|]. by intros x ?%elem_of_nil.
Qed.

Lemma drop_orphans_sublist keep owner table :
  forall i, drop_orphans keep owner i table `sublist_of` table.
Proof.
  induction table as [|x table IH]; intros i; simpl; [done|].
  destruct (_ && _); [by apply sublist_cons|by apply sublist_skip].
Qed.

(** X18: [Works.from_json] keeps the keys of the image rows distinct: no two
    rows of the session are for the same page of the same work. *)
Theorem Works_from_json_image_keys iso j language ugoira_json tags_cache st r st' :
  NoDup (image_keys st) ->
  Works_from_json iso j language ugoira_json tags_cache st = Ok (r, st') ->
  NoDup (image_keys st').
Proof.
  intros Hnd H.
  apply Works_from_json_images in H
    as (li & st2 & st3 & id & resident & Hid & Hli & H2 & Hres & H').
  pose proof (WorksImageURLs_from_works_json_fresh _ _ _ _ Hli) as [Hnew Hfresh].
  apply WorksImageURLs_from_works_json_Ok in Hli
    as (rows & _ & _ & Hlen & Hkeys & _).
  simpl in Hlen, Hkeys.
  pose proof (image_keys_same _ _ Hlen Hkeys) as Hsame.
  rewrite H2 in Hsame. fold (image_keys st) in Hsame.
  unfold image_keys in Hfresh |- *. rewrite H'.
  destruct li as [|o li]; [by rewrite Hsame|].
  set (l := o :: li) in *. rewrite fmap_app. apply NoDup_app.
  assert (Hsub : forall T, T `sublist_of` works_image_urls (session st3) ->
            NoDup (image_key <$> T) /\
            forall k, k ∈ image_key <$> T -> k ∉ image_key <$> transient_rows l).
  { intros T HT. split.
    - eapply sublist_NoDup; [|by apply fmap_sublist]. by rewrite Hsame.
    - intros k Hk (x & -> & Hx)%list_elem_of_fmap.
      apply (Hfresh x Hx). eapply elem_of_sublist; [exact Hk|].
      by apply fmap_sublist. }
  destruct resident.
  - destruct (Hsub _ (drop_orphans_sublist (persistent_indices l) id
                        (works_image_urls (session st3)) 0)).
    by split_and!.
  - destruct (Hsub (works_image_urls (session st3))); [done|]. by split_and!.
Qed.

Lemma Works_from_json_image_keys_witness :
  let run j st := Works_from_json sample_iso_to_datetime j "en" JNull None st in
  let j2 := sample_manga_json [sample_page "a"; sample_page "b"] in
  let j3 := sample_manga_json [sample_page "x"; sample_page "y"; sample_page "z"] in
  let st1 := state_after (run j2 initial_state) in
  let st2 := state_after (run j3 st1) in
  run j3 st1 = Ok (value_after (0%nat, ∅) (run j3 st1), st2) /\
  image_keys st1 = [(9, 0); (9, 1)] /\
  length (image_keys st2) = 3%nat /\
  NoDup (image_keys st2).
Proof.
  intros run j2 j3 st1 st2.
  assert (H2 : run j3 st1 = Ok (value_after (0%nat, ∅) (run j3 st1), st2))
    by (vm_compute; reflexivity).
  assert (H1 : image_keys st1 = [(9, 0); (9, 1)]) by (vm_compute; reflexivity).
  assert (Hl : length (image_keys st2) = 3%nat) by (vm_compute; reflexivity).
  assert (Hnd : NoDup (image_keys st1)).
  { rewrite H1. apply NoDup_cons_2; [|apply NoDup_singleton].
    by intros [=]%list_elem_of_singleton. }
  split_and!; [exact H2|exact H1|exact Hl|].
  exact (Works_from_json_image_keys _ _ _ _ _ _ _ _ Hnd H2).
Defined.

(** * Ingesting a work again: the image rows *)

Lemma NoDup_key_lookup {A B} (f : A -> B) (l : list A) i j x y :
  NoDup (f <$> l) -> l !! i = Some x -> l !! j = Some y -> f x = f y -> i = j.
Proof.
  intros Hnd Hi Hj Hf. eapply NoDup_lookup; [exact Hnd| |].
  - by rewrite list_lookup_fmap, Hi.
  - by rewrite list_lookup_fmap, Hj, Hf.
Qed.

(** When the rows [from_works_json] describes are in the table, it finds
    them all, and leaves the table as it is. *)
Lemma image_rows_settled (T T3 : list WorksImageURLs.t) li rows :
  NoDup (image_key <$> T) ->
  Forall2 (stands_for T3) li rows ->
  length T3 = length T ->
  (forall i x, T !! i = Some x ->
     exists x', T3 !! i = Some x' /\
       WorksImageURLs.works_id x' = WorksImageURLs.works_id x /\
       WorksImageURLs.page x' = WorksImageURLs.page x) ->
  (forall i, i ∉ persistent_indices li -> T3 !! i = T !! i) ->
  (forall x, x ∈ transient_rows li -> image_key x ∉ image_key <$> T3) ->
  (forall row, row ∈ rows -> row ∈ T) ->
  T3 = T /\ transient_rows li = [] /\
  forall i row, T !! i = Some row -> row ∈ rows -> i ∈ persistent_indices li.
Proof.
  intros Hnd Hall Hlen Hkeys Hother Hfresh Hin.
  pose proof (image_keys_same _ _ Hlen Hkeys) as Hsame.
  assert (Hfrom : forall row, row ∈ rows ->
            exists o, o ∈ li /\ stands_for T3 o row).
  { intros row (k & Hk)%list_elem_of_lookup.
    destruct (Forall2_lookup_r _ _ _ _ _ Hall Hk) as (o & Ho & Hst).
    exists o. split; [by eapply list_elem_of_lookup_2|done]. }
  assert (Hto : forall o, o ∈ li -> exists row, row ∈ rows /\ stands_for T3 o row).
  { intros o (k & Hk)%list_elem_of_lookup.
    destruct (Forall2_lookup_l _ _ _ _ _ Hall Hk) as (row & Hrow & Hst).
    exists row. split; [by eapply list_elem_of_lookup_2|done]. }
  assert (Hnone : transient_rows li = []).
  { apply elem_of_nil_inv. intros x Hx. apply (Hfresh x Hx).
    apply elem_of_transient_rows in Hx.
    destruct (Hto _ Hx) as (row & Hrow & Hst).
    unfold stands_for in Hst. simpl in Hst. injection Hst as ->.
    rewrite Hsame. apply list_elem_of_fmap. exists row. split; [done|].
    by apply Hin. }
  assert (Heq : T3 = T).
  { apply list_eq. intros i.
    destruct (decide (i ∈ persistent_indices li)) as [Hi|Hi]; [|by apply Hother].
    apply elem_of_persistent_indices in Hi.
    destruct (Hto _ Hi) as (row & Hrow & Hst).
    unfold stands_for in Hst. simpl in Hst.
    destruct (T3 !! i) as [y|] eqn:Hy; [|done]. injection Hst as ->.
    apply Hin, list_elem_of_lookup in Hrow as (i' & Hi').
    assert (Hlt : (i < length T)%nat).
    { rewrite <- Hlen. by eapply lookup_lt_Some. }
    apply lookup_lt_is_Some in Hlt as [x Hx].
    destruct (Hkeys i x Hx) as (x' & Hx' & Hid & Hp).
    rewrite Hy in Hx'. injection Hx' as <-.
    assert (i = i') as <-.
    { eapply (NoDup_key_lookup image_key); [exact Hnd|exact Hx|exact Hi'|].
      unfold image_key. by rewrite Hid, Hp. }
    by rewrite Hi'. }
  split_and!; try done.
  intros i row Hi Hrow. destruct (Hfrom row Hrow) as ([k|x] & Ho & Hst).
  - unfold stands_for in Hst. simpl in Hst. rewrite Heq in Hst.
    destruct (T !! k) as [y|] eqn:Hk; [|done]. injection Hst as ->.
    assert (i = k) as ->.
    { by eapply (NoDup_key_lookup image_key); [exact Hnd|exact Hi|exact Hk|]. }
    by apply elem_of_persistent_indices.
  - apply elem_of_transient_rows in Ho. rewrite Hnone in Ho.
    by apply elem_of_nil in Ho.
Qed.

Lemma drop_orphans_all_kept keep owner table :
  forall i,
  (forall k x, table !! k = Some x -> WorksImageURLs.works_id x = owner ->
     (i + k)%nat ∈ keep) ->
  drop_orphans keep owner i table = table.
Proof.
  induction table as [|x table IH]; intros i Hkeep; simpl; [done|].
  rewrite IH.
  - destruct (WorksImageURLs.works_id x =? owner) eqn:Hid; [|done].
    apply Z.eqb_eq in Hid. simpl.
    rewrite bool_decide_eq_true_2; [done|].
    replace i with (i + 0)%nat by lia. by apply (Hkeep 0%nat x).
  - intros k y Hy Hid. replace (S i + k)%nat with (i + S k)%nat by lia.
    by apply (Hkeep (S k) y).
Qed.

(** After [Works.from_json] the work is in the session. *)
Lemma Works_from_json_resident iso j language ugoira_json tags_cache st r st' id :
  Works_from_json iso j language ugoira_json tags_cache st = Ok (r, st') ->
  (do v <- getitem j "id"; as_id v) = Ok id ->
  id ∈ works_keys st'.
Proof.
  destruct r as [i c]. intros H Hid. apply Works_from_json_trace in H
    as (w & w0 & id' & a & ty & ti & pc & tv & tb & ib & rate & date & lt
        & Hid' & _ & _ & _ & _ & _ & _ & _ & _ & _ & Hw & Hor & _).
  rewrite Hid in Hid'. injection Hid' as <-.
  assert (Hwid : Works.works_id w = id) by (by subst w).
  unfold works_keys. apply list_elem_of_fmap. exists w. split; [done|].
  destruct Hor as [(_ & _ & _ & ->)|(Hi & _ & ->)].
  - apply elem_of_app. right. by apply list_elem_of_singleton.
  - eapply list_elem_of_lookup_2. apply list_lookup_insert_eq.
    by eapply lookup_lt_Some.
Qed.

(** The image rows after the first ingestion of a work, in a session
    whose image rows belong to works of the session. *)
Lemma Works_from_json_image_facts iso j language ugoira_json tags_cache st r st' :
  NoDup (image_keys st) ->
  (forall x, x ∈ works_image_urls (session st) ->
     WorksImageURLs.works_id x ∈ works_keys st) ->
  Works_from_json iso j language ugoira_json tags_cache st = Ok (r, st') ->
  exists id rows,
    (do v <- getitem j "id"; as_id v) = Ok id /\
    image_rows j = Ok rows /\
    NoDup (image_keys st') /\
    (forall row, row ∈ rows -> row ∈ works_image_urls (session st')) /\
    (rows <> [] ->
     forall y, y ∈ works_image_urls (session st') ->
       WorksImageURLs.works_id y = id -> y ∈ rows).
Proof.
  intros Hnd Hfk H.
  apply Works_from_json_images in H
    as (li & st2 & st3 & id & resident & Hid & Hli & H2 & Hres & H').
  pose proof (WorksImageURLs_from_works_json_fresh _ _ _ _ Hli) as [Hnew Hfresh].
  apply WorksImageURLs_from_works_json_Ok in Hli
    as (rows & Hrows & Hall & Hlen & Hkeys & Hother & Hidx & Hnil).
  simpl in Hall, Hlen, Hkeys, Hother, Hidx.
  rewrite H2 in Hlen, Hkeys, Hother, Hidx.
  pose proof (image_keys_same _ _ Hlen Hkeys) as Hsame.
  fold (image_keys st) in Hsame. unfold image_keys in Hfresh.
  pose proof (image_rows_id _ _ _ Hid Hrows) as Hown.
  rewrite Forall_forall in Hown.
  exists id, rows. split; [done|]. split; [done|].
  set (T := works_image_urls (session st)) in *.
  set (T3 := works_image_urls (session st3)) in *.
  assert (Hfrom : forall row, row ∈ rows ->
            exists o, o ∈ li /\ stands_for T3 o row).
  { intros row (k & Hk)%list_elem_of_lookup.
    destruct (Forall2_lookup_r _ _ _ _ _ Hall Hk) as (o & Ho & Hst).
    exists o. split; [by eapply list_elem_of_lookup_2|done]. }
  assert (Hto : forall o, o ∈ li -> exists row, row ∈ rows /\ stands_for T3 o row).
  { intros o (k & Hk)%list_elem_of_lookup.
    destruct (Forall2_lookup_l _ _ _ _ _ Hall Hk) as (row & Hrow & Hst).
    exists row. split; [by eapply list_elem_of_lookup_2|done]. }
  assert (Hsub : forall T0, T0 `sublist_of` T3 ->
            NoDup (image_key <$> T0) /\
            forall k, k ∈ image_key <$> T0 -> k ∉ image_key <$> transient_rows li).
  { intros T0 HT. split.
    - eapply sublist_NoDup; [|by apply fmap_sublist]. by rewrite Hsame.
    - intros k Hk (x & -> & Hx)%list_elem_of_fmap.
      apply (Hfresh x Hx). eapply elem_of_sublist; [exact Hk|].
      by apply fmap_sublist. }
  unfold image_keys. rewrite H'.
  destruct li as [|o0 li0].
  { apply Forall2_nil_inv_l in Hall as ->. split_and!.
    - by rewrite Hsame.
    - by intros row ?%elem_of_nil.
    - done. }
  set (li := o0 :: li0) in *. split_and!.
  - rewrite fmap_app. apply NoDup_app. destruct resident.
    + destruct (Hsub _ (drop_orphans_sublist (persistent_indices li) id T3 0)).
      by split_and!.
    + destruct (Hsub T3); [done|]. by split_and!.
  - intros row Hrow. apply elem_of_app.
    destruct (Hfrom row Hrow) as ([k|x] & Ho & Hst).
    + left. unfold stands_for in Hst. simpl in Hst.
      destruct (T3 !! k) as [y|] eqn:Hk; [|done]. injection Hst as ->.
      destruct resident; [|by eapply list_elem_of_lookup_2].
      apply elem_of_drop_orphans. exists k. split; [done|]. right.
      by apply elem_of_persistent_indices.
    + right. unfold stands_for in Hst. simpl in Hst. injection Hst as ->.
      by apply elem_of_transient_rows.
  - intros _ y Hy Hyid. apply elem_of_app in Hy as [Hy|Hy].
    + assert (Hkeep : exists k, T3 !! k = Some y /\ k ∈ persistent_indices li).
      { destruct resident.
        - apply elem_of_drop_orphans in Hy as (k & Hk & [Hno|Hkeep]); [done|].
          by exists k.
        - apply list_elem_of_lookup in Hy as (k & Hk).
          assert (Hlt : (k < length T)%nat).
          { rewrite <- Hlen. by eapply lookup_lt_Some. }
          apply lookup_lt_is_Some in Hlt as [x Hx].
          destruct (Hkeys k x Hx) as (x' & Hx' & Hxid & _).
          rewrite Hk in Hx'. injection Hx' as <-.
          assert (Hin : id ∈ works_keys st).
          { rewrite <- Hyid, Hxid. apply Hfk. by eapply list_elem_of_lookup_2. }
          apply Hres in Hin. done. }
      destruct Hkeep as (k & Hk & Hkeep).
      apply elem_of_persistent_indices in Hkeep.
      destruct (Hto _ Hkeep) as (row' & Hrow' & Hst).
      unfold stands_for in Hst. simpl in Hst. rewrite Hk in Hst.
      by injection Hst as ->.
    + apply elem_of_transient_rows in Hy.
      destruct (Hto _ Hy) as (row' & Hrow' & Hst).
      unfold stands_for in Hst. simpl in Hst. by injection Hst as ->.
Qed.

(** X19: Ingesting the same work again leaves the image rows as the first
    ingestion left them: every page is found, written with the values it
    has, and no row is added or deleted.  The session is one whose image
    rows have distinct keys and belong to works of the session. *)
Theorem Works_from_json_images_again iso j language ugoira_json tc1 tc2
    st r1 st1 r2 st2 :
  NoDup (image_keys st) ->
  (forall x, x ∈ works_image_urls (session st) ->
     WorksImageURLs.works_id x ∈ works_keys st) ->
  Works_from_json iso j language ugoira_json tc1 st = Ok (r1, st1) ->
  Works_from_json iso j language ugoira_json tc2 st1 = Ok (r2, st2) ->
  works_image_urls (session st2) = works_image_urls (session st1).
Proof.
  intros Hnd Hfk H1 H2.
  destruct (Works_from_json_image_facts _ _ _ _ _ _ _ _ Hnd Hfk H1)
    as (id & rows & Hid & Hrows & Hnd1 & Hin & Honly).
  pose proof (Works_from_json_resident _ _ _ _ _ _ _ _ _ H1 Hid) as Hres1.
  apply Works_from_json_images in H2
    as (li & st2' & st3 & id' & resident & Hid' & Hli & HT & Hres & H').
  rewrite Hid in Hid'. injection Hid' as <-.
  pose proof (WorksImageURLs_from_works_json_fresh _ _ _ _ Hli) as [_ Hfresh].
  apply WorksImageURLs_from_works_json_Ok in Hli
    as (rows' & Hrows' & Hall & Hlen & Hkeys & Hother & _).
  rewrite Hrows in Hrows'. injection Hrows' as <-.
  simpl in Hall, Hlen, Hkeys, Hother. rewrite HT in Hlen, Hkeys, Hother.
  destruct (image_rows_settled _ _ _ _ Hnd1 Hall Hlen Hkeys Hother Hfresh Hin)
    as (Heq & Hnone & Hkept).
  rewrite H', Heq, Hnone. destruct li as [|o li]; [done|].
  rewrite app_nil_r. apply Hres in Hres1. subst resident.
  apply drop_orphans_all_kept. intros k x Hx Hxid. apply (Hkept k x Hx).
  apply Honly; [|by eapply list_elem_of_lookup_2|done].
  intros ->. by apply Forall2_nil_inv_r in Hall.
Qed.

Lemma Works_from_json_images_again_witness :
  let run st := Works_from_json sample_iso_to_datetime
                  (sample_manga_json [sample_page "a"; sample_page "b"])
                  "en" JNull None st in
  let st1 := state_after (run initial_state) in
  let st2 := state_after (run st1) in
  run initial_state = Ok (value_after (0%nat, ∅) (run initial_state), st1) /\
  run st1 = Ok (value_after (0%nat, ∅) (run st1), st2) /\
  works_image_urls (session st1) = [sample_page_row 0 "a"; sample_page_row 1 "b"] /\
  works_image_urls (session st2) = [sample_page_row 0 "a"; sample_page_row 1 "b"].
Proof.
  intros run st1 st2.
  assert (H1 : run initial_state
               = Ok (value_after (0%nat, ∅) (run initial_state), st1))
    by (vm_compute; reflexivity).
  assert (H2 : run st1 = Ok (value_after (0%nat, ∅) (run st1), st2))
    by (vm_compute; reflexivity).
  assert (HT : works_image_urls (session st1)
               = [sample_page_row 0 "a"; sample_page_row 1 "b"])
    by (vm_compute; reflexivity).
  assert (Hnd : NoDup (image_keys initial_state)) by apply NoDup_nil_2.
  assert (Hfk : forall x, x ∈ works_image_urls (session initial_state) ->
                  WorksImageURLs.works_id x ∈ works_keys initial_state).
  { by intros x ?%elem_of_nil. }
  split_and!; [exact H1|exact H2|exact HT|].
  pose proof (Works_from_json_images_again sample_iso_to_datetime
                (sample_manga_json [sample_page "a"; sample_page "b"])
                "en" JNull None None initial_state _ st1 _ st2 Hnd Hfk H1 H2)
    as Hsame.
  rewrite Hsame. exact HT.
Defined.
